(* ===== verification/_CoqProject ===== *)
-Q . S2P
Prelude.v
RustStr.v
TextLines.v
Collections.v
Net.v
Hosts.v
Config.v
Sni.v
SelfLoop.v
Limits.v
UpstreamRegistry.v
ClientAcl.v
Metrics.v
DomainLimiter.v
DomainLimiterConc.v
Files.v
Ufw.v
DnsmasqStore.v
DnsmasqProofs.v
PanelDb.v
PanelDbProofs.v
PanelTraffic.v
QueryLog.v
Panel.v
PanelApi.v
PanelAuth.v
PanelEdits.v
PanelRestart.v
PanelErrors.v
PanelShared.v
PanelExamples.v
Stream.v
ProxyConnector.v
ProxyProofs.v
Telegram.v
UpstreamMonitor.v
Splice.v
Service.v
ServiceProofs.v
Listeners.v
MetricsServer.v
Main.v
Startup.v
Relay.v
RelayExamples.v
