(* ===== verification/Prelude.v ===== *)
(** SNIrelay: a verification development.

    SNIrelay is a relay: it accepts TLS and HTTP connections, reads the host name a client asks
    for from its first bytes, and tunnels the connection to that name through an upstream
    proxy.  An admin panel changes the relay's tables while it runs.  This library models the
    Rust crate under src/src/ and proves what makes its parts correct.

    * The program, and the files that model it

    The foundations: [Prelude] (notations, the result and [eval] monads, record updates,
    generic lemmas and tactics), [RustStr], [TextLines], [Collections] and [Net] (what the code
    uses of Rust's standard library on strings, ordered and hashed maps, and addresses),
    [Files] (paths, files and commands; a write empties its file first), [Stream] (timed input
    and output on sockets; a write may fail or block after a part of its bytes).

    The data path, in the order in which a connection meets it:
    - [Listeners], the accepting loops of src/service.rs ([run], [run_listener]) with the
      connection slots and the shutdown: a step relation on a record of the loops;
    - [Service], [handle_connection] of src/service.rs with all that it calls in that file:
      the white list, the extraction of the name ([extract_tls_info], [extract_http_info],
      [extract_auto]), the limits, the hosts table, the self-loop guard, the fail-over over
      the candidates, the replay; its theorems are in [ServiceProofs];
    - [Sni] (src/sni.rs), the parser of the ClientHello; [Hosts] (src/hosts.rs), the table of
      names; [ClientAcl] (src/client_acl.rs), the white list; [SelfLoop] (src/self_loop.rs);
      [UpstreamRegistry] (src/upstream_registry.rs), the routing of clients to proxies;
      [DomainLimiter] (src/domain_limiter.rs) with sequential operations, and
      [DomainLimiterConc] with their atomic actions interleaved; [ProxyConnector]
      (src/proxy_connector.rs), SOCKS5, HTTP CONNECT and the probes, with [ProxyProofs];
      [Splice], the two copying tasks of a tunnel ([splice], [copy_counting]); [Metrics] and
      [MetricsServer] (src/metrics.rs).

    The start and the background: [Config] (src/config.rs), [Limits] (src/limits.rs), [Main]
    (src/main.rs), [UpstreamMonitor] (src/upstream_monitor.rs) and [Telegram]
    (src/telegram.rs).

    The panel (src/panel/): [Panel] (mod.rs: state, start, cookie, pages), [PanelApi] (api.rs:
    one definition per handler, and [handler], the router), [PanelDb] (db.rs), [PanelTraffic]
    (traffic.rs), [DnsmasqStore] (dnsmasq_store.rs), [QueryLog] (dnsmasq_query_log.rs), and
    [Ufw] (src/ufw.rs); the theorems are in [PanelAuth], [PanelEdits], [PanelRestart],
    [PanelErrors], [PanelShared], [PanelDbProofs] and [DnsmasqProofs].

    The composition: [Relay] has [SniProxyService::new] and the start and end of [run], and
    joins what [Main] starts, the panel's history and the connections; [Startup] joins [Main]
    and the panel's configuration file: [PanelRestart] has what the file describes after an
    edit, [Startup.restart] what a start then makes of it.  [PanelExamples], [Startup] and [RelayExamples] hold
    the concrete instances on which the theorems of several files are tried.

    * How the code is represented

    A structure behind a lock is a record, an operation under the lock a function on it; the
    state shared between tasks is either explicit in a step relation ([Listeners],
    [DomainLimiterConc], [Splice], [PanelTraffic], [QueryLog]) or read at a time, as a
    function of that time ([Service.Shared], which [Relay.relay_shared] builds from the
    history of the panel).  A computation that may panic is in [eval]; one that may fail
    returns a [result] whose error type has a constructor per failure site; one that reads
    and writes sockets is in [Stream.IO], where [None] is a computation that never returns
    and [timeout] turns it into an error.  Bytes are [Byte.byte], strings their UTF-8 bytes,
    machine integers are [N] or [Z] with the wrap-around, saturation or overflow written out
    where it can happen.  A handler of the panel is a function from the moment (time and
    chance) and the state to an answer and a new state: requests are taken one after the
    other, and [PanelShared.commit_acl] with [removal_lost] shows what two that overlap can
    do; the files that they read, change and write back are not locked either.  A look at the
    query log is raced by a write, finds the file gone, or is cut short between any two
    lines, as the events of [QueryLog] say.  Logging is left out everywhere.

    * Parameters

    What is not in src/ is an argument, and what the theorems need of it a named class of
    laws: the Unicode tables beyond ASCII ([Unicode], [UnicodeLaws]); the order in which a
    HashMap is iterated ([HashOrder]), so that the theorems hold for every order; regular
    expressions ([RegexLib]); YAML ([Yaml], [YamlDoc], [YamlFile]) and JSON; files, commands
    and ufw ([Kernel], [Host], [Firewall]); rlimits ([RlimitOs]); SQLite's errors and row ids
    ([Sqlite]); dates ([Chrono], [ChronoLaws]); argon2 ([Argon2]); the texts of errors
    ([ErrorText]); the network, as the scripts of the peers.  Each class of laws has an
    instance, so that the hypotheses of every theorem are met by its witness.

    * What is proved

    The comment of each theorem states its conditions; the ones that matter most are repeated
    here.  Of connections: none reaches a proxy without passing every test ([handler_gatekeeping]);
    a TLS connection is relayed byte for byte, under every segmentation, timing and schedule
    ([tls_tunnel_transparent], [splice_transparent], which also bounds what a write that fails
    half-way delivers uncounted); what is taken from the first bytes
    ([extract_tls_spec], [extract_http_spec], with [parse_sni_finds_name] and
    [parse_sni_total] for the parser); where names lead ([destination_allowlisted],
    [compile_resolve], and [would_loop_spec], against a model of which addresses a host
    delivers to its own sockets); which proxies are tried and how they are spoken to
    ([connect_candidates_spec], [socks5_handshake_spec] against decoders written from the
    RFCs, [http_connect_spec]); the limits ([counters_linearize] and [splice_metered] within a
    day and with concurrent connections, [daily_connections_capped] over days with operations
    one after the other, [restart_preserves]); the slots, the end of tunnels and the gauges
    ([connections_bounded], [splice_ends_or_not], [handler_metrics_balanced]).

    Of the panel: it is closed without a login and shows no secret
    ([panel_closed_without_login], [no_secret_is_shown]); a refused request changes nothing
    ([refused_changes_nothing]); what it saves is what a restart loads, if nothing in the
    environment overrides the file ([edits_survive_restart], [startup_agrees]); the firewall follows the white list
    ([whitelist_ufw_sync]); the tables, the reports and the dnsmasq files
    ([db_well_formed], [traffic_report], [aggregator_conserves], [save_load_roundtrip],
    [save_preserves], [shown_upstreams_roundtrip], [log_refines_queue]).

    Of the whole: the start ends in time with a sound relay ([main_starts], [finalize_wf]);
    that relay keeps serving whatever its panel answers ([relay_keeps_serving]), and a white
    list is in force once the panel has answered ([whitelist_in_force]); the monitor and its
    alerts ([monitor_hysteresis], [alerts_respect_cooldown]) and the scrapes
    ([metrics_scrape_fresh]).

    * Fuel and bounds

    The loops of the parser take the length of their buffer as fuel and running out would be a
    [Panic], which [parse_sni_total] excludes.  The reading loops of [Service] have one unit
    more than their buffer has bytes (16 KiB, 8 KiB), and each turn reads at least one byte;
    [extract_tls_spec] and [extract_http_spec] exclude [LoopFuel] and bound the time, with the
    one exception that the code has: the reply to a CONNECT is written without a timeout.
    [read_response] of [ProxyConnector] is bounded by its buffer of 4096 bytes in the same
    way; its reads have no timeout, and [http_connect_spec] says exactly when they never end.  [probe_until]
    has one unit per millisecond of the window, each turn taking at least one interval
    ([ensure_upstream_ready_spec]); [Main] chooses it so.  A tunnel runs along a schedule, and
    [splice_ends_or_not] says which schedules end it.

    * Not modelled

    src/logging.rs, which only sets up the tracing crate; the web page of the panel
    (panel/dist), which is embedded; the text encoding of the metrics (the prometheus crate);
    axum's routing and decoding, so a request is a value of [PanelApi.Request]; the calls that
    bind sockets and install signal handlers, whose outcomes are parameters or events.  The
    relaxed orders of the atomics are taken as sequentially consistent. *)

From stdpp Require Export base tactics numbers option list gmap strings sorting.
From Stdlib Require Export Strings.Byte Lia.

#[global] Open Scope N_scope.
#[global] Open Scope nat_scope.

(** * Bytes and byte strings

    Rust's [String], [&str], [Vec<u8>] and [&[u8]] are all represented by their
    bytes: a [&str] is the sequence of its UTF-8 code units. *)
Abbreviation bytes := (list Byte.byte).

#[global] Instance byte_eq_dec' : EqDecision Byte.byte := Byte.byte_eq_dec.

#[global] Program Instance byte_countable : Countable Byte.byte :=
  {| encode b := encode (Byte.to_N b);
     decode p := n ← decode p; Byte.of_N n |}.
Next Obligation.
  intros b. cbn. rewrite (decode_encode (Byte.to_N b)). cbn. apply Byte.of_to_N.
Qed.

(** Byte-string literals: [§"GET "] is Rust's [b"GET "] (and, for an ASCII
    [&str] literal, its UTF-8 bytes). *)
Definition lit (s : string) : bytes := String.list_byte_of_string s.
Notation "§ s" := (lit s%string) (at level 1, s at level 0, format "§ s").

(** The numeric value of a byte. *)
Abbreviation bn := Byte.to_N.

(** The low byte of a number: Rust's [n as u8]. *)
Definition as_u8 (n : N) : Byte.byte :=
  match Byte.of_N (n mod 256) with Some b => b | None => x00 end.

(** Fixed-width unsigned arithmetic. *)
Definition wrap (w n : N) : N := (n mod 2 ^ w)%N.
Definition u16_max : N := 65535.
Definition u32_max : N := 4294967295.
Definition u64_max : N := 18446744073709551615.
Definition sat_add (mx a b : N) : N := N.min mx (a + b).

(** * Outcomes *)

(** A computation that may panic (index out of bounds, slice out of range). *)
Inductive eval (A : Type) : Type :=
| Val (a : A)
| Panic.
Arguments Val {A} a.
Arguments Panic {A}.

#[global] Instance eval_ret : MRet eval := λ A a, Val a.
#[global] Instance eval_bind : MBind eval :=
  λ A B f m, match m with Val a => f a | Panic => Panic end.

(** Rust's [Result<A, E>]. *)
Inductive result (E A : Type) : Type :=
| Ok (a : A)
| Err (e : E).
Arguments Ok {E A} a.
Arguments Err {E A} e.

#[global] Instance result_ret {E} : MRet (result E) := λ A a, Ok a.
#[global] Instance result_bind {E} : MBind (result E) :=
  λ A B f m, match m with Ok a => f a | Err e => Err e end.

Definition ok_or {E A} (o : option A) (e : E) : result E A :=
  match o with Some a => Ok a | None => Err e end.
Definition result_ok {E A} (r : result E A) : option A :=
  match r with Ok a => Some a | Err _ => None end.
Definition is_ok {E A} (r : result E A) : bool :=
  match r with Ok _ => true | Err _ => false end.
Definition unwrap_or {A} (o : option A) (d : A) : A := default d o.

(** Panicking accesses. *)
Definition index (l : bytes) (i : nat) : eval Byte.byte :=
  match l !! i with Some b => Val b | None => Panic end.
Definition slice (l : bytes) (i j : nat) : eval bytes :=
  if decide (i ≤ j ∧ j ≤ length l) then Val (take (j - i) (drop i l)) else Panic.
(** [&l[i..]] *)
Definition slice_from (l : bytes) (i : nat) : eval bytes := slice l i (length l).

(** * Tactics *)

(** Destruct the innermost scrutinee of a match in the goal. *)
Ltac case_match_goal :=
  match goal with
  | |- context [match ?x with _ => _ end] =>
      lazymatch x with context [match _ with _ => _ end] => fail | _ => destruct x eqn:? end
  end.
Ltac case_match_hyp H :=
  match type of H with
  | context [match ?x with _ => _ end] =>
      lazymatch x with context [match _ with _ => _ end] => fail | _ => destruct x eqn:? end
  end.

(** Boolean comparisons on [nat] and [N] as propositions. *)
Ltac bool_to_prop :=
  repeat match goal with
  | H : (_ && _)%bool = true |- _ => apply andb_prop in H; destruct H
  | H : (_ || _)%bool = false |- _ => apply orb_false_elim in H; destruct H
  | H : negb _ = true |- _ => apply negb_true_iff in H
  | H : negb _ = false |- _ => apply negb_false_iff in H
  | H : (_ <? _)%N = true |- _ => apply N.ltb_lt in H
  | H : (_ <? _)%N = false |- _ => apply N.ltb_ge in H
  | H : (_ <=? _)%N = true |- _ => apply N.leb_le in H
  | H : (_ <=? _)%N = false |- _ => apply N.leb_gt in H
  | H : (_ =? _)%N = true |- _ => apply N.eqb_eq in H
  | H : (_ =? _)%N = false |- _ => apply N.eqb_neq in H
  | H : (_ <? _) = true |- _ => apply Nat.ltb_lt in H
  | H : (_ <? _) = false |- _ => apply Nat.ltb_ge in H
  | H : (_ <=? _) = true |- _ => apply Nat.leb_le in H
  | H : (_ <=? _) = false |- _ => apply Nat.leb_gt in H
  | H : (_ =? _) = true |- _ => apply Nat.eqb_eq in H
  | H : (_ =? _) = false |- _ => apply Nat.eqb_neq in H
  | H : bool_decide _ = true |- _ => apply bool_decide_eq_true in H
  | H : bool_decide _ = false |- _ => apply bool_decide_eq_false in H
  end.

Create HintDb snirelay discriminated.

(** * Reasoning about panicking computations *)

(** [returns m P]: [m] does not panic and its value satisfies [P]. *)
Definition returns {A} (m : eval A) (P : A → Prop) : Prop :=
  match m with Val a => P a | Panic => False end.

Section returns.
Context {A B : Type}.
Implicit Types (m : eval A).

Lemma returns_val (a : A) (P : A → Prop) : P a → returns (Val a) P.
Proof. done. Qed.

Lemma returns_bind m (k : A → eval B) (P : B → Prop) :
  returns m (λ a, returns (k a) P) → returns (m ≫= k) P.
Proof. by destruct m. Qed.

Lemma returns_mono m (P Q : A → Prop) :
  returns m P → (∀ a, P a → Q a) → returns m Q.
Proof. destruct m; simpl; eauto. Qed.

Lemma returns_iff m (P : A → Prop) : returns m P ↔ ∃ a, m = Val a ∧ P a.
Proof.
  destruct m; simpl; split; [eauto | by intros (? & [= ->] & ?) | done | by intros (? & ? & _)].
Qed.
End returns.

Lemma returns_index l i (P : Byte.byte → Prop) :
  i < length l → (∀ b, l !! i = Some b → P b) → returns (index l i) P.
Proof.
  intros Hi HP. unfold index. destruct (lookup_lt_is_Some_2 l i Hi) as [b Hb].
  rewrite Hb. by apply HP.
Qed.

Lemma returns_slice l i j (P : bytes → Prop) :
  i ≤ j → j ≤ length l →
  (∀ s, length s = j - i → s = take (j - i) (drop i l) → P s) → returns (slice l i j) P.
Proof.
  intros Hi Hj HP. unfold slice. rewrite decide_True by lia. apply HP; [|done].
  rewrite length_take, length_drop. lia.
Qed.

(** Slices and indices at a cursor: [l = p ++ q ++ r] and the position is
    [length p]. *)
Lemma slice_cursor p q r :
  slice (p ++ q ++ r) (length p) (length p + length q) = Val q.
Proof.
  unfold slice. rewrite !length_app, decide_True by lia.
  rewrite drop_app_length. f_equal.
  replace (length p + length q - length p) with (length q) by lia.
  by rewrite take_app_length.
Qed.

Lemma slice_at l p q r i j :
  l = p ++ q ++ r → i = length p → j = i + length q → slice l i j = Val q.
Proof. intros -> -> ->. apply slice_cursor. Qed.

Lemma index_at l p b r i : l = p ++ b :: r → i = length p → index l i = Val b.
Proof. intros -> ->. unfold index. by rewrite list_lookup_middle. Qed.

(** A slice or index inside a prefix does not depend on what follows. *)
Lemma slice_app_l l more i j : j ≤ length l → slice (l ++ more) i j = slice l i j.
Proof.
  intros Hj. unfold slice. rewrite length_app.
  destruct (decide (i ≤ j ∧ j ≤ length l)); [|rewrite decide_False by lia; done].
  rewrite decide_True by lia. f_equal.
  rewrite drop_app_le by lia. rewrite take_app_le; [done|]. rewrite length_drop. lia.
Qed.

Lemma index_app_l l more i : i < length l → index (l ++ more) i = index l i.
Proof. intros Hi. unfold index. by rewrite lookup_app_l. Qed.

(** Bytes and their values. *)
Lemma bn_lt b : (bn b < 256)%N.
Proof. pose proof (Byte.to_N_bounded b). lia. Qed.

Lemma bn_inj a b : bn a = bn b → a = b.
Proof.
  intros H. assert (Some a = Some b) as [= ->]; [|done].
  by rewrite <- (Byte.of_to_N a), <- (Byte.of_to_N b), H.
Qed.

Lemma bn_as_u8 n : bn (as_u8 n) = (n mod 256)%N.
Proof.
  unfold as_u8. pose proof (N.mod_lt n 256 ltac:(lia)).
  destruct (Byte.of_N (n mod 256)) as [b|] eqn:E.
  - by apply Byte.to_of_N in E.
  - apply Byte.of_N_None_iff in E. lia.
Qed.

Lemma as_u8_bn b : as_u8 (bn b) = b.
Proof.
  apply bn_inj. rewrite bn_as_u8. apply N.mod_small. apply bn_lt.
Qed.

(** A property of bytes that a computation checks on all 256 of them. *)
Definition all_bytes : list Byte.byte := as_u8 <$> (N.of_nat <$> seq 0 256).

Lemma all_bytes_complete b : In b all_bytes.
Proof.
  unfold all_bytes. rewrite <- (as_u8_bn b). apply (in_map as_u8).
  rewrite <- (N2Nat.id (bn b)). apply (in_map N.of_nat).
  apply in_seq. pose proof (bn_lt b). lia.
Qed.

Lemma byte_forall (f : Byte.byte → bool) : forallb f all_bytes = true → ∀ b, f b = true.
Proof. intros H b. eapply forallb_forall; [done | apply all_bytes_complete]. Qed.

Lemma byte_forall2 (f : Byte.byte → Byte.byte → bool) :
  forallb (λ a, forallb (f a) all_bytes) all_bytes = true → ∀ a b, f a b = true.
Proof. intros H a. apply byte_forall. by apply (byte_forall (λ a, forallb (f a) all_bytes)). Qed.

Lemma byte_eq `{EqDecision A} (f g : Byte.byte → A) :
  forallb (λ b, bool_decide (f b = g b)) all_bytes = true → ∀ b, f b = g b.
Proof. intros H b. eapply bool_decide_eq_true, (byte_forall (λ b, bool_decide (f b = g b)) H). Qed.

(** * Lists *)

Lemma filter_none {A} (P : A → Prop) `{∀ x, Decision (P x)} (l : list A) : Forall (λ x, ¬ P x) l → filter P l = [].
Proof. induction 1 as [|x l Hx _ IH]; [done|]. by rewrite filter_cons_False. Qed.

Lemma filter_filter_keep {A} (P Q : A → Prop) `{∀ x, Decision (P x), ∀ x, Decision (Q x)} (l : list A) :
  (∀ x, P x → Q x) → filter P (filter Q l) = filter P l.
Proof.
  intros HPQ. rewrite list_filter_filter. apply list_filter_iff. naive_solver.
Qed.

Lemma omap_none {A B} (f : A → option B) l : Forall (λ x, f x = None) l → omap f l = [].
Proof. induction 1 as [|x l Hx _ IH]; [done|]. cbn. by rewrite Hx. Qed.

Lemma omap_some {A B} (f : A → option B) (g : A → B) l : Forall (λ x, f x = Some (g x)) l → omap f l = g <$> l.
Proof. induction 1 as [|x l Hx _ IH]; [done|]. cbn. rewrite Hx. f_equal. exact IH. Qed.

Lemma omap_fmap_comp {A B C} (f : B → option C) (g : A → B) (l : list A) :
  omap f (g <$> l) = omap (λ x, f (g x)) l.
Proof. induction l as [|x l IH]; [done|]. cbn. destruct (f (g x)); [f_equal|]; exact IH. Qed.

Lemma filter_fmap_comm {A B} (f : A → B) (P : B → Prop) `{∀ b, Decision (P b)} (l : list A) :
  filter P (f <$> l) = f <$> filter (λ a, P (f a)) l.
Proof. induction l as [|a l IH]; [done|]. rewrite fmap_cons, !filter_cons. case_decide; [rewrite fmap_cons; by f_equal | done]. Qed.
