(* ===== verification/RustStr.v ===== *)
(** The operations of Rust's standard library on [str], [String] and [[u8]] that
    the program uses, on byte sequences: ASCII classification and case folding,
    [trim], [lines], [split_whitespace], searching and splitting, UTF-8
    validation, and the decimal and hexadecimal conversions of integers.

    Everything is defined exactly on the bytes of a valid UTF-8 string, with one
    exception: the Unicode case tables.  [to_lowercase] is defined here on ASCII
    strings and is the parameter [uni_lower] on the others. *)

From S2P Require Import Prelude.

(** * ASCII *)

Definition is_ascii (b : Byte.byte) : bool := (bn b <? 128)%N.
Definition in_range (lo hi : N) (b : Byte.byte) : bool := ((lo <=? bn b) && (bn b <=? hi))%N.
Definition is_upper (b : Byte.byte) : bool := in_range 65 90 b.
Definition is_lower (b : Byte.byte) : bool := in_range 97 122 b.
Definition is_digit (b : Byte.byte) : bool := in_range 48 57 b.
Definition is_ascii_alphanumeric (b : Byte.byte) : bool := is_digit b || is_upper b || is_lower b.
(** A UTF-8 continuation byte [0b10xxxxxx]: not the start of a [char]. *)
Definition is_cont (b : Byte.byte) : bool := in_range 128 191 b.

Definition ascii_lower_byte (b : Byte.byte) : Byte.byte :=
  if is_upper b then as_u8 (bn b + 32) else b.
Definition to_ascii_lowercase (s : bytes) : bytes := ascii_lower_byte <$> s.
Definition all_ascii (s : bytes) : bool := forallb is_ascii s.
Definition beqb (s t : bytes) : bool := bool_decide (s = t).
Definition eq_ignore_ascii_case (s t : bytes) : bool :=
  beqb (to_ascii_lowercase s) (to_ascii_lowercase t).

Fixpoint starts_with (p s : bytes) : bool :=
  match p, s with
  | [], _ => true
  | a :: p', b :: s' => if decide (a = b) then starts_with p' s' else false
  | _ :: _, [] => false
  end.

(** The Unicode case tables, for strings with a non-ASCII character. *)
Class Unicode := uni_lower : bytes → bytes.

Definition to_lowercase `{Unicode} (s : bytes) : bytes :=
  if all_ascii s then to_ascii_lowercase s else uni_lower s.

(** What the program's invariants rely on: lower-casing is idempotent, and it
    does not create an ASCII character of a literal such as ["host:"] out of a
    non-ASCII one. *)
Class UnicodeLaws `{Unicode} : Prop := {
  lower_idemp : ∀ s, to_lowercase (to_lowercase s) = to_lowercase s;
  lower_host : ∀ s, starts_with §"host:" (to_lowercase s) = true →
                    starts_with §"host:" (to_ascii_lowercase s) = true;
}.

(** Lower-casing is idempotent on ASCII strings, and a concrete instance of the
    parameter, which leaves the strings that are not ASCII as they are. *)
Lemma ascii_lower_byte_idemp b : ascii_lower_byte (ascii_lower_byte b) = ascii_lower_byte b.
Proof. revert b. apply byte_eq. by vm_compute. Qed.

Lemma to_ascii_lowercase_idemp s :
  to_ascii_lowercase (to_ascii_lowercase s) = to_ascii_lowercase s.
Proof.
  unfold to_ascii_lowercase. rewrite <- list_fmap_compose. apply list_fmap_ext.
  intros i b _. apply ascii_lower_byte_idemp.
Qed.

Lemma is_ascii_lower b : is_ascii (ascii_lower_byte b) = is_ascii b.
Proof. revert b. apply byte_eq. by vm_compute. Qed.

Lemma all_ascii_lower s : all_ascii (to_ascii_lowercase s) = all_ascii s.
Proof. induction s as [|b s IH]; [done|]. cbn. rewrite is_ascii_lower. by f_equal. Qed.

Lemma starts_with_lower p s :
  starts_with p s = true → starts_with (to_ascii_lowercase p) (to_ascii_lowercase s) = true.
Proof.
  revert s. induction p as [|a p IH]; intros [|b s]; cbn; try done.
  case_decide as Hab; [|done]. subst b. intros Hs. rewrite decide_True by done. by apply IH.
Qed.

Definition ascii_unicode : Unicode := λ s, s.

Lemma ascii_unicode_laws : @UnicodeLaws ascii_unicode.
Proof.
  split. intros s. unfold to_lowercase. destruct (all_ascii s) eqn:E.
  - by rewrite all_ascii_lower, E, to_ascii_lowercase_idemp.
  - unfold uni_lower, ascii_unicode. by rewrite E.
  - intros s. unfold to_lowercase. destruct (all_ascii s); [done|]. unfold uni_lower, ascii_unicode.
    apply (starts_with_lower §"host:").
Qed.

(** * Searching *)

Definition ends_with (p s : bytes) : bool := starts_with (rev p) (rev s).
Definition strip_prefix (p s : bytes) : option bytes :=
  if starts_with p s then Some (drop (length p) s) else None.
Definition strip_suffix (p s : bytes) : option bytes :=
  if ends_with p s then Some (take (length s - length p) s) else None.

(** Position of the first byte equal to [c]. *)
Fixpoint find_byte (c : Byte.byte) (s : bytes) : option nat :=
  match s with
  | [] => None
  | b :: s' => if decide (b = c) then Some 0 else S <$> find_byte c s'
  end.
(** Position of the last one. *)
Fixpoint rfind_byte (c : Byte.byte) (s : bytes) : option nat :=
  match s with
  | [] => None
  | b :: s' =>
      match rfind_byte c s' with
      | Some i => Some (S i)
      | None => if decide (b = c) then Some 0 else None
      end
  end.
Definition contains_byte (c : Byte.byte) (s : bytes) : bool := existsb (λ b, bool_decide (b = c)) s.
(** Position of the first occurrence of [p] (as [windows(n).position(..)], or
    [str::find] with a string pattern). *)
Fixpoint find_sub (p s : bytes) : option nat :=
  if starts_with p s then Some 0
  else match s with [] => None | _ :: s' => S <$> find_sub p s' end.
Definition contains_sub (p s : bytes) : bool :=
  match find_sub p s with Some _ => true | None => false end.

Definition rsplit_once (c : Byte.byte) (s : bytes) : option (bytes * bytes) :=
  i ← rfind_byte c s; Some (take i s, drop (S i) s).
Definition split_once (p s : bytes) : option (bytes * bytes) :=
  i ← find_sub p s; Some (take i s, drop (i + length p) s).

(** [s.split(f)] for a predicate on bytes: never empty. *)
Fixpoint split_by (f : Byte.byte → bool) (s : bytes) : list bytes :=
  match s with
  | [] => [[]]
  | b :: s' =>
      if f b then [] :: split_by f s'
      else match split_by f s' with
           | [] => [[b]]
           | w :: ws => (b :: w) :: ws
           end
  end.
(** [v.join(sep)] *)
Fixpoint join (sep : bytes) (l : list bytes) : bytes :=
  match l with
  | [] => []
  | [w] => w
  | w :: ws => w ++ sep ++ join sep ws
  end.

(** [o.filter(|s| !s.is_empty())] *)
Definition nonempty (o : option bytes) : option bytes := s ← o; if decide (s = []) then None else Some s.

(** * White space, lines *)

(** The UTF-8 encodings of the characters of the Unicode property White_Space. *)
Definition ws1 (a : Byte.byte) : bool := in_range 9 13 a || (bn a =? 32)%N.
Definition ws2 (a b : Byte.byte) : bool :=
  ((bn a =? 194) && ((bn b =? 133) || (bn b =? 160)))%N.
Definition ws3 (a b c : Byte.byte) : bool :=
  (((bn a =? 225) && (bn b =? 154) && (bn c =? 128))
   || ((bn a =? 226) && (bn b =? 128) &&
        (((128 <=? bn c) && (bn c <=? 138)) || (bn c =? 168) || (bn c =? 169) || (bn c =? 175)))
   || ((bn a =? 226) && (bn b =? 129) && (bn c =? 159))
   || ((bn a =? 227) && (bn b =? 128) && (bn c =? 128)))%N.

Section strip.
Context (w1 : Byte.byte → bool) (w2 : Byte.byte → Byte.byte → bool)
        (w3 : Byte.byte → Byte.byte → Byte.byte → bool).
Fixpoint strip_ws (s : bytes) : bytes :=
  match s with
  | [] => []
  | a :: s1 =>
      if w1 a then strip_ws s1 else
      match s1 with
      | [] => s
      | b :: s2 =>
          if w2 a b then strip_ws s2 else
          match s2 with
          | [] => s
          | c :: s3 => if w3 a b c then strip_ws s3 else s
          end
      end
  end.
End strip.

Definition trim_start (s : bytes) : bytes := strip_ws ws1 ws2 ws3 s.
Definition trim_end (s : bytes) : bytes :=
  rev (strip_ws ws1 (λ a b, ws2 b a) (λ a b c, ws3 c b a) (rev s)).
Definition trim (s : bytes) : bytes := trim_end (trim_start s).

(** [trim_end_matches(c)] *)
Fixpoint drop_while (f : Byte.byte → bool) (s : bytes) : bytes :=
  match s with
  | [] => []
  | b :: s' => if f b then drop_while f s' else s
  end.
Definition trim_end_matches (c : Byte.byte) (s : bytes) : bytes :=
  rev (drop_while (λ b, bool_decide (b = c)) (rev s)).

(** [split_whitespace]: the maximal runs of non-white-space characters. *)
Fixpoint words_aux (cur : bytes) (s : bytes) : list bytes :=
  let flush := if decide (cur = []) then [] else [rev cur] in
  match s with
  | [] => flush
  | a :: s1 =>
      if ws1 a then flush ++ words_aux [] s1 else
      match s1 with
      | [] => words_aux (a :: cur) s1
      | b :: s2 =>
          if ws2 a b then flush ++ words_aux [] s2 else
          match s2 with
          | [] => words_aux (a :: cur) s1
          | c :: s3 =>
              if ws3 a b c then flush ++ words_aux [] s3
              else words_aux (a :: cur) s1
          end
      end
  end.
Definition split_whitespace (s : bytes) : list bytes := words_aux [] s.

Definition LF : Byte.byte := x0a.
Definition CR : Byte.byte := x0d.

Definition strip_cr (l : bytes) : bytes :=
  match rev l with
  | c :: r => if decide (c = CR) then rev r else l
  | [] => l
  end.
(** [lines]: split after each line feed; a line feed, or a carriage return and a
    line feed, at the end of a line is dropped. *)
Fixpoint lines_aux (cur : bytes) (s : bytes) : list bytes :=
  match s with
  | [] => if decide (cur = []) then [] else [rev cur]
  | b :: s' =>
      if decide (b = LF) then strip_cr (rev cur) :: lines_aux [] s'
      else lines_aux (b :: cur) s'
  end.
Definition lines (s : bytes) : list bytes := lines_aux [] s.

(** * UTF-8 *)

Fixpoint utf8_valid (s : bytes) : bool :=
  match s with
  | [] => true
  | a :: s1 =>
      if is_ascii a then utf8_valid s1 else
      match s1 with
      | [] => false
      | b :: s2 =>
          if in_range 194 223 a then is_cont b && utf8_valid s2 else
          match s2 with
          | [] => false
          | c :: s3 =>
              if (bn a =? 224)%N then in_range 160 191 b && is_cont c && utf8_valid s3 else
              if (bn a =? 237)%N then in_range 128 159 b && is_cont c && utf8_valid s3 else
              if in_range 225 239 a then is_cont b && is_cont c && utf8_valid s3 else
              match s3 with
              | [] => false
              | d :: s4 =>
                  if (bn a =? 240)%N then in_range 144 191 b && is_cont c && is_cont d && utf8_valid s4 else
                  if in_range 241 243 a then is_cont b && is_cont c && is_cont d && utf8_valid s4 else
                  if (bn a =? 244)%N then in_range 128 143 b && is_cont c && is_cont d && utf8_valid s4
                  else false
              end
          end
      end
  end.
Definition from_utf8 (s : bytes) : option bytes := if utf8_valid s then Some s else None.

(** The number of [char]s of a string, and its first [n] [char]s. *)
Definition chars_count (s : bytes) : nat := length (filter (λ b, is_cont b = false) s).
Fixpoint take_chars (n : nat) (s : bytes) : bytes :=
  match s with
  | [] => []
  | b :: s' =>
      if is_cont b then b :: take_chars n s'
      else match n with 0 => [] | S n' => b :: take_chars n' s' end
  end.

(** [&s[i..]] and [&s[..i]] for a [str]: a panic when [i] is past the end or not
    at the start of a [char]. *)
Definition char_boundary (s : bytes) (i : nat) : bool :=
  if decide (i = length s) then true
  else match s !! i with Some b => negb (is_cont b) | None => false end.
Definition str_from (i : nat) (s : bytes) : eval bytes :=
  if char_boundary s i then Val (drop i s) else Panic.

(** * Integers *)

Definition digit_val (b : Byte.byte) : option N :=
  if is_digit b then Some (bn b - 48)%N else None.
Definition hex_val (b : Byte.byte) : option N :=
  if is_digit b then Some (bn b - 48)%N
  else if in_range 97 102 b then Some (bn b - 87)%N
  else if in_range 65 70 b then Some (bn b - 55)%N
  else None.

(** The value of a sequence of digits, [acc] being the value of those before. *)
Fixpoint digits_val (dv : Byte.byte → option N) (radix acc : N) (s : bytes) : option N :=
  match s with
  | [] => Some acc
  | b :: s' => d ← dv b; digits_val dv radix (acc * radix + d)%N s'
  end.

(** [s.parse::<uN>()], [mx] the largest value of the type: an optional [+] and at
    least one digit. *)
Definition parse_uint (mx : N) (s : bytes) : option N :=
  let ds := match s with x2b :: r => r | _ => s end in
  match ds with
  | [] => None
  | _ => n ← digits_val digit_val 10 0 ds; if (n <=? mx)%N then Some n else None
  end.
Definition parse_u16 := parse_uint u16_max.
Definition parse_u32 := parse_uint u32_max.
Definition parse_u64 := parse_uint u64_max.

(** [i64::from_str] *)
Definition parse_i64 (s : bytes) : option Z :=
  match s with
  | x2d :: ds =>
      match ds with
      | [] => None
      | _ => n ← digits_val digit_val 10 0 ds; if (n <=? 9223372036854775808)%N then Some (- Z.of_N n)%Z else None
      end
  | _ => Z.of_N <$> parse_uint 9223372036854775807 s
  end.

(** [u8::from_str_radix(s, 16)] *)
Definition parse_hex (mx : N) (s : bytes) : option N :=
  let ds := match s with x2b :: r => r | _ => s end in
  match ds with
  | [] => None
  | _ => n ← digits_val hex_val 16 0 ds; if (n <=? mx)%N then Some n else None
  end.

Definition digit_char (d : N) : Byte.byte :=
  if (d <? 10)%N then as_u8 (d + 48) else as_u8 (d + 87).
(** The digits of [n], most significant first, before [acc]. *)
Fixpoint show_aux (radix : N) (fuel : nat) (n : N) (acc : bytes) : bytes :=
  match fuel with
  | 0 => acc
  | S f =>
      let acc' := digit_char (n mod radix) :: acc in
      if (n <? radix)%N then acc' else show_aux radix f (n / radix)%N acc'
  end.
(** [format!("{n}")] and [format!("{n:x}")] *)
Definition show_radix (radix n : N) : bytes := show_aux radix (S (N.size_nat n)) n [].
Definition show (n : N) : bytes := show_radix 10 n.
Definition show_hex (n : N) : bytes := show_radix 16 n.
#[global] Arguments show_radix : simpl never.
#[global] Arguments show : simpl never.
#[global] Arguments show_hex : simpl never.

(** * Lemmas *)

(** ** Numbers and their digits *)

Lemma digits_val_app dv radix acc s t :
  digits_val dv radix acc (s ++ t) = a ← digits_val dv radix acc s; digits_val dv radix a t.
Proof.
  revert acc. induction s as [|b s IH]; intros acc; [done|]. cbn.
  destruct (dv b); [apply IH | done].
Qed.

Section show.
Context (radix : N) (dv : Byte.byte → option N).
Hypothesis radix_2 : (2 ≤ radix)%N.
Hypothesis dv_digit : ∀ d, (d < radix)%N → dv (digit_char d) = Some d.

(** [ds] is the writing of [n]: its digits, without a leading zero. *)
Definition writes (n : N) (ds : bytes) : Prop :=
  ds ≠ [] ∧ digits_val dv radix 0 ds = Some n
  ∧ (∀ r, ds = digit_char 0 :: r → n = 0%N ∧ r = []).

Lemma show_aux_writes fuel n acc :
  (n < 2 ^ N.of_nat fuel)%N → fuel ≠ 0 →
  ∃ ds, show_aux radix fuel n acc = ds ++ acc ∧ writes n ds.
Proof.
  revert n acc. induction fuel as [|fuel IH]; intros n acc Hn Hf; [done|].
  cbn [show_aux]. destruct (n <? radix)%N eqn:Hr; bool_to_prop.
  - exists [digit_char (n mod radix)]. split; [done|].
    rewrite N.mod_small by done. split_and!; [done| |].
    + cbn. rewrite dv_digit by done. done.
    + intros r [= Hd <-]. split; [|done]. assert (Some n = Some 0%N) as [= ?]; [|done].
      rewrite <- !dv_digit by lia. by rewrite Hd.
  - destruct fuel as [|fuel]; [cbn in Hn; lia|].
    destruct (IH (n / radix)%N (digit_char (n mod radix) :: acc)) as (ds & -> & Hne & Hv & Hz).
    { apply N.Div0.div_lt_upper_bound.
      rewrite Nat2N.inj_succ, N.pow_succ_r' in Hn. nia. }
    { done. }
    exists (ds ++ [digit_char (n mod radix)]). rewrite <- app_assoc. split; [done|].
    assert ((n / radix) ≠ 0)%N as Hq by (apply N.neq_0_lt_0, N.div_str_pos; lia).
    split_and!.
    + by destruct ds.
    + rewrite digits_val_app, Hv. cbn. rewrite dv_digit by (apply N.mod_lt; lia).
      cbn. f_equal. pose proof (N.div_mod n radix ltac:(lia)). lia.
    + intros r Hr'. destruct ds as [|b ds]; [done|]. cbn [app] in Hr'.
      injection Hr' as -> _. by destruct (Hz ds).
Qed.

Lemma show_radix_writes n : writes n (show_radix radix n).
Proof.
  unfold show_radix.
  destruct (show_aux_writes (S (N.size_nat n)) n []) as (ds & -> & Hw); [|done|].
  - rewrite Nat2N.inj_succ, N.pow_succ_r'.
    assert (n < 2 ^ N.of_nat (N.size_nat n))%N; [|lia].
    destruct n as [|p]; [cbn; lia|]. cbn [N.size_nat].
    replace (N.of_nat (Pos.size_nat p)) with (N.pos (Pos.size p)).
    + apply Pos.size_gt.
    + clear. induction p; cbn in *; lia.
  - by rewrite app_nil_r.
Qed.
End show.

Lemma digit_val_char d : (d < 10)%N → digit_val (digit_char d) = Some d.
Proof.
  intros Hd.
  assert (forallb (λ n, bool_decide (digit_val (digit_char (N.of_nat n)) = Some (N.of_nat n)))
    (seq 0 10) = true) as H by by vm_compute.
  rewrite forallb_forall in H. specialize (H (N.to_nat d)).
  rewrite bool_decide_eq_true, N2Nat.id in H. apply H, in_seq. lia.
Qed.

Lemma hex_val_char d : (d < 16)%N → hex_val (digit_char d) = Some d.
Proof.
  intros Hd.
  assert (forallb (λ n, bool_decide (hex_val (digit_char (N.of_nat n)) = Some (N.of_nat n)))
    (seq 0 16) = true) as H by by vm_compute.
  rewrite forallb_forall in H. specialize (H (N.to_nat d)).
  rewrite bool_decide_eq_true, N2Nat.id in H. apply H, in_seq. lia.
Qed.

Lemma show_writes n : writes 10 digit_val n (show n).
Proof. apply show_radix_writes; [lia | apply digit_val_char]. Qed.
Lemma show_hex_writes n : writes 16 hex_val n (show_hex n).
Proof. apply show_radix_writes; [lia | apply hex_val_char]. Qed.

(** A byte of a number's writing is a digit. *)
Lemma digits_val_Forall dv radix acc ds n :
  digits_val dv radix acc ds = Some n → Forall (λ b, is_Some (dv b)) ds.
Proof.
  revert acc. induction ds as [|b ds IH]; intros acc; [constructor|]. cbn.
  destruct (dv b) eqn:E; [|done]. cbn. intros H. constructor; [by rewrite E|]. by eapply IH.
Qed.

Lemma parse_uint_show mx n : (n ≤ mx)%N → parse_uint mx (show n) = Some n.
Proof.
  intros Hn. destruct (show_writes n) as (Hne & Hv & _). unfold parse_uint.
  assert (match show n with x2b :: r => r | _ => show n end = show n) as ->.
  { destruct (show n) as [|b s]; [done|].
    apply digits_val_Forall in Hv. apply Forall_cons in Hv as [[d Hd] _]. by destruct b. }
  destruct (show n) as [|b s] eqn:E; [done|]. rewrite Hv. cbn.
  by rewrite (proj2 (N.leb_le n mx)).
Qed.

(** ** White space *)

(** Graphic ASCII: nothing for [trim] to remove. *)
Definition is_graphic (b : Byte.byte) : bool := in_range 33 126 b.

Lemma graphic_not_ws b :
  is_graphic b = true → ws1 b = false ∧ bn b ≠ 194%N ∧ bn b ≠ 225%N ∧ bn b ≠ 226%N ∧ bn b ≠ 227%N
  ∧ (bn b <? 128)%N = true.
Proof.
  unfold is_graphic, ws1, in_range. intros H. bool_to_prop.
  split_and!; try (intros ?; lia).
  - rewrite orb_false_iff, andb_false_iff, !N.leb_gt, N.eqb_neq. lia.
  - apply N.ltb_lt. lia.
Qed.

Lemma ws2_false a b : (bn a < 128 ∨ bn b < 128)%N → ws2 a b = false.
Proof.
  intros H. unfold ws2. apply not_true_is_false. intros Hw. 
  apply andb_prop in Hw as [Ha%N.eqb_eq Hb%orb_prop]. rewrite !N.eqb_eq in Hb. lia.
Qed.

Lemma ws3_false a b c : (bn a < 128 ∨ bn b < 128 ∨ bn c < 128)%N → ws3 a b c = false.
Proof.
  intros H. unfold ws3. apply not_true_is_false. intros Hw.
  repeat (rewrite ?orb_true_iff, ?andb_true_iff, ?N.eqb_eq, ?N.leb_le in Hw ). lia.
Qed.

Lemma strip_ws_plain w1 w2 w3 s :
  (∀ b r, s = b :: r → w1 b = false ∧ (∀ c, w2 b c = false) ∧ ∀ c d, w3 b c d = false) →
  strip_ws w1 w2 w3 s = s.
Proof.
  destruct s as [|a [|b [|c s]]]; intros H; [done|..];
    destruct (H _ _ eq_refl) as (H1 & H2 & H3); cbn; rewrite H1; [done|..];
    rewrite H2; [done|]; by rewrite H3.
Qed.

Lemma trim_graphic s : forallb is_graphic s = true → trim s = s.
Proof.
  intros Hs. rewrite forallb_forall in Hs.
  unfold trim, trim_end, trim_start. rewrite (strip_ws_plain ws1 ws2 ws3 s).
  - rewrite strip_ws_plain; [apply rev_involutive|].
    intros b r Hb. assert (is_graphic b = true) as Hg.
    { apply Hs, in_rev. rewrite Hb. by left. }
    destruct (graphic_not_ws b Hg) as (? & ? & ? & ? & ? & ?). bool_to_prop.
    split_and!; [done | intros; apply ws2_false; lia | intros; apply ws3_false; lia].
  - intros b r ->. destruct (graphic_not_ws b (Hs b (or_introl eq_refl))) as (?&?&?&?&?&?).
    bool_to_prop.
    split_and!; [done | intros; apply ws2_false; lia | intros; apply ws3_false; lia].
Qed.

Lemma digit_graphic b : is_Some (digit_val b) → is_graphic b = true.
Proof. unfold digit_val, is_digit, is_graphic, in_range. case_match; [|by intros [? ?]]. intros _. bool_to_prop.
  rewrite andb_true_iff, !N.leb_le. lia. Qed.

Lemma show_graphic n : forallb is_graphic (show n) = true.
Proof.
  destruct (show_writes n) as (_ & Hv & _). apply digits_val_Forall in Hv.
  apply forallb_forall. intros b Hb. rewrite Forall_forall in Hv.
  by apply digit_graphic, Hv, list_elem_of_In.
Qed.

(** ** Prefixes and suffixes *)

Lemma starts_with_spec p s : starts_with p s = true ↔ ∃ r, s = p ++ r.
Proof.
  revert s. induction p as [|a p IH]; intros s; cbn; [split; eauto|].
  destruct s as [|b s]; [split; [done | by intros [? ?]]|].
  case_decide as E.
  - subst. rewrite IH. split; intros [r Hr]; exists r; cbn in *; congruence.
  - split; [done|]. intros [r [= ? ?]]. congruence.
Qed.

Lemma ends_with_spec p s : ends_with p s = true ↔ ∃ q, s = q ++ p.
Proof.
  unfold ends_with. rewrite starts_with_spec. split.
  - intros [r Hr]. exists (rev r). by rewrite <- (rev_involutive s), Hr, rev_app_distr, rev_involutive.
  - intros [q ->]. exists (rev q). apply rev_app_distr.
Qed.

(** ** Searching in a prefix *)

Lemma starts_with_app_iff p c r :
  length p ≤ length c → starts_with p (c ++ r) = starts_with p c.
Proof.
  revert c. induction p as [|a p IH]; intros [|b c] Hl; cbn in *; try done; try lia.
  rewrite IH by lia. done.
Qed.

Lemma starts_with_length p s : starts_with p s = true → length p ≤ length s.
Proof. intros [r ->]%starts_with_spec. rewrite length_app. lia. Qed.

Lemma find_sub_bound p s k : find_sub p s = Some k → k + length p ≤ length s.
Proof.
  revert k. induction s as [|b s IH]; intros k; cbn; destruct (starts_with p _) eqn:E; [|done| |].
  - intros [= <-]. apply starts_with_length in E. done.
  - intros [= <-]. apply starts_with_length in E. done.
  - destruct (find_sub p s) as [j|]; [|done]. intros [= <-]. specialize (IH j eq_refl). lia.
Qed.

(** An occurrence is found in a prefix as soon as the prefix contains it. *)
Lemma find_sub_prefix p c r i :
  p ≠ [] → find_sub p (c ++ r) = Some i →
  find_sub p c = if i + length p <=? length c then Some i else None.
Proof.
  intros Hp. revert i. induction c as [|a c IH]; intros i.
  - intros _. destruct p as [|x p]; [done|]. cbn.
    by rewrite (proj2 (Nat.leb_gt _ _)) by lia.
  - cbn [app find_sub length]. destruct (starts_with p (a :: c ++ r)) eqn:E.
    + intros [= <-]. destruct (Nat.leb_spec (0 + length p) (S (length c))) as [Hl|Hl].
      * change (a :: c ++ r) with ((a :: c) ++ r) in E.
        rewrite starts_with_app_iff in E by (cbn; lia). by rewrite E.
      * destruct (starts_with p (a :: c)) eqn:E2; [apply starts_with_length in E2; cbn in E2; lia|].
        destruct (find_sub p c) as [j|] eqn:E3; [|done]. exfalso.
        apply find_sub_bound in E3. lia.
    + destruct (find_sub p (c ++ r)) as [j|] eqn:Ej; [|done]. intros [= <-].
      rewrite (IH j eq_refl).
      assert (starts_with p (a :: c) = false) as ->.
      { destruct (starts_with p (a :: c)) eqn:E2; [|done].
        apply starts_with_spec in E2 as [q Hq]. change (a :: c ++ r) with ((a :: c) ++ r) in E.
        rewrite Hq, <- app_assoc in E. rewrite (proj2 (starts_with_spec p _)) in E; [done|]. eauto. }
      cbn [Nat.add Nat.leb]. by destruct (j + length p <=? length c).
Qed.

Lemma find_sub_app_l p c r i : find_sub p c = Some i → find_sub p (c ++ r) = Some i.
Proof.
  revert i. induction c as [|a c IH]; intros i.
  - cbn [find_sub]. destruct (starts_with p []) eqn:E; [|done]. intros [= <-].
    apply starts_with_spec in E as [q Hq]. destruct p; [|done]. by destruct r.
  - cbn [app find_sub]. destruct (starts_with p (a :: c)) eqn:E.
    + intros [= <-]. apply starts_with_spec in E as [q Hq].
      change (a :: c ++ r) with ((a :: c) ++ r).
      rewrite Hq, <- app_assoc. by rewrite (proj2 (starts_with_spec p _)) by eauto.
    + destruct (find_sub p c) as [j|] eqn:Ej; [|done]. intros [= <-].
      change (a :: c ++ r) with ((a :: c) ++ r). apply find_sub_bound in Ej.
      rewrite starts_with_app_iff by (cbn; lia). by rewrite E, (IH j).
Qed.

(** ** Lossy decoding *)

(** U+FFFD, and [String::from_utf8_lossy]: one replacement for each maximal part that starts
    like a character and does not continue as one. *)
Definition REPLACEMENT : bytes := [xef; xbf; xbd].

Definition second_range (a b : Byte.byte) : bool :=
  if (bn a =? 224)%N then in_range 160 191 b else
  if (bn a =? 237)%N then in_range 128 159 b else
  if in_range 225 239 a then is_cont b else
  if (bn a =? 240)%N then in_range 144 191 b else
  if in_range 241 243 a then is_cont b else
  if (bn a =? 244)%N then in_range 128 143 b else false.

Fixpoint utf8_lossy (s : bytes) : bytes :=
  match s with
  | [] => []
  | a :: s1 =>
      if is_ascii a then a :: utf8_lossy s1 else
      match s1 with
      | [] => REPLACEMENT
      | b :: s2 =>
          if in_range 194 223 a then
            if is_cont b then a :: b :: utf8_lossy s2 else REPLACEMENT ++ utf8_lossy s1
          else if negb (second_range a b) then REPLACEMENT ++ utf8_lossy s1 else
          match s2 with
          | [] => REPLACEMENT
          | c :: s3 =>
              if negb (is_cont c) then REPLACEMENT ++ utf8_lossy s2 else
              if in_range 224 239 a then a :: b :: c :: utf8_lossy s3 else
              match s3 with
              | [] => REPLACEMENT
              | d :: s4 =>
                  if is_cont d then a :: b :: c :: d :: utf8_lossy s4
                  else REPLACEMENT ++ utf8_lossy s3
              end
          end
      end
  end.

(** ** Character boundaries *)

Lemma ascii_not_cont b : is_ascii b = true → is_cont b = false.
Proof.
  revert b. assert (∀ b, implb (is_ascii b) (negb (is_cont b)) = true) as Hb
    by (apply byte_forall; by vm_compute).
  intros b Ha. specialize (Hb b). rewrite Ha in Hb. by apply negb_true_iff.
Qed.

(** A valid string does not start with a continuation byte. *)
Lemma utf8_head b s : utf8_valid (b :: s) = true → is_cont b = false.
Proof.
  destruct (is_ascii b) eqn:Ha; [intros _; by apply ascii_not_cont|].
  cbn [utf8_valid]. rewrite Ha. intros Hv. destruct (is_cont b) eqn:Hc; [|done]. exfalso.
  assert (∀ b, implb (is_cont b) (negb (in_range 194 223 b) && negb (bn b =? 224)%N
    && negb (bn b =? 237)%N && negb (in_range 225 239 b) && negb (bn b =? 240)%N
    && negb (in_range 241 243 b) && negb (bn b =? 244)%N) = true) as Hb
    by (apply byte_forall; by vm_compute).
  specialize (Hb b). rewrite Hc in Hb. cbn [implb] in Hb. bool_to_prop.
  repeat match goal with H : _ = false |- _ => rewrite H in Hv end.
  repeat match goal with H : bn b ≠ _ |- _ => apply N.eqb_neq in H; rewrite H in Hv end.
  destruct s as [|? [|? [|? ?]]]; done.
Qed.

Lemma cont_not_ascii x : is_cont x = true → is_ascii x = false.
Proof. intros Hx. destruct (is_ascii x) eqn:E; [|done]. by rewrite ascii_not_cont in Hx. Qed.
Lemma range_not_ascii lo hi x : (128 <=? lo)%N = true → in_range lo hi x = true → is_ascii x = false.
Proof. unfold in_range, is_ascii. intros Hlo Hx. bool_to_prop. apply N.ltb_ge. lia. Qed.

(** The bytes of a character that is not ASCII, and the rest of the string. *)
Ltac non_ascii_char c r :=
  exists c, r; split; [done|]; split; [done|];
  repeat (apply Forall_cons; split;
    [first [done | by apply cont_not_ascii | by eapply range_not_ascii; [|eassumption]]|]);
  constructor.

(** The tail after one character. *)
Lemma utf8_step b s :
  utf8_valid (b :: s) = true →
  (is_ascii b = true ∧ utf8_valid s = true)
  ∨ ∃ c r, s = c ++ r ∧ utf8_valid r = true ∧ Forall (λ x, is_ascii x = false) (b :: c).
Proof.
  cbn [utf8_valid]. intros Hv. destruct (is_ascii b) eqn:Ha; [by left|]. right. revert Hv.
  destruct s as [|b1 s2]; [done|].
  destruct (in_range 194 223 b).
  { intros [H1 Hv]%andb_prop. non_ascii_char [b1] s2. }
  destruct s2 as [|b2 s3]; [done|].
  destruct (bn b =? 224)%N; [intros [[H1 H2]%andb_prop Hv]%andb_prop; non_ascii_char [b1; b2] s3|].
  destruct (bn b =? 237)%N; [intros [[H1 H2]%andb_prop Hv]%andb_prop; non_ascii_char [b1; b2] s3|].
  destruct (in_range 225 239 b); [intros [[H1 H2]%andb_prop Hv]%andb_prop; non_ascii_char [b1; b2] s3|].
  destruct s3 as [|b3 s4]; [done|].
  destruct (bn b =? 240)%N;
    [intros [[[H1 H2]%andb_prop H3]%andb_prop Hv]%andb_prop; non_ascii_char [b1; b2; b3] s4|].
  destruct (in_range 241 243 b);
    [intros [[[H1 H2]%andb_prop H3]%andb_prop Hv]%andb_prop; non_ascii_char [b1; b2; b3] s4|].
  destruct (bn b =? 244)%N; [|done].
  intros [[[H1 H2]%andb_prop H3]%andb_prop Hv]%andb_prop; non_ascii_char [b1; b2; b3] s4.
Qed.

(** What follows an ASCII character starts a character. *)
Lemma utf8_after_ascii s i a c :
  utf8_valid s = true → s !! i = Some a → is_ascii a = true → s !! S i = Some c → is_cont c = false.
Proof.
  revert i. induction s as [s IH] using (induction_ltof1 _ length). unfold ltof in IH.
  intros i Hv Hi Ha Hc. destruct s as [|b s]; [done|].
  destruct (utf8_step _ _ Hv) as [[_ Hv']|(q & r & -> & Hv' & Hq)].
  - destruct i as [|i]; cbn in Hi, Hc; [|by apply (IH s ltac:(cbn; lia) i)].
    destruct s as [|c' s]; [done|]. injection Hc as ->. by eapply utf8_head.
  - destruct (Nat.ltb_spec i (length (b :: q))) as [Hlt|Hge].
    + change (b :: q ++ r) with ((b :: q) ++ r) in Hi. rewrite lookup_app_l in Hi by done.
      rewrite Forall_lookup in Hq. rewrite (Hq i a Hi) in Ha. done.
    + change (b :: q ++ r) with ((b :: q) ++ r) in Hi, Hc. rewrite lookup_app_r in Hi, Hc by (cbn in *; lia).
      apply (IH r ltac:(cbn; rewrite length_app; lia) (i - length (b :: q))); [done..|].
      rewrite <- Hc. f_equal. cbn in *. lia.
Qed.

(** A line of a text is a part of it. *)
Lemma strip_cr_part x : ∃ q, x = strip_cr x ++ q.
Proof.
  unfold strip_cr. destruct (rev x) as [|c r] eqn:E; [exists []; by rewrite app_nil_r|].
  case_decide; [|exists []; by rewrite app_nil_r]. exists [c].
  rewrite <- (rev_involutive x), E. done.
Qed.

Lemma lines_aux_part cur s l : l ∈ lines_aux cur s → ∃ p q, rev cur ++ s = p ++ l ++ q.
Proof.
  revert cur. induction s as [|b s IH]; intros cur.
  - cbn [lines_aux]. case_decide; [by intros ?%elem_of_nil|].
    intros ->%list_elem_of_singleton. exists [], []. by rewrite !app_nil_r.
  - cbn [lines_aux]. case_decide as Hb.
    + intros [->|Hl]%elem_of_cons.
      * destruct (strip_cr_part (rev cur)) as [q Hq]. exists [], (q ++ b :: s).
        cbn [app]. rewrite app_assoc. by rewrite <- Hq.
      * destruct (IH [] Hl) as (p & q & Hpq). cbn [rev app] in Hpq.
        exists (rev cur ++ b :: p), q. rewrite Hpq, <- app_assoc. done.
    + intros (p & q & Hpq)%IH. exists p, q. rewrite <- Hpq. cbn [rev]. by rewrite <- app_assoc.
Qed.

Lemma lines_part s l : l ∈ lines s → ∃ p q, s = p ++ l ++ q.
Proof. apply (lines_aux_part []). Qed.

(** ** Positions of a byte *)

Lemma find_byte_app c s t : c ∉ s → find_byte c (s ++ c :: t) = Some (length s).
Proof.
  induction s as [|b s IH]; intros Hc; cbn; [by rewrite decide_True|].
  apply not_elem_of_cons in Hc as [Hb Hc]. rewrite decide_False by done. by rewrite IH.
Qed.

Lemma rfind_byte_none c s : c ∉ s → rfind_byte c s = None.
Proof.
  induction s as [|b s IH]; intros Hc; cbn; [done|].
  apply not_elem_of_cons in Hc as [Hb Hc]. by rewrite IH, decide_False.
Qed.

Lemma rfind_byte_app c s t : c ∉ t → rfind_byte c (s ++ c :: t) = Some (length s).
Proof.
  intros Hc. induction s as [|b s IH]; cbn.
  - by rewrite rfind_byte_none, decide_True.
  - by rewrite IH.
Qed.

Lemma show_not_elem c n : digit_val c = None → c ∉ show n.
Proof.
  intros Hc Hin. destruct (show_writes n) as (_ & Hv & _). apply digits_val_Forall in Hv.
  rewrite list.Forall_forall in Hv. destruct (Hv c Hin) as [v Hd]. congruence.
Qed.

Lemma graphic_not_cont b : is_graphic b = true → is_cont b = false.
Proof.
  assert (∀ b, implb (is_graphic b) (negb (is_cont b)) = true) as Hb
    by (apply byte_forall; by vm_compute).
  intros Hg. specialize (Hb b). rewrite Hg in Hb. by apply negb_true_iff.
Qed.

Lemma drop_S_app (s : bytes) c t : drop (S (length s)) (s ++ c :: t) = t.
Proof. induction s as [|b s IH]; [done | exact IH]. Qed.
