(* ===== verification/TextLines.v ===== *)
(** Lemmas on [lines] and [trim] together: the trimmed lines of a text, which is what the
    readers of line-based files look at. *)

From S2P Require Import Prelude RustStr.

(** [out.push_str(line); out.push('\n')] for each line. *)
Definition unlines (ls : list bytes) : bytes := mjoin ((λ l, l ++ [LF]) <$> ls).

Definition trimmed_lines (s : bytes) : list bytes := trim <$> lines s.

(** * White space *)

Section strip.
Context (w1 : Byte.byte → bool) (w2 : Byte.byte → Byte.byte → bool)
        (w3 : Byte.byte → Byte.byte → Byte.byte → bool).
Abbreviation strip := (strip_ws w1 w2 w3).

(** Induction along [strip_ws]. *)
Lemma strip_ind (P : bytes → Prop) :
  P [] →
  (∀ a s, w1 a = true → P s → P (a :: s)) →
  (∀ a b s, w1 a = false → w2 a b = true → P s → P (a :: b :: s)) →
  (∀ a b c s, w1 a = false → w2 a b = false → w3 a b c = true → P s → P (a :: b :: c :: s)) →
  (∀ a s, strip (a :: s) = a :: s → P (a :: s)) →
  ∀ s, P s.
Proof.
  intros Hnil H1 H2 H3 Hstop s. remember (length s) as n eqn:Hn.
  revert s Hn. induction (lt_wf n) as [n _ IH]. intros s ->.
  destruct s as [|a s]; [done|].
  destruct (w1 a) eqn:Ea; [apply H1; [done|]; eapply IH; [|done]; cbn; lia|].
  destruct s as [|b s]; [apply Hstop; cbn; by rewrite Ea|].
  destruct (w2 a b) eqn:Eb; [apply H2; [done..|]; eapply IH; [|done]; cbn; lia|].
  destruct s as [|c s]; [apply Hstop; cbn; by rewrite Ea, Eb|].
  destruct (w3 a b c) eqn:Ec; [apply H3; [done..|]; eapply IH; [|done]; cbn; lia|].
  apply Hstop. cbn. by rewrite Ea, Eb, Ec.
Qed.

Lemma strip_length s : length (strip s) ≤ length s.
Proof.
  induction s as [|a s Ha IH|a b s Ha Hb IH|a b c s Ha Hb Hc IH|a s Hs] using strip_ind;
    [done | | | | by rewrite Hs]; cbn; rewrite ?Ha, ?Hb, ?Hc; cbn; lia.
Qed.

Lemma strip_idemp s : strip (strip s) = strip s.
Proof.
  induction s as [|a s Ha IH|a b s Ha Hb IH|a b c s Ha Hb Hc IH|a s Hs] using strip_ind;
    [done | by cbn; rewrite Ha | by cbn; rewrite Ha, Hb | by cbn; rewrite Ha, Hb, Hc | by rewrite !Hs].
Qed.

(** A text that is left as it is starts with no white space. *)
Lemma strip_stops a s :
  strip (a :: s) = a :: s →
  w1 a = false ∧ (∀ b r, s = b :: r → w2 a b = false)
  ∧ (∀ b c r, s = b :: c :: r → w3 a b c = false).
Proof.
  assert (∀ r l : bytes, strip r ≠ l ++ r ∨ l = []) as Hne.
  { intros r l. destruct l as [|x l]; [by right|left]. intros E. pose proof (strip_length r) as Hl.
    rewrite E, length_app in Hl. cbn in Hl. lia. }
  intros Hs. cbn in Hs. destruct (w1 a) eqn:Ea; [by destruct (Hne s [a])|].
  split; [done|]. destruct s as [|b s]; [done|].
  destruct (w2 a b) eqn:Eb; [by destruct (Hne s [a; b])|].
  split; [by intros ? ? [= <- <-]|]. destruct s as [|c s]; [done|].
  destruct (w3 a b c) eqn:Ec; [by destruct (Hne s [a; b; c])|]. by intros ? ? ? [= <- <- <-].
Qed.

(** Past a character that is white space on its own and part of no other. *)
Lemma strip_app x c y :
  w1 c = true → (∀ a, w2 a c = false) → (∀ a b, w3 a b c = false) → (∀ a b, w3 a c b = false) →
  strip (x ++ c :: y) = match strip x with [] => strip y | r => r ++ c :: y end.
Proof.
  intros H1 H2 H3 H3'.
  induction x as [|a s Ha IH|a b s Ha Hb IH|a b d s Ha Hb Hd IH|a s Hs] using strip_ind.
  - cbn. by rewrite H1.
  - cbn. by rewrite Ha.
  - cbn. by rewrite Ha, Hb.
  - cbn. by rewrite Ha, Hb, Hd.
  - rewrite Hs. apply strip_stops in Hs as (Ea & Eb & Ec).
    destruct s as [|b [|d s]]; cbn; rewrite Ea.
    + rewrite H2. destruct y; by rewrite ?H3'.
    + by rewrite (Eb b []), H3.
    + by rewrite (Eb b (d :: s)), (Ec b d s).
Qed.
End strip.

Lemma ascii_ws c :
  ws1 c = true →
  (∀ a, ws2 a c = false) ∧ (∀ a, ws2 c a = false) ∧ (∀ a b, ws3 a b c = false)
  ∧ (∀ a b, ws3 a c b = false) ∧ (∀ a b, ws3 c a b = false).
Proof.
  intros Hc. assert (bn c < 128)%N as Hlt.
  { unfold ws1, in_range in Hc. apply orb_prop in Hc as [Hc|Hc]; bool_to_prop; lia. }
  split_and!; intros; (apply ws2_false || apply ws3_false); lia.
Qed.

Lemma trim_start_app x c y :
  ws1 c = true → trim_start (x ++ c :: y) = match trim_start x with [] => trim_start y | r => r ++ c :: y end.
Proof.
  intros Hc. destruct (ascii_ws c Hc) as (? & ? & ? & ? & ?). by apply strip_app.
Qed.

Lemma trim_end_ws x c : ws1 c = true → trim_end (x ++ [c]) = trim_end x.
Proof. intros Hc. unfold trim_end. rewrite rev_app_distr. cbn [rev app strip_ws]. by rewrite Hc. Qed.

Lemma trim_ws_r x c : ws1 c = true → trim (x ++ [c]) = trim x.
Proof.
  intros Hc. unfold trim. rewrite trim_start_app by done.
  destruct (trim_start x) as [|a r] eqn:E; [done|].
  change ((a :: r) ++ [c]) with ((a :: r) ++ [c]). by apply trim_end_ws.
Qed.

Lemma ws3_not_ws2 a b c : ws3 a b c = true → ws2 a b = false.
Proof.
  intros H3. apply not_true_is_false. intros H2. unfold ws2 in H2. apply andb_prop in H2 as [Ha%N.eqb_eq _].
  unfold ws3 in H3. rewrite Ha in H3. cbn in H3. done.
Qed.

(** A text of white space is one from either end. *)
Lemma strip_rev s y :
  strip_ws ws1 (λ a b, ws2 b a) (λ a b c, ws3 c b a) s = [] → trim_start (rev s ++ y) = trim_start y.
Proof.
  revert y. induction s as [|a s Ha IH|a b s Ha Hb IH|a b c s Ha Hb Hc IH|a s Hs] using
    (strip_ind ws1 (λ a b, ws2 b a) (λ a b c, ws3 c b a)); intros y.
  - done.
  - cbn [strip_ws]. rewrite Ha. intros Hs. cbn [rev]. rewrite <- app_assoc. rewrite IH by done.
    cbn. unfold trim_start. cbn. by rewrite Ha.
  - cbn [strip_ws]. rewrite Ha, Hb. intros Hs. cbn [rev]. rewrite <- !app_assoc, IH by done.
    unfold trim_start. cbn. rewrite Hb. destruct (ws1 b) eqn:E; [|done].
    destruct (ascii_ws b E) as (_ & Hf & _). by rewrite Hf in Hb.
  - cbn [strip_ws]. rewrite Ha, Hb, Hc. intros Hs. cbn [rev]. rewrite <- !app_assoc, IH by done.
    unfold trim_start. cbn. rewrite Hc. destruct (ws1 c) eqn:E.
    { destruct (ascii_ws c E) as (_ & _ & _ & _ & Hf). by rewrite Hf in Hc. }
    by rewrite (ws3_not_ws2 _ _ _ Hc).
  - rewrite Hs. done.
Qed.

Lemma trim_nil s : trim s = [] → trim_start s = [].
Proof.
  unfold trim, trim_end. intros H. apply (f_equal (@rev _)) in H. rewrite rev_involutive in H. cbn in H.
  apply (strip_rev _ []) in H. rewrite rev_involutive, !app_nil_r in H. cbn in H.
  unfold trim_start in *. by rewrite strip_idemp in H.
Qed.

Lemma trim_blank s : trim_start s = [] → trim s = [].
Proof. unfold trim. by intros ->. Qed.

Lemma trim_strip_cr l : trim (strip_cr l) = trim l.
Proof.
  unfold strip_cr. destruct (rev l) as [|c r] eqn:E; [done|].
  case_decide as Hc; [|done]. subst. rewrite <- (rev_involutive l), E. cbn [rev]. by rewrite trim_ws_r.
Qed.

(** Graphic characters at both ends. *)
Lemma trim_ends s a z : head s = Some a → last s = Some z →
  is_graphic a = true → is_graphic z = true → trim s = s.
Proof.
  intros Ha Hz Hga Hgz.
  destruct (graphic_not_ws a Hga) as (Ha1 & _ & _ & _ & _ & Ha2%N.ltb_lt).
  destruct (graphic_not_ws z Hgz) as (Hz1 & _ & _ & _ & _ & Hz2%N.ltb_lt).
  unfold trim, trim_end, trim_start. rewrite (strip_ws_plain ws1 ws2 ws3 s).
  - rewrite strip_ws_plain; [apply rev_involutive|]. intros b r Hb.
    assert (b = z) as ->.
    { rewrite <- (rev_involutive s), Hb in Hz. cbn [rev] in Hz. rewrite last_snoc in Hz. by injection Hz. }
    split_and!; [done | intros; apply ws2_false; by right | intros; apply ws3_false; by right; right].
  - intros b r ->. injection Ha as ->.
    split_and!; [done | intros; apply ws2_false; by left | intros; apply ws3_false; by left].
Qed.

(** * Lines *)

Lemma lines_aux_line cur l s : LF ∉ l →
  lines_aux cur (l ++ LF :: s) = strip_cr (rev cur ++ l) :: lines s.
Proof.
  revert cur. induction l as [|b l IH]; intros cur Hl.
  - cbn. by rewrite app_nil_r.
  - apply not_elem_of_cons in Hl as [Hb Hl]. cbn [app lines_aux]. rewrite decide_False by done.
    rewrite IH by done. cbn [rev]. by rewrite <- app_assoc.
Qed.

Lemma lines_line l s : LF ∉ l → lines (l ++ LF :: s) = strip_cr l :: lines s.
Proof. intros Hl. unfold lines at 1. by rewrite lines_aux_line. Qed.

Lemma unlines_cons l ls : unlines (l :: ls) = l ++ LF :: unlines ls.
Proof. unfold unlines. cbn. by rewrite <- app_assoc. Qed.

Lemma unlines_app ls ls' : unlines (ls ++ ls') = unlines ls ++ unlines ls'.
Proof.
  induction ls as [|l ls IH]; [done|]. cbn [app]. by rewrite !unlines_cons, IH, <- app_assoc.
Qed.

Lemma elem_of_rev {A} (x : A) l : x ∈ rev l ↔ x ∈ l.
Proof. by rewrite !list_elem_of_In, <- in_rev. Qed.

Lemma lines_no_LF s l : l ∈ lines s → LF ∉ l.
Proof.
  assert (∀ cur, LF ∉ cur → l ∈ lines_aux cur s → LF ∉ l) as H; [|exact (H [] ltac:(apply not_elem_of_nil))].
  induction s as [|b s IH]; intros cur Hc; cbn [lines_aux].
  - case_decide; [by intros ?%elem_of_nil|]. intros ->%list_elem_of_singleton Hin. apply Hc. by apply (elem_of_rev LF cur).
  - case_decide as Hb.
    + intros [->|Hl]%elem_of_cons; [|by eapply (IH []); [apply not_elem_of_nil|]].
      destruct (strip_cr_part (rev cur)) as [q Hq]. intros Hin.
      apply Hc, (elem_of_rev LF cur). rewrite Hq. apply elem_of_app. by left.
    + apply IH. apply not_elem_of_cons. split; [congruence | done].
Qed.

(** Lines as [lines] returns them: without a line feed, and without a carriage return at the end. *)
Definition plain_line (l : bytes) : Prop := LF ∉ l ∧ strip_cr l = l.

Lemma lines_unlines ls : Forall plain_line ls → lines (unlines ls) = ls.
Proof.
  induction 1 as [|l ls [Hl Hcr] _ IH]; [done|]. by rewrite unlines_cons, lines_line, Hcr, IH.
Qed.

Lemma utf8_valid_app x y : utf8_valid x = true → utf8_valid y = true → utf8_valid (x ++ y) = true.
Proof.
  intros Hx Hy. revert Hx. remember (length x) as n eqn:Hn. revert x Hn.
  induction (lt_wf n) as [n _ IH]. intros x -> Hx.
  assert (∀ k p z, drop (S k) x = z → x ≠ [] → p && utf8_valid z = true → p && utf8_valid (z ++ y) = true) as IH'.
  { intros k p z <- Hne [-> Hv]%andb_prop. apply (IH (length (drop (S k) x))); [|done..]. rewrite length_drop.
    destruct x; [done|]. cbn [length]. lia. }
  clear IH. destruct x as [|a s1]; [done|]. cbn [app utf8_valid] in *.
  destruct (is_ascii a); [by apply (IH' 0 true)|]. destruct s1 as [|b s2]; [done|]. cbn [app] in *.
  destruct (in_range 194 223 a); [by apply (IH' 1)|]. destruct s2 as [|c s3]; [done|]. cbn [app] in *.
  do 3 (match goal with |- (if ?e then _ else _) = _ => destruct e end; [by apply (IH' 2)|]).
  destruct s3 as [|d s4]; [done|]. cbn [app] in *.
  do 3 (match goal with |- (if ?e then _ else _) = _ => destruct e end; [by apply (IH' 3)|]). done.
Qed.

Lemma trimmed_lines_line l s : LF ∉ l → trimmed_lines (l ++ LF :: s) = trim l :: trimmed_lines s.
Proof. intros Hl. unfold trimmed_lines. rewrite lines_line by done. cbn. by rewrite trim_strip_cr. Qed.

Lemma trimmed_lines_unlines ls s : Forall (λ l, LF ∉ l) ls →
  trimmed_lines (unlines ls ++ s) = (trim <$> ls) ++ trimmed_lines s.
Proof.
  induction 1 as [|l ls Hl _ IH]; [done|].
  rewrite unlines_cons, <- app_assoc. cbn [app]. rewrite trimmed_lines_line by done. by rewrite IH.
Qed.

Lemma trimmed_lines_unlines' ls : Forall (λ l, LF ∉ l) ls → trimmed_lines (unlines ls) = trim <$> ls.
Proof.
  intros Hl. rewrite <- (app_nil_r (unlines ls)), trimmed_lines_unlines by done. apply app_nil_r.
Qed.

(** Lines that a test on the trimmed line keeps. *)
Lemma trimmed_lines_filter (P : bytes → Prop) `{∀ t, Decision (P t)} s rest :
  trimmed_lines (unlines (filter (λ l, P (trim l)) (lines s)) ++ rest)
  = filter P (trimmed_lines s) ++ trimmed_lines rest.
Proof.
  rewrite trimmed_lines_unlines.
  - f_equal. unfold trimmed_lines. by rewrite filter_fmap_comm.
  - apply list.Forall_forall. intros l [_ Hl]%list_elem_of_filter. by eapply lines_no_LF.
Qed.

(** A blank text has blank lines. *)
Lemma blank_lines s : trim s = [] → Forall (λ t, t = []) (trimmed_lines s).
Proof.
  intros Hs%trim_nil. unfold trimmed_lines.
  assert (∀ cur, trim_start (rev cur ++ s) = [] → Forall (λ t, t = []) (trim <$> lines_aux cur s)) as H;
    [|by apply (H [])].
  clear Hs. induction s as [|b s IH]; intros cur Hc; cbn [lines_aux].
  - rewrite app_nil_r in Hc. case_decide; [constructor|]. constructor; [|constructor]. by apply trim_blank.
  - case_decide as Hb.
    + subst. rewrite trim_start_app in Hc by done. destruct (trim_start (rev cur)) eqn:E; [|done].
      cbn. constructor; [|by apply (IH [])]. rewrite trim_strip_cr. by apply trim_blank.
    + apply IH. cbn [rev]. by rewrite <- app_assoc.
Qed.
