(* ===== verification/Collections.v ===== *)
(** The standard collections: the order of [String]s (byte-wise), the sorted keys of
    a [BTreeMap], and the iteration order of a [HashMap], which Rust leaves
    unspecified and the program sometimes depends on. *)

From S2P Require Import Prelude RustStr.

(** * [Ord for str] *)

Fixpoint bcmp (s t : bytes) : comparison :=
  match s, t with
  | [], [] => Eq
  | [], _ :: _ => Lt
  | _ :: _, [] => Gt
  | a :: s', b :: t' =>
      match (bn a ?= bn b)%N with Eq => bcmp s' t' | c => c end
  end.

Definition bytes_le (s t : bytes) : Prop := bcmp s t ≠ Gt.
#[global] Instance bytes_le_dec : RelDecision bytes_le.
Proof. unfold bytes_le. intros s t. apply _. Defined.

Lemma bcmp_eq s t : bcmp s t = Eq ↔ s = t.
Proof.
  revert t. induction s as [|a s IH]; intros [|b t]; cbn; try done.
  destruct (N.compare_spec (bn a) (bn b)) as [E|E|E].
  - apply bn_inj in E as ->. rewrite IH. split; [by intros -> | by intros [= ->]].
  - split; [done|]. intros [= -> _]. lia.
  - split; [done|]. intros [= -> _]. lia.
Qed.

Lemma bcmp_opp s t : bcmp t s = CompOpp (bcmp s t).
Proof.
  revert t. induction s as [|a s IH]; intros [|b t]; cbn; try done.
  rewrite (N.compare_antisym (bn a) (bn b)).
  destruct (bn a ?= bn b)%N; cbn; [apply IH | done | done].
Qed.

Lemma bcmp_lt_trans s t u : bcmp s t = Lt → bcmp t u = Lt → bcmp s u = Lt.
Proof.
  revert t u. induction s as [|a s IH]; intros [|b t] [|c u]; cbn; try done.
  destruct (N.compare_spec (bn a) (bn b)), (N.compare_spec (bn b) (bn c)),
    (N.compare_spec (bn a) (bn c)); try done; try lia. apply IH.
Qed.

#[global] Instance bytes_le_refl : Reflexive bytes_le.
Proof. intros s. unfold bytes_le. by rewrite (proj2 (bcmp_eq s s)). Qed.

#[global] Instance bytes_le_antisymm : AntiSymm eq bytes_le.
Proof.
  intros s t. unfold bytes_le. rewrite (bcmp_opp s t). intros H1 H2. apply bcmp_eq.
  by destruct (bcmp s t).
Qed.

#[global] Instance bytes_le_trans : Transitive bytes_le.
Proof.
  intros s t u. unfold bytes_le.
  destruct (bcmp s t) eqn:E; [apply bcmp_eq in E as ->; done | | done]. intros _.
  destruct (bcmp t u) eqn:E'; [apply bcmp_eq in E' as -> | | done]; intros _.
  - by rewrite E.
  - by rewrite (bcmp_lt_trans s t u).
Qed.

#[global] Instance bytes_le_total : Total bytes_le.
Proof.
  intros s t. unfold bytes_le. rewrite (bcmp_opp s t). destruct (bcmp s t); cbn; auto.
Qed.

(** * [BTreeMap] *)

Definition keys {A} (m : gmap bytes A) : list bytes := (map_to_list m).*1.
Definition sorted_keys {A} (m : gmap bytes A) : list bytes := merge_sort bytes_le (keys m).
(** The entries in the order of the keys: [BTreeMap::iter]. *)
Definition sorted_entries {A} (m : gmap bytes A) : list (bytes * A) :=
  omap (λ k, v ← m !! k; Some (k, v)) (sorted_keys m).

Lemma elem_of_keys {A} (m : gmap bytes A) k : k ∈ keys m ↔ is_Some (m !! k).
Proof.
  unfold keys. rewrite list_elem_of_fmap. split.
  - intros ([k' v] & -> & Hk%elem_of_map_to_list). eauto.
  - intros [v Hv]. exists (k, v). by rewrite elem_of_map_to_list.
Qed.

Lemma NoDup_keys {A} (m : gmap bytes A) : NoDup (keys m).
Proof. apply NoDup_fst_map_to_list. Qed.

Lemma sorted_keys_perm {A} (m : gmap bytes A) : sorted_keys m ≡ₚ keys m.
Proof. apply merge_sort_Permutation. Qed.

Lemma elem_of_sorted_keys {A} (m : gmap bytes A) k : k ∈ sorted_keys m ↔ is_Some (m !! k).
Proof. by rewrite sorted_keys_perm, elem_of_keys. Qed.

Lemma NoDup_sorted_keys {A} (m : gmap bytes A) : NoDup (sorted_keys m).
Proof. rewrite sorted_keys_perm. apply NoDup_keys. Qed.

Lemma sorted_keys_sorted {A} (m : gmap bytes A) : StronglySorted bytes_le (sorted_keys m).
Proof. apply StronglySorted_merge_sort; apply _. Qed.

Lemma sorted_entries_keys {A} (m : gmap bytes A) : (sorted_entries m).*1 = sorted_keys m.
Proof.
  unfold sorted_entries.
  assert (∀ k, k ∈ sorted_keys m → is_Some (m !! k)) as H by apply elem_of_sorted_keys.
  induction (sorted_keys m) as [|k ks IH]; [done|]. cbn.
  destruct (H k ltac:(left)) as [v Hv]. rewrite Hv. cbn. f_equal.
  apply IH. intros k' Hk'. apply H. by right.
Qed.

Lemma elem_of_sorted_entries {A} (m : gmap bytes A) k v :
  (k, v) ∈ sorted_entries m ↔ m !! k = Some v.
Proof.
  unfold sorted_entries. rewrite list_elem_of_omap. split.
  - intros (k' & _ & H). destruct (m !! k') eqn:E; [|done]. cbn in H. by simplify_eq.
  - intros H. exists k. rewrite elem_of_sorted_keys, H. by eauto.
Qed.

Lemma sorted_entries_perm {A} (m : gmap bytes A) : sorted_entries m ≡ₚ map_to_list m.
Proof.
  apply NoDup_Permutation.
  - apply (NoDup_fmap_1 fst). rewrite sorted_entries_keys. apply NoDup_sorted_keys.
  - apply NoDup_map_to_list.
  - intros [k v]. by rewrite elem_of_sorted_entries, elem_of_map_to_list.
Qed.

Lemma sorted_keys_fmap {A B} (f : A → B) (m : gmap bytes A) : sorted_keys (f <$> m) = sorted_keys m.
Proof.
  apply (StronglySorted_unique bytes_le); [apply sorted_keys_sorted.. |].
  rewrite !sorted_keys_perm. apply NoDup_Permutation; [apply NoDup_keys.. |].
  intros k. by rewrite !elem_of_keys, lookup_fmap, fmap_is_Some.
Qed.
Lemma sorted_entries_fmap {A B} (f : A → B) (m : gmap bytes A) :
  sorted_entries (f <$> m) = prod_map id f <$> sorted_entries m.
Proof.
  unfold sorted_entries. rewrite sorted_keys_fmap. induction (sorted_keys m) as [|k ks IH]; [done|]. cbn.
  rewrite lookup_fmap. destruct (m !! k); cbn; [by f_equal | done].
Qed.

(** * [HashMap] *)

(** The order in which a [HashMap] yields its entries: some permutation of them. *)
Class HashOrder := {
  hash_iter : ∀ {A}, gmap bytes A → list (bytes * A);
  hash_iter_perm : ∀ {A} (m : gmap bytes A), hash_iter m ≡ₚ map_to_list m;
}.

Lemma elem_of_hash_iter `{HashOrder} {A} (m : gmap bytes A) k v :
  (k, v) ∈ hash_iter m ↔ m !! k = Some v.
Proof. by rewrite hash_iter_perm, elem_of_map_to_list. Qed.

Lemma NoDup_hash_iter_keys `{HashOrder} {A} (m : gmap bytes A) : NoDup (hash_iter m).*1.
Proof. rewrite hash_iter_perm. apply NoDup_fst_map_to_list. Qed.

(** Two concrete orders, for examples: the entries sorted by key, and in reverse. *)
Definition sorted_order : HashOrder :=
  {| hash_iter A m := sorted_entries m; hash_iter_perm A m := sorted_entries_perm m |}.
Lemma rev_entries_perm {A} (m : gmap bytes A) : reverse (sorted_entries m) ≡ₚ map_to_list m.
Proof. by rewrite reverse_Permutation, sorted_entries_perm. Qed.
Definition reverse_order : HashOrder :=
  {| hash_iter A m := reverse (sorted_entries m); hash_iter_perm A m := rev_entries_perm m |}.

(** A map built by inserting pairs one after the other: the last one wins. *)
Definition insert_all {A} (l : list (bytes * A)) (m : gmap bytes A) : gmap bytes A :=
  foldl (λ m p, <[p.1 := p.2]> m) m l.

Lemma insert_all_lookup {A} (l : list (bytes * A)) (m : gmap bytes A) k v :
  insert_all l m !! k = Some v → (k, v) ∈ l ∨ m !! k = Some v.
Proof.
  revert m. induction l as [|[k' v'] l IH]; intros m; cbn; [by right|].
  intros [?|H]%IH; [left; by right|].
  apply lookup_insert_Some in H as [[-> ->]|[_ ?]]; [left; by left | by right].
Qed.

Lemma insert_all_is_Some {A} (l : list (bytes * A)) (m : gmap bytes A) k :
  is_Some (insert_all l m !! k) ↔ k ∈ l.*1 ∨ is_Some (m !! k).
Proof.
  revert m. induction l as [|[k' v'] l IH]; intros m.
  { cbn. split; [by right|]. by intros [?%elem_of_nil|]. }
  change (insert_all ((k', v') :: l) m) with (insert_all l (<[k':=v']> m)). cbn [fmap list_fmap fst].
  rewrite IH, elem_of_cons, lookup_insert_is_Some. destruct (decide (k' = k)) as [->|]; naive_solver.
Qed.

Lemma insert_all_NoDup {A} (l : list (bytes * A)) (m : gmap bytes A) k v :
  NoDup l.*1 → (k, v) ∈ l → insert_all l m !! k = Some v.
Proof.
  revert m. induction l as [|[k' v'] l IH]; intros m; [by intros _ ?%elem_of_nil|].
  change (insert_all ((k', v') :: l) m) with (insert_all l (<[k':=v']> m)).
  cbn [fmap list_fmap fst]. intros [Hn Hnd]%NoDup_cons [[= -> ->]|Hin]%elem_of_cons; [|by apply IH].
  clear IH Hnd. revert Hn m. induction l as [|[k2 v2] l IH]; intros Hn m.
  { cbn. by rewrite lookup_insert_eq. }
  change (insert_all ((k2, v2) :: l) ?m) with (insert_all l (<[k2:=v2]> m)).
  cbn in Hn. apply not_elem_of_cons in Hn as [Hne Hn].
  rewrite insert_insert_ne by done. by apply IH.
Qed.

(** Rebuilding a map from its entries, in any order, gives the map. *)
Lemma insert_all_hash_iter `{HashOrder} {A} (m : gmap bytes A) : insert_all (hash_iter m) ∅ = m.
Proof.
  apply map_eq. intros k. destruct (m !! k) as [v|] eqn:E.
  - apply insert_all_NoDup; [apply NoDup_hash_iter_keys | by apply elem_of_hash_iter].
  - destruct (insert_all (hash_iter m) ∅ !! k) as [v|] eqn:E'; [|done].
    apply insert_all_lookup in E' as [E'|E'].
    + apply elem_of_hash_iter in E'. by rewrite E in E'.
    + by rewrite lookup_empty in E'.
Qed.
