(* ===== verification/Net.v ===== *)
(** Rust's [std::net] as the program uses it: [IpAddr] and [SocketAddr], their
    textual forms (the parser of [core::net::parser] and the [Display] impls) and
    the predicates [is_loopback] and [is_unspecified].

    [parse_ip_show] and [parse_socket_addr_show] are the round trips on which the
    canonical client addresses of the configuration, the access list and the
    per-client metrics rest. *)

From S2P Require Import Prelude RustStr.

(** * Data *)

(** The octets of an IPv4 address; the eight 16-bit segments of an IPv6 one. *)
Inductive IpAddr :=
| V4 (a b c d : N)
| V6 (g : list N).

#[global] Instance IpAddr_eq_dec : EqDecision IpAddr.
Proof. solve_decision. Defined.

#[global] Program Instance IpAddr_countable : Countable IpAddr :=
  inj_countable'
    (λ i, match i with V4 a b c d => inl (a, b, c, d) | V6 g => inr g end)
    (λ s, match s with inl (a, b, c, d) => V4 a b c d | inr g => V6 g end) _.
Next Obligation. by intros []. Qed.

Definition ip_wf (i : IpAddr) : Prop :=
  match i with
  | V4 a b c d => (a < 256 ∧ b < 256 ∧ c < 256 ∧ d < 256)%N
  | V6 g => length g = 8 ∧ Forall (λ x, (x < 65536)%N) g
  end.

Definition is_loopback (i : IpAddr) : bool :=
  match i with
  | V4 a _ _ _ => (a =? 127)%N
  | V6 g => bool_decide (g = [0; 0; 0; 0; 0; 0; 0; 1]%N)
  end.
Definition is_unspecified (i : IpAddr) : bool :=
  match i with
  | V4 a b c d => ((a =? 0) && (b =? 0) && (c =? 0) && (d =? 0))%N
  | V6 g => bool_decide (g = [0; 0; 0; 0; 0; 0; 0; 0]%N)
  end.
Definition is_ipv6 (i : IpAddr) : bool := match i with V4 _ _ _ _ => false | V6 _ => true end.

Record SocketAddr := { sa_ip : IpAddr; sa_port : N; sa_scope : N }.
Definition sa_wf (a : SocketAddr) : Prop :=
  ip_wf (sa_ip a) ∧ (sa_port a < 65536)%N ∧ (sa_scope a ≤ u32_max)%N
  ∧ (is_ipv6 (sa_ip a) = false → sa_scope a = 0%N).

(** * Parser: a reader answers a value and the rest, or nothing (and nothing is
    consumed) *)

Definition read_char (c : Byte.byte) (s : bytes) : option bytes :=
  match s with b :: r => if decide (b = c) then Some r else None | [] => None end.

(** The loop of [read_number] with a bound on the number of digits. *)
Fixpoint read_digits (dv : Byte.byte → option N) (radix : N) (max count : nat) (acc : N)
    (s : bytes) : option (N * nat * bytes) :=
  match s with
  | b :: r =>
      match dv b with
      | Some d => if max <? S count then None
                  else read_digits dv radix max (S count) (acc * radix + d)%N r
      | None => Some (acc, count, s)
      end
  | [] => Some (acc, count, [])
  end.

(** The same loop without it, where each step is checked for overflow. *)
Fixpoint read_digits_checked (dv : Byte.byte → option N) (radix mx : N) (count : nat) (acc : N)
    (s : bytes) : option (N * nat * bytes) :=
  match s with
  | b :: r =>
      match dv b with
      | Some d => if (mx <? acc * radix + d)%N then None
                  else read_digits_checked dv radix mx (S count) (acc * radix + d)%N r
      | None => Some (acc, count, s)
      end
  | [] => Some (acc, count, [])
  end.

Definition has_leading_zero (s : bytes) : bool :=
  match s with b :: _ => bool_decide (b = x30) | [] => false end.

Definition read_number (dv : Byte.byte → option N) (radix : N) (max_digits : option nat)
    (allow_zero_prefix : bool) (mx : N) (s : bytes) : option (N * bytes) :=
  '(n, count, r) ←
    match max_digits with
    | Some m => read_digits dv radix m 0 0 s
    | None => read_digits_checked dv radix mx 0 0 s
    end;
  if count =? 0 then None
  else if negb allow_zero_prefix && has_leading_zero s && (1 <? count) then None
  else if (n <=? mx)%N then Some (n, r) else None.

Definition read_octet := read_number digit_val 10 (Some 3) false 255.
Definition read_group := read_number hex_val 16 (Some 4) true u16_max.

Definition read_ipv4 (s : bytes) : option (N * N * N * N * bytes) :=
  '(a, s) ← read_octet s; s ← read_char x2e s;
  '(b, s) ← read_octet s; s ← read_char x2e s;
  '(c, s) ← read_octet s; s ← read_char x2e s;
  '(d, s) ← read_octet s;
  Some (a, b, c, d, s).

(** [read_separator(':', i, f)] *)
Definition separated {A} (i : nat) (f : bytes → option A) (s : bytes) : option A :=
  match i with 0 => f s | S _ => s ← read_char x3a s; f s end.

(** [read_groups]: at most [n] groups from the [i]-th on, and whether they end in
    an embedded IPv4 address. *)
Fixpoint read_groups (n i : nat) (s : bytes) : list N * bool * bytes :=
  match n with
  | 0 => ([], false, s)
  | S n' =>
      match (if n' =? 0 then None else separated i read_ipv4 s) with
      | Some (a, b, c, d, r) => ([a * 256 + b; c * 256 + d]%N, true, r)
      | None =>
          match separated i read_group s with
          | Some (g, r) => let '(gs, v4, r) := read_groups n' (S i) r in (g :: gs, v4, r)
          | None => ([], false, s)
          end
      end
  end.

Definition read_ipv6 (s : bytes) : option (list N * bytes) :=
  let '(head, head_ipv4, r) := read_groups 8 0 s in
  if length head =? 8 then Some (head, r) else
  if head_ipv4 : bool then None else
  r ← read_char x3a r; r ← read_char x3a r;
  let '(tail, _, r) := read_groups (8 - (length head + 1)) 0 r in
  Some (head ++ replicate (8 - length head - length tail) 0%N ++ tail, r).

Definition read_ip (s : bytes) : option (IpAddr * bytes) :=
  match read_ipv4 s with
  | Some (a, b, c, d, r) => Some (V4 a b c d, r)
  | None => '(g, r) ← read_ipv6 s; Some (V6 g, r)
  end.

(** [parse_with]: the reader must consume everything. *)
Definition parse_all {A} (f : bytes → option (A * bytes)) (s : bytes) : option A :=
  match f s with Some (a, []) => Some a | _ => None end.

Definition parse_ip : bytes → option IpAddr := parse_all read_ip.

Definition read_port (s : bytes) : option (N * bytes) :=
  s ← read_char x3a s; read_number digit_val 10 None true u16_max s.
Definition read_scope_id (s : bytes) : option (N * bytes) :=
  s ← read_char x25 s; read_number digit_val 10 None true u32_max s.

Definition read_socket_addr_v4 (s : bytes) : option (SocketAddr * bytes) :=
  '(a, b, c, d, s) ← read_ipv4 s; '(p, s) ← read_port s;
  Some ({| sa_ip := V4 a b c d; sa_port := p; sa_scope := 0 |}, s).
Definition read_socket_addr_v6 (s : bytes) : option (SocketAddr * bytes) :=
  s ← read_char x5b s; '(g, s) ← read_ipv6 s;
  let '(scope, s) := default (0%N, s) (read_scope_id s) in
  s ← read_char x5d s; '(p, s) ← read_port s;
  Some ({| sa_ip := V6 g; sa_port := p; sa_scope := scope |}, s).
Definition parse_socket_addr : bytes → option SocketAddr :=
  parse_all (λ s, match read_socket_addr_v4 s with Some r => Some r | None => read_socket_addr_v6 s end).

(** * Display *)

Definition show_v4 (a b c d : N) : bytes :=
  show a ++ x2e :: show b ++ x2e :: show c ++ x2e :: show d.

(** The first longest run of zero segments: its start and length. *)
Fixpoint zero_run (i : nat) (cur best : nat * nat) (g : list N) : nat * nat :=
  match g with
  | [] => best
  | x :: g' =>
      if (x =? 0)%N then
        let cur := (if cur.2 =? 0 then i else cur.1, S cur.2) in
        zero_run (S i) cur (if best.2 <? cur.2 then cur else best) g'
      else zero_run (S i) (0, 0) best g'
  end.

Definition fmt_groups (g : list N) : bytes := join §":" (show_hex <$> g).

(** [to_ipv4_mapped]: the last two segments of [::ffff:a.b.c.d]. *)
Definition to_ipv4_mapped (g : list N) : option (N * N) :=
  match g with
  | [a; b; c; d; e; f; x; y] =>
      if ((a =? 0) && (b =? 0) && (c =? 0) && (d =? 0) && (e =? 0) && (f =? 65535))%N then Some (x, y) else None
  | _ => None
  end.

Definition show_v6 (g : list N) : bytes :=
  match to_ipv4_mapped g with
  | Some (x, y) => §"::ffff:" ++ show_v4 (x / 256) (x mod 256) (y / 256) (y mod 256)
  | None =>
      let '(start, len) := zero_run 0 (0, 0) (0, 0) g in
      if 1 <? len then
        fmt_groups (take start g) ++ §"::" ++ fmt_groups (drop (start + len) g)
      else fmt_groups g
  end.

Definition show_ip (i : IpAddr) : bytes :=
  match i with V4 a b c d => show_v4 a b c d | V6 g => show_v6 g end.

Definition show_socket_addr (a : SocketAddr) : bytes :=
  match sa_ip a with
  | V4 _ _ _ _ => show_ip (sa_ip a) ++ x3a :: show (sa_port a)
  | V6 g =>
      if (sa_scope a =? 0)%N then x5b :: show_v6 g ++ §"]:" ++ show (sa_port a)
      else x5b :: show_v6 g ++ x25 :: show (sa_scope a) ++ §"]:" ++ show (sa_port a)
  end.

(** * Reading back what [Display] writes *)

Lemma read_char_same c s : read_char c (c :: s) = Some s.
Proof. cbn. by rewrite decide_True. Qed.

(** [r] does not start with a digit of [dv]. *)
Definition no_digit (dv : Byte.byte → option N) (r : bytes) : Prop :=
  ∀ b r', r = b :: r' → dv b = None.

Lemma read_digits_app dv radix max count acc ds r n :
  digits_val dv radix acc ds = Some n → count + length ds ≤ max → no_digit dv r →
  read_digits dv radix max count acc (ds ++ r) = Some (n, count + length ds, r).
Proof.
  revert count acc. induction ds as [|b ds IH]; intros count acc Hv Hl Hr; cbn in *.
  - injection Hv as <-. rewrite Nat.add_0_r. destruct r as [|b r]; [done|].
    cbn. by rewrite (Hr b r).
  - destruct (dv b) as [d|]; [|done]. cbn in Hv.
    destruct (Nat.leb_spec max count); [lia|].
    rewrite IH by (done || lia).
    by replace (count + S (length ds)) with (S count + length ds) by lia.
Qed.

Lemma digits_val_le dv radix acc ds n :
  (1 ≤ radix)%N → digits_val dv radix acc ds = Some n → (acc ≤ n)%N.
Proof.
  intros Hr. revert acc. induction ds as [|b ds IH]; intros acc; cbn.
  - intros [= ->]. lia.
  - destruct (dv b) as [d|]; [|done]. cbn. intros H%IH.
    pose proof (N.mul_le_mono_l 1 radix acc Hr). lia.
Qed.

Lemma read_digits_checked_app dv radix mx count acc ds r n :
  (1 ≤ radix)%N → digits_val dv radix acc ds = Some n → (n ≤ mx)%N → no_digit dv r →
  read_digits_checked dv radix mx count acc (ds ++ r) = Some (n, count + length ds, r).
Proof.
  intros Hrad. revert count acc. induction ds as [|b ds IH]; intros count acc Hv Hl Hr; cbn in *.
  - injection Hv as <-. rewrite Nat.add_0_r. destruct r as [|b r]; [done|].
    cbn. by rewrite (Hr b r).
  - destruct (dv b) as [d|]; [|done]. cbn in Hv.
    pose proof (digits_val_le _ _ _ _ _ Hrad Hv).
    destruct (N.ltb_spec mx (acc * radix + d)); [lia|].
    rewrite IH by (done || lia).
    by replace (count + S (length ds)) with (S count + length ds) by lia.
Qed.

(** The number of digits of an octet and of a segment. *)
Lemma show_length n : (n < 256)%N → length (show n) ≤ 3.
Proof.
  intros Hn. assert (forallb (λ n, length (show (N.of_nat n)) <=? 3) (seq 0 256) = true) as H
    by by vm_compute.
  rewrite forallb_forall in H. specialize (H (N.to_nat n)). rewrite N2Nat.id in H.
  apply Nat.leb_le, H, in_seq. lia.
Qed.

Lemma show_hex_length n : (n < 65536)%N → length (show_hex n) ≤ 4.
Proof.
  intros Hn.
  assert (forallb (λ a, forallb (λ b, length (show_hex (N.of_nat a * 256 + N.of_nat b)) <=? 4)
    (seq 0 256)) (seq 0 256) = true) as H by by vm_compute.
  set (q := (n / 256)%N). set (m := (n mod 256)%N).
  assert (q < 256)%N by (apply N.Div0.div_lt_upper_bound; lia).
  assert (m < 256)%N by (apply N.mod_lt; lia).
  assert (n = q * 256 + m)%N as Hqm by (unfold q, m; pose proof (N.div_mod n 256 ltac:(lia)); lia).
  rewrite Hqm. clearbody q m. rewrite forallb_forall in H. specialize (H (N.to_nat q) ltac:(apply in_seq; lia)).
  rewrite forallb_forall in H. specialize (H (N.to_nat m) ltac:(apply in_seq; lia)).
  rewrite !N2Nat.id in H. by apply Nat.leb_le.
Qed.

Lemma read_octet_show n r :
  (n < 256)%N → no_digit digit_val r → read_octet (show n ++ r) = Some (n, r).
Proof.
  intros Hn Hr. destruct (show_writes n) as (Hne & Hv & Hz). pose proof (show_length n Hn).
  unfold read_octet, read_number. erewrite read_digits_app; [|done | cbn; lia | done].
  cbn [mbind option_bind]. destruct (show n) as [|b ds] eqn:E; [done|].
  cbn [length Nat.add Nat.eqb app has_leading_zero negb andb].
  case_bool_decide as Hb; cbn [andb].
  - subst b. destruct (Hz ds) as [_ ->]; [done|]. cbn [length Nat.ltb Nat.leb].
    by rewrite (proj2 (N.leb_le n 255)) by lia.
  - by rewrite (proj2 (N.leb_le n 255)) by lia.
Qed.

Lemma read_group_show n r :
  (n < 65536)%N → no_digit hex_val r → read_group (show_hex n ++ r) = Some (n, r).
Proof.
  intros Hn Hr. destruct (show_hex_writes n) as (Hne & Hv & _). pose proof (show_hex_length n Hn).
  unfold read_group, read_number. erewrite read_digits_app; [|done | cbn; lia | done].
  cbn [mbind option_bind negb andb]. destruct (show_hex n) as [|b ds] eqn:E; [done|].
  cbn [length Nat.add Nat.eqb]. by rewrite (proj2 (N.leb_le n u16_max)) by (unfold u16_max; lia).
Qed.

Lemma read_decimal_show mx n r :
  (n ≤ mx)%N → no_digit digit_val r → read_number digit_val 10 None true mx (show n ++ r) = Some (n, r).
Proof.
  intros Hn Hr. destruct (show_writes n) as (Hne & Hv & _).
  unfold read_number. erewrite read_digits_checked_app; [|lia | done | done | done].
  cbn [mbind option_bind negb andb]. destruct (show n) as [|b ds] eqn:E; [done|].
  cbn [length Nat.add Nat.eqb]. by rewrite (proj2 (N.leb_le n mx)).
Qed.

Lemma read_ipv4_show a b c d r :
  ip_wf (V4 a b c d) → no_digit digit_val r →
  read_ipv4 (show_v4 a b c d ++ r) = Some (a, b, c, d, r).
Proof.
  intros (Ha & Hb & Hc & Hd) Hr. unfold read_ipv4, show_v4.
  assert (∀ s, no_digit digit_val (x2e :: s)) as Hdot by (intros s ? ? [= <- _]; done).
  repeat (rewrite <- ?app_assoc; cbn [app]; rewrite read_octet_show by done;
    cbn [mbind option_bind read_char]; rewrite ?decide_True by done; cbn [mbind option_bind]).
  done.
Qed.

(** Without a dot there is no IPv4 address. *)
Lemma read_digits_suffix dv radix max count acc s n k r :
  read_digits dv radix max count acc s = Some (n, k, r) → ∃ p, s = p ++ r.
Proof.
  revert count acc. induction s as [|b s IH]; intros count acc; cbn.
  - intros [= _ _ <-]. by exists [].
  - destruct (dv b).
    + case_match; [done|]. intros [p ->]%IH. by exists (b :: p).
    + intros [= _ _ <-]. by exists [].
Qed.

Lemma read_ipv4_no_dot s : x2e ∉ s → read_ipv4 s = None.
Proof.
  intros Hs. unfold read_ipv4.
  destruct (read_octet s) as [[a r]|] eqn:E; [|done]. cbn.
  assert (∃ p, s = p ++ r) as [p ->].
  { revert E. unfold read_octet, read_number.
    destruct (read_digits _ _ _ _ _ _) as [[[??]?]|] eqn:E; [|done]. cbn.
    repeat case_match; try done; intros [= _ <-]; by eapply read_digits_suffix. }
  destruct r as [|b r]; [done|]. cbn. case_decide as Hb; [|done].
  subst. destruct Hs. set_solver.
Qed.

(** ** IPv6 *)

(** The text of the groups from the [i]-th on. *)
Fixpoint groups_text (i : nat) (g : list N) : bytes :=
  match g with
  | [] => []
  | x :: g => (if i =? 0 then [] else [x3a]) ++ show_hex x ++ groups_text (S i) g
  end.

Lemma fmt_groups_text g : fmt_groups g = groups_text 0 g.
Proof.
  unfold fmt_groups. destruct g as [|x g]; [done|]. cbn [fmap list_fmap groups_text Nat.eqb app].
  assert (∀ w, join §":" (w :: (show_hex <$> g)) = w ++ groups_text 1 g) as H; [|apply H].
  enough (∀ i w, i ≠ 0 → join §":" (w :: (show_hex <$> g)) = w ++ groups_text i g) by eauto.
  induction g as [|y g IH]; intros i w Hi; cbn [fmap list_fmap groups_text].
  - by rewrite app_nil_r.
  - cbn [join]. f_equal. destruct i; [done|]. cbn [Nat.eqb app]. f_equal.
    apply IH. done.
Qed.

(** What may follow some groups, for the reader to stop there. *)
Definition addr_stop (r : bytes) : Prop :=
  no_digit hex_val r ∧ (∀ r', r ≠ x3a :: r') ∧ x2e ∉ r.
Definition group_stop (r : bytes) : Prop :=
  addr_stop r ∨ (∃ r', r = §"::" ++ r' ∧ x2e ∉ r').

Lemma group_stop_no_digit r : group_stop r → no_digit hex_val r.
Proof. intros [(H & _)|(r' & -> & _)] b s Hb; [by apply (H b s)|]. by injection Hb as <- _. Qed.

Lemma group_stop_no_dot r : group_stop r → x2e ∉ r.
Proof. intros [(_ & _ & H)|(r' & -> & H)]; [done|]. cbn. rewrite !not_elem_of_cons. done. Qed.

Lemma hex_no_dot x : x2e ∉ show_hex x.
Proof.
  destruct (show_hex_writes x) as (_ & Hv & _). apply digits_val_Forall in Hv.
  intros Hin. rewrite Forall_forall in Hv. by destruct (Hv _ Hin).
Qed.

Lemma groups_text_no_dot i g : x2e ∉ groups_text i g.
Proof.
  revert i. induction g as [|x g IH]; intros i; cbn [groups_text]; [by intros ?%elem_of_nil|].
  rewrite !elem_of_app. intros [H|[H|H]]; [|by eapply hex_no_dot | by eapply IH].
  by destruct (i =? 0); [apply elem_of_nil in H | apply list_elem_of_singleton in H].
Qed.

Lemma separated_no_dot i s : x2e ∉ s → separated i read_ipv4 s = None.
Proof.
  intros Hs. destruct i; cbn; [by apply read_ipv4_no_dot|].
  destruct s as [|b s]; [done|]. cbn. case_decide; [|done]. cbn. apply read_ipv4_no_dot.
  set_solver.
Qed.

Lemma separated_stop i r : group_stop r → separated i read_group r = None.
Proof.
  intros Hr. assert (∀ r, no_digit hex_val r → read_group r = None) as Hng.
  { intros [|b s] Hs; [done|]. unfold read_group, read_number. cbn. by rewrite (Hs b s). }
  destruct Hr as [(Hd & Hc & _)|(r' & -> & _)]; destruct i; cbn [separated]; try done.
  - by apply Hng.
  - destruct r as [|b r]; [done|]. cbn. case_decide as Hb; [|done]. subst. by destruct (Hc r).
Qed.

Lemma read_groups_text n i g r :
  length g ≤ n → Forall (λ x, (x < 65536)%N) g → group_stop r →
  read_groups n i (groups_text i g ++ r) = (g, false, r).
Proof.
  revert n i. induction g as [|x g IH]; intros [|n] i Hl Hg Hr; cbn in Hl; try lia; try done.
  - cbn [groups_text app read_groups]. rewrite (separated_stop i r Hr).
    rewrite separated_no_dot by by apply group_stop_no_dot. by destruct (n =? 0).
  - apply Forall_cons in Hg as [Hx Hg]. cbn [read_groups].
    rewrite separated_no_dot.
    2:{ rewrite elem_of_app. intros [?|?]; [by eapply groups_text_no_dot | by eapply group_stop_no_dot]. }
    assert (separated i read_group (groups_text i (x :: g) ++ r)
            = Some (x, groups_text (S i) g ++ r)) as ->.
    { assert (read_group (show_hex x ++ groups_text (S i) g ++ r)
              = Some (x, groups_text (S i) g ++ r)) as Hrg.
      { apply read_group_show; [done|]. destruct g; [by apply (group_stop_no_digit)|].
        cbn. by intros ? ? [= <- _]. }
      destruct i; cbn [groups_text Nat.eqb app separated];
        rewrite <- ?app_assoc; [done|]. by rewrite read_char_same. }
    rewrite IH by (done || lia). by destruct (n =? 0).
Qed.

(** The run of zeros that [Display] compresses. *)
Definition run_at (p : list N) (s : nat * nat) : Prop :=
  ∃ a b, p = a ++ replicate s.2 0%N ++ b ∧ (s.2 ≠ 0 → length a = s.1).

Lemma zero_run_spec p g cur best :
  run_at p best → (∃ a, p = a ++ replicate cur.2 0%N ∧ (cur.2 ≠ 0 → length a = cur.1)) →
  run_at (p ++ g) (zero_run (length p) cur best g).
Proof.
  revert p cur best. induction g as [|x g IH]; intros p cur best Hb (a & Hp & Ha); cbn [zero_run].
  { by rewrite app_nil_r. }
  assert (run_at (p ++ [x]) best) as Hb'.
  { destruct Hb as (u & v & -> & ?). exists u, (v ++ [x]). by rewrite <- !app_assoc. }
  replace (p ++ x :: g) with ((p ++ [x]) ++ g) by by rewrite <- app_assoc.
  replace (S (length p)) with (length (p ++ [x])) by (rewrite length_app; cbn; lia).
  destruct (N.eqb_spec x 0) as [->|Hx].
  - set (cur' := (if cur.2 =? 0 then length p else cur.1, S cur.2)).
    assert (∃ a, p ++ [0%N] = a ++ replicate cur'.2 0%N ∧ (cur'.2 ≠ 0 → length a = cur'.1))
      as Hcur.
    { exists a. unfold cur'. cbn [fst snd]. split.
      - rewrite Hp, replicate_S_end. by rewrite app_assoc.
      - intros _. destruct (Nat.eqb_spec (cur.2) 0) as [E|E].
        + rewrite Hp, E. cbn. by rewrite app_nil_r.
        + by apply Ha. }
    apply IH; [|done]. case_match; [|done].
    destruct Hcur as (u & -> & ?). exists u, []. by rewrite app_nil_r.
  - apply IH; [done|]. exists (p ++ [x]). cbn. by rewrite app_nil_r.
Qed.

(** The text of an IPv6 address that is not IPv4-mapped. *)
Definition show_compressed (g : list N) : bytes :=
  let '(start, len) := zero_run 0 (0, 0) (0, 0) g in
  if 1 <? len then fmt_groups (take start g) ++ §"::" ++ fmt_groups (drop (start + len) g)
  else fmt_groups g.

Lemma read_ipv6_compressed g r :
  ip_wf (V6 g) → addr_stop r → read_ipv6 (show_compressed g ++ r) = Some (g, r).
Proof.
  intros [Hl Hg] Hr. unfold show_compressed.
  pose proof (zero_run_spec [] g (0, 0) (0, 0)) as Hz. cbn [length app] in Hz.
  destruct (zero_run 0 (0, 0) (0, 0) g) as [start len].
  destruct (Nat.ltb_spec 1 len) as [Hlen|_].
  - destruct Hz as (a & b & Hgab & Hsa).
    { by exists [], []. } { by exists []. }
    cbn [fst snd] in *. specialize (Hsa ltac:(lia)). subst start.
    assert (take (length a) g = a) as -> by (rewrite Hgab; apply take_app_length).
    assert (drop (length a + len) g = b) as ->.
    { rewrite Hgab, <- drop_drop, drop_app_length. apply drop_app_length'. by rewrite length_replicate. }
    assert (length a + len + length b = 8).
    { rewrite <- Hl, Hgab, !length_app, length_replicate. lia. }
    rewrite !fmt_groups_text. rewrite Hgab in Hg. apply Forall_app in Hg as [Ha [_ Hb]%Forall_app].
    assert (x2e ∉ groups_text 0 b ++ r).
    { rewrite elem_of_app. intros [?|?]; [by eapply groups_text_no_dot | by apply Hr]. }
    unfold read_ipv6. rewrite <- app_assoc.
    rewrite read_groups_text; [|lia | done | right; rewrite <- app_assoc; by eexists].
    destruct (Nat.eqb_spec (length a) 8); [lia|]. rewrite <- app_assoc.
    change (§"::" ++ groups_text 0 b ++ r) with (x3a :: x3a :: groups_text 0 b ++ r).
    rewrite read_char_same. cbn [mbind option_bind]. rewrite read_char_same.
    cbn [mbind option_bind].
    rewrite read_groups_text; [|lia | done | by left].
    do 2 f_equal. rewrite Hgab. do 3 f_equal. lia.
  - rewrite fmt_groups_text. unfold read_ipv6.
    rewrite read_groups_text; [|lia | done | by left]. by rewrite Hl.
Qed.

Lemma read_ipv6_mapped x y r :
  (x < 65536)%N → (y < 65536)%N → no_digit digit_val r →
  read_ipv6 (§"::ffff:" ++ show_v4 (x / 256) (x mod 256) (y / 256) (y mod 256) ++ r)
  = Some ([0; 0; 0; 0; 0; 65535; x; y]%N, r).
Proof.
  intros Hx Hy Hr. set (t := show_v4 _ _ _ _ ++ r).
  assert (read_ipv4 t = Some (x / 256, x mod 256, y / 256, y mod 256, r)%N) as Ht.
  { apply read_ipv4_show; [|done].
    split_and!; first [by apply N.mod_lt | apply N.Div0.div_lt_upper_bound; lia]. }
  clearbody t. unfold read_ipv6.
  change (read_groups 8 0 (§"::ffff:" ++ t)) with ([] : list N, false, §"::ffff:" ++ t).
  cbn [length Nat.eqb Nat.add Nat.sub].
  change (§"::ffff:" ++ t) with (x3a :: x3a :: §"ffff" ++ x3a :: t).
  rewrite read_char_same. cbn [mbind option_bind]. rewrite read_char_same.
  cbn [mbind option_bind].
  assert (read_groups 7 0 (§"ffff" ++ x3a :: t) =
    let '(gs, v4, r) := read_groups 6 1 (x3a :: t) in (65535%N :: gs, v4, r)) as -> by done.
  assert (read_groups 6 1 (x3a :: t) =
    ([(x / 256) * 256 + x mod 256; (y / 256) * 256 + y mod 256]%N, true, r)) as ->.
  { cbn [read_groups Nat.eqb separated]. rewrite read_char_same. cbn [mbind option_bind].
    by rewrite Ht. }
  cbn [length Nat.eqb]. cbn [app replicate Nat.sub Nat.add].
  assert (∀ n, n / 256 * 256 + n mod 256 = n)%N as Hdm.
  { intros n. pose proof (N.div_mod n 256 ltac:(lia)). lia. }
  by rewrite !Hdm.
Qed.

Lemma to_ipv4_mapped_Some g x y :
  to_ipv4_mapped g = Some (x, y) → g = [0; 0; 0; 0; 0; 65535; x; y]%N.
Proof.
  unfold to_ipv4_mapped. intros H. repeat (case_match; try done). simplify_eq.
  bool_to_prop. by subst.
Qed.

Lemma read_ipv6_show g r :
  ip_wf (V6 g) → addr_stop r → read_ipv6 (show_v6 g ++ r) = Some (g, r).
Proof.
  intros Hg Hr. unfold show_v6. fold (show_compressed g).
  destruct (to_ipv4_mapped g) as [[x y]|] eqn:E; [|by apply read_ipv6_compressed].
  apply to_ipv4_mapped_Some in E as ->. destruct Hg as [_ Hg]. rewrite !Forall_cons in Hg.
  rewrite <- app_assoc. apply read_ipv6_mapped; [lia..|].
  intros b r' ->. destruct Hr as [Hr _]. specialize (Hr b r' eq_refl).
  revert Hr. unfold hex_val, digit_val. by case_match.
Qed.

Lemma show_v6_not_v4 g : read_ipv4 (show_v6 g) = None.
Proof.
  unfold show_v6. destruct (to_ipv4_mapped g) as [[x y]|]; [done|].
  apply read_ipv4_no_dot. destruct (zero_run _ _ _ g) as [start len].
  case_match; rewrite !fmt_groups_text; [|apply groups_text_no_dot].
  rewrite !elem_of_app. intros [?|[?|?]]; [by eapply groups_text_no_dot | | by eapply groups_text_no_dot].
  revert H0. cbn. rewrite !elem_of_cons. intros [|[|?%elem_of_nil]]; done.
Qed.

Lemma addr_stop_nil : addr_stop [].
Proof. split_and!; [by intros ?? | done | apply not_elem_of_nil]. Qed.

(** Writing an IP address and reading it back gives the same address. *)
Lemma parse_ip_show i : ip_wf i → parse_ip (show_ip i) = Some i.
Proof.
  intros Hi. unfold parse_ip, parse_all, read_ip. destruct i as [a b c d|g]; cbn [show_ip].
  - rewrite <- (app_nil_r (show_v4 a b c d)), read_ipv4_show; [done | done | by intros ??].
  - rewrite show_v6_not_v4, <- (app_nil_r (show_v6 g)).
    by rewrite read_ipv6_show by (done || apply addr_stop_nil).
Qed.

Lemma no_digit_cons dv b r : dv b = None → no_digit dv (b :: r).
Proof. intros H ? ? [= <- _]. done. Qed.

Lemma digit_no_dot n : x2e ∉ show n.
Proof.
  destruct (show_writes n) as (_ & Hv & _). apply digits_val_Forall in Hv.
  intros Hin. rewrite Forall_forall in Hv. by destruct (Hv _ Hin).
Qed.

Lemma read_port_show p : (p < 65536)%N → read_port (x3a :: show p) = Some (p, []).
Proof.
  intros Hp. unfold read_port. rewrite read_char_same. cbn [mbind option_bind].
  rewrite <- (app_nil_r (show p)). apply read_decimal_show; [unfold u16_max; lia | by intros ??].
Qed.

(** The part of the text of an IPv6 socket address after the address. *)
Definition scope_text (sc : N) : bytes := if (sc =? 0)%N then [] else x25 :: show sc.

Lemma read_socket_addr_v6_show g p sc :
  ip_wf (V6 g) → (p < 65536)%N → (sc ≤ u32_max)%N →
  read_socket_addr_v6 (x5b :: show_v6 g ++ scope_text sc ++ x5d :: x3a :: show p)
  = Some ({| sa_ip := V6 g; sa_port := p; sa_scope := sc |}, []).
Proof.
  intros Hg Hp Hsc. unfold read_socket_addr_v6. rewrite read_char_same. cbn [mbind option_bind].
  assert (x2e ∉ x5d :: x3a :: show p) as Hd.
  { pose proof (digit_no_dot p). rewrite !elem_of_cons. by intros [|[|]]. }
  rewrite read_ipv6_show; [|done|].
  2:{ unfold scope_text. case_match; cbn [app].
      - split_and!; [by apply no_digit_cons | by intros ? [= ? _] | done].
      - split_and!; [by apply no_digit_cons | by intros ? [= ? _] |].
        pose proof (digit_no_dot sc). rewrite elem_of_cons, elem_of_app. by intros [|[|]]. }
  cbn [mbind option_bind].
  assert (default (0%N, scope_text sc ++ x5d :: x3a :: show p)
    (read_scope_id (scope_text sc ++ x5d :: x3a :: show p)) = (sc, x5d :: x3a :: show p)) as ->.
  { unfold scope_text, read_scope_id. destruct (N.eqb_spec sc 0) as [->|Hn]; [done|].
    cbn [app]. rewrite read_char_same. cbn [mbind option_bind].
    by rewrite read_decimal_show by (done || by apply no_digit_cons). }
  cbn beta iota. rewrite read_char_same. cbn [mbind option_bind].
  by rewrite read_port_show.
Qed.

(** The text of a socket address determines its address, its port and its scope. *)
Lemma parse_socket_addr_show a : sa_wf a → parse_socket_addr (show_socket_addr a) = Some a.
Proof.
  destruct a as [i p sc]. intros (Hi & Hp & Hsc & H4). cbn [sa_ip sa_port sa_scope] in *.
  unfold parse_socket_addr, parse_all, show_socket_addr, read_socket_addr_v4.
  cbn [sa_ip sa_port sa_scope].
  destruct i as [a b c d|g]; cbn [show_ip is_ipv6] in *.
  - rewrite read_ipv4_show; [|done | by apply no_digit_cons]. cbn [mbind option_bind].
    rewrite read_port_show by done. cbn [mbind option_bind]. by rewrite H4.
  - assert (∀ t, read_socket_addr_v4 (x5b :: t) = None) as Hv4 by done.
    pose proof (read_socket_addr_v6_show g p sc Hi Hp Hsc) as Hr. unfold scope_text in Hr.
    destruct (sc =? 0)%N; unfold read_socket_addr_v4 in Hv4; cbn [app] in *;
      rewrite Hv4, ?app_comm_cons; cbn in Hr |- *; rewrite <- ?app_assoc in *; by rewrite Hr.
Qed.

(** * What the parser accepts is well formed, and its text has no blanks *)

Lemma read_number_le dv radix md az mx s n r :
  read_number dv radix md az mx s = Some (n, r) → (n ≤ mx)%N.
Proof.
  unfold read_number. intros H. destruct (match md with Some _ => _ | None => _ end) as [[[m c] s']|];
    [|done]. cbn in H. repeat (case_match; try done); simplify_eq; by bool_to_prop.
Qed.

Lemma read_ipv4_wf s a b c d r : read_ipv4 s = Some (a, b, c, d, r) → ip_wf (V4 a b c d).
Proof.
  unfold read_ipv4, read_octet. intros H.
  repeat match type of H with
  | (?m ≫= _) = Some _ =>
      let E := fresh "E" in destruct m as [[? ?]|] eqn:E; [|done]; apply read_number_le in E;
      cbn [mbind option_bind] in H
  | (?m ≫= _) = Some _ => destruct m; [|done]; cbn [mbind option_bind] in H
  end.
  simplify_eq. cbn. lia.
Qed.

Lemma separated_Some {A} i (f : bytes → option A) s x :
  separated i f s = Some x → ∃ s', f s' = Some x.
Proof. destruct i; cbn; [eauto|]. destruct (read_char x3a s); [eauto | done]. Qed.

Lemma read_groups_wf n i s g v4 r :
  read_groups n i s = (g, v4, r) → length g ≤ n ∧ Forall (λ x, (x < 65536)%N) g.
Proof.
  revert i s g v4 r. induction n as [|n IH]; intros i s g v4 r; cbn [read_groups].
  { intros [= <- _ _]. split; [done | constructor]. }
  destruct (if n =? 0 then None else separated i read_ipv4 s) as [[[[[a b] c] d] s']|] eqn:E.
  - destruct (Nat.eqb_spec n 0); [done|]. apply separated_Some in E as [? (?&?&?&?)%read_ipv4_wf].
    intros [= <- _ _]. split; [cbn; lia|]. repeat constructor; lia.
  - clear E. destruct (separated i read_group s) as [[x s']|] eqn:E.
    + apply separated_Some in E as [? Hx].
      unfold read_group in Hx. apply read_number_le in Hx. unfold u16_max in Hx.
      destruct (read_groups n (S i) s') as [[gs v] t] eqn:Eg. intros [= <- _ _].
      apply IH in Eg as [? ?]. split; [cbn; lia|]. constructor; [lia | done].
    + intros [= <- _ _]. split; [cbn; lia | constructor].
Qed.

Lemma read_ipv6_wf s g r : read_ipv6 s = Some (g, r) → ip_wf (V6 g).
Proof.
  unfold read_ipv6. destruct (read_groups 8 0 s) as [[h v] t] eqn:Eh.
  apply read_groups_wf in Eh as [Hl Hh].
  destruct (Nat.eqb_spec (length h) 8). { by intros [= <- _]. }
  destruct v; [done|]. destruct (read_char x3a t) as [t1|]; [|done]. cbn [mbind option_bind].
  destruct (read_char x3a t1) as [t2|]; [|done]. cbn [mbind option_bind].
  destruct (read_groups _ 0 t2) as [[tl v'] t'] eqn:Et. apply read_groups_wf in Et as [Hl' Ht].
  intros [= <- _]. split.
  - rewrite !length_app, length_replicate. lia.
  - rewrite !Forall_app. split_and!; [done | | done]. by apply Forall_replicate.
Qed.

Lemma parse_ip_wf s i : parse_ip s = Some i → ip_wf i.
Proof.
  unfold parse_ip, parse_all, read_ip. intros H.
  destruct (read_ipv4 s) as [[[[[a b] c] d] r]|] eqn:E.
  - destruct r; [|done]. injection H as <-. by eapply read_ipv4_wf.
  - destruct (read_ipv6 s) as [[g r]|] eqn:E6; [|done]. cbn in H. destruct r; [|done].
    injection H as <-. by eapply read_ipv6_wf.
Qed.

Lemma forallb_app' {A} (f : A → bool) l k : forallb f (l ++ k) = forallb f l && forallb f k.
Proof. apply forallb_app. Qed.

Lemma show_hex_graphic n : forallb is_graphic (show_hex n) = true.
Proof.
  destruct (show_hex_writes n) as (_ & Hv & _). apply digits_val_Forall in Hv.
  apply forallb_forall. intros b Hb. rewrite Forall_forall in Hv.
  specialize (Hv b ltac:(by apply list_elem_of_In)). revert Hv.
  assert (∀ b, implb (match hex_val b with Some _ => true | None => false end) (is_graphic b) = true)
    as H by (apply byte_forall; by vm_compute).
  specialize (H b). destruct (hex_val b); [done | by intros [? ?]].
Qed.

Lemma fmt_groups_graphic g : forallb is_graphic (fmt_groups g) = true.
Proof.
  unfold fmt_groups. induction g as [|x g IH]; [done|].
  destruct g as [|y g]; cbn [fmap list_fmap join] in *; [apply show_hex_graphic|].
  rewrite !forallb_app'. rewrite show_hex_graphic. cbn [andb]. done.
Qed.

Lemma show_v4_graphic a b c d : forallb is_graphic (show_v4 a b c d) = true.
Proof.
  unfold show_v4.
  repeat (rewrite ?forallb_app', ?show_graphic; cbn [andb forallb]). done.
Qed.

Lemma show_ip_graphic i : forallb is_graphic (show_ip i) = true.
Proof.
  destruct i as [a b c d|g]; cbn [show_ip]; [apply show_v4_graphic|].
  unfold show_v6. destruct (to_ipv4_mapped g) as [[x y]|].
  { rewrite forallb_app'. by rewrite show_v4_graphic. }
  destruct (zero_run _ _ _ g) as [st len].
  case_match; rewrite ?forallb_app', !fmt_groups_graphic; done.
Qed.

Lemma show_v4_ne a b c d : show_v4 a b c d ≠ [].
Proof. unfold show_v4. destruct (show_writes a) as [? _]. by destruct (show a). Qed.

Lemma show_ip_ne i : ip_wf i → show_ip i ≠ [].
Proof. intros Hi Hs. pose proof (parse_ip_show i Hi) as Hp. rewrite Hs in Hp. by vm_compute in Hp. Qed.
