(* ===== verification/Hosts.v ===== *)
(** src/hosts.rs: the [hosts] table, which decides what host names the relay serves
    and with which backend address.

    The regex engine (the [regex] crate) is a parameter: compiling a pattern, which
    may fail, and matching.  The order of the table's rules is what the theorems are
    about, not the language of the patterns. *)

From S2P Require Import Prelude RustStr Net.

Class RegexLib := {
  Regex : Type;
  regex_new : bytes → option Regex;
  is_match : Regex → bytes → bool;
}.

(** * Data *)

Record HostsEntry := { pattern : bytes; address : bytes }.

Inductive HostResolve :=
| Passthrough
| Ip (ip : IpAddr)
| Hostname (name : bytes).

#[global] Instance HostResolve_eq_dec : EqDecision HostResolve.
Proof. solve_decision. Defined.

Record HostsTable `{RegexLib} := {
  exact : gmap bytes HostResolve;
  patterns : list (Regex * HostResolve);
  open_catchall : bool;
}.

(** [hosts[i]: invalid regex]: the index of the entry. *)
Inductive HostsError := InvalidRegex (i : nat) (key : bytes).

(** * Operations *)

Definition parse_address (address : bytes) : HostResolve :=
  let address := trim address in
  if beqb address §"*" then Passthrough
  else match parse_ip address with
       | Some ip => Ip ip
       | None => Hostname address
       end.

Definition is_regex (pattern : bytes) : bool :=
  beqb pattern §".*" || contains_byte x2a pattern || contains_byte x3f pattern
  || starts_with §"^" pattern || ends_with §"$" pattern.

Section hosts.
Context `{Unicode} `{RegexLib}.

Definition compile_entry (pattern address : bytes) : bool * bytes * HostResolve :=
  let resolve := parse_address address in
  let pattern := trim pattern in
  if is_regex pattern then (false, pattern, resolve) else (true, to_lowercase pattern, resolve).

(** The loop of [HostsTable::compile]: entry [i] and those after it. *)
Fixpoint compile_from (i : nat) (entries : list HostsEntry) (exact : gmap bytes HostResolve)
    (patterns : list (Regex * HostResolve))
    : result HostsError (gmap bytes HostResolve * list (Regex * HostResolve)) :=
  match entries with
  | [] => Ok (exact, patterns)
  | entry :: rest =>
      let '(is_exact, key, resolve) := compile_entry (pattern entry) (address entry) in
      if is_exact : bool then compile_from (S i) rest (<[key := resolve]> exact) patterns
      else re ← ok_or (regex_new key) (InvalidRegex i key);
           compile_from (S i) rest exact (patterns ++ [(re, resolve)])
  end.

Definition compile (entries : list HostsEntry) : result HostsError HostsTable :=
  let open_catchall :=
    existsb (λ e, beqb (trim (pattern e)) §".*" && beqb (trim (address e)) §"*") entries in
  '(exact, patterns) ← compile_from 0 entries ∅ [];
  Ok {| exact := exact; patterns := patterns; open_catchall := open_catchall |}.

Definition has_open_catchall (t : HostsTable) : bool := open_catchall t.

(** The loop of [resolve] over the patterns. *)
Fixpoint first_match (ps : list (Regex * HostResolve)) (host : bytes) : option HostResolve :=
  match ps with
  | [] => None
  | (re, r) :: ps => if is_match re host then Some r else first_match ps host
  end.

Definition resolve (t : HostsTable) (hostname : bytes) : option HostResolve :=
  let host := to_lowercase hostname in
  match exact t !! host with
  | Some r => Some r
  | None => first_match (patterns t) host
  end.

Definition stats (t : HostsTable) : nat * nat := (size (exact t), length (patterns t)).

Definition compile_hosts_table (entries : list HostsEntry) : result HostsError (option HostsTable) :=
  match entries with
  | [] => Ok None
  | _ => t ← compile entries; Ok (Some t)
  end.

(** * What the table answers, stated on the configured entries *)

(** The rule of an entry. *)
Definition rule (e : HostsEntry) : bool * bytes * HostResolve := compile_entry (pattern e) (address e).
Definition exact_rule (e : HostsEntry) : bool := (rule e).1.1.
Definition rule_key (e : HostsEntry) : bytes := (rule e).1.2.
Definition rule_resolve (e : HostsEntry) : HostResolve := (rule e).2.

(** The last exact entry for a name, and the first pattern that matches it. *)
Definition last_exact (entries : list HostsEntry) (host : bytes) : option HostResolve :=
  rule_resolve <$> last (filter (λ e, exact_rule e = true ∧ rule_key e = host) entries).
Definition pattern_matches (host : bytes) (e : HostsEntry) : bool :=
  match regex_new (rule_key e) with Some re => is_match re host | None => false end.
Definition first_pattern (entries : list HostsEntry) (host : bytes) : option HostResolve :=
  rule_resolve <$> head (filter (λ e, exact_rule e = false ∧ pattern_matches host e = true) entries).

Lemma first_match_app ps qs host :
  first_match (ps ++ qs) host =
    match first_match ps host with Some r => Some r | None => first_match qs host end.
Proof. induction ps as [|[re r] ps IH]; cbn; [done|]. by destruct (is_match re host). Qed.

Lemma compile_from_ok i entries ex ps ex' ps' host :
  compile_from i entries ex ps = Ok (ex', ps') →
  ex' !! host = match last_exact entries host with Some r => Some r | None => ex !! host end
  ∧ first_match ps' host
    = match first_match ps host with Some r => Some r | None => first_pattern entries host end.
Proof.
  unfold last_exact, first_pattern.
  revert i ex ps. induction entries as [|e entries IH]; intros i ex ps; cbn [compile_from].
  { intros [= <- <-]. rewrite !filter_nil. split; [done|]. cbn. by destruct (first_match ps host). }
  assert (compile_entry (pattern e) (address e) = (exact_rule e, rule_key e, rule_resolve e)) as ->.
  { unfold exact_rule, rule_key, rule_resolve, rule. by destruct (compile_entry _ _) as [[??]?]. }
  rewrite !filter_cons. destruct (exact_rule e) eqn:Ee.
  - intros [Hx Hp]%IH. rewrite Hx, Hp. split.
    + destruct (decide (true = true ∧ rule_key e = host)) as [[_ <-]|Hn].
      * rewrite last_cons. destruct (last (filter _ entries)); [done|]. cbn. by simplify_map_eq.
      * destruct (last (filter _ entries)); [done|]. cbn.
        rewrite lookup_insert_ne; [done|]. intros ?. by apply Hn.
    + destruct (decide (true = false ∧ _)) as [[? _]|_]; done.
  - destruct (regex_new (rule_key e)) as [re|] eqn:Er; [|done]. cbn [ok_or mbind result_bind].
    intros [Hx Hp]%IH. rewrite Hx, Hp. split.
    + destruct (decide (false = true ∧ _)) as [[? _]|_]; done.
    + assert (pattern_matches host e = is_match re host) as Hpm
        by (unfold pattern_matches; by rewrite Er).
      rewrite first_match_app. cbn [first_match]. rewrite Hpm.
      destruct (first_match ps host); [done|]. destruct (is_match re host).
      * by rewrite decide_True.
      * rewrite decide_False; [done|]. by intros [_ ?].
Qed.

(** C28: The table implements its documented order.  Of a configuration that compiles, it
    answers for any host name, in any case: the last exact entry for that name if there is
    one, otherwise the first pattern of the configuration that matches it, otherwise
    nothing. *)
Theorem compile_resolve entries t hostname :
  compile entries = Ok t →
  resolve t hostname =
    let host := to_lowercase hostname in
    match last_exact entries host with
    | Some r => Some r
    | None => first_pattern entries host
    end.
Proof.
  unfold compile. intros Hc.
  destruct (compile_from 0 entries ∅ []) as [[ex ps]|err] eqn:E; [|done].
  cbn in Hc. injection Hc as <-. unfold resolve. cbn [exact patterns].
  destruct (compile_from_ok _ _ _ _ _ _ (to_lowercase hostname) E) as [-> ->].
  cbn [first_match]. cbv zeta. rewrite lookup_empty.
  by destruct (last_exact entries (to_lowercase hostname)).
Qed.

(** Compilation fails only on a pattern the regex engine refuses, the first one. *)
Lemma compile_from_total i entries ex ps :
  match compile_from i entries ex ps with
  | Ok _ => Forall (λ e, exact_rule e = false → is_Some (regex_new (rule_key e))) entries
  | Err (InvalidRegex j key) =>
      ∃ e, i ≤ j ∧ entries !! (j - i) = Some e ∧ key = rule_key e ∧ regex_new key = None
  end.
Proof.
  revert i ex ps. induction entries as [|e entries IH]; intros i ex ps; cbn [compile_from]; [done|].
  assert (compile_entry (pattern e) (address e) = (exact_rule e, rule_key e, rule_resolve e)) as ->.
  { unfold exact_rule, rule_key, rule_resolve, rule. by destruct (compile_entry _ _) as [[??]?]. }
  assert (∀ ex ps, (exact_rule e = false → is_Some (regex_new (rule_key e))) →
    match compile_from (S i) entries ex ps with
    | Ok _ => Forall (λ e, exact_rule e = false → is_Some (regex_new (rule_key e))) (e :: entries)
    | Err (InvalidRegex j key) =>
        ∃ e0, i ≤ j ∧ (e :: entries) !! (j - i) = Some e0 ∧ key = rule_key e0 ∧ regex_new key = None
    end) as Hrest.
  { intros ex' ps' He. specialize (IH (S i) ex' ps').
    destruct (compile_from (S i) entries ex' ps') as [?|[j key]]; [by constructor|].
    destruct IH as (e0 & Hj & He0 & ? & ?). exists e0. split; [lia|].
    replace (j - i) with (S (j - S i)) by lia. done. }
  destruct (exact_rule e) eqn:Ee; [by apply Hrest|].
  destruct (regex_new (rule_key e)) as [re|] eqn:Er; cbn [ok_or mbind result_bind].
  - apply Hrest. by eexists.
  - exists e. rewrite Nat.sub_diag. done.
Qed.

End hosts.

(** * A concrete engine for examples: [.*] matches everything, another pattern the names
    that end with what follows its leading [*] *)

Definition example_regex : RegexLib := {|
  Regex := bytes;
  regex_new p := if beqb p §"*" then None else Some p;
  is_match re s := if beqb re §".*" then true else ends_with (drop 1 re) s;
|}.

Definition example_hosts : list HostsEntry :=
  [{| pattern := §" EU.example.com "; address := §"91.107.161.221" |};
   {| pattern := §"*.example.com"; address := §"backend" |};
   {| pattern := §"eu.EXAMPLE.com"; address := §"10.0.0.1" |};
   {| pattern := §".*"; address := §"*" |}].

Lemma compile_resolve_witness :
  match @compile ascii_unicode example_regex example_hosts with
  | Ok t =>
      @resolve ascii_unicode example_regex t §"eu.example.COM" = Some (Ip (V4 10 0 0 1))
      ∧ @resolve ascii_unicode example_regex t §"b.example.com" = Some (Hostname §"backend")
      ∧ @resolve ascii_unicode example_regex t §"other.org" = Some Passthrough
  | Err _ => False
  end.
Proof.
  destruct (@compile ascii_unicode example_regex example_hosts) as [t|err] eqn:E.
  - split; [|split];
      (etrans; [by apply (@compile_resolve ascii_unicode example_regex example_hosts)|]);
      by vm_compute.
  - exfalso. assert (is_ok (@compile ascii_unicode example_regex example_hosts) = true) as Hok
      by by vm_compute. by rewrite E in Hok.
Defined.
