(* ===== verification/Config.v ===== *)
(** src/config.rs: the configuration, its defaults, the overrides by environment
    variables and the normalization that [AppConfig::finalize] applies before the
    relay starts.

    Parameters: the value type of [serde_yaml] (of which only the presence is looked
    at), the YAML decoder, the [f64] operations of [parse_byte_size], and the
    iteration order of [HashMap]. *)

From coqutil Require Export Datatypes.RecordSetters.
Export DoubleBraceUpdate.
From S2P Require Import Prelude RustStr Collections Net Hosts.

(** [cbn] evaluates record updates. *)
#[global] Arguments constant {E} newValue _ /.

Class Yaml := YamlValue : Type.

(** [f64]: reading a decimal number, testing its sign, and [(n * factor) as u64]. *)
Class F64 := {
  f64 : Type;
  f64_parse : bytes → option f64;
  f64_neg : f64 → bool;
  f64_scale : f64 → N → N;
}.

(** * Byte quantities *)

Definition ByteSize := N.

Inductive ByteSizeError := BadNumber | NegativeSize | NotASize.

Definition SUFFIXES : list (bytes * N) :=
  [(§"TiB", 1099511627776); (§"GiB", 1073741824); (§"MiB", 1048576); (§"KiB", 1024);
   (§"TB", 1000000000000); (§"GB", 1000000000); (§"MB", 1000000); (§"KB", 1000); (§"B", 1)]%N.

(** The loop over the suffixes: the first that matches decides. [&s[s.len() - k..]]
    panics inside a character. *)
Fixpoint try_suffixes `{F64} (suffixes : list (bytes * N)) (s : bytes) : eval (result ByteSizeError N) :=
  match suffixes with
  | [] => Val (ok_or (parse_u64 s) NotASize)
  | (suffix, factor) :: rest =>
      if length suffix <=? length s then
        tl ← str_from (length s - length suffix) s;
        if eq_ignore_ascii_case tl suffix then
          let num_str := take (length s - length suffix) s in
          match f64_parse (trim num_str) with
          | None => Val (Err BadNumber)
          | Some n => if f64_neg n then Val (Err NegativeSize) else Val (Ok (f64_scale n factor))
          end
        else try_suffixes rest s
      else try_suffixes rest s
  end.
Definition parse_byte_size `{F64} (s : bytes) : eval (result ByteSizeError N) :=
  try_suffixes SUFFIXES (trim s).

(** The scalar that the YAML decoder hands to the visitor. *)
Inductive Scalar := ScalarU64 (v : N) | ScalarI64 (v : Z) | ScalarStr (s : bytes).
Definition byte_size_deserialize `{F64} (v : Scalar) : eval (result ByteSizeError ByteSize) :=
  match v with
  | ScalarU64 v => Val (Ok v)
  | ScalarI64 v => Val (if (v <? 0)%Z then Err NegativeSize else Ok (Z.to_N v))
  | ScalarStr s => parse_byte_size s
  end.

Record DomainLimitConfig := {
  daily_bandwidth : option ByteSize;
  daily_connections : option N;
}.

(** * Upstream proxies *)

Inductive UpstreamProxy :=
| Socks5 (host : bytes) (port : N) (username password : option bytes)
| Http (host : bytes) (port : N) (auth : option bytes)
| Direct.

#[global] Instance UpstreamProxy_eq_dec : EqDecision UpstreamProxy.
Proof. solve_decision. Defined.

Definition UpstreamProxy_default : UpstreamProxy := Socks5 §"127.0.0.1" 1080 None None.

Definition host_port (p : UpstreamProxy) : option (bytes * N) :=
  match p with
  | Socks5 h p _ _ => Some (h, p)
  | Http h p _ => Some (h, p)
  | Direct => None
  end.

Definition show_proxy (p : UpstreamProxy) : bytes :=
  match p with
  | Socks5 h p _ _ => §"socks5 " ++ h ++ §":" ++ show p
  | Http h p _ => §"http " ++ h ++ §":" ++ show p
  | Direct => §"direct"
  end.

Inductive ProxyStringError := TooFewFields | BadPort | UnknownProxyType.

(** ["socks5 host port [user [password]]"], ["http host port"], ["direct"]. *)
Definition parse_proxy_string `{Unicode} (s : bytes) : result ProxyStringError UpstreamProxy :=
  let parts := split_whitespace s in
  match parts with
  | [] => Ok Direct
  | p0 :: _ =>
      if eq_ignore_ascii_case p0 §"direct" then Ok Direct else
      match parts with
      | p0 :: host :: p2 :: more =>
          port ← ok_or (parse_u16 p2) BadPort;
          let ty := to_lowercase p0 in
          if beqb ty §"socks5" || beqb ty §"socks5h" then
            Ok (Socks5 host port (more !! 0) (more !! 1))
          else if beqb ty §"http" || beqb ty §"https" then Ok (Http host port None)
          else Err UnknownProxyType
      | _ => Err TooFewFields
      end
  end.

(** * Listeners *)

Record ListenerConfig `{Yaml} := {
  name : option bytes;
  addr : bytes;
  proto : option bytes;
  routes : list YamlValue;
}.

Inductive ListenerError := InvalidListenAddr | InvalidProto.

Section listener.
Context `{Unicode} `{Yaml}.

Definition proto_str (l : ListenerConfig) : bytes := unwrap_or (proto l) §"tls".
Definition label (l : ListenerConfig) : bytes :=
  match name l with Some n => n | None => proto_str l ++ §"@" ++ addr l end.
Definition is_tls (l : ListenerConfig) : bool := beqb (proto_str l) §"tls".
Definition is_http (l : ListenerConfig) : bool := beqb (proto_str l) §"http".

Definition listen_port (l : ListenerConfig) : result ListenerError N :=
  a ← ok_or (parse_socket_addr (addr l)) InvalidListenAddr; Ok (sa_port a).

Definition normalize_proto (l : ListenerConfig) : result ListenerError ListenerConfig :=
  match proto l with
  | Some p =>
      let lower := to_lowercase p in
      if negb (beqb lower §"tls") && negb (beqb lower §"http") then Err InvalidProto
      else Ok l {{ proto := Some lower }}
  | None =>
      a ← ok_or (parse_socket_addr (addr l)) InvalidListenAddr;
      Ok l {{ proto := Some
        (if bool_decide (sa_port a ∈ [80; 8000; 8080; 8888]%N) then §"http" else §"tls") }}
  end.

Definition default_listeners : list ListenerConfig :=
  [{| name := Some §"https"; addr := §"0.0.0.0:443"; proto := Some §"tls"; routes := [] |};
   {| name := Some §"http"; addr := §"0.0.0.0:80"; proto := Some §"http"; routes := [] |}].

End listener.

(** * Client addresses and the white list *)

(** The canonical text of an address, for map lookups. *)
Definition normalize_client_ip (ip : bytes) : option bytes :=
  let s := trim ip in
  if decide (s = []) then None else show_ip <$> parse_ip s.

Record WhitelistEntry := { ip : bytes; username : option bytes }.

#[global] Instance WhitelistEntry_eq_dec : EqDecision WhitelistEntry.
Proof. solve_decision. Defined.

Definition ip_only (i : bytes) : WhitelistEntry := {| ip := i; username := None |}.

Definition username_char (b : Byte.byte) : bool :=
  is_ascii_alphanumeric b || bool_decide (b ∈ §"._@+-").

Definition sanitize_whitelist_username (raw : bytes) : option bytes :=
  let s := trim raw in
  if decide (s = []) then None else
  let cleaned := take 32 (filter (λ b, username_char b = true) s) in
  if decide (cleaned = []) then None else Some cleaned.

(** The two YAML forms of an entry: a bare string, or an object. *)
Inductive RawEntry := RawIp (ip : bytes) | RawObj (ip : bytes) (username : option bytes).

Definition whitelist_deserialize (r : RawEntry) : WhitelistEntry :=
  match r with
  | RawIp i => {| ip := i; username := None |}
  | RawObj i u => {| ip := i; username := u ≫= sanitize_whitelist_username |}
  end.
Definition whitelist_serialize (e : WhitelistEntry) : RawEntry :=
  match username e with
  | Some u => if decide (u = []) then RawIp (ip e) else RawObj (ip e) (Some u)
  | None => RawIp (ip e)
  end.

(** * The sections of the configuration *)

Record PanelConfig := {
  panel_enabled : bool;
  panel_addr : bytes;
  db_path : bytes;
  relay_ip : option bytes;
  dnsmasq_conf_dir : option bytes;
  dnsmasq_relay_file : option bytes;
  dnsmasq_bypass_file : option bytes;
  dnsmasq_conf_path : option bytes;
  dnsmasq_query_log : option bytes;
  dns_query_retain_hours : N;
  dnsmasq_reload_cmd : option bytes;
}.

Definition default_panel_addr : bytes := §"0.0.0.0:9080".
Definition default_panel_db : bytes := §"/var/lib/snirelay/panel.db".
Definition default_dns_query_retain_hours : N := 72.

Definition PanelConfig_default : PanelConfig := {|
  panel_enabled := true; panel_addr := default_panel_addr; db_path := default_panel_db;
  relay_ip := None; dnsmasq_conf_dir := None; dnsmasq_relay_file := None;
  dnsmasq_bypass_file := None; dnsmasq_conf_path := None; dnsmasq_query_log := None;
  dns_query_retain_hours := default_dns_query_retain_hours; dnsmasq_reload_cmd := None |}.

Record UpstreamMonitorConfig := {
  mon_enabled : bool;
  interval_secs : N;
  timeout_secs : N;
  fail_threshold : N;
  recover_threshold : N;
  notify_recovery : bool;
  notify_cooldown_secs : N;
  mon_profiles : list bytes;
  probe_host : bytes;
  probe_port : N;
  probe_hosts : list bytes;
}.

Definition default_monitor_interval_secs : N := 60.
Definition default_monitor_timeout_secs : N := 10.
Definition default_monitor_fail_threshold : N := 2.
Definition default_monitor_recover_threshold : N := 2.
Definition default_monitor_cooldown_secs : N := 600.
Definition default_monitor_probe_host : bytes := §"ifconfig.io".
Definition default_monitor_probe_port : N := 443.

Definition UpstreamMonitorConfig_default : UpstreamMonitorConfig := {|
  mon_enabled := false; interval_secs := default_monitor_interval_secs;
  timeout_secs := default_monitor_timeout_secs; fail_threshold := default_monitor_fail_threshold;
  recover_threshold := default_monitor_recover_threshold; notify_recovery := true;
  notify_cooldown_secs := default_monitor_cooldown_secs; mon_profiles := [];
  probe_host := default_monitor_probe_host; probe_port := default_monitor_probe_port;
  probe_hosts := [] |}.

(** [host], [host:port] or [[v6]:port]. *)
Definition parse_probe_target (raw : bytes) (default_port : N) : bytes * N :=
  let s := trim raw in
  let v6 :=
    match strip_prefix §"[" s with
    | Some rest =>
        match split_once §"]:" rest with
        | Some (host, port_s) =>
            match parse_u16 port_s with Some p => (host, p) | None => (s, default_port) end
        | None => (s, default_port)
        end
    | None => (s, default_port)
    end in
  match rsplit_once x3a s with
  | Some (host, port_s) =>
      if negb (bool_decide (host = [])) && negb (contains_byte x5d host) then
        match parse_u16 port_s with Some p => (host, p) | None => v6 end
      else v6
  | None => v6
  end.

Definition probe_targets (c : UpstreamMonitorConfig) : list (bytes * N) :=
  if decide (probe_hosts c = []) then [(probe_host c, probe_port c)] else
  (λ s, parse_probe_target s (probe_port c)) <$> filter (λ s, trim s ≠ []) (probe_hosts c).

Definition probe_targets_label (c : UpstreamMonitorConfig) : bytes :=
  join §", " ((λ t, t.1 ++ §":" ++ show t.2) <$> probe_targets c).

Record TelegramConfig := {
  bot_token : option bytes;
  chat_id : option bytes;
  api_base : bytes;
}.

Definition default_telegram_api_base : bytes := §"https://api.telegram.org".
Definition TelegramConfig_default : TelegramConfig :=
  {| bot_token := None; chat_id := None; api_base := default_telegram_api_base |}.

Definition is_configured (t : TelegramConfig) : bool :=
  match bot_token t, chat_id t with
  | Some t, Some c => negb (bool_decide (t = [])) && negb (bool_decide (c = []))
  | _, _ => false
  end.
Definition api_base_url (t : TelegramConfig) : bytes := trim_end_matches x2f (api_base t).

(** * The root *)

Record AppConfig `{Yaml} `{RegexLib} := {
  listens : list ListenerConfig;
  tls_listen : list ListenerConfig;
  http_listen : list ListenerConfig;
  upstream_proxy : UpstreamProxy;
  upstreams : gmap bytes UpstreamProxy;
  default_upstream : option bytes;
  client_upstreams : gmap bytes bytes;
  upstream_failover : bool;
  client_whitelist : list WhitelistEntry;
  client_whitelist_ufw : bool;
  ufw_bin : option bytes;
  upstream_monitor : UpstreamMonitorConfig;
  telegram : TelegramConfig;
  connect_timeout_secs : N;
  upstream_probe_wait_secs : N;
  upstream_probe_interval_secs : N;
  upstream_probe_required : bool;
  rw_timeout_secs : N;
  workers : N;
  metrics_addr : option bytes;
  log_file : option bytes;
  metrics_refresh_secs : N;
  max_connections : N;
  nofile_limit : N;
  listen_backlog : N;
  hosts : list HostsEntry;
  hosts_table : option HostsTable;
  domain_limits : gmap bytes DomainLimitConfig;
  domain_limits_state_file : option bytes;
  domain_limits_persist_secs : N;
  panel : PanelConfig;
  config_path : option bytes;
}.

Definition default_connect_timeout : N := 10.
Definition default_upstream_probe_wait_secs : N := 60.
Definition default_upstream_probe_interval_secs : N := 2.
Definition default_upstream_probe_required : bool := false.
Definition default_rw_timeout : N := 300.
Definition default_max_conn : N := 50000.
Definition default_nofile_limit : N := 1048576.
Definition default_listen_backlog : N := 4096.
Definition default_metrics_refresh_secs : N := 2.
Definition default_domain_limits_persist_secs : N := 5.

Inductive ConfigError :=
| ListenError (i : nat) (e : ListenerError)
| UnknownDefault (name : bytes)
| NoUpstreams
| MissingDefault
| BadHosts (e : HostsError)
| ReadFailed
| YamlFailed.

(** The process environment and the file system. *)
Record Env := {
  var : bytes → option bytes;          (** [std::env::var(..).ok()] *)
  path_exists : bytes → bool;
  is_dir : bytes → bool;
  is_file : bytes → bool;
  read_to_string : bytes → option bytes;
}.

Section app.
Context `{Unicode} `{Yaml} `{RegexLib} `{HashOrder}.
Implicit Types c : AppConfig.

Definition AppConfig_default : AppConfig := {|
  listens := default_listeners; tls_listen := []; http_listen := [];
  upstream_proxy := UpstreamProxy_default; upstreams := ∅; default_upstream := None;
  client_upstreams := ∅; upstream_failover := false; client_whitelist := [];
  client_whitelist_ufw := true; ufw_bin := None;
  upstream_monitor := UpstreamMonitorConfig_default; telegram := TelegramConfig_default;
  connect_timeout_secs := default_connect_timeout;
  upstream_probe_wait_secs := default_upstream_probe_wait_secs;
  upstream_probe_interval_secs := default_upstream_probe_interval_secs;
  upstream_probe_required := default_upstream_probe_required;
  rw_timeout_secs := default_rw_timeout; workers := 0; metrics_addr := None; log_file := None;
  metrics_refresh_secs := default_metrics_refresh_secs; max_connections := default_max_conn;
  nofile_limit := default_nofile_limit; listen_backlog := default_listen_backlog;
  hosts := []; hosts_table := None; domain_limits := ∅; domain_limits_state_file := None;
  domain_limits_persist_secs := default_domain_limits_persist_secs;
  panel := PanelConfig_default; config_path := None |}.

Definition domain_limits_state_path (e : Env) c : option bytes :=
  if decide (domain_limits c = ∅) then None else
  match domain_limits_state_file c with
  | Some path => Some path
  | None =>
      match var e §"DOMAIN_LIMITS_STATE_FILE" with
      | Some path =>
          if decide (path = []) then Some §"/var/lib/snirelay/domain_limits.json" else Some path
      | None => Some §"/var/lib/snirelay/domain_limits.json"
      end
  end.

(** [PROXY] / [--proxy]. *)
Definition override_name c : bytes :=
  let fallback :=
    if decide (upstreams c = ∅) then §"default"
    else unwrap_or (head (hash_iter (upstreams c)).*1) §"default" in
  match default_upstream c with
  | Some n =>
      if bool_decide (is_Some (upstreams c !! n)) || bool_decide (upstreams c = ∅) then n
      else fallback
  | None => fallback
  end.
Definition apply_default_proxy_override c (proxy : UpstreamProxy) : AppConfig :=
  let name := override_name c in
  c {{ upstream_proxy := proxy;
       upstreams := <[name := proxy]> (upstreams c);
       default_upstream := Some name }}.

Definition default_upstream_name c : bytes := unwrap_or (default_upstream c) §"default".

(** ** Normalization *)

(** The loop of [normalize_client_whitelist]: [seen] are the addresses kept so far. *)
Fixpoint whitelist_dedup (es : list WhitelistEntry) (seen : gset bytes) : list WhitelistEntry :=
  match es with
  | [] => []
  | e :: es =>
      match normalize_client_ip (ip e) with
      | Some n =>
          if decide (n ∈ seen) then whitelist_dedup es seen
          else {| ip := n; username := username e ≫= sanitize_whitelist_username |}
               :: whitelist_dedup es ({[n]} ∪ seen)
      | None => whitelist_dedup es seen
      end
  end.
Definition normalize_client_whitelist c : AppConfig :=
  c {{ client_whitelist := whitelist_dedup (client_whitelist c) ∅ }}.

Definition canonical_key (k : bytes) : bytes := unwrap_or (normalize_client_ip k) k.

Definition pick_default c : result ConfigError bytes :=
  match default_upstream c with
  | Some name =>
      if decide (is_Some (upstreams c !! name)) then Ok name else Err (UnknownDefault name)
  | None =>
      if decide (is_Some (upstreams c !! §"default")) then Ok §"default"
      else ok_or (head (sorted_keys (upstreams c))) NoUpstreams
  end.

Definition normalize_upstreams c : result ConfigError AppConfig :=
  let c := if decide (upstreams c = ∅) then
             c {{ upstreams := <[§"default" := upstream_proxy c]> (upstreams c);
                  default_upstream := Some §"default" }}
           else c in
  default_name ← pick_default c;
  let c := c {{ default_upstream := Some default_name }} in
  proxy ← ok_or (upstreams c !! default_name) MissingDefault;
  let c := c {{ upstream_proxy := proxy }} in
  let known := filter (λ p, is_Some (upstreams c !! p.2)) (client_upstreams c) in
  let c := c {{ client_upstreams := known }} in
  Ok c {{ client_upstreams :=
    insert_all ((λ p, (canonical_key p.1, p.2)) <$> hash_iter (client_upstreams c)) ∅ }}.

(** The loop of [finalize_listeners] over listener [i] and those after it. *)
Fixpoint normalize_listeners (i : nat) (ls : list ListenerConfig)
    : result ConfigError (list ListenerConfig) :=
  match ls with
  | [] => Ok []
  | l :: ls =>
      let l := l {{ routes := [] }} in
      match normalize_proto l with
      | Err e => Err (ListenError i e)
      | Ok l => ls ← normalize_listeners (S i) ls; Ok (l :: ls)
      end
  end.

Definition merge_listeners c : AppConfig :=
  let c :=
    if decide (length (listens c) = 0) then
      c {{ listens := listens c ++ tls_listen c ++ http_listen c; tls_listen := []; http_listen := [] }}
    else c {{ tls_listen := []; http_listen := [] }} in
  if decide (length (listens c) = 0) then c {{ listens := default_listeners }} else c.

Definition finalize_listeners c : result ConfigError AppConfig :=
  let c := merge_listeners c in
  ls ← normalize_listeners 0 (listens c);
  Ok c {{ listens := ls }}.

Definition finalize c : result ConfigError AppConfig :=
  c ← finalize_listeners c;
  c ← normalize_upstreams c;
  let c := normalize_client_whitelist c in
  match compile_hosts_table (hosts c) with
  | Err e => Err (BadHosts e)
  | Ok t => Ok c {{ hosts_table := t }}
  end.

End app.

(** * Docker: loopback upstreams *)

Definition is_loopback_host (host : bytes) : bool :=
  beqb host §"127.0.0.1" || beqb host §"localhost" || beqb host §"::1".

Definition remap_proxy_loopback_host (gateway : bytes) (p : UpstreamProxy) : UpstreamProxy :=
  match p with
  | Socks5 host port u pw => if is_loopback_host host then Socks5 gateway port u pw else p
  | Http host port a => if is_loopback_host host then Http gateway port a else p
  | Direct => p
  end.

Definition is_docker_bridge_gateway (gw : bytes) : bool :=
  starts_with §"172.17." gw || starts_with §"172.18." gw || starts_with §"172.19." gw
  || starts_with §"172.20." gw || starts_with §"172.21." gw || starts_with §"172.22." gw
  || starts_with §"192.168.65." gw.

(** [&hex[i*2..i*2+2]] panics inside a character. *)
Definition hex_octet (hex : bytes) (i : nat) : eval (option N) :=
  if char_boundary hex (i * 2) && char_boundary hex (i * 2 + 2)
  then Val (parse_hex 255 (take 2 (drop (i * 2) hex))) else Panic.

Definition hex_le_ipv4 (hex : bytes) : eval (option bytes) :=
  if negb (length hex =? 8) then Val None else
  o3 ← hex_octet hex 3;
  match o3 with None => Val None | Some d3 =>
  o2 ← hex_octet hex 2;
  match o2 with None => Val None | Some d2 =>
  o1 ← hex_octet hex 1;
  match o1 with None => Val None | Some d1 =>
  o0 ← hex_octet hex 0;
  match o0 with None => Val None | Some d0 =>
  Val (Some (show d3 ++ §"." ++ show d2 ++ §"." ++ show d1 ++ §"." ++ show d0))
  end end end end.

(** The first default route of [/proc/net/route]. *)
Fixpoint default_route (ls : list bytes) : eval (option bytes) :=
  match ls with
  | [] => Val None
  | line :: ls =>
      match split_whitespace line with
      | f0 :: f1 :: f2 :: _ =>
          if beqb f1 §"00000000" then hex_le_ipv4 f2 else default_route ls
      | _ => default_route ls
      end
  end.
Definition docker_default_gateway (e : Env) : eval (option bytes) :=
  match read_to_string e §"/proc/net/route" with
  | None => Val None
  | Some route => default_route (drop 1 (lines route))
  end.

Section docker.
Context `{Unicode} `{Yaml} `{RegexLib} `{HashOrder}.
Implicit Types c : AppConfig.

Definition is_loopback_proxy (p : UpstreamProxy) : bool :=
  match host_port p with Some (h, _) => is_loopback_host h | None => false end.

Definition remap_docker_loopback_upstream (e : Env) c : eval AppConfig :=
  if negb (path_exists e §"/.dockerenv") then Val c else
  let off := match var e §"HOST_PROXY_GATEWAY" with
             | Some v => eq_ignore_ascii_case v §"off" | None => false end in
  if off then Val c else
  let any_loopback :=
    existsb is_loopback_proxy ((map_to_list (upstreams c)).*2 ++ [upstream_proxy c]) in
  if negb any_loopback then Val c else
  gateway ←
    match var e §"HOST_PROXY_GATEWAY" with
    | Some s => if decide (s = []) then docker_default_gateway e else Val (Some s)
    | None => docker_default_gateway e
    end;
  match gateway with
  | None => Val c
  | Some gw =>
      if negb (is_docker_bridge_gateway gw) then Val c
      else Val c {{ upstreams := remap_proxy_loopback_host gw <$> upstreams c;
                    upstream_proxy := remap_proxy_loopback_host gw (upstream_proxy c) }}
  end.

End docker.

(** * Environment variables *)

(** [matches!(v.to_ascii_lowercase().as_str(), "1" | "true" | "yes" | "on")] *)
Definition truthy (v : bytes) : bool :=
  let v := to_ascii_lowercase v in
  beqb v §"1" || beqb v §"true" || beqb v §"yes" || beqb v §"on".

(** [if let Ok(v) = std::env::var(x) { c = f(v, c) }] *)
Definition on_var {A} (e : Env) (x : bytes) (f : bytes → A → A) (a : A) : A :=
  match var e x with Some v => f v a | None => a end.
(** ... [if !v.is_empty()] *)
Definition on_nonempty {A} (e : Env) (x : bytes) (f : bytes → A → A) (a : A) : A :=
  on_var e x (λ v a, if decide (v = []) then a else f v a) a.
(** ... [if let Ok(n) = v.parse()] *)
Definition on_number {A} (parse : bytes → option N) (e : Env) (x : bytes) (f : N → A → A) (a : A) : A :=
  on_var e x (λ v a, match parse v with Some n => f n a | None => a end) a.

Section env.
Context `{Unicode} `{Yaml} `{RegexLib} `{HashOrder}.
Implicit Types c : AppConfig.

Definition from_env (e : Env) : option UpstreamProxy :=
  s ← var e §"PROXY"; result_ok (parse_proxy_string s).

Definition apply_monitor_env_overrides (e : Env) c : AppConfig :=
  let mon f c := c {{ upstream_monitor ::= f }} in
  let tg f c := c {{ telegram ::= f }} in
  let c := on_var e §"UPSTREAM_MONITOR_ENABLED"
             (λ v, mon (λ m, m {{ mon_enabled := truthy v }})) c in
  let c := on_number parse_u64 e §"UPSTREAM_MONITOR_INTERVAL_SECS"
             (λ n, mon (λ m, m {{ interval_secs := N.max n 15 }})) c in
  let c := on_number parse_u64 e §"UPSTREAM_MONITOR_TIMEOUT_SECS"
             (λ n, mon (λ m, m {{ timeout_secs := N.max n 1 }})) c in
  let c := on_number parse_u32 e §"UPSTREAM_MONITOR_FAIL_THRESHOLD"
             (λ n, mon (λ m, m {{ fail_threshold := N.max n 1 }})) c in
  let c := on_nonempty e §"UPSTREAM_MONITOR_PROBE_HOST"
             (λ v, mon (λ m, m {{ probe_host := v }})) c in
  let c := on_number parse_u16 e §"UPSTREAM_MONITOR_PROBE_PORT"
             (λ p, mon (λ m, m {{ probe_port := p }})) c in
  let c := on_var e §"UPSTREAM_MONITOR_PROBE_HOSTS"
             (λ v, let l := filter (λ s, s ≠ [])
                      (trim <$> split_by (λ b, bool_decide (b = x2c ∨ b = x20)) v) in
                   if decide (l = []) then id else mon (λ m, m {{ probe_hosts := l }})) c in
  let c := on_nonempty e §"TELEGRAM_BOT_TOKEN" (λ v, tg (λ t, t {{ bot_token := Some v }})) c in
  let c := on_nonempty e §"TELEGRAM_CHAT_ID" (λ v, tg (λ t, t {{ chat_id := Some v }})) c in
  on_nonempty e §"TELEGRAM_API_BASE"
    (λ v, tg (λ t, t {{ api_base := trim_end_matches x2f v }})) c.

Definition apply_probe_env_overrides (e : Env) c : AppConfig :=
  let c := on_number parse_u64 e §"UPSTREAM_PROBE_WAIT_SECS"
             (λ n c, c {{ upstream_probe_wait_secs := n }}) c in
  let c := on_number parse_u64 e §"UPSTREAM_PROBE_INTERVAL_SECS"
             (λ n c, c {{ upstream_probe_interval_secs := N.max n 1 }}) c in
  on_var e §"UPSTREAM_PROBE_REQUIRED" (λ v c, c {{ upstream_probe_required := truthy v }}) c.

(** The first candidate path for which the file system test holds. *)
Definition first_path (test : bytes → bool) (candidates : list bytes) : option bytes :=
  head (filter (λ p, test p = true) candidates).
Definition unset (o : option bytes) : bool :=
  match o with Some s => bool_decide (s = []) | None => true end.

Definition apply_panel_env_overrides (e : Env) c : AppConfig :=
  let pan f c := c {{ panel ::= f }} in
  let c := on_nonempty e §"PANEL_ADDR" (λ v, pan (λ p, p {{ panel_addr := v }})) c in
  let c := on_nonempty e §"PANEL_DB" (λ v, pan (λ p, p {{ db_path := v }})) c in
  let c := on_var e §"PANEL_ENABLED" (λ v, pan (λ p, p {{ panel_enabled := truthy v }})) c in
  let c := on_nonempty e §"RELAY_IP" (λ v, pan (λ p, p {{ relay_ip := Some v }})) c in
  let c := on_nonempty e §"DNSMASQ_CONF_DIR" (λ v, pan (λ p, p {{ dnsmasq_conf_dir := Some v }})) c in
  let c := on_nonempty e §"DNSMASQ_RELAY_FILE" (λ v, pan (λ p, p {{ dnsmasq_relay_file := Some v }})) c in
  let c := on_nonempty e §"DNSMASQ_BYPASS_FILE"
             (λ v, pan (λ p, p {{ dnsmasq_bypass_file := Some v }})) c in
  let c := on_nonempty e §"DNSMASQ_CONF_PATH"
             (λ v, pan (λ p,
                let p := p {{ dnsmasq_conf_path := Some v }} in
                match dnsmasq_relay_file p with
                | None => p {{ dnsmasq_relay_file := Some v }}
                | Some _ => p
                end)) c in
  let c := on_nonempty e §"DNSMASQ_QUERY_LOG" (λ v, pan (λ p, p {{ dnsmasq_query_log := Some v }})) c in
  let c := on_number parse_u64 e §"DNS_QUERY_RETAIN_HOURS"
             (λ n, pan (λ p, p {{ dns_query_retain_hours := N.max n 1 }})) c in
  let c := on_nonempty e §"DNSMASQ_RELOAD_CMD"
             (λ v, pan (λ p, p {{ dnsmasq_reload_cmd := Some v }})) c in
  let c := on_var e §"CLIENT_WHITELIST_UFW" (λ v c, c {{ client_whitelist_ufw := truthy v }}) c in
  let c := on_nonempty e §"UFW_BIN" (λ v c, c {{ ufw_bin := Some v }}) c in
  let c :=
    if unset (dnsmasq_conf_dir (panel c)) then
      match first_path (is_dir e) [§"/etc/dnsmasq.d"; §"/usr/local/etc/dnsmasq.d"] with
      | Some p => c {{ panel ::= λ q, q {{ dnsmasq_conf_dir := Some p }} }}
      | None => c
      end
    else c in
  if unset (dnsmasq_query_log (panel c)) then
    match first_path (is_file e)
      [§"/var/log/dnsmasq/queries.log"; §"/var/log/dnsmasq.log"; §"/var/log/dnsmasq/dnsmasq.log"] with
    | Some p => c {{ panel ::= λ q, q {{ dnsmasq_query_log := Some p }} }}
    | None => c
    end
  else c.

(** [AppConfig::load], [from_str] being the YAML decoder, which runs the decoders of the
    fields and may panic in one of them ([parse_byte_size_panics]). *)
Definition load (from_str : bytes → eval (option AppConfig)) (e : Env) (path : bytes)
    : eval (result ConfigError AppConfig) :=
  parsed ← (if path_exists e path then
              match read_to_string e path with
              | Some content => c ← from_str content; Val (ok_or c YamlFailed)
              | None => Val (Err ReadFailed)
              end
            else Val (Ok AppConfig_default));
  Val (
  c ← parsed;
  let c := match from_env e with
           | Some proxy => apply_default_proxy_override c proxy
           | None => c
           end in
  let c := apply_probe_env_overrides e c in
  let c := apply_panel_env_overrides e c in
  let c := apply_monitor_env_overrides e c in
  let c := c {{ config_path := Some path }} in
  finalize c).

End env.

(** * Canonical addresses *)

Lemma parse_ip_nil : parse_ip [] = None.
Proof. by vm_compute. Qed.

Lemma normalize_client_ip_eq s : normalize_client_ip s = show_ip <$> parse_ip (trim s).
Proof. unfold normalize_client_ip. cbv zeta. case_decide as E; [|done]. by rewrite E, parse_ip_nil. Qed.

Lemma normalize_show_ip i : ip_wf i → normalize_client_ip (show_ip i) = Some (show_ip i).
Proof.
  intros Hi. rewrite normalize_client_ip_eq, trim_graphic by apply show_ip_graphic.
  by rewrite parse_ip_show.
Qed.

Lemma normalize_client_ip_Some s c :
  normalize_client_ip s = Some c → ∃ i, parse_ip (trim s) = Some i ∧ ip_wf i ∧ c = show_ip i.
Proof.
  rewrite normalize_client_ip_eq, fmap_Some. intros (i & Hi & ->).
  exists i. split_and!; [done | by eapply parse_ip_wf | done].
Qed.

Lemma normalize_client_ip_idemp s c :
  normalize_client_ip s = Some c → normalize_client_ip c = Some c.
Proof. intros (i & _ & Hi & ->)%normalize_client_ip_Some. by apply normalize_show_ip. Qed.

(** The canonical text of a client address is a normal form: it is its own canonical
    text, and two spellings have the same one exactly when they denote the same address. *)
Theorem normalize_client_ip_canonical s t c :
  normalize_client_ip s = Some c →
  normalize_client_ip c = Some c
  ∧ (normalize_client_ip t = Some c ↔ parse_ip (trim t) = parse_ip (trim s)).
Proof.
  intros Hs. split; [by eapply normalize_client_ip_idemp|].
  apply normalize_client_ip_Some in Hs as (i & Hs & Hi & ->).
  rewrite normalize_client_ip_eq, Hs, fmap_Some. split.
  - intros (j & Hj & Hij). rewrite Hj.
    apply (f_equal parse_ip) in Hij. rewrite !parse_ip_show in Hij; [done | | done].
    by eapply parse_ip_wf.
  - intros ->. by exists i.
Qed.

Lemma normalize_client_ip_canonical_witness :
  normalize_client_ip §" 2001:0DB8:0::1 " = Some §"2001:db8::1"
  ∧ (normalize_client_ip §"2001:db8:0:0:0:0:0:1" = Some §"2001:db8::1"
     ↔ parse_ip (trim §"2001:db8:0:0:0:0:0:1") = parse_ip (trim §" 2001:0DB8:0::1 ")).
Proof.
  split; [by vm_compute|].
  apply (normalize_client_ip_canonical §" 2001:0DB8:0::1 "). by vm_compute.
Defined.

Lemma canonical_key_idemp k : canonical_key (canonical_key k) = canonical_key k.
Proof.
  unfold canonical_key. destruct (normalize_client_ip k) as [c|] eqn:E; cbn.
  - by rewrite (normalize_client_ip_idemp _ _ E).
  - by rewrite E.
Qed.

(** * User names *)

Lemma username_char_graphic b : username_char b = true → is_graphic b = true.
Proof.
  assert (∀ b, implb (username_char b) (is_graphic b) = true) as H
    by (apply byte_forall; by vm_compute).
  specialize (H b). intros Hb. by rewrite Hb in H.
Qed.

(** What [sanitize_whitelist_username] promises of a name. *)
Definition clean_username (u : bytes) : Prop :=
  u ≠ [] ∧ length u ≤ 32 ∧ Forall (λ b, username_char b = true) u.

Lemma sanitize_clean raw u : sanitize_whitelist_username raw = Some u → clean_username u.
Proof.
  unfold sanitize_whitelist_username. cbv zeta. intros H. repeat (case_decide; [done|]).
  injection H as <-. split_and!; [done | rewrite length_take; lia |].
  apply Forall_take, list.Forall_forall. intros b Hb. by apply list_elem_of_filter in Hb as [? _].
Qed.

Lemma sanitize_of_clean u : clean_username u → sanitize_whitelist_username u = Some u.
Proof.
  intros (Hne & Hl & Hc). unfold sanitize_whitelist_username. cbv zeta.
  assert (trim u = u) as ->.
  { apply trim_graphic, forallb_forall. intros b Hb. apply username_char_graphic.
    rewrite list.Forall_forall in Hc. by apply Hc, list_elem_of_In. }
  rewrite decide_False by done.
  assert (filter (λ b, username_char b = true) u = u) as ->.
  { clear Hne Hl. induction Hc as [|b u Hb _ IH]; [done|]. rewrite filter_cons_True by done. by rewrite IH. }
  rewrite take_ge by lia. by rewrite decide_False.
Qed.

(** White-list entries survive the configuration file: reading back what is written for
    an entry gives the entry, for every entry whose user name is one that the relay keeps
    (cleaned, or absent). *)
Lemma whitelist_entry_roundtrip e :
  match username e with Some u => clean_username u | None => True end →
  whitelist_deserialize (whitelist_serialize e) = e.
Proof.
  destruct e as [i [u|]]; cbn; [|done]. intros Hu. case_decide as Hn.
  - subst. by destruct Hu.
  - cbn. by rewrite sanitize_of_clean.
Qed.


(** * Byte quantities *)

(** A byte quantity whose last character is not ASCII can panic the configuration
    loader instead of being reported as invalid: the suffix test slices the string two
    bytes from its end, inside the three-byte character U+20AC. *)
Theorem parse_byte_size_panics `{F64} : parse_byte_size (§"10" ++ [xe2; x82; xac]) = Panic.
Proof. reflexivity. Qed.

(** * What [finalize] establishes *)

(** Evaluate record updates, and fold the fields that remain into projections. *)
Ltac app_fields :=
  cbn; unfold constant; cbn;
  repeat first
  [ progress change (match ?c with {| listens := x |} => x end) with (listens c)
  | progress change (match ?c with {| tls_listen := x |} => x end) with (tls_listen c)
  | progress change (match ?c with {| http_listen := x |} => x end) with (http_listen c)
  | progress change (match ?c with {| upstream_proxy := x |} => x end) with (upstream_proxy c)
  | progress change (match ?c with {| upstreams := x |} => x end) with (upstreams c)
  | progress change (match ?c with {| default_upstream := x |} => x end) with (default_upstream c)
  | progress change (match ?c with {| client_upstreams := x |} => x end) with (client_upstreams c)
  | progress change (match ?c with {| client_whitelist := x |} => x end) with (client_whitelist c)
  | progress change (match ?c with {| hosts := x |} => x end) with (hosts c)
  | progress change (match ?c with {| hosts_table := x |} => x end) with (hosts_table c) ].

Section finalize.
Context `{Unicode} `{Yaml} `{RegexLib} `{HashOrder}.
Implicit Types c : AppConfig.

(** The routing part of a normalized configuration. *)
Record routing_wf c : Prop := {
  wf_default : ∃ d, default_upstream c = Some d ∧ upstreams c !! d = Some (upstream_proxy c);
  wf_clients : ∀ k p, client_upstreams c !! k = Some p →
    canonical_key k = k ∧ is_Some (upstreams c !! p);
}.

(** The white list: canonical distinct addresses, clean user names. *)
Definition whitelist_wf (l : list WhitelistEntry) : Prop :=
  NoDup (ip <$> l) ∧
  Forall (λ e, normalize_client_ip (ip e) = Some (ip e)
    ∧ match username e with Some u => clean_username u | None => True end) l.

Definition listener_wf (l : ListenerConfig) : Prop :=
  proto l ∈ [Some §"tls"; Some §"http"] ∧ routes l = [].

Record config_wf c : Prop := {
  wf_listens : listens c ≠ [] ∧ Forall listener_wf (listens c);
  wf_legacy : tls_listen c = [] ∧ http_listen c = [];
  wf_routing : routing_wf c;
  wf_whitelist : whitelist_wf (client_whitelist c);
  wf_hosts : compile_hosts_table (hosts c) = Ok (hosts_table c);
}.

Lemma pick_default_Ok c d :
  pick_default c = Ok d → is_Some (upstreams c !! d).
Proof.
  unfold pick_default. destruct (default_upstream c) as [n|].
  - case_decide; [|done]. by intros [= <-].
  - case_decide; [by intros [= <-]|].
    destruct (head (sorted_keys (upstreams c))) as [k|] eqn:E; [|done].
    intros [= <-]. apply elem_of_sorted_keys. apply head_Some_elem_of in E. done.
Qed.

Lemma normalize_upstreams_wf c c' :
  normalize_upstreams c = Ok c' → routing_wf c'.
Proof.
  unfold normalize_upstreams. cbv zeta.
  set (c0 := if decide (upstreams c = ∅) then _ else c).
  destruct (pick_default c0) as [d|e] eqn:Hd; [|done]. apply pick_default_Ok in Hd as [p Hp].
  app_fields. rewrite Hp. app_fields. intros [= <-]. split; app_fields.
  - by exists d.
  - intros k p' Hk. apply insert_all_lookup in Hk as [Hk|Hk]; [|by rewrite lookup_empty in Hk].
    apply list_elem_of_fmap in Hk as ([k0 p0] & [= -> ->] & Hk).
    apply elem_of_hash_iter, map_lookup_filter_Some in Hk as [_ Hk].
    split; [apply canonical_key_idemp | done].
Qed.

Lemma normalize_upstreams_frame c c' :
  normalize_upstreams c = Ok c' →
  listens c' = listens c ∧ tls_listen c' = tls_listen c ∧ http_listen c' = http_listen c
  ∧ client_whitelist c' = client_whitelist c ∧ hosts c' = hosts c
  ∧ (upstreams c ≠ ∅ → upstreams c' = upstreams c).
Proof.
  unfold normalize_upstreams. cbv zeta.
  set (c0 := if decide (upstreams c = ∅) then _ else c).
  destruct (pick_default c0) as [d|e] eqn:Hd; [|done]. apply pick_default_Ok in Hd as [p Hp].
  app_fields. rewrite Hp. app_fields. intros [= <-]. app_fields. unfold c0.
  by destruct (decide (upstreams c = ∅)).
Qed.

(** It fails only on a [default_upstream] that is not a profile. *)
Lemma normalize_upstreams_err c e :
  normalize_upstreams c = Err e →
  ∃ d, e = UnknownDefault d ∧ default_upstream c = Some d ∧ upstreams c ≠ ∅ ∧ upstreams c !! d = None.
Proof.
  unfold normalize_upstreams. cbv zeta.
  set (c0 := if decide (upstreams c = ∅) then _ else c).
  destruct (pick_default c0) as [d|e'] eqn:Hd.
  { apply pick_default_Ok in Hd as [p Hp]. app_fields. by rewrite Hp. }
  cbn. intros [= ->]. revert Hd. unfold pick_default, c0.
  destruct (decide (upstreams c = ∅)) as [Hu|Hu]; cbn.
  - rewrite decide_True; [done|]. by rewrite lookup_insert.
  - destruct (default_upstream c) as [n|].
    + case_decide as Hn; [done|]. intros [= <-]. exists n. by rewrite eq_None_not_Some.
    + case_decide; [done|]. destruct (head (sorted_keys (upstreams c))) eqn:Eh; [done|].
      destruct (sorted_keys (upstreams c)) eqn:Ek; [|done].
      destruct Hu. apply map_empty. intros i. apply eq_None_not_Some. intros Hi.
      apply elem_of_sorted_keys in Hi. rewrite Ek in Hi. by apply elem_of_nil in Hi.
Qed.

Lemma whitelist_dedup_wf es seen :
  whitelist_wf (whitelist_dedup es seen)
  ∧ Forall (λ e, ip e ∉ seen) (whitelist_dedup es seen).
Proof.
  revert seen. induction es as [|e es IH]; intros seen; cbn [whitelist_dedup].
  { split; [split; constructor | constructor]. }
  destruct (normalize_client_ip (ip e)) as [n|] eqn:En; [|apply IH].
  case_decide as Hn; [apply IH|].
  destruct (IH ({[n]} ∪ seen)) as [[Hnd Hall] Hs]. split; [split|]; cbn.
  - constructor; [|done]. rewrite list_elem_of_fmap. intros (e' & -> & He').
    rewrite list.Forall_forall in Hs. apply Hs in He'. set_solver.
  - constructor; [|done]. cbn. split; [by eapply normalize_client_ip_idemp|].
    destruct (username e) as [u|]; [|done]. cbn.
    destruct (sanitize_whitelist_username u) eqn:E; [|done]. by eapply sanitize_clean.
  - constructor; [done|]. eapply list.Forall_impl; [exact Hs|]. cbn. set_solver.
Qed.

Lemma normalize_proto_wf l l' :
  normalize_proto l = Ok l' → proto l' ∈ [Some §"tls"; Some §"http"] ∧ routes l' = routes l.
Proof.
  unfold normalize_proto. destruct (proto l) as [p|].
  - cbv zeta. destruct (beqb (to_lowercase p) §"tls") eqn:E1; cbn [negb andb].
    + intros [= <-]. cbn. unfold beqb in E1. bool_to_prop. rewrite E1. split; [left | done].
    + destruct (beqb (to_lowercase p) §"http") eqn:E2; cbn [negb]; [|done].
      intros [= <-]. cbn. unfold beqb in E2. bool_to_prop. rewrite E2. split; [right; left | done].
  - destruct (parse_socket_addr (addr l)) as [a|]; [|done]. cbn. intros [= <-]. cbn.
    split; [|done]. case_match; [right; left | left].
Qed.

Lemma normalize_listeners_wf i ls ls' :
  normalize_listeners i ls = Ok ls' → length ls' = length ls ∧ Forall listener_wf ls'.
Proof.
  revert i ls'. induction ls as [|l ls IH]; intros i ls'; cbn [normalize_listeners].
  { intros [= <-]. done. }
  cbv zeta. destruct (normalize_proto _) as [l'|] eqn:El; [|done].
  destruct (normalize_listeners (S i) ls) as [ls0|] eqn:E; [|done]. cbn. intros [= <-].
  apply IH in E as [? ?]. apply normalize_proto_wf in El as [? Hr]. split; [cbn; lia|].
  by constructor.
Qed.

Lemma finalize_listeners_wf c c' :
  finalize_listeners c = Ok c' →
  (listens c' ≠ [] ∧ Forall listener_wf (listens c')) ∧ tls_listen c' = [] ∧ http_listen c' = []
  ∧ upstreams c' = upstreams c ∧ default_upstream c' = default_upstream c
  ∧ hosts c' = hosts c.
Proof.
  unfold finalize_listeners. cbv zeta.
  assert (listens (merge_listeners c) ≠ [] ∧ tls_listen (merge_listeners c) = []
    ∧ http_listen (merge_listeners c) = [] ∧ upstreams (merge_listeners c) = upstreams c
    ∧ default_upstream (merge_listeners c) = default_upstream c
    ∧ hosts (merge_listeners c) = hosts c) as (Hne & ?).
  { unfold merge_listeners. cbv zeta.
    destruct (decide (length (listens c) = 0)); cbn; case_decide as Hl; cbn; split_and!; try done;
      intros Hn; apply (f_equal length) in Hn; cbn in *; try lia. }
  destruct (normalize_listeners 0 _) as [ls|] eqn:E; [|done]. cbn. intros [= <-]. app_fields.
  apply normalize_listeners_wf in E as [Hl Hw]. split; [|done]. split; [|done].
  intros ->. destruct (listens (merge_listeners c)); done.
Qed.

Lemma finalize_inv c c' :
  finalize c = Ok c' →
  ∃ c1 c2 t, finalize_listeners c = Ok c1 ∧ normalize_upstreams c1 = Ok c2
    ∧ compile_hosts_table (hosts c2) = Ok t
    ∧ c' = (normalize_client_whitelist c2) {{ hosts_table := t }}.
Proof.
  unfold finalize. destruct (finalize_listeners c) as [c1|] eqn:E1; [|done].
  cbn [mbind result_bind]. destruct (normalize_upstreams c1) as [c2|] eqn:E2; [|done].
  cbn [mbind result_bind]. cbv zeta.
  change (hosts (normalize_client_whitelist c2)) with (hosts c2).
  destruct (compile_hosts_table (hosts c2)) as [t|] eqn:E3; [|done]. intros [= <-].
  by exists c1, c2, t.
Qed.

Lemma normalize_upstreams_default c d p c' :
  default_upstream c = Some d → upstreams c !! d = Some p → normalize_upstreams c = Ok c' →
  default_upstream c' = Some d ∧ upstream_proxy c' = p ∧ upstreams c' = upstreams c.
Proof.
  intros Hd Hp. unfold normalize_upstreams. cbv zeta.
  rewrite decide_False by (intros E; by rewrite E, lookup_empty in Hp).
  unfold pick_default. rewrite Hd, decide_True by by eexists. cbn [mbind result_bind].
  app_fields. rewrite Hp. app_fields. by intros [= <-].
Qed.

Lemma override_fallback c :
  let fallback := if decide (upstreams c = ∅) then §"default"
                  else unwrap_or (head (hash_iter (upstreams c)).*1) §"default" in
  fallback = §"default" ∨ is_Some (upstreams c !! fallback).
Proof.
  cbv zeta. case_decide; [by left|].
  destruct (head (hash_iter (upstreams c)).*1) as [k|] eqn:E; [right|by left]. cbn.
  apply head_Some_elem_of, list_elem_of_fmap in E as ([k' v] & -> & E%elem_of_hash_iter).
  by eexists.
Qed.

Lemma normalize_listeners_id i ls :
  Forall listener_wf ls → normalize_listeners i ls = Ok ls.
Proof.
  intros Hls. revert i. induction Hls as [|l ls [Hp Hr] _ IH]; intros i; [done|].
  cbn [normalize_listeners]. cbv zeta. rewrite IH.
  assert (normalize_proto (l {{ routes := [] }}) = Ok l) as ->; [|done].
  destruct l as [n a p r]. cbn in Hp, Hr. subst r. unfold normalize_proto. cbn.
  apply elem_of_cons in Hp as [->|[->|?%elem_of_nil]%elem_of_cons]; done.
Qed.

Lemma whitelist_dedup_id es seen :
  whitelist_wf es → Forall (λ e, ip e ∉ seen) es → whitelist_dedup es seen = es.
Proof.
  revert seen. induction es as [|e es IH]; intros seen [Hnd Hall] Hs; [done|].
  cbn [whitelist_dedup fmap list_fmap] in *. apply NoDup_cons in Hnd as [Hn Hnd].
  apply Forall_cons in Hall as [[Hc Hu] Hall]. apply Forall_cons in Hs as [Hs Hs'].
  rewrite Hc, decide_False by done. f_equal.
  - destruct e as [i u]. cbn in *. f_equal. destruct u as [u|]; [|done]. by apply sanitize_of_clean.
  - apply IH; [by split|]. rewrite list.Forall_forall in Hs' |- *. intros e' He'.
    specialize (Hs' e' He'). rewrite not_elem_of_union, not_elem_of_singleton. split; [|done].
    intros Heq. apply Hn. rewrite <- Heq. by apply list_elem_of_fmap_2.
Qed.

Lemma normalize_upstreams_id c : routing_wf c → normalize_upstreams c = Ok c.
Proof.
  intros [(d & Hd & Hp) Hc]. unfold normalize_upstreams. cbv zeta.
  rewrite decide_False by (intros E; by rewrite E, lookup_empty in Hp).
  unfold pick_default. rewrite Hd, decide_True by by eexists. cbn [mbind result_bind].
  app_fields. rewrite Hp. app_fields. f_equal.
  assert (filter (λ p, is_Some (upstreams c !! p.2)) (client_upstreams c) = client_upstreams c) as ->.
  { apply map_filter_id. intros k p Hk. by apply (Hc k p). }
  assert (insert_all ((λ p, (canonical_key p.1, p.2)) <$> hash_iter (client_upstreams c)) ∅
    = client_upstreams c) as ->.
  { rewrite <- (insert_all_hash_iter (client_upstreams c)) at 2. f_equal.
    rewrite <- (list_fmap_id (hash_iter _)) at 2. apply list_fmap_ext.
    intros i [k p] Hi. apply list_elem_of_lookup_2, elem_of_hash_iter in Hi. cbn.
    by rewrite (proj1 (Hc _ _ Hi)). }
  destruct c; cbn in *. by subst.
Qed.

Lemma finalize_wf_id c : config_wf c → finalize c = Ok c.
Proof.
  intros [[Hne Hl] [Ht Hh] Hr Hw Hhosts]. unfold finalize, finalize_listeners. cbv zeta.
  assert (merge_listeners c = c) as ->.
  { unfold merge_listeners. cbv zeta.
    assert (length (listens c) ≠ 0) by (intros E%nil_length_inv; congruence).
    rewrite (decide_False (P := length (listens c) = 0)) by done. app_fields.
    rewrite decide_False by done.
    destruct c; cbn in *. by subst. }
  rewrite normalize_listeners_id by done. cbn [mbind result_bind].
  assert (c {{ listens := listens c }} = c) as -> by by destruct c.
  rewrite normalize_upstreams_id by done. cbn [mbind result_bind].
  assert (normalize_client_whitelist c = c) as ->.
  { unfold normalize_client_whitelist. rewrite whitelist_dedup_id; [by destruct c | done |].
    apply list.Forall_forall. intros e _. apply not_elem_of_empty. }
  rewrite Hhosts. destruct c; done.
Qed.

Lemma finalize_config_wf c c' : finalize c = Ok c' → config_wf c'.
Proof.
  intros (c1 & c2 & t & E1 & E2 & E3 & ->)%finalize_inv.
  apply finalize_listeners_wf in E1 as (Hl & Ht & Hh & _).
  pose proof (normalize_upstreams_wf _ _ E2) as [Hd Hc].
  apply normalize_upstreams_frame in E2 as (El & Et & Eh & _).
  split; app_fields; rewrite ?El, ?Et, ?Eh; try done.
  apply whitelist_dedup_wf.
Qed.

(** C27: The configuration the relay starts with is well formed: at least one listener, each
    with protocol [tls] or [http]; the default profile exists and is the one kept in
    [upstream_proxy]; every client mapping has a canonical address and leads to an existing
    profile; the white list has distinct canonical addresses and clean user names; the
    hosts table is the compilation of the configured entries; and normalizing it again
    changes nothing. *)
Theorem finalize_wf c c' : finalize c = Ok c' → config_wf c' ∧ finalize c' = Ok c'.
Proof.
  intros Hc. assert (config_wf c') by by eapply finalize_config_wf.
  split; [done | by apply finalize_wf_id].
Qed.

(** An override of the upstream proxy ([PROXY], [--proxy]) takes effect: after
    normalization the default profile, the one of every client that is not mapped to
    another, is the overriding proxy, and the profile names are the configured ones and at
    most the new default. *)
Theorem override_finalize c proxy c' :
  finalize (apply_default_proxy_override c proxy) = Ok c' →
  upstream_proxy c' = proxy
  ∧ upstreams c' = <[default_upstream_name c' := proxy]> (upstreams c)
  ∧ (default_upstream_name c' = §"default" ∨ is_Some (upstreams c !! default_upstream_name c')
     ∨ default_upstream c = Some (default_upstream_name c')).
Proof.
  intros (c1 & c2 & t & E1 & E2 & E3 & ->)%finalize_inv.
  apply finalize_listeners_wf in E1 as (_ & _ & _ & Hu & Hd & _).
  destruct (normalize_upstreams_default c1 (override_name c) proxy c2) as (Hd2 & Hp & Hu2).
  - rewrite Hd. by app_fields.
  - rewrite Hu. app_fields. by rewrite lookup_insert_eq.
  - done.
  - unfold default_upstream_name. app_fields. rewrite Hd2, Hp, Hu2, Hu. app_fields.
    split_and!; [done | done |]. unfold override_name. cbv zeta.
    destruct (default_upstream c) as [n|].
    + destruct (bool_decide (is_Some (upstreams c !! n)) || _) eqn:E; [by right; right|].
      destruct (override_fallback c); [by left | by right; left].
    + destruct (override_fallback c); [by left | by right; left].
Qed.

End finalize.

(** * Docker remapping *)

Section remap.
Context `{Unicode} `{Yaml} `{RegexLib} `{HashOrder}.
Implicit Types c : AppConfig.

Lemma bridge_not_loopback gw : is_docker_bridge_gateway gw = true → is_loopback_host gw = false.
Proof.
  intros Hb. unfold is_loopback_host, beqb.
  destruct (bool_decide (gw = §"127.0.0.1")) eqn:E1; bool_to_prop; [by subst|].
  destruct (bool_decide (gw = §"localhost")) eqn:E2; bool_to_prop; [by subst|].
  destruct (bool_decide (gw = §"::1")) eqn:E3; bool_to_prop; [by subst|done].
Qed.

Lemma remap_not_loopback gw p :
  is_loopback_host gw = false → is_loopback_proxy (remap_proxy_loopback_host gw p) = false.
Proof.
  intros Hg. unfold is_loopback_proxy. destruct p as [h po u pw|h po a|]; cbn; [..|done];
    destruct (is_loopback_host h) eqn:E; cbn; by rewrite ?Hg, ?E.
Qed.

(** In a container whose gateway is a Docker bridge, no upstream profile keeps a
    loopback host, where the host's proxy cannot be reached; profiles with another host,
    ports and credentials are untouched. *)
Theorem remap_removes_loopback (e : Env) c gw :
  path_exists e §"/.dockerenv" = true →
  var e §"HOST_PROXY_GATEWAY" = Some gw → is_docker_bridge_gateway gw = true →
  ∃ c', remap_docker_loopback_upstream e c = Val c'
  ∧ (∀ n p, upstreams c !! n = Some p →
       upstreams c' !! n = Some (if is_loopback_proxy p then remap_proxy_loopback_host gw p else p))
  ∧ (∀ n p', upstreams c' !! n = Some p' → is_loopback_proxy p' = false).
Proof.
  intros Hd Hv Hb. unfold remap_docker_loopback_upstream. rewrite Hd, Hv. cbn [negb].
  assert (∀ p, remap_proxy_loopback_host gw p
    = if is_loopback_proxy p then remap_proxy_loopback_host gw p else p) as Hid.
  { intros [h po u pw|h po a|]; unfold is_loopback_proxy; cbn; by try destruct (is_loopback_host _). }
  pose proof (bridge_not_loopback gw Hb) as Hgl.
  assert (eq_ignore_ascii_case gw §"off" = false) as ->.
  { unfold is_docker_bridge_gateway in Hb. destruct gw as [|b gw]; [done|].
    unfold eq_ignore_ascii_case, beqb. apply bool_decide_eq_false. intros E. cbn in E.
    injection E as Eb _. revert Hb. cbn. by destruct (decide (x31 = b)) as [<-|]. }
  destruct (existsb is_loopback_proxy _) eqn:Hany; cbn [negb].
  - assert (gw ≠ []) by (intros ->; done). rewrite decide_False by done.
    cbn [mbind eval_bind]. rewrite Hb. cbn [negb]. eexists. split; [done|]. app_fields. split.
    + intros n p Hp. rewrite lookup_fmap, Hp. exact (f_equal Some (Hid p)).
    + intros n p'. rewrite lookup_fmap. intros (p & _ & ->)%fmap_Some.
      by apply remap_not_loopback.
  - exists c. split; [done|].
    assert (∀ n p, upstreams c !! n = Some p → is_loopback_proxy p = false) as Hno; [|split; [|done]].
    + intros n p Hp. destruct (is_loopback_proxy p) eqn:E; [|done].
      enough (existsb is_loopback_proxy ((map_to_list (upstreams c)).*2 ++ [upstream_proxy c]) = true)
        by congruence.
      apply existsb_exists. exists p. split; [|done]. apply list_elem_of_In.
      rewrite elem_of_app, list_elem_of_fmap. left. exists (n, p).
      by rewrite elem_of_map_to_list.
    + intros n p Hp. by rewrite (Hno n p Hp).
Qed.

End remap.

(** * Concrete configurations *)

Definition example_yaml : Yaml := unit.

Definition example_config : @AppConfig example_yaml example_regex :=
  AppConfig_default {{
    upstreams := <[§"asia" := Http §"10.1.1.1" 3128 None]>
                 {[ §"default" := Socks5 §"127.0.0.1" 1080 None None ]};
    client_upstreams := {[ §"192.0.2.7" := §"asia"; §" ::ffff:0102:0304 " := §"asia"; §"x" := §"gone" ]};
    client_whitelist := [{| ip := §" 10.0.0.1"; username := Some §"bob!" |}; ip_only §"10.0.0.1"] }}.

Lemma finalize_wf_witness :
  match @finalize ascii_unicode example_yaml example_regex sorted_order example_config with
  | Ok c' => @config_wf ascii_unicode example_yaml example_regex c' ∧ @finalize ascii_unicode example_yaml example_regex sorted_order c' = Ok c'
  | Err _ => False
  end.
Proof.
  destruct (@finalize ascii_unicode example_yaml example_regex sorted_order example_config)
    as [c'|err] eqn:E.
  - by apply (@finalize_wf ascii_unicode example_yaml example_regex sorted_order example_config).
  - exfalso.
    assert (is_ok (@finalize ascii_unicode example_yaml example_regex sorted_order example_config)
      = true) as Hok by by vm_compute. by rewrite E in Hok.
Defined.

Lemma override_finalize_witness :
  match @finalize ascii_unicode example_yaml example_regex sorted_order
          (@apply_default_proxy_override example_yaml example_regex sorted_order example_config Direct) with
  | Ok c' => upstream_proxy c' = Direct
  | Err _ => False
  end.
Proof.
  destruct (@finalize _ _ _ _ _) as [c'|err] eqn:E.
  - by apply (@override_finalize ascii_unicode example_yaml example_regex sorted_order
      example_config Direct).
  - exfalso.
    assert (is_ok (@finalize ascii_unicode example_yaml example_regex sorted_order
      (@apply_default_proxy_override example_yaml example_regex sorted_order example_config Direct))
      = true) as Hok by by vm_compute. by rewrite E in Hok.
Defined.

Definition docker_env : Env := {|
  var x := if beqb x §"HOST_PROXY_GATEWAY" then Some §"172.17.0.1" else None;
  path_exists _ := true; is_dir _ := false; is_file _ := false; read_to_string _ := None |}.

Lemma remap_removes_loopback_witness :
  ∃ c', remap_docker_loopback_upstream docker_env example_config = Val c'
  ∧ (∀ n p, upstreams example_config !! n = Some p →
       upstreams c' !! n
       = Some (if is_loopback_proxy p then remap_proxy_loopback_host §"172.17.0.1" p else p))
  ∧ (∀ n p', upstreams c' !! n = Some p' → is_loopback_proxy p' = false).
Proof. apply (remap_removes_loopback docker_env example_config §"172.17.0.1"); done. Defined.

(** Which profile an override replaces can depend on the iteration order of a hash map:
    with profiles [asia] and [default] and no [default_upstream], the configuration's default
    profile is [default], and the override replaces [asia] in one order and [default] in
    the other. *)
Theorem override_depends_on_hash_order :
  pick_default example_config = Ok §"default"
  ∧ @override_name example_yaml example_regex sorted_order example_config = §"asia"
  ∧ @override_name example_yaml example_regex reverse_order example_config = §"default".
Proof. by vm_compute. Qed.
