(* ===== verification/Sni.v ===== *)
(** src/sni.rs: extraction of the host name from the first bytes of a TLS
    connection.

    The definitions follow the source function by function in the [eval] monad,
    where an index or a slice out of range is [Panic]; the loops carry a fuel and
    running out of it is also [Panic], so that [parse_sni_total] shows at once that
    no access is out of range and that every loop ends. *)

From S2P Require Import Prelude RustStr.

(** * Data *)

Inductive PeekResult :=
| Tls (host : bytes)
| TlsNoSni
| PlainHttp
| NeedMore
| Unknown.

#[global] Instance PeekResult_eq_dec : EqDecision PeekResult.
Proof. solve_decision. Defined.

(** * Operations *)

Definition u16_be (b : bytes) : eval N :=
  b0 ← index b 0; b1 ← index b 1; Val (bn b0 * 256 + bn b1)%N.

Definition u24_be (b : bytes) : eval N :=
  b0 ← index b 0; b1 ← index b 1; b2 ← index b 2;
  Val (N.lor (N.lor (N.shiftl (bn b0) 16) (N.shiftl (bn b1) 8)) (bn b2)).

Definition HTTP_METHODS : list bytes :=
  [§"GET "; §"POST"; §"HEAD"; §"PUT "; §"DELE"; §"OPTI"; §"PATC"; §"CONN"].

Definition is_plain_http (prefix : bytes) : bool :=
  existsb (λ m, starts_with m prefix) HTTP_METHODS.

Section parser.
Context `{Unicode}.

(** The loop of [parse_sni_extension] over the entries of the server name list. *)
Fixpoint sni_entries (fuel : nat) (data : bytes) (list_end pos : nat) : eval (option bytes) :=
  match fuel with
  | 0 => Panic
  | S fuel =>
      if pos + 3 <=? list_end then
        name_type ← index data pos;
        b ← slice data (pos + 1) (pos + 3); name_len ← u16_be b;
        let name_len := N.to_nat name_len in
        let pos := pos + 3 in
        if list_end <? pos + name_len then Val None else
        if (bn name_type =? 0)%N then
          s ← slice data pos (pos + name_len);
          Val (to_lowercase <$> from_utf8 s)
        else sni_entries fuel data list_end (pos + name_len)
      else Val None
  end.

Definition parse_sni_extension (data : bytes) : eval (option bytes) :=
  if length data <? 2 then Val None else
  b ← slice data 0 2; list_len ← u16_be b;
  let list_len := N.to_nat list_len in
  if length data <? 2 + list_len then Val None else
  sni_entries (S (length data)) data (2 + list_len) 2.

(** The loop of [parse_client_hello] over the extensions. *)
Fixpoint walk_extensions (fuel : nat) (data : bytes) (ext_end pos : nat) : eval PeekResult :=
  match fuel with
  | 0 => Panic
  | S fuel =>
      if pos + 4 <=? ext_end then
        b ← slice data pos (pos + 2); ext_type ← u16_be b;
        b ← slice data (pos + 2) (pos + 4); ext_len ← u16_be b;
        let ext_len := N.to_nat ext_len in
        let pos := pos + 4 in
        if ext_end <? pos + ext_len then Val TlsNoSni else
        if (ext_type =? 0)%N then
          ext ← slice data pos (pos + ext_len);
          name ← parse_sni_extension ext;
          match name with Some n => Val (Tls n) | None => Val TlsNoSni end
        else walk_extensions fuel data ext_end (pos + ext_len)
      else Val TlsNoSni
  end.

(** [pos >= data.len() || data[pos] != 0x01], without the access when the first
    operand holds. *)
Definition byte_is (data : bytes) (pos : nat) (v : N) : eval bool :=
  if length data <=? pos then Val false else b ← index data pos; Val (bn b =? v)%N.

Definition parse_client_hello (data : bytes) : eval PeekResult :=
  let pos := 0 in
  hello ← byte_is data pos 1;
  if negb hello then Val TlsNoSni else
  let pos := pos + 1 in
  if length data <? pos + 3 then Val TlsNoSni else
  b ← slice data pos (pos + 3); _hs_len ← u24_be b;
  let pos := pos + 3 in
  if length data <? pos + 2 then Val TlsNoSni else
  let pos := pos + 2 in
  if length data <? pos + 32 then Val TlsNoSni else
  let pos := pos + 32 in
  if length data <=? pos then Val TlsNoSni else
  sid ← index data pos;
  let pos := pos + (1 + N.to_nat (bn sid)) in
  if length data <? pos + 2 then Val TlsNoSni else
  b ← slice data pos (pos + 2); cs_len ← u16_be b;
  let pos := pos + (2 + N.to_nat cs_len) in
  if length data <=? pos then Val TlsNoSni else
  cm ← index data pos;
  let pos := pos + (1 + N.to_nat (bn cm)) in
  if length data <? pos + 2 then Val TlsNoSni else
  b ← slice data pos (pos + 2); ext_total ← u16_be b;
  let pos := pos + 2 in
  let ext_end := pos + N.to_nat ext_total in
  if length data <? ext_end then Val TlsNoSni else
  walk_extensions (S (length data)) data ext_end pos.

Definition parse_tls_handshake_record (record : bytes) : eval PeekResult :=
  ty ← byte_is record 0 22;
  if (length record <? 5) || negb ty then Val Unknown else
  b1 ← index record 1; b2 ← index record 2;
  if (negb (bn b1 =? 3) || (4 <? bn b2))%N then Val Unknown else
  handshake ← slice_from record 5;
  parse_client_hello handshake.

(** The loop of [parse_sni_with_replay] over the records. *)
Fixpoint records (fuel : nat) (buf : bytes) (offset : nat) : eval (PeekResult * nat) :=
  match fuel with
  | 0 => Panic
  | S fuel =>
      if offset + 5 <=? length buf then
        record_type ← index buf offset;
        if (negb (bn record_type =? 20) && negb (bn record_type =? 22))%N then Val (Unknown, 0) else
        h ← index buf (offset + 3); l ← index buf (offset + 4);
        let record_len := N.to_nat (bn h * 256 + bn l) in
        let record_end := offset + 5 + record_len in
        if length buf <? record_end then Val (NeedMore, 0) else
        if (bn record_type =? 22)%N then
          record ← slice buf offset record_end;
          res ← parse_tls_handshake_record record;
          Val (res, record_end)
        else records fuel buf record_end
      else Val (NeedMore, 0)
  end.

Definition parse_sni_with_replay (buf : bytes) : eval (PeekResult * nat) :=
  if length buf <? 5 then Val (NeedMore, 0) else
  prefix ← slice buf 0 (Nat.min 8 (length buf));
  if is_plain_http prefix then Val (PlainHttp, 0) else
  records (S (length buf)) buf 0.

Definition parse_sni (buf : bytes) : eval PeekResult :=
  r ← parse_sni_with_replay buf; Val r.1.

End parser.

(** * No panic, and the loops end *)

Lemma returns_u16_be s (P : N → Prop) :
  2 ≤ length s → (∀ n, (n < 65536)%N → P n) → returns (u16_be s) P.
Proof.
  intros Hl HP. unfold u16_be.
  apply returns_bind, returns_index; [lia|]. intros a _.
  apply returns_bind, returns_index; [lia|]. intros b _.
  apply HP. pose proof (bn_lt a). pose proof (bn_lt b). lia.
Qed.

Lemma returns_u24_be s (P : N → Prop) :
  3 ≤ length s → (∀ n, P n) → returns (u24_be s) P.
Proof.
  intros Hl HP. unfold u24_be.
  do 3 (apply returns_bind, returns_index; [lia|]; intros ? _). apply HP.
Qed.

Lemma returns_byte_is data pos v (P : bool → Prop) :
  (∀ b, (b = true → pos < length data) → P b) → returns (byte_is data pos v) P.
Proof.
  intros HP. unfold byte_is. destruct (Nat.leb_spec (length data) pos).
  - by apply HP.
  - apply returns_bind, returns_index; [lia|]. intros b _. apply HP. lia.
Qed.

(** One step of a symbolic run of the parser: a test, an access or a return. *)
Ltac parser_step :=
  lazymatch goal with
  | |- returns (if ?b then _ else _) _ => destruct b eqn:?; bool_to_prop
  | |- returns (Val _) _ => apply returns_val
  | |- returns (match ?o with Some _ => _ | None => _ end) _ => destruct o
  | |- returns (_ ≫= _) _ => apply returns_bind
  | |- returns (slice _ _ _) _ => apply returns_slice; [lia | lia | intros ? ? ?]
  | |- returns (slice_from _ _) _ => unfold slice_from
  | |- returns (u16_be _) _ => apply returns_u16_be; [lia | intros ? ?]
  | |- returns (u24_be _) _ => apply returns_u24_be; [lia | intros ?]
  | |- returns (index _ _) _ => apply returns_index; [lia | intros ? ?]
  | |- returns (byte_is _ _ _) _ => apply returns_byte_is; intros ? ?
  | |- returns (let _ := _ in _) _ => intro || cbv zeta
  end.
Ltac parser_run := repeat (parser_step; cbv zeta in * ).

Section total.
Context `{Unicode}.

Lemma sni_entries_total fuel data list_end pos :
  list_end ≤ length data → list_end - pos < fuel →
  returns (sni_entries fuel data list_end pos) (λ _, True).
Proof.
  revert pos. induction fuel as [|fuel IH]; intros pos Hle Hf; simpl.
  - lia.
  - parser_run; try done. apply IH; lia.
Qed.

Lemma parse_sni_extension_total data : returns (parse_sni_extension data) (λ _, True).
Proof.
  unfold parse_sni_extension. parser_run; try done. apply sni_entries_total; lia.
Qed.

Lemma walk_extensions_total fuel data ext_end pos :
  ext_end ≤ length data → ext_end - pos < fuel →
  returns (walk_extensions fuel data ext_end pos) (λ _, True).
Proof.
  revert pos. induction fuel as [|fuel IH]; intros pos Hle Hf; simpl.
  - lia.
  - parser_run; try done.
    + eapply returns_mono; [apply parse_sni_extension_total|].
      intros [?|] _; by apply returns_val.
    + apply IH; lia.
Qed.

Lemma parse_client_hello_total data : returns (parse_client_hello data) (λ _, True).
Proof.
  unfold parse_client_hello. parser_run; try done. apply walk_extensions_total; lia.
Qed.

Lemma parse_tls_handshake_record_total record :
  returns (parse_tls_handshake_record record) (λ _, True).
Proof.
  unfold parse_tls_handshake_record. parser_run; try done. apply parse_client_hello_total.
Qed.

Lemma records_total fuel buf offset :
  length buf - offset < fuel → returns (records fuel buf offset) (λ r, r.2 ≤ length buf).
Proof.
  revert offset. induction fuel as [|fuel IH]; intros offset Hf; simpl.
  - lia.
  - parser_run; simpl; try lia.
    + eapply returns_mono; [apply parse_tls_handshake_record_total|].
      intros res _. apply returns_val. simpl. lia.
    + apply IH. lia.
Qed.

Lemma parse_sni_returns buf :
  ∃ res n, parse_sni_with_replay buf = Val (res, n) ∧ n ≤ length buf.
Proof.
  assert (returns (parse_sni_with_replay buf) (λ r, r.2 ≤ length buf)) as Hr.
  { unfold parse_sni_with_replay. parser_run; cbn [snd]; try lia. apply records_total. lia. }
  apply returns_iff in Hr as ([res n] & ? & ?). eauto.
Qed.

(** C26: Whatever bytes a client sends, [parse_sni_with_replay] returns: no index or
    slice is out of range, its loops end, and the length of the ClientHello flight it
    reports lies within the buffer. *)
Theorem parse_sni_total buf :
  ∃ res n, parse_sni_with_replay buf = Val (res, n) ∧ n ≤ length buf.
Proof. apply parse_sni_returns. Qed.

End total.

(** * The decision is stable: more bytes do not change it *)

Lemma starts_with_app m l more :
  length m ≤ length l → starts_with m (l ++ more) = starts_with m l.
Proof.
  revert l. induction m as [|a m IH]; intros [|b l] Hl; simpl in *; try done; try lia.
  case_decide; [|done]. apply IH. lia.
Qed.

Lemma starts_with_take m l k :
  length m ≤ k → starts_with m (take k l) = starts_with m l.
Proof.
  revert l k. induction m as [|a m IH]; intros [|b l] [|k] Hl; simpl in *; try done; try lia.
  case_decide; [|done]. apply IH. lia.
Qed.

Lemma is_plain_http_prefix l k : 4 ≤ k → is_plain_http (take k l) = is_plain_http l.
Proof.
  intros Hk. unfold is_plain_http, HTTP_METHODS. cbn [existsb].
  rewrite !starts_with_take; try done; simpl; lia.
Qed.

Lemma is_plain_http_app l more :
  4 ≤ length l → is_plain_http (l ++ more) = is_plain_http l.
Proof.
  intros Hk. unfold is_plain_http, HTTP_METHODS. cbn [existsb].
  rewrite !starts_with_app; try done; simpl; lia.
Qed.

Section stable.
Context `{Unicode}.

(** The prefix the parser tests is as good as the whole buffer. *)
Lemma parse_sni_with_replay_eq buf :
  5 ≤ length buf →
  parse_sni_with_replay buf =
    if is_plain_http buf then Val (PlainHttp, 0) else records (S (length buf)) buf 0.
Proof.
  intros Hl. unfold parse_sni_with_replay.
  destruct (Nat.ltb_spec (length buf) 5); [lia|].
  unfold slice. rewrite decide_True by lia. cbn [mbind eval_bind].
  rewrite drop_0, is_plain_http_prefix by lia. done.
Qed.

Lemma records_stable fuel fuel' buf more offset res n :
  records fuel buf offset = Val (res, n) → res ≠ NeedMore → fuel ≤ fuel' →
  records fuel' (buf ++ more) offset = Val (res, n).
Proof.
  revert fuel' offset. induction fuel as [|fuel IH]; intros fuel' offset Hr Hne Hf; [done|].
  destruct fuel' as [|fuel']; [lia|]. cbn [records] in *.
  destruct (Nat.leb_spec (offset + 5) (length buf)); [|by simplify_eq].
  destruct (Nat.leb_spec (offset + 5) (length (buf ++ more)));
    [|rewrite length_app in *; lia].
  rewrite !index_app_l by lia.
  destruct (index buf offset) as [ty|]; [|done]. cbn [mbind eval_bind] in *.
  case_match; [done|].
  destruct (index buf (offset + 3)) as [h|]; [|done].
  destruct (index buf (offset + 4)) as [l|]; [|done].
  cbn [mbind eval_bind] in *. cbv zeta in *.
  set (e := offset + 5 + N.to_nat (bn h * 256 + bn l)) in *.
  destruct (Nat.ltb_spec (length buf) e); [by simplify_eq|].
  destruct (Nat.ltb_spec (length (buf ++ more)) e); [rewrite length_app in *; lia|].
  rewrite slice_app_l by lia.
  case_match; [done|]. apply IH; [done | done | lia].
Qed.

Lemma parse_sni_decided buf more res n :
  parse_sni_with_replay buf = Val (res, n) → res ≠ NeedMore →
  parse_sni_with_replay (buf ++ more) = Val (res, n).
Proof.
  intros Hr Hne.
  destruct (Nat.ltb_spec (length buf) 5) as [Hl|Hl].
  { unfold parse_sni_with_replay in Hr. destruct (Nat.ltb_spec (length buf) 5); [|lia].
    by simplify_eq. }
  rewrite parse_sni_with_replay_eq in Hr by lia.
  rewrite parse_sni_with_replay_eq by (rewrite length_app; lia).
  rewrite is_plain_http_app by lia. case_match; [done|].
  eapply records_stable; [done | done | rewrite length_app; lia].
Qed.

(** Once [parse_sni_with_replay] has decided, reading more bytes does not change
    the host name, the verdict or the length of the flight to replay. *)
Theorem parse_sni_stable buf more res n :
  parse_sni_with_replay buf = Val (res, n) → res ≠ NeedMore →
  parse_sni_with_replay (buf ++ more) = Val (res, n).
Proof. apply parse_sni_decided. Qed.

End stable.

(** * The wire format, and the name the parser finds in it

    A reference encoder of the part of TLS the parser walks (RFC 8446, section 4.1.2,
    and RFC 6066, section 3), used to state what the parser finds. *)

Definition be16 (n : nat) : bytes := [as_u8 (N.of_nat n / 256); as_u8 (N.of_nat n)].

Definition enc_name (e : Byte.byte * bytes) : bytes := e.1 :: be16 (length e.2) ++ e.2.
Definition enc_names (l : list (Byte.byte * bytes)) : bytes := mjoin (enc_name <$> l).
Definition enc_sni (l : list (Byte.byte * bytes)) : bytes :=
  be16 (length (enc_names l)) ++ enc_names l.
Definition enc_ext (e : nat * bytes) : bytes := be16 e.1 ++ be16 (length e.2) ++ e.2.
Definition enc_exts (l : list (nat * bytes)) : bytes := mjoin (enc_ext <$> l).

Record ClientHello := {
  hs_len : bytes;      (** not looked at by the parser *)
  version : bytes;
  random : bytes;
  session_id : bytes;
  cipher_suites : bytes;
  compression : bytes;
  extensions : list (nat * bytes);
}.

Definition enc_hello (h : ClientHello) : bytes :=
  x01 :: hs_len h ++ version h ++ random h
  ++ as_u8 (N.of_nat (length (session_id h))) :: session_id h
  ++ be16 (length (cipher_suites h)) ++ cipher_suites h
  ++ as_u8 (N.of_nat (length (compression h))) :: compression h
  ++ be16 (length (enc_exts (extensions h))) ++ enc_exts (extensions h).

Definition enc_record (ty v1 v2 : Byte.byte) (payload : bytes) : bytes :=
  ty :: v1 :: v2 :: be16 (length payload) ++ payload.

Record hello_wf (h : ClientHello) : Prop := {
  hs_len_3 : length (hs_len h) = 3;
  version_2 : length (version h) = 2;
  random_32 : length (random h) = 32;
  session_id_256 : length (session_id h) < 256;
  cipher_suites_64k : (N.of_nat (length (cipher_suites h)) < 65536)%N;
  compression_256 : length (compression h) < 256;
  exts_64k : (N.of_nat (length (enc_exts (extensions h))) < 65536)%N;
}.

Lemma length_be16 n : length (be16 n) = 2.
Proof. done. Qed.

Lemma be16_bn n :
  (N.of_nat n < 65536)%N →
  N.to_nat (bn (as_u8 (N.of_nat n / 256)) * 256 + bn (as_u8 (N.of_nat n))) = n.
Proof.
  intros Hn. rewrite !bn_as_u8.
  rewrite (N.mod_small (N.of_nat n / 256)) by (apply N.Div0.div_lt_upper_bound; lia).
  pose proof (N.div_mod (N.of_nat n) 256 ltac:(lia)). lia.
Qed.

Lemma u16_be_be16 n :
  (N.of_nat n < 65536)%N → u16_be (be16 n) = Val (N.of_nat n).
Proof.
  intros Hn. change (u16_be (be16 n))
    with (Val (bn (as_u8 (N.of_nat n / 256)) * 256 + bn (as_u8 (N.of_nat n)))%N).
  f_equal. pose proof (be16_bn n Hn). lia.
Qed.

Lemma as_u8_len n : n < 256 → N.to_nat (bn (as_u8 (N.of_nat n))) = n.
Proof. intros. rewrite bn_as_u8, N.mod_small by lia. lia. Qed.

(** Reading a big-endian length at a cursor. *)
Lemma u16_at {A} l p n r i j (K : N → eval A) :
  l = p ++ be16 n ++ r → i = length p → j = i + 2 → (N.of_nat n < 65536)%N →
  (slice l i j ≫= λ b, u16_be b ≫= K) = K (N.of_nat n).
Proof.
  intros -> -> -> Hn. rewrite (slice_at _ p (be16 n) r) by done.
  change (u16_be (be16 n) ≫= K = K (N.of_nat n)). by rewrite u16_be_be16.
Qed.

Lemma index_at_bind {A} l p b r i (K : Byte.byte → eval A) :
  l = p ++ b :: r → i = length p → (index l i ≫= K) = K b.
Proof. intros Hl Hi. by rewrite (index_at l p b r i Hl Hi). Qed.

Lemma slice_at_bind {A} l p q r i j (K : bytes → eval A) :
  l = p ++ q ++ r → i = length p → j = i + length q → (slice l i j ≫= K) = K q.
Proof. intros Hl Hi Hj. by rewrite (slice_at l p q r i j Hl Hi Hj). Qed.

Ltac list_shape := cbn [app]; rewrite <- ?app_assoc; cbn [app]; rewrite <- ?app_assoc; try done.
Ltac len :=
  repeat (rewrite ?length_app, ?length_be16 in *; cbn [length app fst snd] in * ); try lia.
(** Decide the test at the head of the goal. *)
Ltac head_test :=
  lazymatch goal with
  | |- (if ?a <=? ?b then _ else _) = _ =>
      first [rewrite (proj2 (Nat.leb_le a b)) by len | rewrite (proj2 (Nat.leb_gt a b)) by len]
  | |- (if ?a <? ?b then _ else _) = _ =>
      first [rewrite (proj2 (Nat.ltb_ge a b)) by len | rewrite (proj2 (Nat.ltb_lt a b)) by len]
  end.

Section found.
Context `{Unicode}.

Definition name_ok (e : Byte.byte * bytes) : Prop := (N.of_nat (length e.2) < 65536)%N.
Definition ext_ok (e : nat * bytes) : Prop :=
  (N.of_nat e.1 < 65536)%N ∧ (N.of_nat (length e.2) < 65536)%N.

Lemma sni_entries_found fuel p pre name post tail :
  length pre < fuel →
  Forall (λ e, e.1 ≠ x00 ∧ name_ok e) pre → name_ok (x00, name) → utf8_valid name = true →
  sni_entries fuel (p ++ enc_names pre ++ enc_name (x00, name) ++ post ++ tail)
    (length (p ++ enc_names pre ++ enc_name (x00, name) ++ post)) (length p)
  = Val (Some (to_lowercase name)).
Proof.
  revert fuel p. induction pre as [|[ty nm] pre IH]; intros [|fuel] p Hf Hpre Hname Hutf;
    try (cbn in Hf; lia); cbn [sni_entries]; cbv zeta; unfold name_ok in *.
  - unfold enc_names, enc_name. cbn [fmap list_fmap mjoin list_join fst snd].
    head_test.
    rewrite (index_at_bind _ p x00 (be16 (length name) ++ name ++ post ++ tail))
      by (try done; list_shape).
    rewrite (u16_at _ (p ++ [x00]) (length name) (name ++ post ++ tail))
      by (try done; list_shape; len).
    rewrite Nat2N.id. cbn [snd] in Hname. head_test.
    replace (bn x00 =? 0)%N with true by done.
    rewrite (slice_at_bind _ (p ++ x00 :: be16 (length name)) name (post ++ tail))
      by (list_shape; len).
    unfold from_utf8. by rewrite Hutf.
  - apply Forall_cons in Hpre as [[Hty Hnm] Hpre]. cbn [fst snd] in *.
    change (enc_names ((ty, nm) :: pre)) with (enc_name (ty, nm) ++ enc_names pre).
    specialize (IH fuel (p ++ enc_name (ty, nm)) ltac:(cbn in Hf; lia) Hpre Hname Hutf).
    unfold enc_name in IH |- * at 1 2 3. cbn [fst snd] in *.
    head_test.
    rewrite (index_at_bind _ p ty (be16 (length nm) ++ nm ++ enc_names pre
        ++ enc_name (x00, name) ++ post ++ tail)) by (try done; list_shape).
    rewrite (u16_at _ (p ++ [ty]) (length nm) (nm ++ enc_names pre
        ++ enc_name (x00, name) ++ post ++ tail)) by (try done; list_shape; len).
    rewrite Nat2N.id. head_test.
    destruct (bn ty =? 0)%N eqn:E.
    { apply N.eqb_eq in E. destruct Hty. by apply bn_inj. }
    etrans; [|exact IH]. list_shape. f_equal; len.
Qed.

Lemma enc_names_length l : length l ≤ length (enc_names l).
Proof.
  induction l as [|[t n] l IH]; [simpl; lia|].
  change (enc_names ((t, n) :: l)) with (enc_name (t, n) ++ enc_names l).
  unfold enc_name. len.
Qed.

Lemma enc_names_app l1 l2 : enc_names (l1 ++ l2) = enc_names l1 ++ enc_names l2.
Proof. unfold enc_names. by rewrite fmap_app, join_app. Qed.

Lemma parse_sni_extension_found pre name post :
  Forall (λ e, e.1 ≠ x00 ∧ name_ok e) pre → name_ok (x00, name) → utf8_valid name = true →
  (N.of_nat (length (enc_names (pre ++ (x00, name) :: post))) < 65536)%N →
  parse_sni_extension (enc_sni (pre ++ (x00, name) :: post)) = Val (Some (to_lowercase name)).
Proof.
  intros Hpre Hname Hutf Hlen. unfold parse_sni_extension, enc_sni.
  set (L := length (enc_names (pre ++ (x00, name) :: post))) in *.
  assert (length (be16 L ++ enc_names (pre ++ (x00, name) :: post)) = 2 + L) as HL by len.
  rewrite HL. head_test.
  rewrite (u16_at _ [] L (enc_names (pre ++ (x00, name) :: post))) by (try done; list_shape).
  rewrite Nat2N.id. head_test.
  pose proof (enc_names_length (pre ++ (x00, name) :: post)) as Hn. fold L in Hn.
  rewrite length_app in Hn. cbn [length] in Hn.
  pose proof (sni_entries_found (S (2 + L)) (be16 L) pre name (enc_names post) []
    ltac:(lia) Hpre Hname Hutf) as Hs.
  etrans; [|exact Hs]. rewrite <- HL. unfold L.
  rewrite !enc_names_app. change (enc_names ((x00, name) :: post))
    with (enc_name (x00, name) ++ enc_names post).
  rewrite !app_nil_r. done.
Qed.

Lemma walk_extensions_found fuel p pre ext name post tail :
  length pre < fuel →
  Forall (λ e, e.1 ≠ 0 ∧ ext_ok e) pre → ext_ok (0, ext) →
  parse_sni_extension ext = Val (Some name) →
  walk_extensions fuel (p ++ enc_exts pre ++ enc_ext (0, ext) ++ post ++ tail)
    (length (p ++ enc_exts pre ++ enc_ext (0, ext) ++ post)) (length p)
  = Val (Tls name).
Proof.
  revert fuel p. induction pre as [|[ty d] pre IH]; intros [|fuel] p Hf Hpre [Ht Hext] Hsni;
    try (cbn in Hf; lia); cbn [walk_extensions]; cbv zeta.
  - unfold enc_exts, enc_ext. cbn [fmap list_fmap mjoin list_join fst snd] in *.
    head_test.
    rewrite (u16_at _ p 0 (be16 (length ext) ++ ext ++ post ++ tail)) by (try done; list_shape).
    rewrite (u16_at _ (p ++ be16 0) (length ext) (ext ++ post ++ tail))
      by (try done; list_shape; len).
    rewrite Nat2N.id. head_test.
    replace (N.of_nat 0 =? 0)%N with true by done.
    rewrite (slice_at_bind _ (p ++ be16 0 ++ be16 (length ext)) ext (post ++ tail))
      by (list_shape; len).
    rewrite Hsni. done.
  - apply Forall_cons in Hpre as [[Hty [Hty' Hd]] Hpre]. cbn [fst snd] in *.
    change (enc_exts ((ty, d) :: pre)) with (enc_ext (ty, d) ++ enc_exts pre).
    specialize (IH fuel (p ++ enc_ext (ty, d)) ltac:(cbn in Hf; lia) Hpre (conj Ht Hext) Hsni).
    unfold enc_ext in IH |- * at 1 2 3. cbn [fst snd] in *.
    head_test.
    rewrite (u16_at _ p ty (be16 (length d) ++ d ++ enc_exts pre ++ enc_ext (0, ext) ++ post ++ tail))
      by (try done; list_shape).
    rewrite (u16_at _ (p ++ be16 ty) (length d)
               (d ++ enc_exts pre ++ enc_ext (0, ext) ++ post ++ tail))
      by (try done; list_shape; len).
    rewrite Nat2N.id. head_test.
    destruct (N.of_nat ty =? 0)%N eqn:E; [apply N.eqb_eq in E; lia|].
    etrans; [|exact IH]. list_shape. f_equal; len.
Qed.

Lemma enc_exts_length l : length l ≤ length (enc_exts l).
Proof.
  induction l as [|[t n] l IH]; [simpl; lia|].
  change (enc_exts ((t, n) :: l)) with (enc_ext (t, n) ++ enc_exts l).
  unfold enc_ext. len.
Qed.

Lemma enc_exts_app l1 l2 : enc_exts (l1 ++ l2) = enc_exts l1 ++ enc_exts l2.
Proof. unfold enc_exts. by rewrite fmap_app, join_app. Qed.

(** The walk over the extensions at the end of the hello. *)
Lemma extensions_found data p E pre ext name post ext_end pos :
  E = enc_exts (pre ++ (0, ext) :: post) →
  Forall (λ e, e.1 ≠ 0 ∧ ext_ok e) pre → ext_ok (0, ext) → parse_sni_extension ext = Val (Some name) →
  data = p ++ be16 (length E) ++ E → ext_end = length (p ++ be16 (length E) ++ E) → pos = length (p ++ be16 (length E)) →
  walk_extensions (S (length data)) data ext_end pos = Val (Tls name).
Proof.
  intros HE' Hpre Hext Hsni Hd -> ->. pose proof (enc_exts_length (pre ++ (0, ext) :: post)) as Hn. rewrite <- HE' in Hn.
  rewrite length_app in Hn. cbn [length] in Hn.
  assert (length pre < S (length data)) as Hfuel by (rewrite Hd; len).
  pose proof (walk_extensions_found (S (length data)) (p ++ be16 (length E)) pre ext name (enc_exts post) [] Hfuel Hpre Hext Hsni) as Hw.
  assert (E = enc_exts pre ++ enc_ext (0, ext) ++ enc_exts post) as HE by (rewrite HE', enc_exts_app; done).
  rewrite app_nil_r, <- HE, <- app_assoc in Hw. rewrite <- Hw. f_equal. exact Hd.
Qed.

Lemma parse_client_hello_found h pre ext name post :
  hello_wf h → extensions h = pre ++ (0, ext) :: post →
  Forall (λ e, e.1 ≠ 0 ∧ ext_ok e) pre → ext_ok (0, ext) →
  parse_sni_extension ext = Val (Some name) →
  parse_client_hello (enc_hello h) = Val (Tls name).
Proof.
  intros [H1 H2 H3 H4 H5 H6 H7] Hexts Hpre Hext Hsni.
  destruct h as [hl ve ra si cs co ex]. cbn [hs_len version random session_id cipher_suites
    compression extensions] in *. subst ex.
  unfold enc_hello. cbn [hs_len version random session_id cipher_suites compression extensions].
  set (E := enc_exts (pre ++ (0, ext) :: post)) in *.
  set (data := x01 :: _).
  assert (length data = 1 + 3 + 2 + 32 + (1 + length si) + (2 + length cs) + (1 + length co)
    + (2 + length E)) as Hlen by (unfold data; len).
  set (p1 := x01 :: hl). set (p2 := p1 ++ ve ++ ra).
  set (p3 := p2 ++ as_u8 (N.of_nat (length si)) :: si).
  set (p4 := p3 ++ be16 (length cs) ++ cs).
  set (p5 := p4 ++ as_u8 (N.of_nat (length co)) :: co).
  assert (data = p5 ++ be16 (length E) ++ E) as Hd
    by (unfold data, p5, p4, p3, p2, p1; list_shape).
  assert (length p2 = 38) as Hp2 by (unfold p2, p1; len).
  assert (length p3 = 39 + length si) as Hp3 by (unfold p3; len).
  assert (length p4 = 41 + length si + length cs) as Hp4 by (unfold p4; len).
  assert (length p5 = 42 + length si + length cs + length co) as Hp5 by (unfold p5; len).
  unfold parse_client_hello. cbv zeta.
  assert (byte_is data 0 1 = Val true) as ->.
  { unfold byte_is. head_test. by erewrite (index_at_bind data [] x01); [|unfold data; reflexivity|]. }
  cbn [mbind eval_bind negb].
  head_test.
  erewrite (slice_at_bind data [x01] hl); [|by unfold data; list_shape | done | len].
  destruct hl as [|a1 [|a2 [|a3 [|]]]]; try (cbn in H1; lia).
  cbn [mbind eval_bind u24_be index lookup list_lookup].
  do 2 head_test. head_test.
  erewrite (index_at_bind data p2 (as_u8 (N.of_nat (length si))));
    [|by rewrite Hd; unfold p5, p4, p3; list_shape | len].
  rewrite as_u8_len by lia. head_test.
  erewrite (u16_at data p3 (length cs));
    [|by rewrite Hd; unfold p5, p4; list_shape | len | done | lia].
  rewrite Nat2N.id. head_test.
  erewrite (index_at_bind data p4 (as_u8 (N.of_nat (length co))));
    [|by rewrite Hd; unfold p5; list_shape | len].
  rewrite as_u8_len by lia. head_test.
  erewrite (u16_at data p5 (length E) E);
    [|by rewrite Hd; list_shape | len | len | lia].
  rewrite Nat2N.id. head_test.
  assert (E = enc_exts (pre ++ (0, ext) :: post)) as HE by done. clearbody E p5. clearbody data.
  apply (extensions_found data p5 E pre ext name post _ _ HE Hpre Hext Hsni Hd); len.
Qed.

(** A legacy change_cipher_spec record: its two version bytes and its payload. *)
Definition enc_ccs (l : list (Byte.byte * Byte.byte * bytes)) : bytes :=
  mjoin ((λ r, enc_record x14 r.1.1 r.1.2 r.2) <$> l).
Definition ccs_ok (r : Byte.byte * Byte.byte * bytes) : Prop := (N.of_nat (length r.2) < 65536)%N.

Lemma records_ccs fuel p ccs rest :
  Forall ccs_ok ccs →
  records (length ccs + fuel) (p ++ enc_ccs ccs ++ rest) (length p)
  = records fuel (p ++ enc_ccs ccs ++ rest) (length (p ++ enc_ccs ccs)).
Proof.
  revert p. induction ccs as [|[[v1 v2] pl] ccs IH]; intros p Hccs.
  { cbn. by rewrite app_nil_r. }
  apply Forall_cons in Hccs as [Hpl Hccs]. unfold ccs_ok in Hpl. cbn [fst snd] in Hpl.
  change (enc_ccs ((v1, v2, pl) :: ccs)) with (enc_record x14 v1 v2 pl ++ enc_ccs ccs).
  cbn [length Nat.add records]. unfold enc_record at 1 2 3 4 5 6. unfold be16.
  head_test.
  erewrite (index_at_bind _ p x14); [|by list_shape | done].
  replace (negb (bn x14 =? 20)%N && negb (bn x14 =? 22)%N) with false by done.
  erewrite (index_at_bind _ (p ++ [x14; v1; v2])); [|by list_shape | len].
  erewrite (index_at_bind _ (p ++ [x14; v1; v2; as_u8 (N.of_nat (length pl) / 256)]));
    [|by list_shape | len].
  cbv zeta. rewrite be16_bn by done. head_test.
  replace (bn x14 =? 22)%N with false by done.
  specialize (IH (p ++ enc_record x14 v1 v2 pl) Hccs).
  unfold enc_record, be16 in IH |- *.
  etrans; [|etrans; [exact IH|]]; list_shape; f_equal; len.
Qed.

Lemma parse_tls_handshake_record_enc v payload :
  (bn v ≤ 4)%N →
  parse_tls_handshake_record (enc_record x16 x03 v payload) = parse_client_hello payload.
Proof.
  intros Hv. unfold parse_tls_handshake_record, enc_record, be16. cbn [app].
  unfold byte_is. cbn [length Nat.leb]. cbn [index lookup list_lookup mbind eval_bind].
  replace (bn x16 =? 22)%N with true by done.
  replace (bn x03 =? 3)%N with true by done.
  rewrite (proj2 (N.ltb_ge 4 (bn v))) by lia. cbn [negb orb Nat.ltb Nat.leb].
  unfold slice_from, slice. cbn [length]. rewrite decide_True by lia. cbn [drop Nat.sub].
  rewrite Nat.sub_0_r, firstn_all. done.
Qed.

Lemma parse_sni_flight ccs v h pre names_pre name names_post post trailing :
  Forall ccs_ok ccs → (bn v ≤ 4)%N → hello_wf h →
  (N.of_nat (length (enc_hello h)) < 65536)%N →
  extensions h = pre ++ (0, enc_sni (names_pre ++ (x00, name) :: names_post)) :: post →
  Forall (λ e, e.1 ≠ 0 ∧ ext_ok e) pre →
  (N.of_nat (length (enc_sni (names_pre ++ (x00, name) :: names_post))) < 65536)%N →
  Forall (λ e, e.1 ≠ x00 ∧ name_ok e) names_pre → utf8_valid name = true →
  let flight := enc_ccs ccs ++ enc_record x16 x03 v (enc_hello h) in
  parse_sni_with_replay (flight ++ trailing) = Val (Tls (to_lowercase name), length flight).
Proof.
  intros Hccs Hv Hwf Hhl Hexts Hpre Hsni Hnames Hutf flight.
  assert (parse_client_hello (enc_hello h) = Val (Tls (to_lowercase name))) as Hch.
  { eapply parse_client_hello_found; [done | done | done | split; [cbn; lia | done] |].
    apply parse_sni_extension_found; [done | | done |].
    - unfold name_ok. unfold enc_sni in Hsni. rewrite enc_names_app in Hsni.
      change (enc_names ((x00, name) :: names_post))
        with (enc_name (x00, name) ++ enc_names names_post) in Hsni.
      unfold enc_name in Hsni. revert Hsni. len.
    - unfold enc_sni in Hsni. revert Hsni. len. }
  set (rec := enc_record x16 x03 v (enc_hello h)) in *.
  assert (length rec = 5 + length (enc_hello h)) as Hrec by (unfold rec, enc_record; len).
  assert (5 ≤ length (flight ++ trailing)) as H5 by (unfold flight; len).
  rewrite parse_sni_with_replay_eq by done.
  assert (is_plain_http (flight ++ trailing) = false) as ->.
  { unfold flight. destruct ccs as [|[[??]?]?]; reflexivity. }
  assert (length ccs ≤ length (enc_ccs ccs)) as Hcl.
  { clear. induction ccs as [|[[v1 v2] pl] ccs IH]; [simpl; lia|].
    change (enc_ccs ((v1, v2, pl) :: ccs)) with (enc_record x14 v1 v2 pl ++ enc_ccs ccs).
    unfold enc_record. len. }
  assert (∃ fuel, S (length (flight ++ trailing)) = length ccs + S fuel) as [fuel ->].
  { exists (length (flight ++ trailing) - length ccs). unfold flight in *.
    rewrite !length_app in *. lia. }
  pose proof (records_ccs (S fuel) [] ccs (rec ++ trailing) Hccs) as Hr.
  cbn [app length] in Hr. unfold flight. rewrite <- app_assoc. rewrite Hr. clear Hr.
  cbn [records]. head_test.
  erewrite (index_at_bind _ (enc_ccs ccs) x16); [|by unfold rec, enc_record; list_shape | done].
  replace (negb (bn x16 =? 20)%N && negb (bn x16 =? 22)%N) with false by done.
  erewrite (index_at_bind _ (enc_ccs ccs ++ [x16; x03; v]));
    [|by unfold rec, enc_record, be16; list_shape | len].
  erewrite (index_at_bind _ (enc_ccs ccs ++
      [x16; x03; v; as_u8 (N.of_nat (length (enc_hello h)) / 256)]));
    [|by unfold rec, enc_record, be16; list_shape | len].
  cbv zeta. rewrite be16_bn by done. head_test.
  replace (bn x16 =? 22)%N with true by done.
  erewrite (slice_at_bind _ (enc_ccs ccs) rec); [|done | done | lia].
  unfold rec at 1. rewrite parse_tls_handshake_record_enc by done. rewrite Hch.
  cbn [mbind eval_bind]. do 2 f_equal. len.
Qed.

(** C23: Functional correctness of the SNI parser on the wire format.  On any sequence of
    change_cipher_spec records followed by a handshake record with a ClientHello whose first
    server_name extension has [name] as its first host_name entry, and by any trailing bytes,
    it answers the lower-cased [name] and exactly the length of the flight (the
    change_cipher_spec records and the ClientHello record), none of the trailing bytes. *)
Theorem parse_sni_finds_name ccs v h pre names_pre name names_post post trailing :
  Forall ccs_ok ccs → (bn v ≤ 4)%N → hello_wf h →
  (N.of_nat (length (enc_hello h)) < 65536)%N →
  extensions h = pre ++ (0, enc_sni (names_pre ++ (x00, name) :: names_post)) :: post →
  Forall (λ e, e.1 ≠ 0 ∧ ext_ok e) pre →
  (N.of_nat (length (enc_sni (names_pre ++ (x00, name) :: names_post))) < 65536)%N →
  Forall (λ e, e.1 ≠ x00 ∧ name_ok e) names_pre → utf8_valid name = true →
  let flight := enc_ccs ccs ++ enc_record x16 x03 v (enc_hello h) in
  parse_sni_with_replay (flight ++ trailing) = Val (Tls (to_lowercase name), length flight).
Proof. apply parse_sni_flight. Qed.

End found.

(** * Concrete hellos *)

Definition example_hello : ClientHello := {|
  hs_len := [x00; x00; x50]; version := [x03; x03]; random := repeat x2a 32;
  session_id := []; cipher_suites := [x13; x01]; compression := [x00];
  extensions := [(10, [x00; x02; x00; x1d]);
                 (0, enc_sni [(x00, §"Example.COM")]); (16, [x00; x00])] |}.

Definition example_flight : bytes :=
  enc_ccs [(x03, x03, [x01])] ++ enc_record x16 x03 x01 (enc_hello example_hello).

Lemma parse_sni_stable_witness :
  @parse_sni_with_replay ascii_unicode (example_flight ++ §"and more")
  = Val (Tls §"example.com", length example_flight).
Proof.
  apply (@parse_sni_stable ascii_unicode); [by vm_compute | done].
Defined.

Lemma parse_sni_finds_name_witness :
  @parse_sni_with_replay ascii_unicode (example_flight ++ §"trailing")
  = Val (Tls §"example.com", length example_flight).
Proof.
  apply (@parse_sni_finds_name ascii_unicode [(x03, x03, [x01])] x01 example_hello
    [(10, [x00; x02; x00; x1d])] [] §"Example.COM" [] [(16, [x00; x00])] §"trailing").
  - repeat constructor.
  - by vm_compute.
  - split; vm_compute; try done; lia.
  - by vm_compute.
  - done.
  - repeat constructor; cbn; try done; lia.
  - by vm_compute.
  - constructor.
  - by vm_compute.
Defined.
