(* ===== verification/SelfLoop.v ===== *)
(** src/self_loop.rs: refusing destinations that lead back to the relay's own
    listeners.

    The interface addresses and the DNS answers are parameters. *)

From S2P Require Import Prelude RustStr Net Config.
From stdpp Require Import gmap.

(** What [getifaddrs] lists: per entry the address, if it is an internet one. *)
Definition IfAddrs := option (list (option IpAddr)).

(** The answer of [timeout(500 ms, lookup_host((host, port)))]. *)
Inductive Lookup := Resolved (addrs : list IpAddr) | LookupFailed | LookupTimeout.

Record SelfLoopGuard := {
  local_ips : gset IpAddr;
  listen_ports : gset N;
}.

Definition localhost_v4 : IpAddr := V4 127 0 0 1.
Definition localhost_v6 : IpAddr := V6 [0; 0; 0; 0; 0; 0; 0; 1]%N.

Definition interface_ips (ifs : IfAddrs) : gset IpAddr :=
  let set : gset IpAddr := {[localhost_v4; localhost_v6]} in
  match ifs with
  | None => set
  | Some l =>
      foldl (λ set o, match o with
                      | Some ip => if is_unspecified ip then set else {[ip]} ∪ set
                      | None => set
                      end) set l
  end.

Definition is_local_ip (g : SelfLoopGuard) (ip : IpAddr) : bool :=
  is_loopback ip || is_unspecified ip || bool_decide (ip ∈ local_ips g).

Definition would_loop (lookup_host : bytes → N → Lookup) (g : SelfLoopGuard) (host : bytes) (port : N)
    : bool :=
  if negb (bool_decide (port ∈ listen_ports g)) then false else
  match parse_ip host with
  | Some ip => is_local_ip g ip
  | None =>
      match lookup_host host port with
      | Resolved addrs => existsb (is_local_ip g) addrs
      | LookupFailed => false
      | LookupTimeout => false
      end
  end.

Section guard.
Context `{Unicode} `{Yaml}.

(** [SelfLoopGuard::from_config], of the listeners. *)
Definition guard_from_config (listens : list ListenerConfig) (ifs : IfAddrs) : SelfLoopGuard :=
  let listen_ports := list_to_set (omap (λ l, result_ok (listen_port l)) listens) in
  let local_ips :=
    foldl (λ set l,
      match parse_socket_addr (addr l) with
      | Some a => if is_unspecified (sa_ip a) then set else {[sa_ip a]} ∪ set
      | None => set
      end) (interface_ips ifs) listens in
  {| local_ips := local_ips; listen_ports := listen_ports |}.

(** What the guard holds for its own: loopback and unspecified addresses, those that
    [getifaddrs] lists and the ones the listeners are bound to. *)
Definition own_address (listens : list ListenerConfig) (ifs : IfAddrs) (ip : IpAddr) : Prop :=
  is_loopback ip = true ∨ is_unspecified ip = true
  ∨ (∃ l, ifs = Some l ∧ Some ip ∈ l)
  ∨ (∃ l a, l ∈ listens ∧ parse_socket_addr (addr l) = Some a ∧ sa_ip a = ip).
Definition own_port (listens : list ListenerConfig) (port : N) : Prop :=
  ∃ l a, l ∈ listens ∧ parse_socket_addr (addr l) = Some a ∧ sa_port a = port.

(** Adding the addresses of a list, one after the other. *)
Lemma elem_of_foldl_add {A} (f : A → option IpAddr) (l : list A) (set : gset IpAddr) ip :
  ip ∈ foldl (λ set x, match f x with Some i => {[i]} ∪ set | None => set end) set l
  ↔ ip ∈ set ∨ ∃ x, x ∈ l ∧ f x = Some ip.
Proof.
  revert set. induction l as [|x l IH]; intros set; cbn.
  { split; [by left|]. by intros [|(? & ?%elem_of_nil & _)]. }
  rewrite IH. setoid_rewrite elem_of_cons. destruct (f x) as [i|] eqn:E.
  - rewrite elem_of_union, elem_of_singleton. split.
    + intros [[->|?]|(y & ? & ?)]; eauto.
    + intros [?|(y & [->|?] & ?)]; [by eauto | simplify_eq; by eauto | by eauto].
  - split; [naive_solver|]. intros [?|(y & [->|?] & ?)]; [by eauto | congruence | by eauto].
Qed.

Lemma foldl_ext_f {A B} (f g : A → B → A) l a :
  (∀ a b, f a b = g a b) → foldl f a l = foldl g a l.
Proof. intros Hfg. revert a. induction l as [|b l IH]; intros a; cbn; [done|]. by rewrite Hfg, IH. Qed.

Lemma elem_of_interface_ips ifs ip :
  ip ∈ interface_ips ifs ↔
  ip = localhost_v4 ∨ ip = localhost_v6
  ∨ ∃ l, ifs = Some l ∧ Some ip ∈ l ∧ is_unspecified ip = false.
Proof.
  unfold interface_ips. destruct ifs as [l|]; cbv zeta.
  - set (f := λ o : option IpAddr, match o with
      | Some ip => if is_unspecified ip then None else Some ip | None => None end).
    rewrite (foldl_ext_f _ (λ set x, match f x with Some i => {[i]} ∪ set | None => set end)).
    2:{ intros set [i|]; cbn; [|done]. by destruct (is_unspecified i). }
    rewrite elem_of_foldl_add, elem_of_union, !elem_of_singleton. split.
    + intros [[-> | ->]|(o & Ho & Hf)]; [by left | by right; left | right; right].
      destruct o as [i|]; [|done]. cbn in Hf. destruct (is_unspecified i) eqn:E; [done|].
      simplify_eq. eauto.
    + intros [-> | [-> | (? & [= <-] & Hl & Hu)]]; [by left; left | by left; right | right].
      exists (Some ip). cbn. by rewrite Hu.
  - rewrite elem_of_union, !elem_of_singleton. naive_solver.
Qed.

Lemma is_local_ip_guard listens ifs ip :
  is_local_ip (guard_from_config listens ifs) ip = true ↔ own_address listens ifs ip.
Proof.
  unfold is_local_ip, own_address. rewrite !orb_true_iff, bool_decide_eq_true. cbn [local_ips guard_from_config].
  set (f := λ l : ListenerConfig, match parse_socket_addr (addr l) with
    | Some a => if is_unspecified (sa_ip a) then None else Some (sa_ip a) | None => None end).
  rewrite (foldl_ext_f _ (λ set x, match f x with Some i => {[i]} ∪ set | None => set end)).
  2:{ intros set l. unfold f. destruct (parse_socket_addr (addr l)); [|done]. by case_match. }
  rewrite elem_of_foldl_add, elem_of_interface_ips. split.
  - intros [[?|?]|[ [ -> | [ -> | (l & ? & ? & ?) ] ] | (l & Hl & Hf)]]; [by left | by right; left | by left | by left | |].
    + right; right; left. eauto.
    + unfold f in Hf. destruct (parse_socket_addr (addr l)) as [a|] eqn:E; [|done].
      destruct (is_unspecified (sa_ip a)) eqn:Eu; [done|]. simplify_eq. right; right; right. eauto.
  - intros [?|[?|Hown]]; [by left; left | by left; right|].
    destruct (is_unspecified ip) eqn:Eu; [by left; right|]. right.
    destruct Hown as [(l & -> & ?)|(l & a & Hl & Ha & Hip)]; [left; right; right; by eauto|].
    right. exists l. split; [done|]. unfold f. by rewrite Ha, Hip, Eu.
Qed.

Lemma elem_of_guard_ports listens ifs port :
  port ∈ listen_ports (guard_from_config listens ifs) ↔ own_port listens port.
Proof.
  cbn [listen_ports guard_from_config]. unfold own_port, listen_port.
  rewrite elem_of_list_to_set, list_elem_of_omap. split.
  - intros (l & Hl & Ha). destruct (parse_socket_addr (addr l)) as [a|] eqn:E; [|done].
    cbn in Ha. simplify_eq. eauto.
  - intros (l & a & Hl & Ha & <-). exists l. split; [done|]. by rewrite Ha.
Qed.

(** ** What reaches a listener

    How a host delivers a connection made on it, told without the guard (as Linux does). *)

(** An unspecified destination stands for this host's loopback address, an IPv4-mapped one
    for its IPv4 address. *)
Definition delivered_to (ip : IpAddr) : IpAddr :=
  match ip with
  | V4 0 0 0 0 => V4 127 0 0 1
  | V6 [0; 0; 0; 0; 0; 0; 0; 0] => V6 [0; 0; 0; 0; 0; 0; 0; 1]
  | V6 [0; 0; 0; 0; 0; 65535; x; y] => V4 (x / 256) (x mod 256) (y / 256) (y mod 256)
  | ip => ip
  end%N.
Definition ipv4_mapped (ip : IpAddr) : Prop := ∃ x y, ip = V6 [0; 0; 0; 0; 0; 65535; x; y]%N.

(** The addresses of a host with these interface addresses. *)
Definition on_host (addresses : list IpAddr) (ip : IpAddr) : Prop :=
  (∃ a b c, ip = V4 127 a b c) ∨ ip = V6 [0; 0; 0; 0; 0; 0; 0; 1]%N ∨ ip ∈ addresses.

(** A socket bound to [bound] takes a connection to [ip]: it is bound to that address, or to
    all IPv4 addresses of the host, or to all its addresses. *)
Definition takes (addresses : list IpAddr) (bound ip : IpAddr) : Prop :=
  bound = ip
  ∨ on_host addresses ip ∧ match bound, ip with
                           | V4 0 0 0 0, V4 _ _ _ _ => True
                           | V6 [0; 0; 0; 0; 0; 0; 0; 0], _ => True
                           | _, _ => False
                           end%N.
Definition reaches_listener (listens : list ListenerConfig) (addresses : list IpAddr)
    (ip : IpAddr) (port : N) : Prop :=
  ∃ l a, l ∈ listens ∧ parse_socket_addr (addr l) = Some a ∧ sa_port a = port
  ∧ takes addresses (sa_ip a) (delivered_to ip).

(** An address that a destination names: the literal, or an answer of the look-up. *)
Definition names_address (lookup_host : bytes → N → Lookup) (host : bytes) (port : N) (ip : IpAddr) : Prop :=
  match parse_ip host with
  | Some i => ip = i
  | None => ∃ addrs, lookup_host host port = Resolved addrs ∧ ip ∈ addrs
  end.

Lemma would_loop_own listens ifs lookup_host host port :
  would_loop lookup_host (guard_from_config listens ifs) host port = true ↔
  own_port listens port ∧ ∃ ip, names_address lookup_host host port ip ∧ own_address listens ifs ip.
Proof.
  unfold would_loop, names_address. rewrite <- elem_of_guard_ports with (ifs := ifs).
  case_bool_decide as Hp; cbn [negb]; [|naive_solver].
  destruct (parse_ip host) as [ip|].
  { rewrite is_local_ip_guard. naive_solver. }
  destruct (lookup_host host port) as [addrs| |]; [|naive_solver..].
  rewrite existsb_exists. setoid_rewrite is_local_ip_guard.
  setoid_rewrite <- list_elem_of_In. naive_solver.
Qed.

Lemma is_loopback_spec ip :
  is_loopback ip = true ↔ (∃ a b c, ip = V4 127 a b c) ∨ ip = V6 [0; 0; 0; 0; 0; 0; 0; 1]%N.
Proof.
  destruct ip as [a b c d|g]; cbn [is_loopback].
  - rewrite N.eqb_eq. naive_solver.
  - rewrite bool_decide_eq_true. naive_solver.
Qed.
Lemma is_unspecified_spec ip :
  is_unspecified ip = true ↔ ip = V4 0 0 0 0 ∨ ip = V6 [0; 0; 0; 0; 0; 0; 0; 0]%N.
Proof.
  destruct ip as [a b c d|g]; cbn [is_unspecified].
  - rewrite !andb_true_iff, !N.eqb_eq. naive_solver.
  - rewrite bool_decide_eq_true. naive_solver.
Qed.

Lemma delivered_to_cases ip :
  delivered_to ip = ip ∨ is_unspecified ip = true ∧ is_loopback (delivered_to ip) = true ∨ ipv4_mapped ip.
Proof.
  unfold delivered_to, ipv4_mapped.
  repeat (case_match; try (by left); try (by right; left); try (right; right; by eexists _, _)).
Qed.

(** C29: The self-loop guard against the way a host delivers connections.  Conditions: the
    interface addresses of the host have been listed when the guard was made, and have not
    changed.  Then a destination is refused when an address that it names (as a literal, or
    by the look-up of the guard; a name that is not resolved within its half second is let
    through) leads, on that port, to a socket of a listener of the relay, except when that
    address is written as an IPv4-mapped IPv6 one, which is let through.  And nothing is
    refused but on the port of a listener and for a name of this host: an address of its
    own or the unspecified one, whether or not that very listener is bound to it. *)
Theorem would_loop_spec listens addresses ifs lookup_host host port :
  (∃ l, ifs = Some l ∧ ∀ ip, Some ip ∈ l ↔ ip ∈ addresses) →
  let refused := would_loop lookup_host (guard_from_config listens ifs) host port = true in
  (∀ ip, names_address lookup_host host port ip → reaches_listener listens addresses ip port →
     ¬ ipv4_mapped ip → refused)
  ∧ (refused → own_port listens port
     ∧ ∃ ip, names_address lookup_host host port ip
       ∧ (on_host addresses (delivered_to ip) ∨ on_host addresses ip
          ∨ ∃ l a, l ∈ listens ∧ parse_socket_addr (addr l) = Some a ∧ sa_ip a = ip)).
Proof.
  intros (l & -> & Hl) refused. unfold refused. setoid_rewrite would_loop_own. split.
  - intros ip Hip (c & a & Hc & Ha & Hp & Ht) Hm. split; [by exists c, a|]. exists ip. split; [done|].
    unfold own_address. rewrite is_loopback_spec.
    destruct (delivered_to_cases ip) as [Hd|[[Hu _]|?]]; [|by right; left|by destruct Hm]. rewrite Hd in Ht.
    destruct Ht as [Hb|[[Hh|[Hh|Hh]] _]]; [right; right; right; by exists c, a | by left; left | by left; right |].
    right; right; left. exists l. split; [done|]. by apply Hl.
  - intros [Hp (ip & Hip & Hown)]. split; [done|]. exists ip. split; [done|]. unfold own_address in Hown.
    destruct Hown as [Hlo|[Hu|[(l' & [= <-] & Hin)|Hb]]].
    + apply is_loopback_spec in Hlo. right; left. unfold on_host. naive_solver.
    + left. apply is_unspecified_spec in Hu as [-> | ->]; [left; by exists 0%N, 0%N, 1%N | by right; left].
    + right; left. right; right. by apply Hl.
    + by right; right.
Qed.

End guard.

Definition example_listens : list (@ListenerConfig example_yaml) :=
  [{| name := None; addr := §"0.0.0.0:443"; proto := Some §"tls"; routes := [] |}].
Definition example_ifs : IfAddrs := Some [Some (V4 203 0 113 9); None].

Lemma would_loop_spec_witness :
  would_loop (λ _ _, Resolved [V4 203 0 113 9]) (guard_from_config example_listens example_ifs)
    §"relay.example.com" 443 = true.
Proof.
  apply (proj1 (would_loop_spec example_listens [V4 203 0 113 9] example_ifs (λ _ _, Resolved [V4 203 0 113 9])
    §"relay.example.com" 443
    ltac:(eexists; split; [reflexivity|]; intros ip; rewrite !elem_of_cons, !elem_of_nil; naive_solver)) (V4 203 0 113 9)).
  - exists [V4 203 0 113 9]. split; [done | by left].
  - exists {| name := None; addr := §"0.0.0.0:443"; proto := Some §"tls"; routes := [] |},
      {| sa_ip := V4 0 0 0 0; sa_port := 443; sa_scope := 0 |}.
    split_and!; [by left | by vm_compute | done|]. right. split; [right; right; by left | done].
  - intros (x & y & E). discriminate E.
Defined.

(** An IPv4-mapped literal of a loopback address passes the guard: [::ffff:127.0.0.1] is
    not a loopback address of [Ipv6Addr], and none of the relay's, although a socket
    connected to it reaches 127.0.0.1. *)
Theorem mapped_loopback_not_blocked :
  would_loop (λ _ _, LookupFailed) (guard_from_config example_listens example_ifs)
    §"127.0.0.1" 443 = true
  ∧ would_loop (λ _ _, LookupFailed) (guard_from_config example_listens example_ifs)
    §"::ffff:127.0.0.1" 443 = false.
Proof. by vm_compute. Qed.
