(* ===== verification/Limits.v ===== *)
(** src/limits.rs: raising the open-file limit and the cap on concurrent sessions that
    follows from it.

    [getrlimit] and [setrlimit] are parameters over an abstract state of the process's
    limits; what the theorem relies on is their documented behaviour. *)

From S2P Require Import Prelude.

Record Rlimit := { rlim_cur : N; rlim_max : N }.

Class RlimitOs := {
  os : Type;
  getrlimit : os → option Rlimit;
  setrlimit : Rlimit → os → option os;
}.

(** POSIX: a successful [setrlimit] is what [getrlimit] then reports, and the soft limit
    never exceeds the hard one. *)
Class RlimitLaws `{RlimitOs} : Prop := {
  get_after_set : ∀ l w w', setrlimit l w = Some w' → getrlimit w' = Some l;
  soft_le_hard : ∀ w l, getrlimit w = Some l → (rlim_cur l ≤ rlim_max l)%N;
}.

Record ProcessLimits := { soft_nofile : N; max_connections : N }.

Definition FD_RESERVE : N := 128.
Definition RLIM_INFINITY : N := u64_max.
Definition rlim_is_infinity (v : N) : bool := (v =? RLIM_INFINITY)%N.

Inductive IoError := OsError.

(** Concurrent sessions allowed: [min(configured, (soft - reserve) / 2)], at least one.
    [usize] has 64 bits. *)
Definition effective_connection_limit (soft_nofile configured_max reserve_fds : N) : N :=
  let fds_for_conns := (soft_nofile - reserve_fds)%N in
  let by_fds := (fds_for_conns / 2)%N in
  N.min configured_max (N.max by_fds 1).

Section limits.
Context `{RlimitOs}.

(** The limit answered, and the state of the process after the calls. *)
Definition current_nofile_soft (w : os) : result IoError N :=
  lim ← ok_or (getrlimit w) OsError; Ok (rlim_cur lim).

Definition raise_nofile_limit (target : N) (w : os) : result IoError N * os :=
  match getrlimit w with
  | None => (Err OsError, w)
  | Some lim =>
      let cur_soft := rlim_cur lim in
      let cur_hard := rlim_max lim in
      if (target <=? cur_soft)%N then (Ok cur_soft, w) else
      let want_soft := if rlim_is_infinity cur_hard then target else N.min target cur_hard in
      if (want_soft =? cur_soft)%N then (Ok cur_soft, w) else
      match setrlimit {| rlim_cur := want_soft; rlim_max := cur_hard |} w with
      | None => (Err OsError, w)
      | Some w =>
          match getrlimit w with
          | None => (Err OsError, w)
          | Some lim => (Ok (rlim_cur lim), w)
          end
      end
  end.

(** [limits::apply], of the two fields of the configuration it reads. *)
Definition apply (nofile_limit cfg_max_connections : N) (w : os) : result IoError ProcessLimits * os :=
  let '(soft, w) :=
    if (0 <? nofile_limit)%N then
      match raise_nofile_limit nofile_limit w with
      | (Ok s, w) => (Ok s, w)
      | (Err _, w) => (current_nofile_soft w, w)
      end
    else (current_nofile_soft w, w) in
  (soft ← soft;
   Ok {| soft_nofile := soft;
         max_connections := effective_connection_limit soft cfg_max_connections FD_RESERVE |}, w).

Lemma raise_nofile_limit_ok `{!RlimitLaws} target w s w' :
  raise_nofile_limit target w = (Ok s, w') →
  ∃ l l', getrlimit w = Some l ∧ getrlimit w' = Some l' ∧ rlim_cur l' = s ∧ rlim_max l' = rlim_max l
    ∧ (rlim_cur l ≤ s ≤ N.max (rlim_cur l) target)%N.
Proof.
  unfold raise_nofile_limit. destruct (getrlimit w) as [l|] eqn:El; [|done]. cbv zeta.
  pose proof (soft_le_hard _ _ El).
  destruct (N.leb_spec target (rlim_cur l)).
  { intros [= <- <-]. exists l, l. split_and!; first [done | lia]. }
  set (want := if rlim_is_infinity _ then _ else _).
  assert (rlim_cur l ≤ want ≤ target)%N as Hw.
  { unfold want. destruct (rlim_is_infinity _). all: lia. }
  clearbody want.
  destruct (N.eqb_spec want (rlim_cur l)).
  { intros [= <- <-]. exists l, l. split_and!; first [done | lia]. }
  destruct (setrlimit _ w) as [w1|] eqn:Es; [|done]. apply get_after_set in Es.
  rewrite Es. intros [= <- <-]. exists l. eexists. split_and!; try done; cbn; lia.
Qed.

(** A failure leaves the limits as they were. *)
Lemma raise_nofile_limit_err `{!RlimitLaws} target w e w' :
  raise_nofile_limit target w = (Err e, w') → w' = w.
Proof.
  unfold raise_nofile_limit. destruct (getrlimit w) as [l|] eqn:El; [|by intros ?; simplify_eq].
  cbv zeta. destruct (target <=? rlim_cur l)%N; [done|].
  destruct (N.eqb _ (rlim_cur l)); [done|].
  destruct (setrlimit _ w) as [w1|] eqn:Es; [|by intros ?; simplify_eq].
  apply get_after_set in Es. by rewrite Es.
Qed.

(** What the relay allows fits what the process may open.  When [apply] answers, the
    soft limit it reports is the one in force, it is never lowered, and the sessions it
    allows (two descriptors each) and the reserve stay within it, as long as the limit
    leaves room for one session at all; and it never allows more than configured. *)
Theorem apply_fits `{!RlimitLaws} nofile cfg_max w r w' :
  apply nofile cfg_max w = (Ok r, w') →
  (∃ l l', getrlimit w = Some l ∧ getrlimit w' = Some l' ∧ rlim_cur l' = soft_nofile r
     ∧ (rlim_cur l ≤ soft_nofile r)%N)
  ∧ (max_connections r ≤ cfg_max)%N
  ∧ (FD_RESERVE + 2 ≤ soft_nofile r → 2 * max_connections r + FD_RESERVE ≤ soft_nofile r)%N.
Proof.
  assert (∀ s, (N.min cfg_max (N.max ((s - FD_RESERVE) / 2) 1) ≤ cfg_max)%N
    ∧ (FD_RESERVE + 2 ≤ s →
       2 * effective_connection_limit s cfg_max FD_RESERVE + FD_RESERVE ≤ s)%N) as Harith.
  { intros s. unfold effective_connection_limit, FD_RESERVE. split; [lia|]. intros Hs.
    assert (2 * ((s - 128) / 2) ≤ s - 128)%N by (apply N.Div0.mul_div_le).
    assert (1 ≤ (s - 128) / 2)%N by (apply N.div_le_lower_bound; lia).
    generalize dependent ((s - 128) / 2)%N. lia. }
  assert (∀ w s, current_nofile_soft w = Ok s → ∃ l, getrlimit w = Some l ∧ rlim_cur l = s) as Hcur.
  { intros w0 s. unfold current_nofile_soft. destruct (getrlimit w0) as [l|]; [|done].
    cbn. intros [= <-]. by exists l. }
  unfold apply. destruct (N.ltb_spec 0 nofile).
  - destruct (raise_nofile_limit nofile w) as [[s|e] w1] eqn:E.
    + cbn. intros [= <- <-]. cbn. split; [|apply Harith].
      apply raise_nofile_limit_ok in E as (l & l' & ? & ? & ? & ? & ?). exists l, l'. naive_solver lia.
    + destruct (current_nofile_soft w1) as [s|] eqn:Ec; [|done]. cbn. intros [= <- <-]. cbn.
      split; [|apply Harith]. apply Hcur in Ec as (l & Hl & <-).
      apply raise_nofile_limit_err in E as ->. exists l, l. naive_solver lia.
  - destruct (current_nofile_soft w) as [s|] eqn:Ec; [|done]. cbn. intros [= <- <-]. cbn.
    split; [|apply Harith]. apply Hcur in Ec as (l & Hl & <-). exists l, l. naive_solver lia.
Qed.

End limits.

(** A concrete process: its limits, a hard limit that cannot be raised. *)
Definition example_os : RlimitOs := {|
  os := { l : Rlimit | (rlim_cur l <=? rlim_max l)%N = true };
  getrlimit w := Some (proj1_sig w);
  setrlimit l w :=
    match decide ((rlim_cur l <=? rlim_max l)%N = true) with
    | left H => if (rlim_max l <=? rlim_max (proj1_sig w))%N then Some (exist _ l H) else None
    | right _ => None
    end;
|}.

Lemma example_os_laws : @RlimitLaws example_os.
Proof.
  split.
  - intros l w w'. cbn. destruct (decide _); [|done]. case_match; [|done]. by intros [= <-].
  - intros [l Hl] l'. cbn. intros [= <-]. by apply N.leb_le.
Qed.

Definition example_process : @os example_os := exist _ {| rlim_cur := 1024; rlim_max := 4096 |} eq_refl.

Lemma apply_fits_witness :
  match @apply example_os 1048576 50000 example_process with
  | (Ok r, w') =>
      (∃ l l', @getrlimit example_os example_process = Some l ∧ @getrlimit example_os w' = Some l'
        ∧ rlim_cur l' = soft_nofile r ∧ (rlim_cur l ≤ soft_nofile r)%N)
      ∧ (max_connections r ≤ 50000)%N
      ∧ (FD_RESERVE + 2 ≤ soft_nofile r → 2 * max_connections r + FD_RESERVE ≤ soft_nofile r)%N
  | _ => False
  end.
Proof.
  destruct (@apply example_os 1048576 50000 example_process) as [[r|e] w'] eqn:E.
  - by apply (@apply_fits example_os example_os_laws 1048576 50000 example_process).
  - exfalso. by vm_compute in E.
Defined.
