(* ===== verification/UpstreamRegistry.v ===== *)
(** src/upstream_registry.rs: the live registry of upstream profiles and the routing of
    client addresses to them.

    The registry is shared as [Arc<RwLock<UpstreamRegistry>>]; every operation runs under
    the lock, so an operation is a function of the registry. *)

From S2P Require Import Prelude RustStr Collections Net Hosts Config.

Record UpstreamRegistry := {
  profiles : gmap bytes UpstreamProxy;
  default : bytes;
  by_ip : gmap bytes bytes;
  failover : bool;
}.

Inductive RegistryError :=
| ProfileMissing (name : bytes)
| UnknownProfile (profile : bytes)
| InvalidClientIp (ip : bytes)
| NoProfiles
| DefaultNotAProfile (default : bytes)
| ClientOfUnknownProfile (ip profile : bytes).

Definition from_config `{Yaml} `{RegexLib} (cfg : AppConfig) : UpstreamRegistry := {|
  profiles := upstreams cfg;
  default := default_upstream_name cfg;
  by_ip := client_upstreams cfg;
  failover := upstream_failover cfg |}.

Section registry.
Implicit Types r : UpstreamRegistry.

(** The key under which a client address is looked up. *)
Definition client_key (client_ip : bytes) : bytes :=
  unwrap_or (normalize_client_ip client_ip) (trim client_ip).

Definition profile_name_for_ip r (client_ip : bytes) : bytes :=
  match by_ip r !! client_key client_ip with
  | Some name => if decide (is_Some (profiles r !! name)) then name else default r
  | None => default r
  end.

Definition resolve r (client_ip : bytes) : result RegistryError (bytes * UpstreamProxy) :=
  let name := profile_name_for_ip r client_ip in
  proxy ← ok_or (profiles r !! name) (ProfileMissing name);
  Ok (name, proxy).

(** The comparison of [connect_candidates]: the default first, then byte-wise. *)
Definition cand_cmp (default a b : bytes) : comparison :=
  match bool_decide (a = default), bool_decide (b = default) with
  | true, false => Lt
  | false, true => Gt
  | _, _ => bcmp a b
  end.
Definition cand_le (default a b : bytes) : Prop := cand_cmp default a b ≠ Gt.
#[global] Instance cand_le_dec d : RelDecision (cand_le d).
Proof. unfold cand_le. intros a b. apply _. Defined.

Definition connect_candidates r (client_ip : bytes)
    : result RegistryError (list (bytes * UpstreamProxy)) :=
  let primary := profile_name_for_ip r client_ip in
  primary_proxy ← ok_or (profiles r !! primary) (ProfileMissing primary);
  let out := [(primary, primary_proxy)] in
  if negb (failover r) then Ok out else
  let rest := filter (λ k, k ≠ primary) (keys (profiles r)) in
  let rest := merge_sort (cand_le (default r)) rest in
  Ok (out ++ omap (λ name, proxy ← profiles r !! name; Some (name, proxy)) rest).

Definition default_proxy r : result RegistryError UpstreamProxy :=
  ok_or (profiles r !! default r) (ProfileMissing (default r)).

Definition set_client_upstream r (ip profile : bytes) : result RegistryError UpstreamRegistry :=
  if negb (bool_decide (is_Some (profiles r !! profile))) then Err (UnknownProfile profile) else
  key ← ok_or (normalize_client_ip ip) (InvalidClientIp ip);
  Ok r {{ by_ip := <[key := profile]> (by_ip r) }}.

(** The registry and whether a mapping was removed. *)
Definition remove_client_upstream r (ip : bytes) : result RegistryError (UpstreamRegistry * bool) :=
  key ← ok_or (normalize_client_ip ip) (InvalidClientIp ip);
  Ok (r {{ by_ip := base.delete key (by_ip r) }}, bool_decide (is_Some (by_ip r !! key))).

(** The loop of [from_parts]. *)
Fixpoint normalize_by_ip (profiles : gmap bytes UpstreamProxy) (l : list (bytes * bytes))
    (acc : gmap bytes bytes) : result RegistryError (gmap bytes bytes) :=
  match l with
  | [] => Ok acc
  | (ip, profile) :: l =>
      if negb (bool_decide (is_Some (profiles !! profile))) then Err (ClientOfUnknownProfile ip profile)
      else
        key ← ok_or (normalize_client_ip ip) (InvalidClientIp ip);
        normalize_by_ip profiles l (<[key := profile]> acc)
  end.

Definition from_parts `{HashOrder} (profiles : gmap bytes UpstreamProxy) (default : bytes)
    (by_ip : gmap bytes bytes) (failover : bool) : result RegistryError UpstreamRegistry :=
  if decide (profiles = ∅) then Err NoProfiles else
  if negb (bool_decide (is_Some (profiles !! default))) then Err (DefaultNotAProfile default) else
  by_ip ← normalize_by_ip profiles (hash_iter by_ip) ∅;
  Ok {| profiles := profiles; default := default; by_ip := by_ip; failover := failover |}.

(** * The invariant *)

Record registry_wf r : Prop := {
  wf_default_profile : is_Some (profiles r !! default r);
  wf_by_ip : ∀ k p, by_ip r !! k = Some p → canonical_key k = k ∧ is_Some (profiles r !! p);
}.

Lemma from_config_wf `{Yaml} `{RegexLib} (cfg : AppConfig) :
  routing_wf cfg → registry_wf (from_config cfg).
Proof.
  intros [(d & Hd & Hp) Hc]. split; cbn; [|done].
  unfold default_upstream_name. rewrite Hd. cbn. by eexists.
Qed.

Lemma set_client_upstream_wf r ip profile r' :
  registry_wf r → set_client_upstream r ip profile = Ok r' → registry_wf r'.
Proof.
  intros [Hd Hb]. unfold set_client_upstream. case_bool_decide as Hp; [cbn [negb]|done].
  destruct (normalize_client_ip ip) as [key|] eqn:Ek; [|done]. cbn. intros [= <-].
  split; cbn; [done|]. intros k p. rewrite lookup_insert_Some. intros [[<- <-]|[_ ?]]; [|by apply Hb].
  split; [|done]. unfold canonical_key. by rewrite (normalize_client_ip_idemp _ _ Ek).
Qed.

Lemma remove_client_upstream_wf r ip r' b :
  registry_wf r → remove_client_upstream r ip = Ok (r', b) → registry_wf r'.
Proof.
  intros [Hd Hb]. unfold remove_client_upstream.
  destruct (normalize_client_ip ip) as [key|]; [|done]. cbn. intros [= <- _].
  split; cbn; [done|]. intros k p [_ ?]%lookup_delete_Some. by apply Hb.
Qed.

Lemma normalize_by_ip_wf ps l acc m :
  normalize_by_ip ps l acc = Ok m →
  (∀ k p, acc !! k = Some p → canonical_key k = k ∧ is_Some (ps !! p)) →
  ∀ k p, m !! k = Some p → canonical_key k = k ∧ is_Some (ps !! p).
Proof.
  revert acc. induction l as [|[ip p0] l IH]; intros acc; cbn [normalize_by_ip].
  { by intros [= <-]. }
  case_bool_decide as Hp; cbn [negb]; [|done].
  destruct (normalize_client_ip ip) as [key|] eqn:Ek; [|done]. cbn. intros Hm Hacc. apply (IH _ Hm).
  intros k p. rewrite lookup_insert_Some. intros [[<- <-]|[_ ?]]; [|by apply Hacc].
  split; [|done]. unfold canonical_key. by rewrite (normalize_client_ip_idemp _ _ Ek).
Qed.

Lemma from_parts_wf `{HashOrder} ps d m f r : from_parts ps d m f = Ok r → registry_wf r.
Proof.
  unfold from_parts. case_decide; [done|]. case_bool_decide; cbn [negb]; [|done].
  destruct (normalize_by_ip ps (hash_iter m) ∅) as [m'|] eqn:E; [|done]. cbn. intros [= <-].
  split; cbn; [done|]. eapply normalize_by_ip_wf; [done|]. intros k p. by rewrite lookup_empty.
Qed.

(** What a client of the registry does with it: edits by the panel. *)
Inductive registry_op :=
| SetClient (ip profile : bytes)
| RemoveClient (ip : bytes)
| Replace (profiles : gmap bytes UpstreamProxy) (default : bytes) (by_ip : gmap bytes bytes)
    (failover : bool).

(** An operation that fails leaves the registry as it was. *)
Definition apply_op `{HashOrder} r (o : registry_op) : UpstreamRegistry :=
  match o with
  | SetClient ip profile =>
      match set_client_upstream r ip profile with Ok r' => r' | Err _ => r end
  | RemoveClient ip => match remove_client_upstream r ip with Ok (r', _) => r' | Err _ => r end
  | Replace ps d m f => match from_parts ps d m f with Ok r' => r' | Err _ => r end
  end.

Lemma apply_op_wf `{HashOrder} r o : registry_wf r → registry_wf (apply_op r o).
Proof.
  intros Hr. destruct o as [ip p|ip|ps d m f]; cbn.
  - destruct (set_client_upstream r ip p) eqn:E; [|done]. by eapply set_client_upstream_wf.
  - destruct (remove_client_upstream r ip) as [[r' b]|] eqn:E; [|done].
    by eapply remove_client_upstream_wf.
  - destruct (from_parts ps d m f) eqn:E; [|done]. by eapply from_parts_wf.
Qed.

Lemma profile_name_known r client_ip :
  registry_wf r → is_Some (profiles r !! profile_name_for_ip r client_ip).
Proof.
  intros [Hd _]. unfold profile_name_for_ip. destruct (by_ip r !! _); [|done]. by case_decide.
Qed.

(** Routing never fails on a live registry: whatever edits the panel makes to the
    registry of a normalized configuration, every client address, even a malformed one, is
    routed to an existing profile: the one mapped to it, otherwise the default. *)
Theorem resolve_never_fails `{Yaml} `{RegexLib} `{HashOrder} (cfg : AppConfig)
    (ops : list registry_op) (client_ip : bytes) :
  routing_wf cfg →
  let r := foldl apply_op (from_config cfg) ops in
  ∃ name proxy, resolve r client_ip = Ok (name, proxy) ∧ profiles r !! name = Some proxy
  ∧ name = unwrap_or (by_ip r !! client_key client_ip) (default r).
Proof.
  intros Hc r. assert (registry_wf r) as Hr.
  { unfold r. pose proof (from_config_wf _ Hc) as Hw. revert Hw. generalize (from_config cfg).
    induction ops as [|o ops IH]; intros r0 Hw; cbn; [done|]. by apply IH, apply_op_wf. }
  clearbody r. destruct (profile_name_known r client_ip Hr) as [proxy Hp].
  exists (profile_name_for_ip r client_ip), proxy. unfold resolve. rewrite Hp. split_and!; [done..|].
  unfold profile_name_for_ip. destruct (by_ip r !! client_key client_ip) as [n|] eqn:E; [|done].
  cbn. rewrite decide_True; [done|]. by eapply wf_by_ip.
Qed.

(** Setting, and removing, the mapping of a client changes the route of that client, in all
    its spellings, and of no other. *)
Lemma set_client_upstream_lookup r ip profile r' other :
  set_client_upstream r ip profile = Ok r' →
  profile_name_for_ip r' other =
    if decide (normalize_client_ip ip = Some (client_key other)) then profile
    else profile_name_for_ip r other.
Proof.
  unfold set_client_upstream. case_bool_decide as Hp; cbn [negb]; [|done].
  destruct (normalize_client_ip ip) as [key|] eqn:Ek; [|done]. cbn. intros [= <-].
  unfold profile_name_for_ip. cbn. case_decide as Heq.
  - injection Heq as <-. by rewrite lookup_insert_eq, decide_True.
  - rewrite lookup_insert_ne by congruence. done.
Qed.

Lemma remove_client_upstream_lookup r ip r' b other :
  remove_client_upstream r ip = Ok (r', b) →
  profile_name_for_ip r' other =
    if decide (normalize_client_ip ip = Some (client_key other)) then default r
    else profile_name_for_ip r other.
Proof.
  unfold remove_client_upstream. destruct (normalize_client_ip ip) as [key|] eqn:Ek; [|done].
  cbn. intros [= <- _]. unfold profile_name_for_ip. cbn. case_decide as Heq.
  - injection Heq as <-. by rewrite lookup_delete_eq.
  - rewrite lookup_delete_ne by congruence. done.
Qed.

(** An edit of the panel takes effect on the next connection of that client, however its
    address is written, and on no other client: after a successful [set] the client has the
    new profile, and a [remove] after it takes it back to the default. *)
Theorem set_then_remove_routes r ip profile r1 r2 b other :
  set_client_upstream r ip profile = Ok r1 → remove_client_upstream r1 ip = Ok (r2, b) →
  let same := bool_decide (normalize_client_ip ip = Some (client_key other)) in
  b = true
  ∧ profile_name_for_ip r1 other = (if same then profile else profile_name_for_ip r other)
  ∧ profile_name_for_ip r2 other = (if same then default r else profile_name_for_ip r other).
Proof.
  intros H1 H2 same.
  assert (default r1 = default r ∧ b = true) as [Hd Hb].
  { revert H1 H2. unfold set_client_upstream, remove_client_upstream.
    case_bool_decide; cbn [negb]; [|done]. destruct (normalize_client_ip ip); [|done].
    cbn. intros [= <-]. cbn. intros [= _ <-]. cbn. split; [done|].
    apply bool_decide_eq_true. rewrite lookup_insert_eq. by eexists. }
  rewrite (remove_client_upstream_lookup _ _ _ _ _ H2), !(set_client_upstream_lookup _ _ _ _ _ H1), Hd.
  unfold same. case_decide; by case_bool_decide.
Qed.

(** * The connect candidates *)

#[local] Instance cand_le_trans d : Transitive (cand_le d).
Proof.
  intros a b c. unfold cand_le, cand_cmp. pose proof (bytes_le_trans a b c) as Ht.
  unfold bytes_le in Ht. repeat case_bool_decide; simplify_eq; try done; auto.
Qed.
#[local] Instance cand_le_total d : Total (cand_le d).
Proof.
  intros a b. unfold cand_le, cand_cmp. pose proof (bytes_le_total a b) as Ht.
  unfold bytes_le in Ht. repeat case_bool_decide; simplify_eq; auto.
Qed.

Lemma omap_lookup_keys {A} (m : gmap bytes A) (l : list bytes) :
  (∀ k, k ∈ l → is_Some (m !! k)) →
  (omap (λ k, v ← m !! k; Some (k, v)) l).*1 = l.
Proof.
  induction l as [|k l IH]; intros Hl; [done|]. cbn.
  destruct (Hl k ltac:(left)) as [v Hv]. rewrite Hv. cbn. f_equal.
  apply IH. intros k' Hk'. apply Hl. by right.
Qed.

(** C24: With fail-over the relay tries, for a client, each profile exactly once: first the
    profile it is routed to, then the default, then the others in the order of their names;
    without fail-over, the routed profile only.  Each candidate carries its profile's proxy. *)
Theorem connect_candidates_spec r client_ip :
  registry_wf r →
  ∃ l, connect_candidates r client_ip = Ok l
  ∧ head l.*1 = Some (profile_name_for_ip r client_ip)
  ∧ Forall (λ c, profiles r !! c.1 = Some c.2) l
  ∧ (failover r = false → length l = 1)
  ∧ (failover r = true →
       l ≡ₚ map_to_list (profiles r) ∧ StronglySorted (cand_le (default r)) (tail l.*1)).
Proof.
  intros Hr. destruct (profile_name_known r client_ip Hr) as [proxy Hp].
  unfold connect_candidates. cbv zeta. set (primary := profile_name_for_ip r client_ip) in *.
  rewrite Hp. cbn [ok_or mbind result_bind].
  destruct (failover r) eqn:Hf; cbn [negb].
  2:{ eexists. split; [done|]. split_and!; [done | by repeat constructor | done | done]. }
  set (rest := merge_sort (cand_le (default r)) (filter (λ k, k ≠ primary) (keys (profiles r)))).
  assert (rest ≡ₚ filter (λ k, k ≠ primary) (keys (profiles r))) as Hperm
    by apply merge_sort_Permutation.
  assert (∀ k, k ∈ rest ↔ k ≠ primary ∧ is_Some (profiles r !! k)) as Hin.
  { intros k. rewrite Hperm, list_elem_of_filter. by rewrite elem_of_keys. }
  set (tl := omap (λ name, proxy ← profiles r !! name; Some (name, proxy)) rest).
  assert (tl.*1 = rest) as Htl.
  { apply omap_lookup_keys. intros k Hk. by apply Hin in Hk as [_ ?]. }
  assert (∀ k v, (k, v) ∈ tl ↔ k ≠ primary ∧ profiles r !! k = Some v) as Hel.
  { intros k v. unfold tl. rewrite list_elem_of_omap. split.
    - intros (k' & Hk' & He). destruct (profiles r !! k') eqn:E; [|done]. cbn in He. simplify_eq.
      split; [|done]. by apply Hin in Hk' as [? _].
    - intros [Hne Hv]. exists k. rewrite Hin, Hv. split; [|done]. split; [done | by eexists]. }
  eexists. split; [done|]. cbn [app fmap list_fmap head tail fst]. rewrite Htl.
  split_and!; [done | | done |].
  - apply list.Forall_forall. intros [k v] [[= -> ->]|Hk]%elem_of_cons; [done|].
    by apply Hel in Hk as [_ ?].
  - intros _. split.
    + apply NoDup_Permutation.
      * constructor; [by intros [? _]%Hel|]. apply (NoDup_fmap_1 fst). rewrite Htl, Hperm.
        apply NoDup_filter, NoDup_keys.
      * apply NoDup_map_to_list.
      * intros [k v]. rewrite elem_of_cons, Hel, elem_of_map_to_list.
        split; [intros [[= -> ->]|[_ ?]]; done|]. intros Hk.
        destruct (decide (k = primary)) as [->|]; [left; congruence | by right].
    + apply StronglySorted_merge_sort; apply _.
Qed.

End registry.

(** * A concrete registry *)

Definition example_routing : @AppConfig example_yaml example_regex :=
  AppConfig_default {{
    upstreams := <[§"asia" := Http §"10.1.1.1" 3128 None]> (<[§"eu" := Direct]>
                 {[ §"main" := Socks5 §"127.0.0.1" 1080 None None ]});
    default_upstream := Some §"main";
    upstream_proxy := Socks5 §"127.0.0.1" 1080 None None;
    upstream_failover := true;
    client_upstreams := {[ §"192.0.2.7" := §"asia" ]} }}.

Lemma example_routing_wf : routing_wf example_routing.
Proof.
  split.
  - by exists §"main".
  - intros k p Hk. change (({[ §"192.0.2.7" := §"asia" ]} : gmap bytes bytes) !! k = Some p) in Hk.
    apply lookup_singleton_Some in Hk as [<- <-]. split; [by vm_compute|].
    by eexists.
Qed.

Definition example_registry : UpstreamRegistry := from_config example_routing.

Lemma example_registry_wf : registry_wf example_registry.
Proof. apply from_config_wf, example_routing_wf. Qed.

Lemma resolve_never_fails_witness :
  let r := foldl (@apply_op sorted_order) example_registry
    [SetClient §"10.0.0.1" §"eu"; SetClient §"10.0.0.2" §"nowhere"; RemoveClient §"192.0.2.7"] in
  ∃ name proxy, resolve r §"not an address" = Ok (name, proxy) ∧ profiles r !! name = Some proxy
  ∧ name = unwrap_or (by_ip r !! client_key §"not an address") (default r).
Proof.
  apply (@resolve_never_fails example_yaml example_regex sorted_order example_routing).
  apply example_routing_wf.
Defined.

Lemma set_then_remove_routes_witness :
  match set_client_upstream example_registry §" 2001:DB8::1" §"eu" with
  | Ok r1 =>
      match remove_client_upstream r1 §" 2001:DB8::1" with
      | Ok (r2, b) =>
          profile_name_for_ip r1 §"2001:db8:0::1" = §"eu"
          ∧ profile_name_for_ip r2 §"2001:db8:0::1" = §"main"
      | Err _ => False
      end
  | Err _ => False
  end.
Proof.
  assert (normalize_client_ip §" 2001:DB8::1" = Some (client_key §"2001:db8:0::1")) as Hk
    by by vm_compute.
  destruct (set_client_upstream example_registry §" 2001:DB8::1" §"eu") as [r1|e] eqn:E1.
  - destruct (remove_client_upstream r1 §" 2001:DB8::1") as [[r2 b]|e] eqn:E2.
    + destruct (set_then_remove_routes example_registry §" 2001:DB8::1" §"eu" r1 r2 b
        §"2001:db8:0::1" E1 E2) as (_ & H1 & H2).
      rewrite bool_decide_true in H1, H2 by exact Hk. by split.
    + unfold remove_client_upstream in E2. by rewrite Hk in E2.
  - exfalso. assert (is_ok (set_client_upstream example_registry §" 2001:DB8::1" §"eu") = true)
      as Hok by by vm_compute. by rewrite E1 in Hok.
Defined.

Lemma connect_candidates_spec_witness :
  ∃ l, connect_candidates example_registry §"192.0.2.7" = Ok l
  ∧ head l.*1 = Some (profile_name_for_ip example_registry §"192.0.2.7")
  ∧ Forall (λ c, profiles example_registry !! c.1 = Some c.2) l
  ∧ (failover example_registry = false → length l = 1)
  ∧ (failover example_registry = true →
       l ≡ₚ map_to_list (profiles example_registry)
       ∧ StronglySorted (cand_le (default example_registry)) (tail l.*1)).
Proof. apply connect_candidates_spec, example_registry_wf. Defined.
