(* ===== verification/ClientAcl.v ===== *)
(** src/client_acl.rs: the white list of client addresses.

    Shared as [Arc<RwLock<ClientAcl>>]: every operation runs under the lock. *)

From S2P Require Import Prelude RustStr Collections Net Hosts Config.

(** Address to user name, the empty one for none. *)
Record ClientAcl := {
  entries : gmap bytes bytes;
  ufw_sync : bool;
}.

Inductive AclError := InvalidWhitelistIp (ip : bytes) | InvalidUsername.

Definition entry_user (e : WhitelistEntry) : bytes :=
  unwrap_or (username e ≫= sanitize_whitelist_username) [].

Section acl.
Implicit Types a : ClientAcl.

(** [from_config]: entries with an invalid address are ignored. *)
Definition acl_from_config `{Yaml} `{RegexLib} (cfg : AppConfig) : ClientAcl := {|
  entries := foldl (λ m e, match normalize_client_ip (ip e) with
                           | Some n => <[n := entry_user e]> m
                           | None => m
                           end) ∅ (client_whitelist cfg);
  ufw_sync := client_whitelist_ufw cfg |}.

(** The loop of [from_parts]: the first invalid address is the error. *)
Fixpoint insert_entries (es : list WhitelistEntry) (m : gmap bytes bytes)
    : result AclError (gmap bytes bytes) :=
  match es with
  | [] => Ok m
  | e :: es =>
      n ← ok_or (normalize_client_ip (ip e)) (InvalidWhitelistIp (ip e));
      insert_entries es (<[n := entry_user e]> m)
  end.
Definition acl_from_parts (es : list WhitelistEntry) (ufw : bool) : result AclError ClientAcl :=
  m ← insert_entries es ∅; Ok {| entries := m; ufw_sync := ufw |}.

Definition acl_len a : nat := size (entries a).
Definition is_open a : bool := bool_decide (entries a = ∅).

Definition is_allowed a (client_ip : bytes) : bool :=
  if decide (entries a = ∅) then true else
  let key := unwrap_or (normalize_client_ip client_ip) (trim client_ip) in
  bool_decide (is_Some (entries a !! key)).

Definition username_for a (i : bytes) : option bytes :=
  key ← normalize_client_ip i; entries a !! key.

(** Insert or update: the list, whether the address is new, and the cleaned name. *)
Definition add a (i user : bytes) : result AclError (ClientAcl * bool * bytes) :=
  n ← ok_or (normalize_client_ip i) (InvalidWhitelistIp i);
  user ← ok_or (sanitize_whitelist_username user) InvalidUsername;
  let added := negb (bool_decide (is_Some (entries a !! n))) in
  Ok (a {{ entries := <[n := user]> (entries a) }}, added, user).

Definition remove a (i : bytes) : result AclError (ClientAcl * bool) :=
  n ← ok_or (normalize_client_ip i) (InvalidWhitelistIp i);
  Ok (a {{ entries := base.delete n (entries a) }}, bool_decide (is_Some (entries a !! n))).

Definition as_vec a : list bytes := sorted_keys (entries a).

Definition as_entries a : list WhitelistEntry :=
  (λ p, {| ip := p.1; username := if decide (p.2 = []) then None else Some p.2 |})
    <$> sorted_entries (entries a).

Definition contains_ip a (i : bytes) : bool :=
  match normalize_client_ip i with
  | Some n => bool_decide (is_Some (entries a !! n))
  | None => false
  end.

Definition require_username (raw : bytes) : result AclError bytes :=
  ok_or (sanitize_whitelist_username raw) InvalidUsername.

(** * The invariant *)

Definition acl_wf a : Prop :=
  ∀ k u, entries a !! k = Some u → normalize_client_ip k = Some k ∧ (u = [] ∨ clean_username u).

Lemma entry_user_clean e : entry_user e = [] ∨ clean_username (entry_user e).
Proof.
  unfold entry_user. destruct (username e) as [u|]; [|by left]. cbn.
  destruct (sanitize_whitelist_username u) eqn:E; [right; by eapply sanitize_clean | by left].
Qed.

Lemma insert_wf (m : gmap bytes bytes) s n u ufw :
  acl_wf {| entries := m; ufw_sync := ufw |} → normalize_client_ip s = Some n →
  u = [] ∨ clean_username u → acl_wf {| entries := <[n := u]> m; ufw_sync := ufw |}.
Proof.
  intros Hm Hn Hu k v. cbn. rewrite lookup_insert_Some. intros [[<- <-]|[_ Hk]]; [|by apply (Hm k)].
  split; [by eapply normalize_client_ip_idemp | done].
Qed.

Lemma empty_wf ufw : acl_wf {| entries := ∅; ufw_sync := ufw |}.
Proof. intros k u. cbn. by rewrite lookup_empty. Qed.

Lemma acl_from_config_wf `{Yaml} `{RegexLib} (cfg : AppConfig) : acl_wf (acl_from_config cfg).
Proof.
  unfold acl_from_config. generalize (client_whitelist_ufw cfg) as ufw. intros ufw.
  generalize (empty_wf ufw). generalize (∅ : gmap bytes bytes).
  induction (client_whitelist cfg) as [|e es IH]; intros m Hm; cbn; [done|].
  apply IH. destruct (normalize_client_ip (ip e)) eqn:E; [|done].
  eapply insert_wf; [done | done | apply entry_user_clean].
Qed.

Lemma insert_entries_wf es m m' ufw :
  insert_entries es m = Ok m' → acl_wf {| entries := m; ufw_sync := ufw |} →
  acl_wf {| entries := m'; ufw_sync := ufw |}.
Proof.
  revert m. induction es as [|e es IH]; intros m; cbn [insert_entries].
  { by intros [= <-]. }
  destruct (normalize_client_ip (ip e)) eqn:E; [|done]. cbn. intros He Hm. apply (IH _ He).
  eapply insert_wf; [done | done | apply entry_user_clean].
Qed.

Lemma add_wf a i user a' added u : acl_wf a → add a i user = Ok (a', added, u) → acl_wf a'.
Proof.
  unfold add. intros Ha. destruct (normalize_client_ip i) eqn:E; [|done]. cbn.
  destruct (sanitize_whitelist_username user) as [u'|] eqn:Eu; [|done]. cbn. intros [= <- _ _].
  destruct a as [m ufw]. eapply insert_wf; [done | done | right; by eapply sanitize_clean].
Qed.

Lemma remove_wf a i a' b : acl_wf a → remove a i = Ok (a', b) → acl_wf a'.
Proof.
  unfold remove. intros Ha. destruct (normalize_client_ip i); [|done]. cbn. intros [= <- _].
  intros k u. cbn. intros [_ ?]%lookup_delete_Some. by apply (Ha k).
Qed.

(** Edits of the panel; one that fails leaves the list as it was. *)
Inductive acl_op :=
| Add (ip user : bytes)
| Remove (ip : bytes)
| ReplaceAll (es : list WhitelistEntry) (ufw : bool).
Definition apply_acl_op a (o : acl_op) : ClientAcl :=
  match o with
  | Add i u => match add a i u with Ok (a', _, _) => a' | Err _ => a end
  | Remove i => match remove a i with Ok (a', _) => a' | Err _ => a end
  | ReplaceAll es ufw => match acl_from_parts es ufw with Ok a' => a' | Err _ => a end
  end.

Lemma apply_acl_op_wf a o : acl_wf a → acl_wf (apply_acl_op a o).
Proof.
  intros Ha. destruct o as [i u|i|es ufw]; cbn.
  - destruct (add a i u) as [[[a' ad] u']|] eqn:E; [|done]. by eapply add_wf.
  - destruct (remove a i) as [[a' b]|] eqn:E; [|done]. by eapply remove_wf.
  - unfold acl_from_parts. destruct (insert_entries es ∅) eqn:E; [|done].
    cbn. by eapply insert_entries_wf; [|apply empty_wf].
Qed.

Lemma acl_ops_wf a ops : acl_wf a → acl_wf (foldl apply_acl_op a ops).
Proof. revert a. induction ops as [|o ops IH]; intros a Ha; cbn; [done|]. by apply IH, apply_acl_op_wf. Qed.

Lemma canonical_lookup a client_ip :
  acl_wf a →
  is_Some (entries a !! unwrap_or (normalize_client_ip client_ip) (trim client_ip)) ↔
  ∃ n, normalize_client_ip client_ip = Some n ∧ is_Some (entries a !! n).
Proof.
  intros Ha. destruct (normalize_client_ip client_ip) as [n|] eqn:E; cbn; [naive_solver|].
  split; [|by intros (? & ? & _)]. intros [u Hu]. apply Ha in Hu as [Hu _].
  rewrite normalize_client_ip_eq in E. apply fmap_None in E.
  apply normalize_client_ip_Some in Hu as (i & Hi & Hw & Heq).
  rewrite Heq, trim_graphic in Hi by apply show_ip_graphic. rewrite <- Heq in Hi. congruence.
Qed.

Lemma is_allowed_wf a client_ip :
  acl_wf a →
  is_allowed a client_ip = true ↔
  entries a = ∅
  ∨ ∃ i k, parse_ip (trim client_ip) = Some i ∧ is_Some (entries a !! k)
      ∧ parse_ip (trim k) = Some i.
Proof.
  intros Ha.
  unfold is_allowed. case_decide as He; [naive_solver|]. cbv zeta.
  rewrite bool_decide_eq_true, canonical_lookup by done. split.
  - intros (n & Hn & Hk). right. pose proof (normalize_client_ip_idemp _ _ Hn) as Hnn.
    apply normalize_client_ip_Some in Hn as (i & Hi & Hw & ->). exists i, (show_ip i).
    split_and!; [done | done |]. rewrite trim_graphic by apply show_ip_graphic. by apply parse_ip_show.
  - intros [?|(i & k & Hi & [u Hk] & Hki)]; [done|]. apply Ha in Hk as Hkk. destruct Hkk as [Hkk _].
    exists k. split; [|by eexists]. rewrite normalize_client_ip_eq in Hkk |- *.
    rewrite Hki in Hkk. by rewrite Hi.
Qed.

(** The white list admits exactly whom it should: after any edits of the panel on the
    configured list, a client is admitted when the list is empty, or when its address is the
    address of an entry, whatever the spelling of either; a client whose address cannot be
    read is admitted only by the empty list. *)
Theorem is_allowed_spec `{Yaml} `{RegexLib} (cfg : AppConfig) (ops : list acl_op) (client_ip : bytes) :
  let a := foldl apply_acl_op (acl_from_config cfg) ops in
  is_allowed a client_ip = true ↔
  entries a = ∅
  ∨ ∃ i k, parse_ip (trim client_ip) = Some i ∧ is_Some (entries a !! k)
      ∧ parse_ip (trim k) = Some i.
Proof.
  intros a. apply is_allowed_wf, acl_ops_wf, acl_from_config_wf.
Qed.

(** A new list has the addresses of its entries. *)
Lemma insert_entries_keys es m m' k :
  insert_entries es m = Ok m' →
  is_Some (m' !! k) ↔ is_Some (m !! k) ∨ ∃ e, e ∈ es ∧ normalize_client_ip (ip e) = Some k.
Proof.
  revert m. induction es as [|e es IH]; intros m; cbn [insert_entries].
  { intros [= <-]. split; [by left|]. intros [?|(e & ?%elem_of_nil & _)]; done. }
  destruct (normalize_client_ip (ip e)) as [n|] eqn:E; [|done]. cbn. intros Hm. rewrite (IH _ Hm), lookup_insert_is_Some.
  setoid_rewrite elem_of_cons. split.
  - intros [[->|[_ ?]]|(e' & ? & ?)]; [right; exists e; auto | by left | right; exists e'; auto].
  - destruct (decide (n = k)) as [|Hne]; [auto|]. intros [?|(e' & [->|?] & He)]; [auto | simplify_eq | right; exists e'; auto].
Qed.

Lemma acl_from_parts_allows es ufw a client_ip :
  acl_from_parts es ufw = Ok a →
  is_allowed a client_ip = true ↔
  es = [] ∨ ∃ e i, e ∈ es ∧ parse_ip (trim (ip e)) = Some i ∧ parse_ip (trim client_ip) = Some i.
Proof.
  unfold acl_from_parts. destruct (insert_entries es ∅) as [m|] eqn:E; [|done]. cbn. intros [= <-].
  rewrite is_allowed_wf by (by eapply insert_entries_wf; [|apply empty_wf]). cbn.
  assert (∀ k, is_Some (m !! k) ↔ ∃ e, e ∈ es ∧ normalize_client_ip (ip e) = Some k) as Hk.
  { intros k. rewrite (insert_entries_keys _ _ _ k E), lookup_empty. split; [intros [[? [=]]|?]; done | by right]. }
  assert (∀ e, e ∈ es → is_Some (normalize_client_ip (ip e))) as Hes.
  { clear Hk. revert E. generalize (∅ : gmap bytes bytes). induction es as [|e es IH]; intros m0; [intros _ e ?%elem_of_nil; done|].
    cbn [insert_entries]. destruct (normalize_client_ip (ip e)) as [n|] eqn:En; [|done]. cbn. intros Hm e' [->|He']%elem_of_cons;
      [by exists n | by eapply IH]. }
  split.
  - intros [->|(i & k & Hi & (e & He & Hn)%Hk & Hki)].
    + left. destruct es as [|e es]; [done|]. destruct (Hes e) as [n Hn]; [by left|].
      destruct (proj2 (Hk n)) as [? [=]]. exists e. split; [by left | done].
    + right. exists e, i. apply normalize_client_ip_Some in Hn as (i' & Hi' & Hw & ->).
      rewrite trim_graphic, parse_ip_show in Hki by (done || apply show_ip_graphic). simplify_eq. done.
  - intros [->|(e & i & He & Hi & Hc)]; [left; by injection E as <-|right].
    destruct (Hes e He) as [n Hn]. exists i, n. split; [done|]. split; [apply Hk; eauto|].
    apply normalize_client_ip_Some in Hn as (i' & Hi' & Hw & ->). rewrite Hi in Hi'. injection Hi' as <-.
    rewrite trim_graphic by apply show_ip_graphic. by apply parse_ip_show.
Qed.

Lemma sanitize_entry (k u : bytes) :
  u = [] ∨ clean_username u →
  entry_user {| ip := k; username := if decide (u = []) then None else Some u |} = u.
Proof.
  intros Hu. unfold entry_user. cbn. case_decide as E; cbn; [done|].
  destruct Hu as [|Hu]; [done|]. by rewrite sanitize_of_clean.
Qed.

Lemma insert_entries_canonical (l : list (bytes * bytes)) m :
  (∀ k u, (k, u) ∈ l → normalize_client_ip k = Some k ∧ (u = [] ∨ clean_username u)) →
  insert_entries ((λ p, {| ip := p.1; username := if decide (p.2 = []) then None else Some p.2 |})
    <$> l) m = Ok (insert_all l m).
Proof.
  revert m. induction l as [|[k u] l IH]; intros m Hl; [done|]. cbn [fmap list_fmap insert_entries fst snd].
  destruct (Hl k u ltac:(left)) as [Hk Hu]. cbn [ip]. rewrite Hk. cbn [ok_or mbind result_bind].
  rewrite sanitize_entry by done. apply IH. intros k' u' Hin. apply Hl. by right.
Qed.

Lemma acl_roundtrip_entries a : acl_wf a → insert_entries (as_entries a) ∅ = Ok (entries a).
Proof.
  intros Ha. unfold as_entries. rewrite insert_entries_canonical.
  - pose proof (@insert_all_hash_iter sorted_order _ (entries a)) as Hi.
    change (insert_all (sorted_entries (entries a)) ∅ = entries a) in Hi. by rewrite Hi.
  - intros k u Hk. apply elem_of_sorted_entries in Hk. by apply Ha.
Qed.

(** The white list survives being written to the configuration file and read back: the
    entries it lists rebuild the list exactly, for every list the relay can hold. *)
Theorem acl_roundtrip a : acl_wf a → acl_from_parts (as_entries a) (ufw_sync a) = Ok a.
Proof.
  intros Ha. unfold acl_from_parts. rewrite acl_roundtrip_entries by done. by destruct a.
Qed.
End acl.

Definition example_acl : ClientAcl := {|
  entries := <[§"10.0.0.1" := §"alice"]> {[§"2001:db8::1" := []]};
  ufw_sync := true |}.

Lemma acl_roundtrip_witness :
  acl_from_parts (as_entries example_acl) true = Ok example_acl.
Proof.
  apply (acl_roundtrip example_acl). intros k u. cbn [entries example_acl].
  rewrite lookup_insert_Some. intros [[<- <-]|[_ [<- <-]%lookup_singleton_Some]].
  - split; [by vm_compute|]. right. split_and!; [done | cbn; lia | repeat constructor].
  - split; [by vm_compute | by left].
Defined.
