(* ===== verification/Metrics.v ===== *)
(** src/metrics.rs: the labels of the metrics and the accounting of connections.

    The [prometheus] crate is not modelled: an operation of the relay on the metrics is the
    list of increments it requests, and what the theorems speak of is the sum of the
    increments of a metric.  The HTTP endpoint is in MetricsServer. *)

From S2P Require Import Prelude RustStr Net.

(** * Labels *)

Definition label_char (b : Byte.byte) : bool :=
  is_ascii_alphanumeric b || bool_decide (b ∈ §"._-:").

(** Each character is kept or replaced by an underscore: a character that is not ASCII is
    one leading byte and continuation bytes. *)
Definition label_value (raw : bytes) : bytes :=
  let s := (λ b, if label_char b then b else x5f) <$> filter (λ b, is_cont b = false) raw in
  if 128 <? length s then take 128 s
  else if decide (s = []) then §"unknown" else s.

Definition client_ip_from_peer (peer : bytes) : bytes :=
  match parse_socket_addr peer with
  | Some addr => label_value (show_ip (sa_ip addr))
  | None => label_value peer
  end.

Record TargetLabels := { client_ip : bytes; domain : bytes; upstream : bytes }.

Definition unknown_labels : TargetLabels :=
  {| client_ip := §"unknown"; domain := §"unknown"; upstream := §"unknown" |}.
Definition set_client_ip_from_peer (l : TargetLabels) (peer : bytes) : TargetLabels :=
  {| client_ip := client_ip_from_peer peer; domain := domain l; upstream := upstream l |}.
Definition set_domain (l : TargetLabels) (d : bytes) : TargetLabels :=
  {| client_ip := client_ip l; domain := label_value d; upstream := upstream l |}.
Definition set_upstream (l : TargetLabels) (u : bytes) : TargetLabels :=
  {| client_ip := client_ip l; domain := domain l; upstream := label_value u |}.
Definition as_label_values (l : TargetLabels) : list bytes := [client_ip l; domain l; upstream l].

(** * Operations *)

Inductive Metric :=
| ACTIVE_CONNECTIONS | TOTAL_CONNECTIONS | BYTES_PROXIED | CONNECTION_ERRORS
| ACCEPTED_CONNECTIONS | ACTIVE_BY_LABEL | CONNECTIONS_BY_LABEL | BYTES_BY_LABEL
| ERRORS_BY_LABEL | REJECTED_BY_LIMIT.

#[global] Instance Metric_eq_dec : EqDecision Metric.
Proof. solve_decision. Defined.

(** The name and the label names under which each metric is registered. *)
Definition metric_name (m : Metric) : bytes :=
  match m with
  | ACTIVE_CONNECTIONS => §"sniproxy_active_connections"
  | TOTAL_CONNECTIONS => §"sniproxy_connections_total"
  | BYTES_PROXIED => §"sniproxy_bytes_proxied_total"
  | CONNECTION_ERRORS => §"sniproxy_connection_errors_total"
  | ACCEPTED_CONNECTIONS => §"sniproxy_accepted_connections_total"
  | ACTIVE_BY_LABEL => §"sniproxy_active_connections_by_target"
  | CONNECTIONS_BY_LABEL => §"sniproxy_connections_by_target_total"
  | BYTES_BY_LABEL => §"sniproxy_bytes_proxied_by_target_total"
  | ERRORS_BY_LABEL => §"sniproxy_connection_errors_by_target_total"
  | REJECTED_BY_LIMIT => §"sniproxy_rejected_connections_total"
  end.
Definition metric_label_names (m : Metric) : list bytes :=
  match m with
  | ACTIVE_CONNECTIONS | TOTAL_CONNECTIONS | BYTES_PROXIED | CONNECTION_ERRORS => []
  | ACCEPTED_CONNECTIONS => [§"client_ip"]
  | ACTIVE_BY_LABEL | CONNECTIONS_BY_LABEL | ERRORS_BY_LABEL =>
      [§"client_ip"; §"domain"; §"upstream"]
  | BYTES_BY_LABEL => [§"client_ip"; §"domain"; §"upstream"; §"direction"]
  | REJECTED_BY_LIMIT => [§"domain"; §"reason"]
  end.

(** [m.with_label_values(labels).inc_by(by)], [by] being negative for [dec]. *)
Record MetricOp := { metric : Metric; label_values : list bytes; by_ : Z }.
Definition inc (m : Metric) (l : list bytes) : MetricOp := {| metric := m; label_values := l; by_ := 1 |}.
Definition dec (m : Metric) (l : list bytes) : MetricOp := {| metric := m; label_values := l; by_ := -1 |}.
Definition inc_by (m : Metric) (l : list bytes) (n : N) : MetricOp :=
  {| metric := m; label_values := l; by_ := Z.of_N n |}.

Definition connection_accepted (peer : bytes) : list MetricOp :=
  [inc ACCEPTED_CONNECTIONS [client_ip_from_peer peer]].

Definition connection_opened (l : TargetLabels) : list MetricOp :=
  let lv := as_label_values l in
  [inc ACTIVE_CONNECTIONS []; inc TOTAL_CONNECTIONS []; inc ACTIVE_BY_LABEL lv;
   inc CONNECTIONS_BY_LABEL lv].

Definition connection_closed (l : TargetLabels) (client_to_upstream upstream_to_client : N)
    : list MetricOp :=
  let lv := as_label_values l in
  [dec ACTIVE_CONNECTIONS []; dec ACTIVE_BY_LABEL lv;
   inc_by BYTES_PROXIED [] (wrap 64 (client_to_upstream + upstream_to_client))]
  ++ (if (0 <? client_to_upstream)%N
      then [inc_by BYTES_BY_LABEL (lv ++ [§"client_to_upstream"]) client_to_upstream] else [])
  ++ (if (0 <? upstream_to_client)%N
      then [inc_by BYTES_BY_LABEL (lv ++ [§"upstream_to_client"]) upstream_to_client] else []).

Definition connection_rejected (l : TargetLabels) (reason : bytes) : list MetricOp :=
  [inc REJECTED_BY_LIMIT [domain l; reason]].

Definition connection_failed (l : TargetLabels) (was_open : bool) : list MetricOp :=
  let lv := as_label_values l in
  [inc CONNECTION_ERRORS []; inc ERRORS_BY_LABEL lv]
  ++ (if was_open then [dec ACTIVE_CONNECTIONS []; dec ACTIVE_BY_LABEL lv] else []).

(** The change of a metric under a sequence of operations. *)
Fixpoint net_change (m : Metric) (lv : list bytes) (ops : list MetricOp) : Z :=
  match ops with
  | [] => 0
  | o :: ops =>
      if decide (metric o = m ∧ label_values o = lv) then by_ o + net_change m lv ops
      else net_change m lv ops
  end%Z.

Lemma net_change_app m lv ops ops' : net_change m lv (ops ++ ops') = (net_change m lv ops + net_change m lv ops')%Z.
Proof. induction ops as [|o ops IH]; cbn; [done|]. rewrite IH. case_decide; lia. Qed.

(** The gauges of a connection, and the operations that leave them alone. *)
Definition gauge_balanced (ops : list MetricOp) : Prop :=
  ∀ lv, net_change ACTIVE_CONNECTIONS lv ops = 0%Z ∧ net_change ACTIVE_BY_LABEL lv ops = 0%Z.

Lemma balanced_nil : gauge_balanced [].
Proof. done. Qed.

Lemma balanced_app ops ops' :
  gauge_balanced ops → gauge_balanced ops' → gauge_balanced (ops ++ ops').
Proof.
  intros H H' lv. rewrite !net_change_app. destruct (H lv) as [-> ->], (H' lv) as [-> ->]. done.
Qed.

Lemma balanced_accepted peer : gauge_balanced (connection_accepted peer).
Proof. intros lv. split; cbn; by rewrite decide_False by (by intros [? _]). Qed.

Lemma balanced_rejected l r : gauge_balanced (connection_rejected l r).
Proof. intros lv. split; cbn; by rewrite decide_False by (by intros [? _]). Qed.

Lemma balanced_failed l : gauge_balanced (connection_failed l false).
Proof. intros lv. split; cbn; by rewrite !decide_False by (by intros [? _]). Qed.

Lemma balanced_opened_closed l mid c u :
  gauge_balanced mid →
  gauge_balanced (connection_opened l ++ mid ++ connection_closed l c u).
Proof.
  intros Hm lv. rewrite !net_change_app. destruct (Hm lv) as [-> ->].
  unfold connection_closed. rewrite !net_change_app.
  split; destruct (0 <? c)%N, (0 <? u)%N; cbn; repeat case_decide; naive_solver lia.
Qed.

Lemma balanced_opened_failed l mid :
  gauge_balanced mid →
  gauge_balanced (connection_opened l ++ mid ++ connection_failed l true).
Proof.
  intros Hm lv. rewrite !net_change_app. destruct (Hm lv) as [-> ->].
  unfold connection_failed. rewrite !net_change_app.
  split; cbn; repeat case_decide; naive_solver lia.
Qed.

(** Every operation gives each metric as many label values as it was registered with, as
    [with_label_values] demands (it panics otherwise). *)
Definition labels_arity_ok (o : MetricOp) : Prop :=
  length (label_values o) = length (metric_label_names (metric o)).

Lemma operations_arity peer l r c u b :
  Forall labels_arity_ok (connection_accepted peer ++ connection_opened l ++ connection_closed l c u
    ++ connection_rejected l r ++ connection_failed l b).
Proof.
  unfold connection_closed, connection_failed. destruct (0 <? c)%N, (0 <? u)%N, b; repeat constructor.
Qed.

(** * Labels are bounded, safe and stable *)

Definition label_ok (s : bytes) : Prop :=
  s ≠ [] ∧ length s ≤ 128 ∧ Forall (λ b, label_char b = true) s.

Lemma label_char_ascii b : label_char b = true → is_cont b = false.
Proof.
  assert (∀ b, implb (label_char b) (negb (is_cont b)) = true) as H
    by (apply byte_forall; by vm_compute).
  specialize (H b). intros Hb. rewrite Hb in H. cbn in H. by apply negb_true_iff.
Qed.

Lemma label_value_ok raw : label_ok (label_value raw).
Proof.
  unfold label_value. cbv zeta.
  set (s := (λ b, if label_char b then b else x5f) <$> filter _ raw).
  assert (Forall (λ b, label_char b = true) s) as Hs.
  { apply Forall_fmap, list.Forall_forall. intros b _. cbn. by destruct (label_char b) eqn:E. }
  clearbody s. destruct (Nat.ltb_spec 128 (length s)).
  - split_and!; [|rewrite length_take; lia | by apply Forall_take].
    destruct s; [cbn in *; lia | done].
  - case_decide; split_and!; try done; [cbn; lia | repeat constructor].
Qed.

Lemma label_value_id s : label_ok s → label_value s = s.
Proof.
  intros (Hne & Hl & Hs). unfold label_value. cbv zeta.
  assert ((λ b, if label_char b then b else x5f) <$> filter (λ b, is_cont b = false) s = s) as ->.
  { clear Hne Hl. induction Hs as [|b s Hb _ IH]; [done|].
    rewrite filter_cons_True by by apply label_char_ascii. cbn. by rewrite Hb, IH. }
  destruct (Nat.ltb_spec 128 (length s)); [lia|]. by rewrite decide_False.
Qed.

Lemma Forall_label_show n : Forall (λ b, label_char b = true) (show n).
Proof.
  destruct (show_writes n) as (_ & Hv & _). apply digits_val_Forall in Hv.
  eapply list.Forall_impl; [exact Hv|]. intros b. cbn.
  assert (∀ b, implb (match digit_val b with Some _ => true | None => false end) (label_char b) = true)
    as H by (apply byte_forall; by vm_compute).
  specialize (H b). destruct (digit_val b); [done | by intros [? ?]].
Qed.

Lemma Forall_label_hex n : Forall (λ b, label_char b = true) (show_hex n).
Proof.
  destruct (show_hex_writes n) as (_ & Hv & _). apply digits_val_Forall in Hv.
  eapply list.Forall_impl; [exact Hv|]. intros b. cbn.
  assert (∀ b, implb (match hex_val b with Some _ => true | None => false end) (label_char b) = true)
    as H by (apply byte_forall; by vm_compute).
  specialize (H b). destruct (hex_val b); [done | by intros [? ?]].
Qed.

Lemma Forall_label_v4 a b c d : Forall (λ b, label_char b = true) (show_v4 a b c d).
Proof.
  unfold show_v4. repeat (rewrite ?Forall_app, ?Forall_cons).
  split_and!; first [apply Forall_label_show | done].
Qed.

Lemma show_v4_length a b c d : ip_wf (V4 a b c d) → length (show_v4 a b c d) ≤ 15.
Proof.
  intros (Ha & Hb & Hc & Hd). unfold show_v4. repeat (rewrite ?length_app; cbn [length]).
  pose proof (show_length a Ha). pose proof (show_length b Hb). pose proof (show_length c Hc).
  pose proof (show_length d Hd). lia.
Qed.

Lemma Forall_label_groups i g : Forall (λ b, label_char b = true) (groups_text i g).
Proof.
  revert i. induction g as [|x g IH]; intros i; cbn [groups_text]; [constructor|].
  rewrite !Forall_app. split_and!; [|apply Forall_label_hex | apply IH].
  by destruct (i =? 0); repeat constructor.
Qed.

Lemma groups_text_length i g :
  Forall (λ x, (x < 65536)%N) g → length (groups_text i g) ≤ 5 * length g.
Proof.
  intros Hg. revert i. induction Hg as [|x g Hx _ IH]; intros i; cbn [groups_text length]; [lia|].
  rewrite !length_app. pose proof (show_hex_length x Hx). specialize (IH (S i)).
  destruct (i =? 0); cbn [length]; lia.
Qed.

Lemma show_ip_label i : ip_wf i → label_ok (show_ip i).
Proof.
  intros Hi. split; [by apply show_ip_ne|]. destruct i as [a b c d|g]; cbn [show_ip].
  { pose proof (show_v4_length a b c d Hi). split; [lia | apply Forall_label_v4]. }
  unfold show_v6. destruct (to_ipv4_mapped g) as [[x y]|] eqn:E.
  - apply to_ipv4_mapped_Some in E as ->. destruct Hi as [_ Hg]. rewrite !Forall_cons in Hg.
    rewrite length_app, Forall_app. split_and!; [|by repeat constructor | apply Forall_label_v4].
    assert (∀ z, z < 65536 → z / 256 < 256 ∧ z mod 256 < 256)%N as Hz.
    { intros z Hz. split; [apply N.Div0.div_lt_upper_bound; lia | by apply N.mod_lt]. }
    destruct (Hz x), (Hz y); [lia..|].
    assert (ip_wf (V4 (x / 256) (x mod 256) (y / 256) (y mod 256))) as Hw by done.
    pose proof (show_v4_length _ _ _ _ Hw). cbn [length lit] in *. cbn. lia.
  - destruct Hi as [Hl Hg]. destruct (zero_run _ _ _ g) as [st len].
    case_match; rewrite !fmt_groups_text.
    + rewrite !length_app, !Forall_app.
      pose proof (groups_text_length 0 (take st g) ltac:(by apply Forall_take)).
      pose proof (groups_text_length 0 (drop (st + len) g) ltac:(by apply Forall_drop)).
      rewrite length_take in *. rewrite length_drop in *.
      split_and!; [cbn; lia | apply Forall_label_groups | by repeat constructor | apply Forall_label_groups].
    + pose proof (groups_text_length 0 g Hg). split; [lia | apply Forall_label_groups].
Qed.

(** The metric label of a client is exactly the text of its address: for any peer the
    listener can report, IPv4 or IPv6 with any port and scope, the port is dropped and
    nothing of the address is replaced or truncated, so that two clients share a label only
    when they share an address. *)
Theorem client_ip_label_exact a :
  sa_wf a →
  client_ip_from_peer (show_socket_addr a) = show_ip (sa_ip a)
  ∧ ∀ a', sa_wf a' →
      client_ip_from_peer (show_socket_addr a') = client_ip_from_peer (show_socket_addr a) →
      sa_ip a' = sa_ip a.
Proof.
  assert (∀ a, sa_wf a → client_ip_from_peer (show_socket_addr a) = show_ip (sa_ip a)) as H.
  { intros x Hx. unfold client_ip_from_peer. rewrite parse_socket_addr_show by done.
    apply label_value_id, show_ip_label, Hx. }
  intros Ha. split; [by apply H|]. intros a' Ha' Heq. rewrite !H in Heq by done.
  apply (f_equal parse_ip) in Heq. rewrite !parse_ip_show in Heq by apply Ha || apply Ha'.
  congruence.
Qed.

Lemma client_ip_label_exact_witness :
  client_ip_from_peer §"[2001:db8::1]:51000" = §"2001:db8::1".
Proof.
  apply (client_ip_label_exact {| sa_ip := V6 [8193; 3512; 0; 0; 0; 0; 0; 1]%N;
    sa_port := 51000; sa_scope := 0 |}).
  split_and!; cbn; try done. repeat constructor.
Defined.
