(* ===== verification/DomainLimiter.v ===== *)
(** src/domain_limiter.rs: the daily bandwidth and connection limits of domains.

    Every operation is a function of the limiter's state and of the time at which it runs;
    the interleavings of concurrent operations, which work on atomics, are the subject of
    DomainLimiterConc.  Parameters: the JSON codec, the path operations of [std::path], and
    which file operations fail. *)

From S2P Require Import Prelude RustStr Collections Net Hosts Config.

Definition STATE_VERSION : N := 1.

(** [as_secs() as u32 / 86400], [now] in seconds since the epoch. *)
Definition epoch_day_utc (now : N) : N := (wrap 32 now / 86400)%N.

(** * Data *)

Record PersistedDomain := { p_day : N; p_bytes : N; p_connections : N }.
Record PersistedState := { version : N; domains : gmap bytes PersistedDomain }.

Record DomainCounters := { c_bytes : N; connections : N; day : N }.

Inductive LimitReason := DailyBandwidth | DailyConnections.
#[global] Instance LimitReason_eq_dec : EqDecision LimitReason.
Proof. solve_decision. Defined.

Definition show_reason (r : LimitReason) : bytes :=
  match r with DailyBandwidth => §"daily_bandwidth" | DailyConnections => §"daily_connections" end.

Record DomainLimiter := {
  limits : gmap bytes DomainLimitConfig;
  counters : gmap bytes DomainCounters;
  state_file : option bytes;
  dirty : bool;
}.

(** * Counters *)

Definition counters_new (now : N) : DomainCounters :=
  {| c_bytes := 0; connections := 0; day := epoch_day_utc now |}.

Definition restore (d b n : N) : DomainCounters := {| c_bytes := b; connections := n; day := d |}.

Definition refresh_if_new_day (now : N) (c : DomainCounters) : DomainCounters :=
  let today := epoch_day_utc now in
  if (day c =? today)%N then c else {| c_bytes := 0; connections := 0; day := today |}.

(** The counters after the refresh, and the values read. *)
Definition snapshot (now : N) (c : DomainCounters) : DomainCounters * PersistedDomain :=
  let c := refresh_if_new_day now c in
  (c, {| p_day := day c; p_bytes := c_bytes c; p_connections := connections c |}).

(** * The file system *)

Class Paths := {
  with_extension : bytes → bytes → bytes;
  parent : bytes → option bytes;
}.
Class Json := {
  to_string_pretty : PersistedState → bytes;
  from_str : bytes → option PersistedState;
}.

Definition Files := gmap bytes bytes.
Inductive FileOp := CreateDirAll (p : bytes) | Write (p : bytes) | Rename (p q : bytes) | Read (p : bytes).
Inductive IoError := IoFailed (o : FileOp) | BadState.

Definition rename (p q : bytes) (fs : Files) : Files :=
  match fs !! p with
  | Some c => if decide (p = q) then fs else <[q := c]> (base.delete p fs)
  | None => fs
  end.

Section limiter.
Context `{Unicode} `{HashOrder} `{Paths} `{Json}.
(** Which file operations fail. *)
Context (fails : FileOp → bool).
Implicit Types l : DomainLimiter.

(** ** Start *)

Definition restore_one (today : N) (cs : gmap bytes DomainCounters) (saved : bytes * PersistedDomain)
    : gmap bytes DomainCounters :=
  let key := to_lowercase saved.1 in
  match cs !! key with
  | None => cs
  | Some _ =>
      if (p_day saved.2 =? today)%N
      then <[key := restore (p_day saved.2) (p_bytes saved.2) (p_connections saved.2)]> cs
      else cs
  end.

Definition load_from_disk (now : N) (path : bytes) (fs : Files) l : result IoError DomainLimiter :=
  match fs !! path with
  | None => Ok l
  | Some raw =>
      if fails (Read path) then Err (IoFailed (Read path)) else
      state ← ok_or (from_str raw) BadState;
      if negb (version state =? STATE_VERSION)%N then Ok l else
      Ok l {{ counters := foldl (restore_one (epoch_day_utc now)) (counters l) (hash_iter (domains state)) }}
  end.

Definition load (now : N) (fs : Files) (limits : gmap bytes DomainLimitConfig)
    (state_file : option bytes) : result IoError DomainLimiter :=
  let limits := insert_all ((λ p, (to_lowercase p.1, p.2)) <$> hash_iter limits) ∅ in
  let counters := (λ _, counters_new now) <$> limits in
  let limiter := {| limits := limits; counters := counters; state_file := state_file; dirty := false |} in
  match state_file with
  | Some path => load_from_disk now path fs limiter
  | None => Ok limiter
  end.

(** ** Persistence *)

Definition mark_dirty l : DomainLimiter :=
  match state_file l with Some _ => l {{ dirty := true }} | None => l end.

Definition build_snapshot (now : N) l : DomainLimiter * PersistedState :=
  (l {{ counters := (λ c, (snapshot now c).1) <$> counters l }},
   {| version := STATE_VERSION; domains := (λ c, (snapshot now c).2) <$> counters l |}).

Definition persist_now (now : N) l (fs : Files) : result IoError unit * DomainLimiter * Files :=
  match state_file l with
  | None => (Ok tt, l, fs)
  | Some path =>
      let dir_failure :=
        match parent path with
        | Some p =>
            if decide (p = []) then None
            else if fails (CreateDirAll p) then Some (IoFailed (CreateDirAll p)) else None
        | None => None
        end in
      match dir_failure with
      | Some e => (Err e, l, fs)
      | None =>
          let '(l, snap) := build_snapshot now l in
          let tmp := with_extension path §"json.tmp" in
          if fails (Write tmp) then (Err (IoFailed (Write tmp)), l, fs) else
          let fs := <[tmp := to_string_pretty snap]> fs in
          if fails (Rename tmp path) then (Err (IoFailed (Rename tmp path)), l, fs) else
          (Ok tt, l {{ dirty := false }}, rename tmp path fs)
      end
  end.

Definition flush_if_dirty (now : N) l (fs : Files) : result IoError unit * DomainLimiter * Files :=
  if negb (dirty l) then (Ok tt, l, fs) else persist_now now l fs.

(** ** Limits *)

(** [sni == key || sni.ends_with(".{key}")] *)
Definition key_matches (sni key : bytes) : bool := beqb sni key || ends_with (x2e :: key) sni.

(** The loop over the keys: a longer match replaces the best one. *)
Fixpoint best_key (ks : list bytes) (sni : bytes) (best : option bytes) : option bytes :=
  match ks with
  | [] => best
  | key :: ks =>
      let longer := match best with Some b => length b <? length key | None => true end in
      best_key ks sni (if key_matches sni key && longer then Some key else best)
  end.
Definition resolve_limit_key l (sni : bytes) : option bytes :=
  let sni := to_lowercase sni in
  if decide (is_Some (limits l !! sni)) then Some sni
  else best_key (hash_iter (limits l)).*1 sni None.

Definition counters_for l (sni : bytes) : option (bytes * DomainLimitConfig * DomainCounters) :=
  key ← resolve_limit_key l sni;
  limit ← limits l !! key;
  c ← counters l !! key;
  Some (key, limit, c).

Definition set_counters (key : bytes) (c : DomainCounters) l : DomainLimiter :=
  l {{ counters := <[key := c]> (counters l) }}.

Definition check_connection (now : N) (domain : bytes) l : result LimitReason unit * DomainLimiter :=
  match counters_for l domain with
  | None => (Ok tt, l)
  | Some (key, limit, c) =>
      let c := refresh_if_new_day now c in
      let l := set_counters key c l in
      let over := match daily_bandwidth limit with
                  | Some max_bytes => (max_bytes <=? c_bytes c)%N
                  | None => false
                  end in
      if over then (Err DailyBandwidth, l) else
      match daily_connections limit with
      | None => (Ok tt, l)
      | Some max_conn =>
          if (max_conn <=? connections c)%N then (Err DailyConnections, l)
          else (Ok tt, mark_dirty (set_counters key
                 {| c_bytes := c_bytes c; connections := connections c + 1; day := day c |} l))
      end
  end.

Definition account_bytes (now : N) (domain : bytes) (n : N) l : result LimitReason unit * DomainLimiter :=
  if (n =? 0)%N then (Ok tt, l) else
  match counters_for l domain with
  | None => (Ok tt, l)
  | Some (key, limit, c) =>
      match daily_bandwidth limit with
      | None => (Ok tt, l)
      | Some max_bytes =>
          let c := refresh_if_new_day now c in
          let new_used := wrap 64 (c_bytes c + n) in
          let l := mark_dirty (set_counters key
                     {| c_bytes := new_used; connections := connections c; day := day c |} l) in
          if (max_bytes <? new_used)%N then (Err DailyBandwidth, l) else (Ok tt, l)
      end
  end.

End limiter.

(** * Which limit a domain has *)

Lemma key_matches_suffix sni k : key_matches sni k = true → ∃ q, sni = q ++ k.
Proof.
  unfold key_matches, beqb. rewrite orb_true_iff, bool_decide_eq_true, ends_with_spec.
  intros [->|[q ->]]; [by exists []|]. exists (q ++ [x2e]). by rewrite <- app_assoc.
Qed.

Lemma key_matches_unique sni k k' :
  key_matches sni k = true → key_matches sni k' = true → length k = length k' → k = k'.
Proof.
  intros [q ->]%key_matches_suffix [q' Hq]%key_matches_suffix Hl.
  by apply app_inj_2 in Hq as [_ ->].
Qed.

Section keys.
Context `{Unicode} `{HashOrder}.
Implicit Types l : DomainLimiter.

Lemma best_key_spec ks sni best :
  match best with Some b => key_matches sni b = true | None => True end →
  match best_key ks sni best with
  | Some k => (k ∈ ks ∨ best = Some k) ∧ key_matches sni k = true
      ∧ (∀ k', k' ∈ ks ∨ best = Some k' → key_matches sni k' = true → length k' ≤ length k)
  | None => best = None ∧ ∀ k', k' ∈ ks → key_matches sni k' = false
  end.
Proof.
  revert best. induction ks as [|key ks IH]; intros best Hb; cbn [best_key].
  { destruct best as [b|].
    - split_and!; [by right | done |]. intros k' [?%elem_of_nil|[= ->]] _; [done | lia].
    - split; [done|]. by intros k' ?%elem_of_nil. }
  remember (key_matches sni key && _) as upd eqn:E. symmetry in E.
  specialize (IH (if upd then Some key else best)).
  assert (match (if upd then Some key else best) with
    | Some b => key_matches sni b = true | None => True end) as Hb'.
  { destruct upd; [|done]. by bool_to_prop. }
  specialize (IH Hb'). destruct (best_key ks sni _) as [k|].
  - destruct IH as (Hin & Hm & Hmax). split_and!; [|done|].
    + destruct Hin as [?|Hin]; [left; by right|]. destruct upd; [injection Hin as <-; by left; left|].
      by right.
    + assert (∀ k', (if upd then Some key else best) = Some k' → key_matches sni k' = true →
        length k' ≤ length k) as Hb2 by (intros; apply Hmax; [by right | done]).
      intros k' [[->|Hk']%elem_of_cons|Hk'] Hm'.
      * destruct upd; [by apply Hb2|]. rewrite Hm' in E. cbn [andb] in E.
        destruct best as [b|]; [|done]. bool_to_prop. specialize (Hb2 b eq_refl Hb). lia.
      * apply Hmax; [by left | done].
      * destruct upd; [|by apply Hb2]. rewrite Hk' in E. bool_to_prop.
        specialize (Hb2 key eq_refl ltac:(done)). lia.
  - destruct IH as [Hn Hno]. destruct upd; [done|]. subst best. split; [done|].
    intros k' [->|Hk']%elem_of_cons; [|by apply Hno]. by rewrite andb_true_r in E.
Qed.

Lemma elem_of_iter_keys {A} (m : gmap bytes A) k : k ∈ (hash_iter m).*1 ↔ is_Some (m !! k).
Proof. rewrite hash_iter_perm. apply elem_of_keys. Qed.

Lemma resolve_limit_key_correct l domain :
  let sni := to_lowercase domain in
  (∀ k, resolve_limit_key l domain = Some k ↔
     is_Some (limits l !! k) ∧ key_matches sni k = true
     ∧ ∀ k', is_Some (limits l !! k') → key_matches sni k' = true → length k' ≤ length k)
  ∧ (resolve_limit_key l domain = None ↔
     ∀ k, is_Some (limits l !! k) → key_matches sni k = false).
Proof.
  intros sni.
  assert (match resolve_limit_key l domain with
    | Some k => is_Some (limits l !! k) ∧ key_matches sni k = true
        ∧ ∀ k', is_Some (limits l !! k') → key_matches sni k' = true → length k' ≤ length k
    | None => ∀ k, is_Some (limits l !! k) → key_matches sni k = false
    end) as Hr.
  { unfold resolve_limit_key. fold sni. cbv zeta. case_decide as Hs.
    - split_and!; [done | unfold key_matches, beqb; by rewrite bool_decide_true |].
      intros k' _ [q ->]%key_matches_suffix. rewrite length_app. lia.
    - pose proof (best_key_spec (hash_iter (limits l)).*1 sni None I) as Hk.
      destruct (best_key _ sni None) as [k|].
      + destruct Hk as ([Hin|?] & Hm & Hmax); [|done]. apply elem_of_iter_keys in Hin.
        split_and!; [done | done |]. intros k' Hk' ?. apply Hmax; [|done].
        left. by apply elem_of_iter_keys.
      + destruct Hk as [_ Hno]. intros k Hk. by apply Hno, elem_of_iter_keys. }
  split.
  - intros k. split.
    + intros E. by rewrite E in Hr.
    + intros (Hk & Hm & Hmax). destruct (resolve_limit_key l domain) as [k0|].
      * destruct Hr as (Hk0 & Hm0 & Hmax0). f_equal. apply (key_matches_unique sni); [done..|].
        specialize (Hmax k0 Hk0 Hm0). specialize (Hmax0 k Hk Hm). lia.
      * specialize (Hr k Hk). congruence.
  - split; [intros E; by rewrite E in Hr|]. intros Hno.
    destruct (resolve_limit_key l domain) as [k|]; [|done]. destruct Hr as (Hk & Hm & _).
    specialize (Hno k Hk). congruence.
Qed.

Lemma resolve_limit_key_known l domain k :
  resolve_limit_key l domain = Some k → is_Some (limits l !! k).
Proof. intros Hk. by apply resolve_limit_key_correct in Hk as [? _]. Qed.

(** The limit of a domain is the one of the most specific configured name: the key is
    the longest of those that are the domain itself or an ancestor of it (a whole number of
    labels, in any case), and the domain is unlimited exactly when there is none; the
    answer does not depend on the order in which the hash map yields its keys. *)
Theorem resolve_limit_key_spec l domain :
  let sni := to_lowercase domain in
  (∀ k, resolve_limit_key l domain = Some k ↔
     is_Some (limits l !! k) ∧ key_matches sni k = true
     ∧ ∀ k', is_Some (limits l !! k') → key_matches sni k' = true → length k' ≤ length k)
  ∧ (resolve_limit_key l domain = None ↔
     ∀ k, is_Some (limits l !! k) → key_matches sni k = false).
Proof. apply resolve_limit_key_correct. Qed.

End keys.

(** * Runs of the limiter *)

Inductive limiter_op :=
| Check (domain : bytes)
| Account (domain : bytes) (n : N)
| Flush.

Section runs.
Context `{Unicode} `{HashOrder} `{Paths} `{Json} (fails : FileOp → bool).
Implicit Types l : DomainLimiter.

(** Every configured key has counters. *)
Definition limiter_wf l : Prop := ∀ k, is_Some (limits l !! k) → is_Some (counters l !! k).

(** One operation: whether it was allowed, and the state and files after it. *)
Definition run_op (now : N) (o : limiter_op) (s : DomainLimiter * Files)
    : bool * (DomainLimiter * Files) :=
  match o with
  | Check d => let '(r, l) := check_connection now d s.1 in (is_ok r, (l, s.2))
  | Account d n => let '(r, l) := account_bytes now d n s.1 in (is_ok r, (l, s.2))
  | Flush => let '(r, l, fs) := flush_if_dirty fails now s.1 s.2 in (is_ok r, (l, fs))
  end.

(** Does the outcome [r] of [o] allow a connection under the limit of [k]? *)
Definition admits l (k : bytes) (o : limiter_op) (r : bool) : bool :=
  match o with Check d => bool_decide (resolve_limit_key l d = Some k) && r | _ => false end.

(** The connections admitted under [k] on day [d] by a run. *)
Fixpoint admitted (k : bytes) (d : N) (ops : list (N * limiter_op)) (s : DomainLimiter * Files) : N :=
  match ops with
  | [] => 0
  | (now, o) :: ops =>
      let '(r, s') := run_op now o s in
      let n := admitted k d ops s' in
      if admits s.1 k o r && (epoch_day_utc now =? d)%N then (1 + n)%N else n
  end.

Lemma mark_dirty_counters l : counters (mark_dirty l) = counters l ∧ limits (mark_dirty l) = limits l.
Proof. unfold mark_dirty. by destruct (state_file l). Qed.

(** What an operation may do to the counters of a key whose connections are limited to [m]. *)
Definition counters_step (now : N) (c c' : DomainCounters) (allow : bool) (m : N) : Prop :=
  (c' = c ∧ allow = false)
  ∨ (day c' = epoch_day_utc now
     ∧ connections c' = ((if (day c =? epoch_day_utc now)%N then connections c else 0)
                         + (if allow then 1 else 0))%N
     ∧ (allow = true → (connections c' ≤ m)%N)).

Lemma refresh_connections now c :
  day (refresh_if_new_day now c) = epoch_day_utc now
  ∧ connections (refresh_if_new_day now c)
    = (if (day c =? epoch_day_utc now)%N then connections c else 0)%N.
Proof.
  unfold refresh_if_new_day. cbv zeta. by destruct (N.eqb_spec (day c) (epoch_day_utc now)).
Qed.

Lemma counters_step_keep now c c' m :
  day c' = day (refresh_if_new_day now c) → connections c' = connections (refresh_if_new_day now c) →
  counters_step now c c' false m.
Proof.
  destruct (refresh_connections now c) as [-> ->]. intros Hd Hc. right. split_and!; [done | lia | done].
Qed.

Lemma counters_for_Some l d k limit c :
  counters_for l d = Some (k, limit, c) →
  resolve_limit_key l d = Some k ∧ limits l !! k = Some limit ∧ counters l !! k = Some c.
Proof.
  unfold counters_for. destruct (resolve_limit_key l d) as [k'|]; [|done]. cbn.
  destruct (limits l !! k') eqn:El; [|done]. cbn. destruct (counters l !! k') eqn:Ec; [|done].
  cbn. by intros [= -> -> ->].
Qed.

Lemma counters_for_None l d k :
  limiter_wf l → counters_for l d = None → resolve_limit_key l d = Some k → False.
Proof.
  intros Hw Hn Hk. unfold counters_for in Hn. rewrite Hk in Hn. cbn in Hn.
  apply resolve_limit_key_known in Hk as Hlk. destruct (Hw _ Hlk) as [c Hc].
  destruct Hlk as [lim Hlim]. by rewrite Hlim, Hc in Hn.
Qed.

(** What an operation leaves unchanged, and what it does to the counters of a key. *)
Definition op_effect (now : N) (k : bytes) (m : N) l l' (c : DomainCounters) (allow : bool) : Prop :=
  limits l' = limits l ∧ limiter_wf l'
  ∧ ∃ c', counters l' !! k = Some c' ∧ counters_step now c c' allow m.

Lemma op_effect_same now k m l c :
  limiter_wf l → counters l !! k = Some c → op_effect now k m l l c false.
Proof. intros Hw Hc. split_and!; [done | done |]. exists c. split; [done | by left]. Qed.

(** The counters of one key replaced, possibly marking the state dirty. *)
Lemma op_effect_set now k m l l' c key c1 c2 allow :
  limiter_wf l → counters l !! k = Some c → counters l !! key = Some c1 →
  limits l' = limits l → counters l' = <[key := c2]> (counters l) →
  (k = key → counters_step now c c2 allow m) → (k ≠ key → allow = false) →
  op_effect now k m l l' c allow.
Proof.
  intros Hw Hc Hc1 Hl Hcs Hstep Hne. split_and!; [done | |].
  - intros j Hj. rewrite Hl in Hj. rewrite Hcs, lookup_insert_is_Some.
    destruct (decide (key = j)); [by left | right; split; [done | by apply Hw]].
  - rewrite Hcs. destruct (decide (key = k)) as [->|Hkk].
    + exists c2. rewrite lookup_insert_eq. split; [done | by apply Hstep].
    + exists c. rewrite lookup_insert_ne by done. split; [done|]. left. split; [done | by apply Hne].
Qed.

Lemma check_connection_effect now d k m lim l c r l' :
  limiter_wf l → limits l !! k = Some lim → daily_connections lim = Some m →
  counters l !! k = Some c → check_connection now d l = (r, l') →
  op_effect now k m l l' c (admits l k (Check d) (is_ok r)).
Proof.
  intros Hw Hlim Hm Hc. unfold check_connection, admits.
  destruct (counters_for l d) as [[[key limit] ck]|] eqn:Ef.
  - apply counters_for_Some in Ef as (Hk & Hl & Hck). rewrite Hk. cbv zeta.
    destruct (refresh_connections now ck) as [Hrd Hrc].
    set (rc := refresh_if_new_day now ck) in *.
    assert (∀ (ok : bool) l'' c2, limits l'' = limits l → counters l'' = <[key := c2]> (counters l) →
      (k = key → counters_step now c c2 ok m) →
      op_effect now k m l l'' c (bool_decide (Some key = Some k) && ok)) as Hset.
    { intros ok l'' c2 Hls Hcs Hst. eapply op_effect_set; [done..| |].
      - intros ->. rewrite bool_decide_true by done. by apply Hst.
      - intros Hne. rewrite bool_decide_false by congruence. done. }
    assert (k = key → ck = c ∧ limit = lim) as Hsame by (intros ->; split; congruence).
    destruct (match daily_bandwidth limit with Some _ => _ | None => _ end).
    { intros [= <- <-]. eapply (Hset false); [done | done |].
      intros Hkk. destruct (Hsame Hkk) as [-> _]. by apply counters_step_keep. }
    destruct (daily_connections limit) as [mx|] eqn:Emx.
    + destruct (N.leb_spec mx (connections rc)).
      * intros [= <- <-]. eapply (Hset false); [done | done |].
        intros Hkk. destruct (Hsame Hkk) as [-> _]. by apply counters_step_keep.
      * intros [= <- <-]. destruct (mark_dirty_counters (set_counters key
          {| c_bytes := c_bytes rc; connections := connections rc + 1; day := day rc |}
          (set_counters key rc l))) as [Hmc Hml].
        eapply (Hset true); [by rewrite Hml | rewrite Hmc; cbn; by rewrite insert_insert_eq | ].
        intros Hkk. destruct (Hsame Hkk) as [-> ->]. right. cbn. rewrite Hrd, Hrc.
        split_and!; [done | done |]. intros _. rewrite Hm in Emx. simplify_eq. lia.
    + intros [= <- <-]. eapply (Hset true); [done | done |].
      intros Hkk. destruct (Hsame Hkk) as [_ ->]. congruence.
  - intros [= <- <-]. rewrite bool_decide_false; [by apply op_effect_same|].
    intros Hk. by eapply counters_for_None.
Qed.

Lemma account_bytes_effect now d n k m lim l c r l' :
  limiter_wf l → limits l !! k = Some lim → daily_connections lim = Some m →
  counters l !! k = Some c → account_bytes now d n l = (r, l') →
  op_effect now k m l l' c false.
Proof.
  intros Hw Hlim Hm Hc. unfold account_bytes.
  destruct (n =? 0)%N. { intros [= _ <-]. by apply op_effect_same. }
  destruct (counters_for l d) as [[[key limit] ck]|] eqn:Ef.
  2:{ intros [= _ <-]. by apply op_effect_same. }
  apply counters_for_Some in Ef as (Hk & Hl & Hck).
  destruct (daily_bandwidth limit) as [mx|]. 2:{ intros [= _ <-]. by apply op_effect_same. }
  cbv zeta. intros Hr. set (rc := refresh_if_new_day now ck) in *.
  set (l1 := mark_dirty _) in *. assert (l' = l1) as -> by (destruct (mx <? _)%N; congruence).
  unfold l1. destruct (mark_dirty_counters (set_counters key
    {| c_bytes := wrap 64 (c_bytes rc + n); connections := connections rc; day := day rc |} l))
    as [Hmc Hml].
  eapply op_effect_set; [done | done | done | by rewrite Hml | by rewrite Hmc | |done].
  intros ->. assert (ck = c) as -> by congruence. by apply counters_step_keep.
Qed.

Lemma flush_effect now k m lim l c fs r l' fs' :
  limiter_wf l → limits l !! k = Some lim → counters l !! k = Some c →
  flush_if_dirty fails now l fs = (r, l', fs') → op_effect now k m l l' c false.
Proof.
  intros Hw Hlim Hc.
  assert (∀ b, op_effect now k m l ((build_snapshot now l).1 {{ dirty := b }}) c false) as Hsnap.
  { intros b. split_and!; [done | |].
    - intros j Hj. cbn. rewrite lookup_fmap. destruct (Hw j Hj) as [cj Hcj]. rewrite Hcj. by eexists.
    - exists (refresh_if_new_day now c). cbn. rewrite lookup_fmap, Hc. split; [done|].
      by apply counters_step_keep. }
  assert (op_effect now k m l (build_snapshot now l).1 c false) as Hsnap'.
  { apply (Hsnap (dirty l)). }
  unfold flush_if_dirty, persist_now.
  destruct (negb (dirty l)). { intros [= _ <- _]. by apply op_effect_same. }
  destruct (state_file l) as [path|]. 2:{ intros [= _ <- _]. by apply op_effect_same. }
  cbv zeta. destruct (match parent path with Some _ => _ | None => _ end).
  { intros [= _ <- _]. by apply op_effect_same. }
  destruct (build_snapshot now l) as [l1 snap]. cbn [fst] in *.
  repeat case_match; intros [= _ <- _]; first [done | apply Hsnap].
Qed.

Lemma run_op_effect now o k m lim l fs c r l' fs' :
  limiter_wf l → limits l !! k = Some lim → daily_connections lim = Some m →
  counters l !! k = Some c → run_op now o (l, fs) = (r, (l', fs')) →
  op_effect now k m l l' c (admits l k o r).
Proof.
  intros Hw Hlim Hm Hc. destruct o as [d|d n|]; cbn [run_op fst snd].
  - destruct (check_connection now d l) as [r0 l0] eqn:E. intros [= <- <- _].
    by eapply check_connection_effect.
  - destruct (account_bytes now d n l) as [r0 l0] eqn:E. intros [= <- <- _].
    by eapply account_bytes_effect.
  - destruct (flush_if_dirty fails now l fs) as [[r0 l0] fs0] eqn:E. intros [= <- <- _].
    by eapply flush_effect.
Qed.
(** The day never goes back. *)
Fixpoint days_from (last : N) (ops : list (N * limiter_op)) : Prop :=
  match ops with
  | [] => True
  | (now, _) :: ops => (last ≤ epoch_day_utc now)%N ∧ days_from (epoch_day_utc now) ops
  end.

(** The connections admitted so far, [A] per day, against the counters [c]. *)
Definition cap_inv (m last : N) (A : N → N) (c : DomainCounters) : Prop :=
  (∀ d, A d ≤ m)%N ∧ (A (day c) ≤ connections c)%N
  ∧ ((∀ d, A d = 0%N) ∨ ((day c ≤ last)%N ∧ ∀ d, (day c < d)%N → A d = 0%N)).

Lemma cap_inv_step m last now A c c' (ad : bool) :
  cap_inv m last A c → (last ≤ epoch_day_utc now)%N → counters_step now c c' ad m →
  cap_inv m (epoch_day_utc now)
    (λ d, (if ad && (epoch_day_utc now =? d)%N then 1 else 0) + A d)%N c'.
Proof.
  intros (Hm & Hday & Hlast) Hnow [[-> ->]|(Hd' & Hc' & Had)]; unfold cap_inv; cbn [andb].
  { split_and!; [done | by rewrite N.add_0_l |]. destruct Hlast as [?|[? ?]]; [by left | right].
    split; [lia | done]. }
  set (today := epoch_day_utc now) in *.
  assert (A today ≤ if day c =? today then connections c else 0)%N as Hbase.
  { destruct (N.eqb_spec (day c) today) as [<-|Hne]; [done|].
    destruct Hlast as [->|[Hle Hz]]; [lia | rewrite Hz; lia]. }
  rewrite Hd'. split_and!.
  - intros d. destruct ad; cbn [andb]; [|apply Hm].
    destruct (N.eqb_spec today d) as [<-|]; [|apply Hm]. specialize (Had eq_refl). lia.
  - rewrite N.eqb_refl, andb_true_r, Hc'. lia.
  - right. split; [lia|]. intros d Hd. rewrite (proj2 (N.eqb_neq today d)) by lia.
    rewrite andb_false_r. destruct Hlast as [->|[Hle Hz]]; [done | rewrite Hz; lia].
Qed.

Lemma admitted_capped k m lim ops s last A c :
  limiter_wf s.1 → limits s.1 !! k = Some lim → daily_connections lim = Some m →
  counters s.1 !! k = Some c → cap_inv m last A c → days_from last ops →
  ∀ d, (A d + admitted k d ops s ≤ m)%N.
Proof.
  revert s last A c. induction ops as [|[now o] ops IH]; intros [l fs] last A c Hw Hl Hm Hc Hinv Hdays d;
    cbn [fst snd] in *.
  { cbn. destruct Hinv as [HA _]. specialize (HA d). lia. }
  destruct Hdays as [Hnow Hdays]. cbn [admitted].
  destruct (run_op now o (l, fs)) as [r [l' fs']] eqn:Er.
  destruct (run_op_effect _ _ _ _ _ _ _ _ _ _ _ Hw Hl Hm Hc Er) as (Hl' & Hw' & c' & Hc' & Hstep).
  pose proof (cap_inv_step _ _ _ _ _ _ _ Hinv Hnow Hstep) as Hinv'.
  assert (limits (l', fs').1 !! k = Some lim) as Hlk by (cbn; by rewrite Hl').
  specialize (IH (l', fs') _ _ c' Hw' Hlk Hm Hc' Hinv' Hdays d). cbv beta zeta in IH |- *. cbn [fst] in *.
  destruct (admits l k o r && (epoch_day_utc now =? d)%N); lia.
Qed.

(** C25: The daily connection limit holds of operations that are executed one after the other
    by a clock whose day does not go back.  Whatever connections are checked, bytes
    accounted and states flushed in such a sequence, and however file operations fail, it
    never admits more connections under a limited name on any day than the limit of that
    name; it may start from any counters, restored or not.  Operations that overlap are not
    covered: within a day they behave as if one after the other
    ([DomainLimiterConc.counters_linearize]), but overlapping ones can pass the limit at
    midnight ([DomainLimiterConc.rollover_race_exceeds_limit]). *)
Theorem daily_connections_capped k m lim ops l fs d :
  limiter_wf l → limits l !! k = Some lim → daily_connections lim = Some m →
  days_from 0 ops → (admitted k d ops (l, fs) ≤ m)%N.
Proof.
  intros Hw Hl Hm Hdays. destruct (Hw k) as [c Hc]; [by eexists|].
  assert (∀ d, 0 + admitted k d ops (l, fs) ≤ m)%N as Hcap.
  { apply (admitted_capped k m lim ops (l, fs) 0 (λ _, 0%N) c); try done.
    split_and!; [lia | lia | by left]. }
  apply Hcap.
Qed.

End runs.

(** * Restarts *)

Section restart.
Context `{Unicode} `{HashOrder} `{Paths} `{Json} (fails : FileOp → bool).
Implicit Types l : DomainLimiter.

(** What [load] establishes: lower-case names, each with counters. *)
Record loaded l : Prop := {
  loaded_lower : ∀ k, is_Some (limits l !! k) → to_lowercase k = k;
  loaded_counters : ∀ k, is_Some (counters l !! k) ↔ is_Some (limits l !! k);
}.

Lemma restore_one_dom today cs p k :
  is_Some (restore_one today cs p !! k) ↔ is_Some (cs !! k).
Proof.
  unfold restore_one. cbv zeta. destruct (cs !! to_lowercase p.1) eqn:E; [|done].
  case_match; [|done]. rewrite lookup_insert_is_Some.
  destruct (decide (to_lowercase p.1 = k)) as [<-|]; [|naive_solver].
  split; [intros _; by rewrite E | by left].
Qed.

Lemma restore_all_dom today (ps : list (bytes * PersistedDomain)) cs k :
  is_Some (foldl (restore_one today) cs ps !! k) ↔ is_Some (cs !! k).
Proof.
  revert cs. induction ps as [|p ps IH]; intros cs; cbn [foldl]; [done|].
  by rewrite IH, restore_one_dom.
Qed.

Lemma load_loaded `{!UnicodeLaws} now fs lims path l :
  load fails now fs lims path = Ok l → loaded l ∧ state_file l = path.
Proof.
  unfold load. cbv zeta. set (lims' := insert_all _ ∅).
  set (l0 := {| limits := lims'; counters := _; state_file := path; dirty := false |}).
  assert (∀ k, is_Some (lims' !! k) → to_lowercase k = k) as Hlow.
  { intros k [v Hk]. apply insert_all_lookup in Hk as [Hk|Hk]; [|by rewrite lookup_empty in Hk].
    apply list_elem_of_fmap in Hk as ([k' v'] & [= -> ->] & _). apply lower_idemp. }
  assert (∀ k, is_Some (counters l0 !! k) ↔ is_Some (limits l0 !! k)) as Hdom.
  { intros k. cbn. rewrite lookup_fmap. by rewrite fmap_is_Some. }
  destruct path as [p|]; [|by intros [= <-]]. unfold load_from_disk.
  destruct (fs !! p) as [raw|]; [|by intros [= <-]]. destruct (fails (Read p)); [done|].
  destruct (from_str raw) as [st|]; [|done]. cbn [ok_or mbind result_bind].
  destruct (negb _); [by intros [= <-]|]. intros [= <-]. split; [|done]. split; [done|].
  intros k. cbn. rewrite restore_all_dom. apply Hdom.
Qed.

(** Restoring the saved counters of lower-case names. *)
Lemma restore_all_lookup today (ps : list (bytes * PersistedDomain)) cs k :
  NoDup ps.*1 → (∀ j, j ∈ ps.*1 → to_lowercase j = j) →
  foldl (restore_one today) cs ps !! k =
    match cs !! k with
    | None => None
    | Some c =>
        match (list_to_map ps : gmap bytes PersistedDomain) !! k with
        | Some p => if (p_day p =? today)%N
                    then Some (restore (p_day p) (p_bytes p) (p_connections p)) else Some c
        | None => Some c
        end
    end.
Proof.
  revert cs. induction ps as [|[j p] ps IH]; intros cs Hnd Hlow; cbn [foldl list_to_map foldr].
  { rewrite lookup_empty. by destruct (cs !! k). }
  cbn [fmap list_fmap fst] in *. apply NoDup_cons in Hnd as [Hj Hnd].
  rewrite IH; [|done | intros i Hi; apply Hlow; by right].
  unfold restore_one. cbn [fst snd]. cbv zeta. rewrite (Hlow j) by by left.
  destruct (decide (j = k)) as [->|Hne].
  - cbn. rewrite lookup_insert_eq.
    assert ((list_to_map ps : gmap bytes PersistedDomain) !! k = None) as ->
      by by apply not_elem_of_list_to_map_1.
    destruct (cs !! k) as [c|] eqn:Ec; [|by rewrite Ec].
    destruct (p_day p =? today)%N; [by rewrite lookup_insert_eq | by rewrite Ec].
  - cbn. rewrite lookup_insert_ne by done. destruct (cs !! j); [|done].
    destruct (p_day p =? today)%N; [|done]. by rewrite lookup_insert_ne.
Qed.

Lemma persist_now_ok now l fs l' fs' path :
  state_file l = Some path → persist_now fails now l fs = (Ok tt, l', fs') →
  l' = (build_snapshot now l).1 {{ dirty := false }}
  ∧ fs' !! path = Some (to_string_pretty (build_snapshot now l).2).
Proof.
  intros Hp. unfold persist_now. rewrite Hp. cbv zeta.
  destruct (match parent path with Some _ => _ | None => _ end); [done|].
  destruct (build_snapshot now l) as [l1 snap]. cbn [fst snd].
  destruct (fails (Write _)); [done|]. destruct (fails (Rename _ _)); [done|].
  intros [= <- <-]. split; [done|]. generalize (with_extension path §"json.tmp"). intros tmp.
  unfold rename. rewrite (lookup_insert_eq fs tmp).
  case_decide as E; [subst tmp|]; apply lookup_insert_eq.
Qed.

(** C30: Usage survives a restart.  When the counters have been flushed and the relay is
    started again with the same limits, every name has the same counters as before if it is
    still the same day, and fresh ones otherwise, so that a restart neither loses nor
    carries over usage. *)
Theorem restart_preserves now now' l fs l' fs' path :
  (∀ s, from_str (to_string_pretty s) = Some s) →
  loaded l → state_file l = Some path → fails (Read path) = false →
  persist_now fails now l fs = (Ok tt, l', fs') →
  ∃ l'', load fails now' fs' (limits l) (Some path) = Ok l''
  ∧ limits l'' = limits l
  ∧ ∀ k, counters l'' !! k =
      if (epoch_day_utc now =? epoch_day_utc now')%N then counters l' !! k
      else (λ _, counters_new now') <$> counters l' !! k.
Proof.
  intros Hjson [Hlow Hdom] Hp Hr Hpersist.
  destruct (persist_now_ok _ _ _ _ _ _ Hp Hpersist) as [-> Hfile].
  unfold load, load_from_disk. cbv zeta. rewrite Hfile, Hr, Hjson. cbn [ok_or mbind result_bind].
  set (snap := (build_snapshot now l).2).
  replace (version snap =? STATE_VERSION)%N with true by done. cbn [negb].
  assert (insert_all ((λ p, (to_lowercase p.1, p.2)) <$> hash_iter (limits l)) ∅ = limits l) as ->.
  { rewrite <- (insert_all_hash_iter (limits l)) at 2. f_equal.
    rewrite <- (list_fmap_id (hash_iter _)) at 2. apply list_fmap_ext.
    intros i [k p] Hi. apply list_elem_of_lookup_2, elem_of_hash_iter in Hi. cbn.
    rewrite Hlow; [done | by eexists]. }
  eexists. split; [done|]. split; [done|]. intros k.
  assert (∀ j, is_Some (domains snap !! j) → to_lowercase j = j) as Hlow'.
  { intros j. unfold snap. cbn. rewrite lookup_fmap, fmap_is_Some. intros ?.
    by apply Hlow, Hdom. }
  lazymatch goal with |- _ = ?rhs =>
    change (foldl (restore_one (epoch_day_utc now')) ((λ _, counters_new now') <$> limits l)
      (hash_iter (domains snap)) !! k = rhs) end.
  rewrite restore_all_lookup; [|apply NoDup_hash_iter_keys |].
  2:{ intros j (p & -> & Hj)%list_elem_of_fmap. destruct p as [j p]. cbn.
      apply elem_of_hash_iter in Hj. apply Hlow'. by eexists. }
  assert ((list_to_map (hash_iter (domains snap)) : gmap bytes PersistedDomain) = domains snap) as ->.
  { rewrite <- (list_to_map_to_list (domains snap)) at 2.
    apply list_to_map_proper; [apply NoDup_hash_iter_keys | apply hash_iter_perm]. }
  unfold snap. cbn. rewrite !lookup_fmap.
  destruct (limits l !! k) as [lim|] eqn:El; cbn.
  - destruct (proj2 (Hdom k)) as [c Hc]; [by eexists|]. rewrite Hc. cbn.
    assert (day (refresh_if_new_day now c) = epoch_day_utc now) as Hd.
    { unfold refresh_if_new_day. cbv zeta. by destruct (N.eqb_spec (day c) (epoch_day_utc now)). }
    rewrite Hd. destruct (epoch_day_utc now =? epoch_day_utc now')%N; [|done].
    f_equal. rewrite <- Hd. by destruct (refresh_if_new_day now c).
  - assert (counters l !! k = None) as ->.
    { apply eq_None_not_Some. rewrite Hdom, El. by intros [? ?]. }
    by destruct (_ =? _)%N.
Qed.
End restart.

(** * Metering *)

Section metering.
Context `{Unicode} `{HashOrder}.
Implicit Types l : DomainLimiter.

(** Accounting the chunks of a transfer one after the other. *)
Fixpoint account_all (now : N) (d : bytes) (ns : list N) l
    : list (result LimitReason unit) * DomainLimiter :=
  match ns with
  | [] => ([], l)
  | n :: ns =>
      let '(r, l) := account_bytes now d n l in
      let '(rs, l) := account_all now d ns l in (r :: rs, l)
  end.

Definition sum_N (ns : list N) : N := foldr N.add 0%N ns.

Lemma resolve_limit_key_limits l l' d :
  limits l' = limits l → resolve_limit_key l' d = resolve_limit_key l d.
Proof. intros Hl. unfold resolve_limit_key. by rewrite Hl. Qed.

Lemma counters_for_set l l' d key c c' lim :
  counters_for l d = Some (key, lim, c) → limits l' = limits l →
  counters l' = <[key := c']> (counters l) → counters_for l' d = Some (key, lim, c').
Proof.
  intros (Hk & Hlim & Hc)%counters_for_Some Hl Hcs. unfold counters_for.
  rewrite (resolve_limit_key_limits l l' d Hl), Hk. cbn. rewrite Hl, Hlim. cbn.
  by rewrite Hcs, lookup_insert_eq.
Qed.

Lemma refresh_idemp now now' c :
  epoch_day_utc now' = epoch_day_utc now →
  refresh_if_new_day now' (refresh_if_new_day now c) = refresh_if_new_day now c.
Proof.
  intros Hd. unfold refresh_if_new_day. cbv zeta. rewrite Hd.
  destruct (N.eqb_spec (day c) (epoch_day_utc now)) as [E|E]; cbn.
  - by rewrite (proj2 (N.eqb_eq _ _) E).
  - by rewrite N.eqb_refl.
Qed.

Lemma account_bytes_step now d n l key lim c mx :
  counters_for l d = Some (key, lim, c) → daily_bandwidth lim = Some mx → n ≠ 0%N →
  let used := (c_bytes (refresh_if_new_day now c) + n)%N in
  (used < 2 ^ 64)%N →
  ∃ l' c', account_bytes now d n l = (if (mx <? used)%N then Err DailyBandwidth else Ok tt, l')
  ∧ limits l' = limits l ∧ counters l' = <[key := c']> (counters l)
  ∧ c_bytes c' = used ∧ day c' = epoch_day_utc now.
Proof.
  intros Hf Hmx Hn used Hused. unfold account_bytes.
  rewrite (proj2 (N.eqb_neq n 0)) by done. rewrite Hf, Hmx. cbv zeta.
  assert (wrap 64 (c_bytes (refresh_if_new_day now c) + n) = used) as -> by by apply N.mod_small.
  destruct (refresh_connections now c) as [Hd _].
  set (c' := {| c_bytes := used; connections := _; day := _ |}).
  destruct (mark_dirty_counters (set_counters key c' l)) as [Hmc Hml].
  exists (mark_dirty (set_counters key c' l)), c'. split_and!; try done.
  by destruct (mx <? used)%N.
Qed.

Lemma account_all_spec now d ns l key lim c mx :
  counters_for l d = Some (key, lim, c) → daily_bandwidth lim = Some mx →
  let base := c_bytes (refresh_if_new_day now c) in
  (base + sum_N ns < 2 ^ 64)%N →
  ∃ rs l' c', account_all now d ns l = (rs, l')
  ∧ limits l' = limits l ∧ counters_for l' d = Some (key, lim, c')
  ∧ c_bytes (refresh_if_new_day now c') = (base + sum_N ns)%N
  ∧ ∀ i n, ns !! i = Some n →
      rs !! i = Some (if (n =? 0)%N || (base + sum_N (take (S i) ns) <=? mx)%N
                      then Ok tt else Err DailyBandwidth).
Proof.
  intros Hf Hmx. revert l c Hf. induction ns as [|n ns IH]; intros l c Hf base Hsum; cbn [account_all].
  { exists [], l, c. split_and!; try done. cbn. lia. }
  cbn [sum_N foldr] in Hsum. fold (sum_N ns) in Hsum.
  destruct (decide (n = 0%N)) as [->|Hn].
  - assert (account_bytes now d 0 l = (Ok tt, l)) as -> by done.
    destruct (IH l c Hf ltac:(lia)) as (rs & l' & c' & -> & Hl & Hf' & Hb & Hrs).
    exists (Ok tt :: rs), l', c'. split_and!; [done | done | done | exact Hb |].
    intros [|i] n' Hn'; [by injection Hn' as <-|].
    change (rs !! i = Some (if (n' =? 0)%N || (base + sum_N (0%N :: take (S i) ns) <=? mx)%N
      then Ok tt else Err DailyBandwidth)). by rewrite (Hrs i n' Hn').
  - destruct (account_bytes_step now d n l key lim c mx Hf Hmx Hn ltac:(lia))
      as (l1 & c1 & -> & Hl1 & Hc1 & Hb1 & Hd1).
    assert (refresh_if_new_day now c1 = c1) as Hr1.
    { unfold refresh_if_new_day. cbv zeta. by rewrite Hd1, N.eqb_refl. }
    pose proof (counters_for_set _ _ _ _ _ _ _ Hf Hl1 Hc1) as Hf1.
    destruct (IH l1 c1 Hf1) as (rs & l' & c' & -> & Hl & Hf' & Hb & Hrs).
    { rewrite Hr1, Hb1. fold base. lia. }
    rewrite Hr1, Hb1 in Hb, Hrs. fold base in Hb, Hrs |- *.
    eexists (_ :: rs), l', c'. split_and!; [done | by rewrite Hl | done | |].
    + rewrite Hb. cbn. fold (sum_N ns). lia.
    + intros [|i] n' Hn'.
      * injection Hn' as <-. cbn [lookup list_lookup]. rewrite (proj2 (N.eqb_neq n 0)) by done. cbn. rewrite N.add_0_r.
        rewrite N.ltb_antisym. by destruct (base + n <=? mx)%N.
      * change (rs !! i = Some (if (n' =? 0)%N || (base + (n + sum_N (take (S i) ns)) <=? mx)%N
          then Ok tt else Err DailyBandwidth)). by rewrite (Hrs i n' Hn'), N.add_assoc.
Qed.

(** Bandwidth is metered exactly.  For the chunks of a day on a metered name, each one
    is reported as over the limit precisely when the bytes used so far on that day, with
    it, exceed the limit; and from then on a new connection under that name is refused for
    bandwidth precisely when the bytes used have reached the limit. *)
Theorem bandwidth_metering now now' d d' ns l key lim c mx :
  counters_for l d = Some (key, lim, c) → daily_bandwidth lim = Some mx →
  epoch_day_utc now' = epoch_day_utc now →
  resolve_limit_key l d' = Some key →
  let base := c_bytes (refresh_if_new_day now c) in
  (base + sum_N ns < 2 ^ 64)%N →
  let '(rs, l') := account_all now d ns l in
  (∀ i n, ns !! i = Some n →
     rs !! i = Some (if (n =? 0)%N || (base + sum_N (take (S i) ns) <=? mx)%N
                     then Ok tt else Err DailyBandwidth))
  ∧ ((check_connection now' d' l').1 = Err DailyBandwidth ↔ (mx ≤ base + sum_N ns)%N).
Proof.
  intros Hf Hmx Hday Hk' base Hsum.
  destruct (account_all_spec now d ns l key lim c mx Hf Hmx Hsum)
    as (rs & l' & c' & -> & Hl & Hf' & Hb & Hrs).
  split; [done|]. fold base in Hb. unfold check_connection.
  apply counters_for_Some in Hf' as (_ & Hlim & Hc').
  assert (counters_for l' d' = Some (key, lim, c')) as ->.
  { unfold counters_for. rewrite (resolve_limit_key_limits l l' d' Hl), Hk'. cbn.
    rewrite Hlim. cbn. by rewrite Hc'. }
  cbv zeta. rewrite Hmx.
  assert (c_bytes (refresh_if_new_day now' c') = (base + sum_N ns)%N) as ->.
  { rewrite <- Hb. unfold refresh_if_new_day. cbv zeta. by rewrite Hday. }
  destruct (N.leb_spec mx (base + sum_N ns)); [done|].
  split; [|lia]. destruct (daily_connections lim); [|done]. by destruct (_ <=? _)%N.
Qed.

End metering.

(** * A concrete limiter, and a codec of its state *)

#[global] Instance PersistedDomain_eq_dec : EqDecision PersistedDomain.
Proof. solve_decision. Defined.
#[global] Program Instance PersistedDomain_countable : Countable PersistedDomain :=
  inj_countable' (λ p, (p_day p, p_bytes p, p_connections p))
    (λ t, {| p_day := t.1.1; p_bytes := t.1.2; p_connections := t.2 |}) _.
Next Obligation. by intros []. Qed.
#[global] Instance PersistedState_eq_dec : EqDecision PersistedState.
Proof. solve_decision. Defined.
#[global] Program Instance PersistedState_countable : Countable PersistedState :=
  inj_countable' (λ s, (version s, domains s)) (λ t, {| version := t.1; domains := t.2 |}) _.
Next Obligation. by intros []. Qed.

Definition example_json : Json := {|
  to_string_pretty s := show (Npos (encode s));
  from_str b := n ← digits_val digit_val 10 0 b;
                match n with N0 => None | Npos p => decode p end;
|}.
Lemma example_json_law s :
  @from_str example_json (@to_string_pretty example_json s) = Some s.
Proof.
  cbn. destruct (show_writes (Npos (encode s))) as (_ & -> & _). cbn. apply decode_encode.
Qed.

Definition example_paths : Paths := {| with_extension p e := p ++ x2e :: e; parent p := Some §"/var" |}.

Definition example_limiter : DomainLimiter := {|
  limits := {[ §"example.com" := {| daily_bandwidth := Some 1000%N; daily_connections := Some 2%N |} ]};
  counters := {[ §"example.com" := {| c_bytes := 10; connections := 1; day := 20000 |} ]};
  state_file := Some §"/var/state";
  dirty := true |}.

Lemma example_limiter_wf : limiter_wf example_limiter.
Proof.
  intros k. cbn [limits counters example_limiter]. rewrite !lookup_singleton_is_Some. done.
Qed.

Definition example_day (secs : N) : N := (1728000000 + secs)%N.

Lemma daily_connections_capped_witness :
  (@admitted ascii_unicode sorted_order example_paths example_json (λ _, false) §"example.com" 20000
    [(example_day 0, Check §"api.EXAMPLE.com"); (example_day 5, Account §"example.com" 100);
     (example_day 9, Check §"example.com"); (example_day 86400, Check §"example.com")]
    (example_limiter, ∅) ≤ 2)%N.
Proof.
  apply (@daily_connections_capped ascii_unicode sorted_order example_paths example_json (λ _, false)
    §"example.com" 2 {| daily_bandwidth := Some 1000%N; daily_connections := Some 2%N |}).
  - apply example_limiter_wf.
  - by vm_compute.
  - done.
  - repeat split; vm_compute; done.
Defined.

Lemma restart_preserves_witness :
  match @persist_now example_paths example_json (λ _, false) (example_day 100) example_limiter ∅ with
  | (Ok tt, l', fs') =>
      ∃ l'', @load ascii_unicode sorted_order example_json (λ _, false) (example_day 200) fs'
               (limits example_limiter) (Some §"/var/state") = Ok l''
      ∧ limits l'' = limits example_limiter
      ∧ ∀ k, counters l'' !! k =
          if (epoch_day_utc (example_day 100) =? epoch_day_utc (example_day 200))%N
          then counters l' !! k else (λ _, counters_new (example_day 200)) <$> counters l' !! k
  | _ => False
  end.
Proof.
  destruct (@persist_now example_paths example_json (λ _, false) (example_day 100) example_limiter ∅)
    as [[[[]|e] l'] fs'] eqn:E.
  - apply (@restart_preserves ascii_unicode sorted_order example_paths example_json (λ _, false)
      (example_day 100) (example_day 200) example_limiter ∅ l' fs' §"/var/state");
      [apply example_json_law | | done | done | done].
    split; cbn [limits counters example_limiter]; intros k.
    + rewrite lookup_singleton_is_Some. intros <-. by vm_compute.
    + by rewrite !lookup_singleton_is_Some.
  - exfalso. assert (is_ok (@persist_now example_paths example_json (λ _, false) (example_day 100)
      example_limiter ∅).1.1 = true) as Hok by done. by rewrite E in Hok.
Defined.

Lemma bandwidth_metering_witness :
  let '(rs, l') := @account_all ascii_unicode sorted_order (example_day 0) §"cdn.example.com"
    [400; 0; 590; 1]%N example_limiter in
  rs !! 3 = Some (Err DailyBandwidth)
  ∧ ((@check_connection ascii_unicode sorted_order (example_day 50) §"EXAMPLE.com" l').1
     = Err DailyBandwidth).
Proof.
  pose proof (@bandwidth_metering ascii_unicode sorted_order (example_day 0) (example_day 50)
    §"cdn.example.com" §"EXAMPLE.com" [400; 0; 590; 1]%N example_limiter §"example.com"
    {| daily_bandwidth := Some 1000%N; daily_connections := Some 2%N |}
    {| c_bytes := 10; connections := 1; day := 20000 |} 1000%N%N
    ltac:(by vm_compute) eq_refl ltac:(by vm_compute) ltac:(by vm_compute) ltac:(by vm_compute)) as Hm.
  destruct (account_all _ _ _ _) as [rs l']. destruct Hm as [Hrs Hchk]. split.
  - by rewrite (Hrs 3 1%N eq_refl).
  - apply Hchk. by vm_compute.
Defined.
