(* ===== verification/DomainLimiterConc.v ===== *)
(** src/domain_limiter.rs, the operations on the counters of one domain as the concurrent
    connections run them: an operation is a sequence of atomic actions, and the operations of
    several connections interleave.

    The atomics are sequentially consistent here; the code orders them with acquire and
    release, each counter being a single location.  The sequential functions are in
    DomainLimiter. *)

From S2P Require Import Prelude RustStr Collections Net Hosts Config DomainLimiter.

(** [AtomicU64] and [AtomicU32] cells of [DomainCounters]: the record of the sequential model
    is the memory. *)
Definition Mem := DomainCounters.

Definition with_bytes (n : N) (m : Mem) : Mem := {| c_bytes := n; connections := connections m; day := day m |}.
Definition with_connections (n : N) (m : Mem) : Mem := {| c_bytes := c_bytes m; connections := n; day := day m |}.
Definition with_day (n : N) (m : Mem) : Mem := {| c_bytes := c_bytes m; connections := connections m; day := n |}.

Inductive Op := OpCheck | OpAccount (n : N).

(** What an operation is about to do. *)
Inductive Pc :=
| ReadClock                       (** [let today = epoch_day_utc()] *)
| LoadDay (today : N)             (** [self.day.load] *)
| SwapDay (stored today : N)      (** [self.day.compare_exchange] *)
| ResetBytes | ResetConnections   (** the two stores after a swap *)
| Body                            (** the first access after [refresh_if_new_day] *)
| LoadConnections
| TryIncrement (current : N)      (** the loop around [compare_exchange_weak] *)
| Done (r : result LimitReason unit).

Section threads.
Context (limit : DomainLimitConfig).

(** One atomic action; [today] is the clock, and [weak] a spurious failure of
    [compare_exchange_weak]. *)
Definition thread_step (op : Op) (today : N) (weak : bool) (m : Mem) (pc : Pc) : option (Mem * Pc) :=
  match pc with
  | ReadClock =>
      match op, daily_bandwidth limit with
      | OpAccount _, None => Some (m, Done (Ok tt))
      | OpAccount n, _ => Some (m, if (n =? 0)%N then Done (Ok tt) else LoadDay today)
      | OpCheck, _ => Some (m, LoadDay today)
      end
  | LoadDay today => Some (m, if (day m =? today)%N then Body else SwapDay (day m) today)
  | SwapDay stored today =>
      if (day m =? stored)%N then Some (with_day today m, ResetBytes) else Some (m, Body)
  | ResetBytes => Some (with_bytes 0 m, ResetConnections)
  | ResetConnections => Some (with_connections 0 m, Body)
  | Body =>
      match op with
      | OpAccount n =>
          mx ← daily_bandwidth limit;
          let new_used := wrap 64 (c_bytes m + n) in
          Some (with_bytes new_used m,
                Done (if (mx <? new_used)%N then Err DailyBandwidth else Ok tt))
      | OpCheck =>
          let over := match daily_bandwidth limit with
                      | Some mx => (mx <=? c_bytes m)%N
                      | None => false
                      end in
          Some (m, if over then Done (Err DailyBandwidth) else LoadConnections)
      end
  | LoadConnections =>
      match daily_connections limit with
      | None => Some (m, Done (Ok tt))
      | Some _ => Some (m, TryIncrement (connections m))
      end
  | TryIncrement current =>
      mx ← daily_connections limit;
      if (mx <=? current)%N then Some (m, Done (Err DailyConnections))
      else if (connections m =? current)%N && negb weak
      then Some (with_connections (current + 1) m, Done (Ok tt))
      else Some (m, TryIncrement (connections m))
  | Done _ => None
  end.

Record System := { mem : Mem; threads : list (Op * Pc) }.

(** An event: a thread, the clock, and whether a weak exchange fails.  (The dirty flag, a store of its own, is left out.) *)
Definition sys_step (s : System) (e : nat * N * bool) : option System :=
  let '(i, today, weak) := e in
  '(op, pc) ← threads s !! i;
  '(m, pc) ← thread_step op today weak (mem s) pc;
  Some {| mem := m; threads := <[i := (op, pc)]> (threads s) |}.

Fixpoint sys_run (s : System) (events : list (nat * N * bool)) : option System :=
  match events with
  | [] => Some s
  | e :: events => s ← sys_step s e; sys_run s events
  end.

Definition start_threads (m : Mem) (ops : list Op) : System :=
  {| mem := m; threads := (λ op, (op, ReadClock)) <$> ops |}.

(** * Within a day

    The specification of a day: two numbers, of which one is only raised below the limit and
    the other grows by what is transferred, each in one atomic action. *)
Record Day := { d_connections : N; d_bytes : N }.

Inductive day_step (mx : N) : Day → Day → Prop :=
| DayAdmit c b : (c < mx)%N →
    day_step mx {| d_connections := c; d_bytes := b |} {| d_connections := c + 1; d_bytes := b |}
| DayCount c b n :
    day_step mx {| d_connections := c; d_bytes := b |}
                {| d_connections := c; d_bytes := wrap 64 (b + n) |}.

Definition day_of (m : Mem) : Day := {| d_connections := connections m; d_bytes := c_bytes m |}.

(** What the operations that are over have counted. *)
Definition admitted_one (t : Op * Pc) : N :=
  match t with
  | (OpCheck, Done (Ok _)) => match daily_connections limit with Some _ => 1 | None => 0 end
  | _ => 0
  end.
Definition accounted_one (t : Op * Pc) : N :=
  match t with
  | (OpAccount n, Done _) => match daily_bandwidth limit with Some _ => n | None => 0 end
  | _ => 0
  end.
Definition total_of (f : Op * Pc → N) (ts : list (Op * Pc)) : N := foldr (λ t, N.add (f t)) 0%N ts.

Lemma total_of_insert f ts i t t' :
  ts !! i = Some t → (total_of f (<[i := t']> ts) + f t = total_of f ts + f t')%N.
Proof.
  revert i. induction ts as [|a ts IH]; intros [|i]; [done | done | |].
  - intros [= ->]. cbn. lia.
  - intros Hi. specialize (IH i Hi).
    change (<[S i:=t']> (a :: ts)) with (a :: <[i:=t']> ts). cbn [total_of foldr].
    change (foldr _ 0%N ?x) with (total_of f x). lia.
Qed.

Lemma total_of_start f ops : f = admitted_one ∨ f = accounted_one →
  total_of f ((λ op, (op, ReadClock)) <$> ops) = 0%N.
Proof. intros [-> | ->]; induction ops as [|[|n] ops IH]; cbn in *; by rewrite ?IH. Qed.

(** A thread within the day [today]: it rolls nothing over, has read the count before now, and
    was refused only at the limit. *)
Definition thread_ok (mx today now : N) (t : Op * Pc) : Prop :=
  match t.2 with
  | LoadDay seen => seen = today
  | SwapDay _ _ | ResetBytes | ResetConnections => False
  | LoadConnections => t.1 = OpCheck
  | TryIncrement n => t.1 = OpCheck ∧ (n ≤ now)%N
  | Done (Err DailyConnections) => (mx ≤ now)%N
  | _ => True
  end.

Lemma thread_ok_mono mx today now now' t :
  (now ≤ now')%N → thread_ok mx today now t → thread_ok mx today now' t.
Proof. destruct t as [op [| | | | | | | |[|[]]]]; cbn; intros; try done; try split; try lia; by destruct_and?. Qed.

(** The steps of a thread within a day: it reads, admits a connection or counts bytes. *)
Inductive thread_effect (mx today : N) (op : Op) (m : Mem) : Mem → Pc → Prop :=
| Reads pc' :
    admitted_one (op, pc') = 0%N → accounted_one (op, pc') = 0%N →
    thread_ok mx today (connections m) (op, pc') →
    thread_effect mx today op m m pc'
| Admits : op = OpCheck → (connections m < mx)%N →
    thread_effect mx today op m (with_connections (connections m + 1) m) (Done (Ok tt))
| Counts n r : op = OpAccount n → is_Some (daily_bandwidth limit) → r ≠ Err DailyConnections →
    thread_effect mx today op m (with_bytes (wrap 64 (c_bytes m + n)) m) (Done r).

Lemma thread_step_effect mx today op weak m pc m' pc' :
  daily_connections limit = Some mx → day m = today → thread_ok mx today (connections m) (op, pc) →
  thread_step op today weak m pc = Some (m', pc') →
  admitted_one (op, pc) = 0%N ∧ accounted_one (op, pc) = 0%N
  ∧ thread_effect mx today op m m' pc'.
Proof.
  intros Hmx Hday Hok Hstep.
  destruct pc as [| t | ? ? | | | | |current|r]; cbn [thread_step thread_ok snd] in Hok, Hstep;
    try done; (split; [by destruct op | split; [by destruct op|]]).
  - destruct op as [|n]; [injection Hstep as <- <-; by apply Reads|].
    destruct (daily_bandwidth limit) as [b|] eqn:Hb; [|injection Hstep as <- <-; apply Reads; cbn; by rewrite ?Hb].
    destruct (N.eqb_spec n 0) as [-> | Hn]; injection Hstep as <- <-; apply Reads; cbn; by rewrite ?Hb.
  - subst. rewrite N.eqb_refl in Hstep. injection Hstep as <- <-. by apply Reads; destruct op.
  - destruct op as [|n].
    + destruct (daily_bandwidth limit) as [b|]; [destruct (b <=? c_bytes m)%N|];
        injection Hstep as <- <-; by apply Reads.
    + apply bind_Some in Hstep as (b & Hb & [= <- <-]).
      apply Counts; [done | by rewrite Hb | by destruct (b <? _)%N].
  - cbn in Hok. subst. rewrite Hmx in Hstep. injection Hstep as <- <-. by apply Reads.
  - destruct Hok as [[= ->] Hle]. rewrite Hmx in Hstep. cbn in Hstep.
    destruct (N.leb_spec mx current) as [Hmxle | Hgt].
    { injection Hstep as <- <-. apply Reads; [done.. | cbn; lia]. }
    destruct (N.eqb_spec (connections m) current) as [<- | Hne]; [destruct weak|]; cbn in Hstep;
      injection Hstep as <- <-; by constructor.
Qed.

(** The invariant of the system within the day [today], whose counts were [d0] at its start. *)
Record day_inv (mx today : N) (d0 : Day) (s : System) : Prop := {
  inv_day : day (mem s) = today;
  inv_threads : Forall (thread_ok mx today (connections (mem s))) (threads s);
  inv_connections : connections (mem s) = (d_connections d0 + total_of admitted_one (threads s))%N;
  inv_bytes : c_bytes (mem s) = wrap 64 (d_bytes d0 + total_of accounted_one (threads s));
  inv_cap : (connections (mem s) ≤ N.max mx (d_connections d0))%N;
}.

Lemma day_inv_start mx m ops :
  (wrap 64 (c_bytes m) = c_bytes m) →
  day_inv mx (day m) (day_of m) (start_threads m ops).
Proof.
  intros Hw. split; cbn [start_threads mem threads day_of d_connections d_bytes].
  - done.
  - apply Forall_fmap, list.Forall_forall. done.
  - rewrite total_of_start by auto. lia.
  - rewrite total_of_start by auto. by rewrite N.add_0_r.
  - lia.
Qed.

Lemma wrap_add_l a b : wrap 64 (wrap 64 a + b) = wrap 64 (a + b).
Proof. unfold wrap. rewrite N.Div0.add_mod_idemp_l. done. Qed.

(** Within the day every step keeps the invariant, and refines the specification of the day:
    it is one of its steps, or changes nothing it sees. *)
Lemma sys_step_day mx today d0 s i weak s' :
  daily_connections limit = Some mx → day_inv mx today d0 s →
  sys_step s (i, today, weak) = Some s' →
  day_inv mx today d0 s'
  ∧ (day_of (mem s') = day_of (mem s) ∨ day_step mx (day_of (mem s)) (day_of (mem s'))).
Proof.
  intros Hmx [Hday Hts Hc Hb Hcap] Hstep. unfold sys_step in Hstep.
  apply bind_Some in Hstep as ([op pc] & Hi & Hstep).
  apply bind_Some in Hstep as ([m' pc'] & Hstep & [= <-]).
  assert (Hok := Forall_lookup_1 _ _ _ _ Hts Hi).
  destruct (thread_step_effect mx today op weak (mem s) pc m' pc' Hmx Hday Hok Hstep) as (Ha & Hn & He).
  assert (HA := total_of_insert admitted_one _ _ _ (op, pc') Hi).
  assert (HB := total_of_insert accounted_one _ _ _ (op, pc') Hi).
  rewrite Ha, N.add_0_r in HA. rewrite Hn, N.add_0_r in HB.
  assert (Hgrow : (connections (mem s) ≤ connections m')%N) by (destruct He; cbn; lia).
  assert (Hts' : thread_ok mx today (connections m') (op, pc')
    → Forall (thread_ok mx today (connections m')) (<[i:=(op, pc')]> (threads s))).
  { intros Hok'. apply Forall_insert; [|done].
    eapply list.Forall_impl; [exact Hts | intros t; apply thread_ok_mono; lia]. }
  destruct He as [pc' Ha' Hn' Hok' | -> Hlt | n r -> [b Hbw] Hr]; cbn [admitted_one accounted_one] in *.
  - rewrite ?Ha', ?Hn', ?N.add_0_r in *. split; [|by left].
    split; cbn [mem threads]; [done | by apply Hts' | by rewrite HA | by rewrite HB | done].
  - rewrite Hmx in HA. split; [|right; constructor; done].
    split; cbn [mem threads with_connections day connections c_bytes]; [done | by apply Hts' | lia | | lia].
    by rewrite HB, N.add_0_r.
  - split; [|right; constructor].
    split; cbn [mem threads with_bytes day connections c_bytes]; [done | | by rewrite HA, N.add_0_r | | done].
    + apply Hts'. by destruct r as [|[]].
    + rewrite Hb, wrap_add_l, HB, Hbw. f_equal. lia.
Qed.

Lemma sys_run_day mx today d0 events s s' :
  daily_connections limit = Some mx → Forall (λ e, e.1.2 = today) events →
  day_inv mx today d0 s → sys_run s events = Some s' →
  day_inv mx today d0 s' ∧ rtc (day_step mx) (day_of (mem s)) (day_of (mem s')).
Proof.
  intros Hmx Hev. revert s. induction Hev as [|[[i t] weak] events Ht _ IH]; intros s Hinv Hrun.
  - injection Hrun as <-. split; [done | apply rtc_refl].
  - cbn in Ht. subst. cbn [sys_run] in Hrun. apply bind_Some in Hrun as (s1 & Hstep & Hrun).
    destruct (sys_step_day mx today d0 s i weak s1 Hmx Hinv Hstep) as [Hinv1 Hday].
    destruct (IH s1 Hinv1 Hrun) as [Hinv' Hrtc]. split; [done|].
    destruct Hday as [<- | Hday]; [done | by eapply rtc_l].
Qed.
End threads.

(** C5: Concurrent connections, within a day, refine the two counters of the specification:
    whatever the interleaving of the atomic actions of [check_connection] and [account_bytes]
    and the spurious failures of the weak exchange, no increment and no byte is lost, the count
    of connections stays at or below the larger of the daily limit and what it was at the
    start, and a connection is refused for its count only when the limit is reached.  Every run
    is a run of the specification, whose steps are single atomic actions. *)
Theorem counters_linearize (limit : DomainLimitConfig) (mx : N) (m : Mem) (ops : list Op)
    (events : list (nat * N * bool)) (s : System) :
  daily_connections limit = Some mx → wrap 64 (c_bytes m) = c_bytes m →
  Forall (λ e, e.1.2 = day m) events →
  sys_run limit (start_threads m ops) events = Some s →
  rtc (day_step mx) (day_of m) (day_of (mem s))
  ∧ connections (mem s) = (connections m + total_of (admitted_one limit) (threads s))%N
  ∧ (connections (mem s) ≤ N.max mx (connections m))%N
  ∧ c_bytes (mem s) = wrap 64 (c_bytes m + total_of (accounted_one limit) (threads s))
  ∧ (∀ i op, threads s !! i = Some (op, Done (Err DailyConnections)) → (mx ≤ connections (mem s))%N).
Proof.
  intros Hmx Hw Hev Hrun.
  destruct (sys_run_day limit mx (day m) (day_of m) events _ s Hmx Hev
    (day_inv_start limit mx m ops Hw) Hrun) as [[_ Hts Hc Hb Hcap] Hrtc].
  split; [exact Hrtc|]. split; [done|]. split; [done|]. split; [done|].
  intros i op Hi. exact (Forall_lookup_1 _ _ _ _ Hts Hi).
Qed.

Definition one_a_day : DomainLimitConfig := {| daily_bandwidth := None; daily_connections := Some 1%N |}.
Definition fresh_mem : Mem := {| c_bytes := 0; connections := 0; day := 20000 |}.

(** Two connections at once: the second is refused, after its exchange failed. *)
Lemma counters_linearize_witness : ∃ s,
  sys_run one_a_day (start_threads fresh_mem [OpCheck; OpCheck])
    ((λ i, (i, 20000%N, false)) <$> [0; 1; 0; 1; 0; 1; 0; 1; 0; 1; 1]) = Some s
  ∧ connections (mem s) = 1%N ∧ (1 ≤ connections (mem s))%N.
Proof.
  eexists. split; [vm_compute; reflexivity|]. split; [vm_compute; reflexivity|].
  eapply (counters_linearize one_a_day 1 fresh_mem [OpCheck; OpCheck]
    ((λ i, (i, 20000%N, false)) <$> [0; 1; 0; 1; 0; 1; 0; 1; 0; 1; 1]));
    [reflexivity | reflexivity | vm_compute; repeat constructor | vm_compute; reflexivity
    | instantiate (2 := 1); vm_compute; reflexivity].
Defined.

(** Across midnight the limit can be passed: a connection that rolled the day over and was
    suspended before it reset the counters wipes out the connection that was counted in
    between, so a domain limited to one connection a day gets two on the same day. *)
Theorem rollover_race_exceeds_limit : ∃ events s,
  Forall (λ e, e.1.2 = 20001%N) events
  ∧ sys_run one_a_day (start_threads fresh_mem [OpCheck; OpCheck]) events = Some s
  ∧ threads s = [(OpCheck, Done (Ok tt)); (OpCheck, Done (Ok tt))]
  ∧ day (mem s) = 20001%N ∧ connections (mem s) = 1%N.
Proof.
  exists ((λ i, (i, 20001%N, false)) <$> [0; 0; 0; 1; 1; 1; 1; 1; 0; 0; 0; 0; 0]).
  eexists. split; [vm_compute; repeat constructor|]. by split; [vm_compute; reflexivity|].
Qed.
