(* ===== verification/Files.v ===== *)
(** What the panel uses of the standard library's paths and files, and of the processes it
    starts.

    A [PathBuf] is its text; two paths are equal when their components are.  The files are a
    map from the components of a path to a node, so that links and [..] are not resolved.  A
    write empties the file before it fills it, so that one that fails half-way, on a full
    disk, leaves a part of the new contents and nothing of the old. *)

From S2P Require Import Prelude RustStr Collections.

(** * Paths *)

Definition SLASH : Byte.byte := x2f.
Definition DOT : Byte.byte := x2e.

(** The components of a path: the root, then the names between slashes, less empty ones and
    dots (but a dot at the front). *)
Definition comps (p : bytes) : list bytes :=
  let parts := split_by (λ b, bool_decide (b = SLASH)) p in
  let keep := filter (λ c, c ≠ [] ∧ c ≠ [DOT]) parts in
  if starts_with [SLASH] p then [SLASH] :: keep
  else match parts with
       | c :: _ => if decide (c = [DOT]) then c :: keep else keep
       | [] => keep
       end.
Definition same_path (p q : bytes) : bool := bool_decide (comps p = comps q).

(** [p.join(name)], for a name without a slash. *)
Definition path_join (p name : bytes) : bytes :=
  if decide (p = []) then name
  else if ends_with [SLASH] p then p ++ name else p ++ SLASH :: name.

Definition show_comps (cs : list bytes) : bytes :=
  match cs with
  | c :: cs => if decide (c = [SLASH]) then SLASH :: join [SLASH] cs else join [SLASH] (c :: cs)
  | [] => []
  end.
(** The components of [p.parent()], and its text, spelt with single slashes. *)
Definition parent_comps (p : bytes) : option (list bytes) :=
  let cs := comps p in
  if decide (cs = [] ∨ cs = [[SLASH]]) then None else Some (removelast cs).
Definition path_parent (p : bytes) : option bytes := show_comps <$> parent_comps p.

Definition DOTDOT : bytes := [DOT; DOT].
Definition file_name (p : bytes) : option bytes :=
  c ← last (comps p);
  if decide (c = [SLASH] ∨ c = [DOT] ∨ c = DOTDOT) then None else Some c.
(** [p.extension()]: what follows the last dot of the name, unless nothing precedes it. *)
Definition extension (p : bytes) : option bytes :=
  n ← file_name p;
  '(stem, ext) ← rsplit_once DOT n;
  if decide (stem = []) then None else Some ext.

(** * Files *)

(** A file of text, a file that is not UTF-8, or a directory. *)
Inductive Node := Text (s : bytes) | Binary | Folder.
#[global] Instance Node_eq_dec : EqDecision Node.
Proof. solve_decision. Defined.
Abbreviation Tree := (gmap (list bytes) Node).

(** What the kernel permits, by components; after how many bytes it fails a write, if it
    does; and the order in which it lists a directory. *)
Class Kernel := {
  may_read : list bytes → bool;
  may_write : list bytes → bool;
  write_stops : Tree → list bytes → bytes → option nat;
  dir_order : list bytes → list bytes;
  dir_order_perm : ∀ l, dir_order l ≡ₚ l;
}.

Section files.
Context `{Kernel}.

Definition node (p : bytes) (t : Tree) : option Node := t !! comps p.
Definition is_dir (p : bytes) (t : Tree) : bool := bool_decide (node p t = Some Folder).
Definition path_exists (p : bytes) (t : Tree) : bool := bool_decide (is_Some (node p t)).

(** The last component of a path below the directory [d]. *)
Fixpoint name_below (d cs : list bytes) : option bytes :=
  match d, cs with
  | [], [name] => Some name
  | a :: d, c :: cs => if decide (a = c) then name_below d cs else None
  | _, _ => None
  end.
(** The names in a directory. *)
Definition names_in (d : list bytes) (t : Tree) : list bytes :=
  omap (λ e, name_below d e.1) (map_to_list t).

(** [fs::read_dir]: the paths of the entries. *)
Definition read_dir (p : bytes) (t : Tree) : option (list bytes) :=
  if is_dir p t && may_read (comps p) then Some (path_join p <$> dir_order (names_in (comps p) t)) else None.

(** [fs::read_to_string] *)
Definition read_to_string (p : bytes) (t : Tree) : option bytes :=
  if may_read (comps p) then match node p t with Some (Text s) => Some s | _ => None end else None.

(** [fs::write]: whether it succeeds, and the files afterwards. *)
Definition part_node (s : bytes) : Node := if utf8_valid s then Text s else Binary.
Definition write_file (p s : bytes) (t : Tree) : bool * Tree :=
  let folder := match comps p with [_] => true | cs => bool_decide (t !! removelast cs = Some Folder) end in
  if may_write (comps p) && folder && negb (is_dir p t) then
    match write_stops t (comps p) s with
    | None => (true, <[comps p := Text s]> t)
    | Some n => (false, <[comps p := part_node (take n s)]> t)
    end
  else (false, t).

(** [fs::create_dir_all]: whether it succeeds, and what it has created. *)
Fixpoint mk_dirs (above todo : list bytes) (t : Tree) : bool * Tree :=
  match todo with
  | [] => (true, t)
  | c :: todo =>
      let here := above ++ [c] in
      match t !! here with
      | Some Folder => mk_dirs here todo t
      | Some _ => (false, t)
      | None =>
          if may_write here then mk_dirs here todo (<[here := Folder]> t) else (false, t)
      end
  end.
Definition create_dir_all (cs : list bytes) (t : Tree) : bool * Tree := mk_dirs [] cs t.

End files.

(** * Processes *)

Record Output := { success : bool; stdout : bytes; stderr : bytes; exit_text : bytes }.

(** The host: its state, the files that exist in it, and what running a command line does;
    [None] when the program cannot be started. *)
Class Host := {
  HostState : Type;
  host_file : bytes → bool;
  exec : list bytes → HostState → option Output * HostState;
}.

Section processes.
Context `{Host}.

Definition in_docker : bool := host_file §"/.dockerenv".
Definition nsenter_bin : option bytes :=
  list_find (λ p, host_file p = true) [§"/usr/bin/nsenter"; §"/bin/nsenter"] ≫= λ x, Some x.2.

End processes.

(** * Lemmas on paths and files *)

Lemma name_below_spec d cs n : name_below d cs = Some n ↔ cs = d ++ [n].
Proof.
  revert cs. induction d as [|a d IH]; intros cs.
  - destruct cs as [|c [|c' cs]]; cbn; [done | | done]. split; [by intros [= ->] | by intros [= ->]].
  - destruct cs as [|c cs]; cbn; [done|]. case_decide as Hac.
    + subst. rewrite IH. split; [by intros -> | by intros [= ->]].
    + split; [done | intros [= -> _]; done].
Qed.

Lemma elem_of_names_in d t n : n ∈ names_in d t ↔ is_Some (t !! (d ++ [n])).
Proof.
  unfold names_in. rewrite list_elem_of_omap. split.
  - intros ([cs x] & Hx & Hn). cbn in Hn. apply name_below_spec in Hn as ->.
    apply elem_of_map_to_list in Hx. by exists x.
  - intros [x Hx]. exists (d ++ [n], x). split; [by apply elem_of_map_to_list | by apply name_below_spec].
Qed.

Lemma NoDup_names_in d t : NoDup (names_in d t).
Proof.
  unfold names_in. assert (NoDup (map_to_list t).*1) as Hnd by apply NoDup_fst_map_to_list.
  revert Hnd. induction (map_to_list t) as [|[cs x] l IH]; [constructor|].
  cbn. intros [Hn Hnd]%NoDup_cons. destruct (name_below d cs) as [n|] eqn:E; [|by apply IH].
  constructor; [|by apply IH]. intros ([cs' x'] & Hin & E')%list_elem_of_omap. cbn in E'.
  apply name_below_spec in E as ->, E' as ->. apply Hn, list_elem_of_fmap. by exists (d ++ [n], x').
Qed.

(** ** Paths of the files of a directory *)

Definition name_ok (n : bytes) : Prop := n ≠ [] ∧ n ≠ [DOT] ∧ SLASH ∉ n.

Lemma split_by_cons f a : ∃ c r, split_by f a = c :: r.
Proof. destruct a as [|x a]; cbn; [eauto|]. destruct (f x); [eauto|]. destruct (split_by f a); eauto. Qed.

Lemma split_by_app f a x b : f x = true → split_by f (a ++ x :: b) = split_by f a ++ split_by f b.
Proof.
  intros Hx. induction a as [|y a IH]; cbn; [by rewrite Hx|].
  destruct (f y); [by rewrite IH|]. rewrite IH. by destruct (split_by_cons f a) as (c & r & ->).
Qed.

Lemma split_by_none f a : Forall (λ x, f x = false) a → split_by f a = [a].
Proof. induction 1 as [|x a Hx _ IH]; [done|]. cbn. by rewrite Hx, IH. Qed.

Lemma comps_app q n : name_ok n → comps (q ++ SLASH :: n) = comps (q ++ [SLASH]) ++ [n].
Proof.
  intros (Hn & Hd & Hs). unfold comps.
  rewrite !(split_by_app (λ b, bool_decide (b = SLASH))) by done.
  rewrite (split_by_none _ n), (split_by_none _ []).
  2: constructor.
  2:{ apply list.Forall_forall. intros x Hx. apply bool_decide_eq_false. by intros ->. }
  destruct (split_by_cons (λ b, bool_decide (b = SLASH)) q) as (c & r & ->).
  rewrite !filter_app.
  assert (filter (λ c, c ≠ [] ∧ c ≠ [DOT]) [n] = [n]) as -> by (rewrite filter_cons_True; done).
  assert (filter (λ c, c ≠ [] ∧ c ≠ [DOT]) [[]] = []) as ->.
  { rewrite filter_cons_False; [done|]. by intros [? _]. }
  rewrite app_nil_r.
  assert (∀ l, starts_with [SLASH] (q ++ SLASH :: l) = starts_with [SLASH] (q ++ [SLASH])) as ->.
  { intros l. destruct q; cbn; done. }
  destruct (starts_with [SLASH] (q ++ [SLASH])); [done|]. cbn [app]. by case_decide.
Qed.

Lemma comps_slash q : q ≠ [] → comps (q ++ [SLASH]) = comps q.
Proof.
  intros Hq. unfold comps. rewrite (split_by_app (λ b, bool_decide (b = SLASH))) by done.
  destruct (split_by_cons (λ b, bool_decide (b = SLASH)) q) as (c & r & ->).
  rewrite filter_app.
  assert (filter (λ c, c ≠ [] ∧ c ≠ [DOT]) (split_by (λ b, bool_decide (b = SLASH)) []) = []) as ->.
  { cbn [split_by]. rewrite filter_cons_False; [done|]. by intros [? _]. }
  rewrite app_nil_r. by destruct q.
Qed.

Lemma comps_join p n : name_ok n → comps (path_join p n) = comps p ++ [n].
Proof.
  intros Hn. unfold path_join. case_decide as Hp; [|destruct (ends_with [SLASH] p) eqn:E].
  - subst. destruct Hn as (Hn & Hd & Hs). unfold comps.
    rewrite (split_by_none _ n).
    2:{ apply list.Forall_forall. intros x Hx. apply bool_decide_eq_false. by intros ->. }
    rewrite filter_cons_True by done. rewrite decide_False by done.
    destruct n as [|a n]; [done|]. cbn. rewrite decide_False; [done|].
    intros Ha. apply Hs. rewrite Ha. by left.
  - apply ends_with_spec in E as [q ->]. rewrite <- app_assoc. cbn [app]. by apply comps_app.
  - rewrite comps_app by done. by rewrite comps_slash.
Qed.

(** ** What the operations change *)

Section effects.
Context `{Kernel}.

Lemma write_file_inv p s t t' : write_file p s t = (true, t') → t' = <[comps p := Text s]> t.
Proof. unfold write_file. destruct (_ && _); [case_match|]; by intros [= <-]. Qed.

(** No other file is touched, also when it fails. *)
Lemma write_file_other p s t b t' cs : write_file p s t = (b, t') → cs ≠ comps p → t' !! cs = t !! cs.
Proof.
  unfold write_file. intros E Hne. destruct (_ && _); [case_match|]; injection E as _ <-; [by rewrite lookup_insert_ne..|done].
Qed.

Lemma mk_dirs_inv todo above t b t' cs :
  mk_dirs above todo t = (b, t') →
  t' !! cs = t !! cs ∨ (t !! cs = None ∧ t' !! cs = Some Folder ∧ cs `prefix_of` above ++ todo).
Proof.
  revert above t. induction todo as [|c todo IH]; intros above t; cbn [mk_dirs].
  - intros [= _ <-]. by left.
  - destruct (t !! (above ++ [c])) as [[]|] eqn:E.
    1,2: intros [= _ <-]; by left.
    + intros Hm. apply IH in Hm. rewrite <- app_assoc in Hm. exact Hm.
    + destruct (may_write _); [|intros [= _ <-]; by left]. intros Hm. apply IH in Hm.
      rewrite <- app_assoc in Hm. cbn [app] in Hm.
      destruct (decide (cs = above ++ [c])) as [->|Hne].
      * right. split; [done|]. rewrite lookup_insert_eq in Hm. split.
        { destruct Hm as [Hm|[? _]]; [exact Hm | done]. }
        exists todo. by rewrite <- app_assoc.
      * rewrite lookup_insert_ne in Hm by done. exact Hm.
Qed.

Lemma read_dir_inv p t files : read_dir p t = Some files →
  files = path_join p <$> dir_order (names_in (comps p) t).
Proof. unfold read_dir. by destruct (_ && _); intros [= <-]. Qed.
End effects.
