(* ===== verification/Ufw.v ===== *)
(** src/ufw.rs: the rules of the host's firewall that follow the white list.

    Running a command is the [Host] of Files; what ufw does to its rules is stated as the laws
    of [Firewall], for the theorems. *)

From S2P Require Import Prelude RustStr TextLines Collections Files.

Definition RULE_COMMENT_PREFIX : bytes := §"snirelay".

(** [/usr/sbin/ufw] unless configured. *)
Definition host_ufw_path (configured : option bytes) : bytes := unwrap_or (nonempty configured) §"/usr/sbin/ufw".

Inductive UfwInvoke := Nsenter (nsenter ufw : bytes) | DirectUfw (ufw : bytes).
Definition NSENTER_HOST_ARGS : list bytes := [§"-t"; §"1"; §"-m"; §"-n"; §"--"].

(** The texts of errors: a command that cannot be started, or that fails. *)
Inductive UfwError := ExecFailed (command : list bytes) | UfwFailed (args : list bytes) (msg : bytes).

Definition rule_comment (username : option bytes) : bytes :=
  match nonempty (trim <$> username) with
  | Some u => RULE_COMMENT_PREFIX ++ §":" ++ u
  | None => RULE_COMMENT_PREFIX ++ §"-whitelist"
  end.

Definition HINT : bytes := §" " ++ [xe2; x80; x94] ++
  §" ensure docker-compose has `pid: host` and `privileged: true`, then recreate the container".

Section ufw.
Context `{Host}.

Definition resolve_invoke (configured : option bytes) : UfwInvoke :=
  let ufw := host_ufw_path configured in
  match (if in_docker then nsenter_bin else None) with
  | Some ns => Nsenter ns ufw
  | None => DirectUfw ufw
  end.

Definition command (configured : option bytes) (args : list bytes) : list bytes :=
  match resolve_invoke configured with
  | Nsenter nsenter ufw => nsenter :: NSENTER_HOST_ARGS ++ ufw :: args
  | DirectUfw ufw => ufw :: args
  end.

(** A computation on the host. *)
Definition HostM (A : Type) := HostState → result UfwError A * HostState.
#[global] Instance hostm_ret : MRet HostM := λ A a h, (Ok a, h).
#[global] Instance hostm_bind : MBind HostM := λ A B k m h,
  match m h with (Ok a, h) => k a h | (Err e, h) => (Err e, h) end.

(** [let _ = ..] *)
Definition ignore {A} (m : HostM A) : HostM unit := λ h, (Ok tt, (m h).2).

(** What the outputs of a failed command say. *)
Definition failure_text (stdout stderr exit_text : bytes) : bytes :=
  let msg := if decide (stderr ≠ []) then stderr else if decide (stdout ≠ []) then stdout
             else §"exit " ++ exit_text in
  if contains_sub §"Permission denied" msg || contains_sub §"cannot open /proc/1" msg then msg ++ HINT else msg.

Definition run_ufw (configured : option bytes) (args : list bytes) : HostM bytes := λ h,
  match exec (command configured args) h with
  | (None, h) => (Err (ExecFailed (command configured args)), h)
  | (Some output, h) =>
      let stdout := trim (utf8_lossy (stdout output)) in
      let stderr := trim (utf8_lossy (stderr output)) in
      if success output then (Ok (if decide (stdout = []) then stderr else stdout), h)
      else (Err (UfwFailed args (failure_text stdout stderr (exit_text output))), h)
  end.

Definition ufw_available (configured : option bytes) (h : HostState) : bool * HostState :=
  let '(r, h) := run_ufw configured [§"status"] h in (is_ok r, h).

Definition mentions (ip line : bytes) : bool :=
  contains_sub ip line && (contains_sub §"ALLOW" line || contains_sub §"allow" (to_ascii_lowercase line)).

Definition rule_exists (configured : option bytes) (ip : bytes) : HostM bool :=
  status ← run_ufw configured [§"status"]; mret (existsb (mentions ip) (lines status)).

Definition delete_args (ip : bytes) : list bytes := [§"--force"; §"delete"; §"allow"; §"from"; ip].
Definition allow_args (ip comment : bytes) : list bytes := [§"allow"; §"from"; ip; §"comment"; comment].

Definition delete_ip (ip : bytes) (configured : option bytes) : HostM bytes :=
  rule_exists configured ip ≫= λ there : bool,
  if negb there then mret §"not present" else run_ufw configured (delete_args ip).

Definition allow_ip (ip : bytes) (username : option bytes) (configured : option bytes) : HostM bytes :=
  rule_exists configured ip ≫= λ there : bool,
  (if there then ignore (delete_ip ip configured) else mret tt) ≫= λ _,
  run_ufw configured (allow_args ip (rule_comment username)).

End ufw.

(** * What the rules become

    The documented behaviour of ufw, for a set of addresses and while it can be run: [status]
    lists the rules, one to a line; [allow] adds the rule of an address that has none; and
    [delete], which may report failure, leaves none. *)
Class Firewall `{Host} (configured : option bytes) := {
  ufw_rules : HostState → gmap bytes bytes;             (** address to comment *)
  manageable : bytes → Prop;
  ready : HostState → Prop;
  ufw_status : ∀ h, ready h → ∃ out h',
    exec (command configured [§"status"]) h = (Some out, h') ∧ success out = true
    ∧ ready h' ∧ ufw_rules h' = ufw_rules h
    ∧ ∀ ip, manageable ip → is_Some (ufw_rules h !! ip) →
        ∃ line, line ∈ lines (trim (utf8_lossy (stdout out))) ∧ contains_sub ip line = true
                ∧ contains_sub §"ALLOW" line = true;
  ufw_allow : ∀ h ip c, ready h → manageable ip → ufw_rules h !! ip = None → ∃ out h',
    exec (command configured (allow_args ip c)) h = (Some out, h') ∧ success out = true
    ∧ ready h' ∧ ufw_rules h' = <[ip := c]> (ufw_rules h);
  ufw_delete : ∀ h ip, ready h → manageable ip → ∃ out h',
    exec (command configured (delete_args ip)) h = (Some out, h')
    ∧ ready h' ∧ ufw_rules h' = base.delete ip (ufw_rules h);
}.

Section firewall.
Context `{Host} (configured : option bytes) `{!Firewall configured}.

Lemma run_ufw_some args h out h' :
  exec (command configured args) h = (Some out, h') → (run_ufw configured args h).2 = h'.
Proof. intros E. unfold run_ufw. rewrite E. by destruct (success out). Qed.

Lemma run_ufw_ok args h out h' :
  exec (command configured args) h = (Some out, h') → success out = true →
  ∃ text, run_ufw configured args h = (Ok text, h')
    ∧ (trim (utf8_lossy (stdout out)) ≠ [] → text = trim (utf8_lossy (stdout out))).
Proof. intros E Hs. unfold run_ufw. rewrite E, Hs. case_decide; eexists; (split; [reflexivity|]); done. Qed.

Lemma rule_exists_spec h ip :
  ready h → manageable ip →
  ∃ b h', rule_exists configured ip h = (Ok b, h') ∧ ready h' ∧ ufw_rules h' = ufw_rules h
    ∧ (b = false → ufw_rules h !! ip = None).
Proof.
  intros Hr Hm. destruct (ufw_status h Hr) as (out & h' & E & Hs & Hr' & Hrules & Hlist).
  destruct (run_ufw_ok _ _ _ _ E Hs) as (text & Et & Htext).
  exists (existsb (mentions ip) (lines text)), h'. unfold rule_exists, mbind, hostm_bind. rewrite Et.
  split_and!; [done.. |]. intros Hb. destruct (ufw_rules h !! ip) as [c|] eqn:Ec; [|done]. exfalso.
  destruct (Hlist ip Hm ltac:(by eexists)) as (line & Hl & H1 & H2).
  rewrite Htext in Hb; [|by intros Hn; rewrite Hn in Hl; apply elem_of_nil in Hl].
  apply not_true_iff_false in Hb. apply Hb, existsb_exists. exists line. rewrite <- list_elem_of_In.
  split; [done|]. unfold mentions. by rewrite H1, H2.
Qed.

Lemma delete_ip_spec h ip :
  ready h → manageable ip →
  let h' := (delete_ip ip configured h).2 in ready h' ∧ ufw_rules h' = base.delete ip (ufw_rules h).
Proof.
  intros Hr Hm. cbv zeta. destruct (rule_exists_spec h ip Hr Hm) as (b & h1 & E & Hr1 & H1 & Hb).
  unfold delete_ip, mbind, hostm_bind. rewrite E. destruct b; cbn [negb].
  - destruct (ufw_delete h1 ip Hr1 Hm) as (out & h2 & E2 & Hr2 & H2).
    rewrite (run_ufw_some _ _ _ _ E2). by rewrite H2, H1.
  - cbn. split; [done|]. rewrite H1, delete_id; [done | by apply Hb].
Qed.

Lemma allow_ip_spec h ip user :
  ready h → manageable ip →
  let '(r, h') := allow_ip ip user configured h in
  is_ok r = true ∧ ready h' ∧ ufw_rules h' = <[ip := rule_comment user]> (ufw_rules h).
Proof.
  intros Hr Hm. destruct (rule_exists_spec h ip Hr Hm) as (b & h1 & E & Hr1 & H1 & Hb).
  unfold allow_ip, mbind, hostm_bind. rewrite E.
  assert (∃ h2, (if b then ignore (delete_ip ip configured) else mret tt) h1 = (Ok tt, h2)
    ∧ ready h2 ∧ ufw_rules h2 = base.delete ip (ufw_rules h)) as (h2 & -> & Hr2 & H2).
  { destruct b; [exists (delete_ip ip configured h1).2; rewrite <- H1; split; [done | by apply delete_ip_spec]|].
    exists h1. split_and!; [done.. |]. by rewrite H1, delete_id by by apply Hb. }
  destruct (ufw_allow h2 ip (rule_comment user) Hr2 Hm) as (out & h3 & E3 & Hs3 & Hr3 & H3).
  { by rewrite H2, lookup_delete_eq. }
  destruct (run_ufw_ok _ _ _ _ E3 Hs3) as (text & Et & _). rewrite Et. split_and!; [done | done |].
  by rewrite H3, H2, insert_delete_eq.
Qed.
End firewall.
