(* ===== verification/DnsmasqStore.v ===== *)
(** src/panel/dnsmasq_store.rs: the [address=] and [server=/domain/#] rules that the panel
    keeps in the files of dnsmasq.

    The text that the panel owns in a file is a set of lines; everything else in the files is
    to be left as it is. *)

From S2P Require Import Prelude RustStr TextLines Collections Config Files.

Record DnsDomain := { pattern : bytes; mode : bytes; source : bytes }.
#[global] Instance DnsDomain_eq_dec : EqDecision DnsDomain.
Proof. solve_decision. Defined.

Record DnsmasqPaths := {
  conf_dir : bytes;
  relay_file : bytes;
  bypass_file : bytes;
  relay_ip : bytes;
  reload_cmd : option bytes;
}.

Definition RELAY : bytes := §"relay".
Definition BYPASS : bytes := §"bypass".

(** * Lines *)

Definition is_bypass_server_line (line : bytes) : bool :=
  match strip_prefix §"server=/" line with
  | None => false
  | Some rest => ends_with §"/#" rest
  end.

Section lines.
Context `{Unicode}.

Definition parse_address_line (line : bytes) : option (bytes * bytes) :=
  rest ← strip_prefix §"address=/" line;
  '(domain, ip) ← rsplit_once SLASH rest;
  if decide (domain = [] ∨ ip = []) then None else Some (to_lowercase domain, ip).

Definition parse_bypass_line (line : bytes) : option bytes :=
  rest ← strip_prefix §"server=/" line;
  domain ← strip_suffix §"/#" rest;
  if decide (domain = []) then None else Some (to_lowercase domain).

End lines.

(** A line that the panel rewrites; [t] is trimmed. *)
Definition managed (t : bytes) : bool := starts_with §"address=/" t || is_bypass_server_line t.

Definition strip_managed_lines (text : bytes) : bytes :=
  unlines (filter (λ l, managed (trim l) = false) (lines text)).

Definition SEPARATOR : bytes := §"# ------------------------------------------------------------".

(** A line that the panel has put above or below the others; [t] is trimmed. *)
Definition banner (t : bytes) : bool :=
  starts_with §"# Managed by SNIrelay" t
  || starts_with §"# Do not edit by hand while the panel" t
  || starts_with §"# Longest-match:" t
  || beqb t SEPARATOR.

Definition strip_panel_banners (text : bytes) : bytes :=
  unlines (filter (λ l, banner (trim l) = false) (lines text)).

Definition address_line (relay_ip d : bytes) : bytes := §"address=/" ++ d ++ §"/" ++ relay_ip.
Definition server_line (d : bytes) : bytes := §"server=/" ++ d ++ §"/#".

(** A [BTreeSet<String>] is a map to unit. *)
Abbreviation NameSet := (gmap bytes unit).

Definition render_relay_lines (domains : NameSet) (relay_ip : bytes) : bytes :=
  unlines (address_line relay_ip <$> sorted_keys domains).
Definition render_bypass_lines (domains : NameSet) : bytes :=
  unlines (server_line <$> sorted_keys domains).

(** * Files *)

Inductive StoreError :=
| NoRelayIp | ReadDirFailed (p : bytes) | ReadFailed (p : bytes) | CreateFailed (p : bytes)
| WriteFailed (p : bytes) | CommandFailed (cmd : bytes).

(** The first line ends in an em dash and more. *)
Definition BANNER1 : bytes := §"# Managed by SNIrelay admin panel " ++ [xe2; x80; x94]
  ++ §" domain rules below are rewritten on Save.".
Definition BANNER2 : bytes := §"# Other directives in this file are preserved.".

(** The contents that [write_managed_file] writes over [existing]. *)
Definition managed_contents (existing managed_block : bytes) : bytes :=
  let preserved := strip_panel_banners (strip_managed_lines existing) in
  let out := BANNER1 ++ [LF] ++ BANNER2 ++ [LF] in
  let out :=
    if decide (trim preserved = []) then out else
    let out := out ++ preserved in
    let out := if ends_with [LF] out then out else out ++ [LF] in
    out ++ SEPARATOR ++ [LF] in
  out ++ managed_block.

(** A [BTreeMap<(String, String), DnsDomain>]. *)
Abbreviation DomainMap := (gmap (bytes * bytes) DnsDomain).

Section store.
Context `{Unicode} `{Kernel}.

Definition is_conf (p : bytes) : bool := bool_decide (extension p = Some §"conf").

(** The counts of one file in [detect_files]. *)
Definition count_lines (f : bytes → bool) (text : bytes) : nat :=
  length (filter (λ l, f (trim l) = true) (lines text)).
Definition is_address (t : bytes) : bool := starts_with §"address=/" t.

Record Detected := {
  best_relay : option (nat * bytes);
  named_bypass : option bytes;
  best_bypass : option (nat * bytes);
}.

Definition better (n : nat) (best : option (nat * bytes)) : bool :=
  match best with Some (m, _) => m <? n | None => 0 <? n end.

Definition detect_one (t : Tree) (d : Detected) (path : bytes) : Detected :=
  if negb (is_conf path) then d else
  match read_to_string path t with
  | None => d
  | Some text =>
      let addr := count_lines is_address text in
      let bypass := count_lines (λ l, negb (is_address l) && is_bypass_server_line l) text in
      let best := if better addr (best_relay d) then Some (addr, path) else best_relay d in
      if contains_sub §"bypass" (unwrap_or (file_name path) [])
      then {| best_relay := best; named_bypass := Some path; best_bypass := best_bypass d |}
      else {| best_relay := best; named_bypass := named_bypass d;
              best_bypass := if better bypass (best_bypass d) then Some (bypass, path) else best_bypass d |}
  end.

Definition detect_files (dir : bytes) (t : Tree) : option bytes * option bytes :=
  match read_dir dir t with
  | None => (None, None)
  | Some paths =>
      let d := foldl (detect_one t) {| best_relay := None; named_bypass := None; best_bypass := None |} paths in
      (snd <$> best_relay d,
       match named_bypass d with Some p => Some p | None => snd <$> best_bypass d end)
  end.

Definition or_else {A} (o o' : option A) : option A := match o with Some a => Some a | None => o' end.

Definition from_panel (panel : PanelConfig) (t : Tree) : option DnsmasqPaths :=
  dir ← or_else (nonempty (dnsmasq_conf_dir panel))
          (p ← or_else (dnsmasq_conf_path panel) (dnsmasq_relay_file panel); path_parent p);
  if negb (is_dir dir t) then None else
  let '(auto_relay, auto_bypass) := detect_files dir t in
  Some {|
    conf_dir := dir;
    relay_file := unwrap_or (or_else (nonempty (or_else (dnsmasq_relay_file panel) (dnsmasq_conf_path panel))) auto_relay)
                            (path_join dir §"snirelay-relay.conf");
    bypass_file := unwrap_or (or_else (nonempty (dnsmasq_bypass_file panel)) auto_bypass)
                             (path_join dir §"bypass.conf");
    relay_ip := unwrap_or (nonempty (Config.relay_ip panel)) §"127.0.0.1";
    reload_cmd := dnsmasq_reload_cmd panel |}.

(** ** [load_domains] *)

Definition key_le (x y : (bytes * bytes) * DnsDomain) : Prop :=
  match bcmp x.1.1 y.1.1 with Lt => True | Gt => False | Eq => bytes_le x.1.2 y.1.2 end.
#[global] Instance key_le_dec : RelDecision key_le.
Proof. unfold key_le. intros x y. destruct (bcmp x.1.1 y.1.1); apply _. Defined.
Definition into_values (m : DomainMap) : list DnsDomain := snd <$> merge_sort key_le (map_to_list m).

(** The rule of a trimmed line. *)
Definition rule_of (source t : bytes) : option DnsDomain :=
  if decide (t = []) then None else
  if starts_with §"#" t then None else
  match parse_address_line t with
  | Some (p, _) => Some {| pattern := p; mode := RELAY; source := source |}
  | None => p ← parse_bypass_line t; Some {| pattern := p; mode := BYPASS; source := source |}
  end.

Definition add_rule (m : DomainMap) (d : DnsDomain) : DomainMap := <[(pattern d, mode d) := d]> m.

(** The rules of a file, in order. *)
Definition rules_of (path text : bytes) : list DnsDomain :=
  omap (λ l, rule_of (unwrap_or (file_name path) §"unknown") (trim l)) (lines text).

Fixpoint load_files (t : Tree) (m : DomainMap) (paths : list bytes) : result StoreError DomainMap :=
  match paths with
  | [] => Ok m
  | p :: paths =>
      if negb (is_conf p) then load_files t m paths else
      match read_to_string p t with
      | None => Err (ReadFailed p)
      | Some text => load_files t (foldl add_rule m (rules_of p text)) paths
      end
  end.

Definition load_domains (paths : DnsmasqPaths) (t : Tree) : result StoreError (list DnsDomain) :=
  match read_dir (conf_dir paths) t with
  | None => Err (ReadDirFailed (conf_dir paths))
  | Some files => m ← load_files t ∅ files; Ok (into_values m)
  end.

(** ** [save_domains] *)

(** The relay and the bypass names, before the latter win. *)
Definition sort_domain (s : NameSet * NameSet) (d : DnsDomain) : NameSet * NameSet :=
  let p := to_lowercase (trim (pattern d)) in
  if decide (p = []) then s
  else if bool_decide (mode d = BYPASS) || bool_decide (mode d = §"direct")
  then (s.1, <[p := tt]> s.2) else (<[p := tt]> s.1, s.2).
Definition split_domains (domains : list DnsDomain) : NameSet * NameSet :=
  let '(relay, bypass) := foldl sort_domain (∅, ∅) domains in
  (foldl (λ r b, delete b r) relay (sorted_keys bypass), bypass).

(** A computation on the files, which keeps what it wrote before an error. *)
Definition FsM (A : Type) := Tree → result StoreError A * Tree.

Definition write (p s : bytes) : FsM unit := λ t,
  let '(ok, t) := write_file p s t in (if ok : bool then Ok tt else Err (WriteFailed p), t).

Definition write_managed_file (path managed_block : bytes) : FsM unit := λ t,
  match (match parent_comps path with Some d => create_dir_all d t | None => (true, t) end) with
  | (false, t) => (Err (CreateFailed path), t)
  | (true, t) => write path (managed_contents (unwrap_or (read_to_string path t) []) managed_block) t
  end.

(** The managed lines leave the other files. *)
Fixpoint clean_files (paths : DnsmasqPaths) (files : list bytes) : FsM unit := λ t,
  match files with
  | [] => (Ok tt, t)
  | p :: files =>
      if negb (is_conf p) || same_path p (relay_file paths) || same_path p (bypass_file paths)
      then clean_files paths files t
      else
        let text := unwrap_or (read_to_string p t) [] in
        let cleaned := strip_managed_lines text in
        if decide (cleaned = text) then clean_files paths files t else
        match write p cleaned t with
        | (Ok _, t) => clean_files paths files t
        | (Err e, t) => (Err e, t)
        end
  end.

Definition save_domains (paths : DnsmasqPaths) (domains : list DnsDomain) : FsM unit := λ t,
  if decide (relay_ip paths = []) then (Err NoRelayIp, t) else
  let '(relay, bypass) := split_domains domains in
  match read_dir (conf_dir paths) t with
  | None => (Err (ReadDirFailed (conf_dir paths)), t)
  | Some files =>
      match clean_files paths files t with
      | (Err e, t) => (Err e, t)
      | (Ok _, t) =>
          match write_managed_file (relay_file paths) (render_relay_lines relay (relay_ip paths)) t with
          | (Err e, t) => (Err e, t)
          | (Ok _, t) => write_managed_file (bypass_file paths) (render_bypass_lines bypass) t
          end
      end
  end.

End store.

(** ** [reload] *)

Section reload.
Context `{Host}.

Definition reload_args (cmd : bytes) : list bytes :=
  match (if in_docker then nsenter_bin else None) with
  | Some ns => [ns; §"-t"; §"1"; §"-m"; §"-n"; §"--"; §"sh"; §"-c"; cmd]
  | None => [§"sh"; §"-c"; cmd]
  end.

Definition reload (paths : DnsmasqPaths) (h : HostState) : result StoreError (option bool) * HostState :=
  match reload_cmd paths with
  | None => (Ok None, h)
  | Some cmd =>
      match exec (reload_args cmd) h with
      | (None, h) => (Err (CommandFailed cmd), h)
      | (Some output, h) => (Ok (Some (success output)), h)
      end
  end.

End reload.
