(* ===== verification/DnsmasqProofs.v ===== *)
(** The theorems on DnsmasqStore: what saving writes, loading reads back; what the panel does
    not own stays. *)

From S2P Require Import Prelude RustStr TextLines Collections Config Files DnsmasqStore.

(** * Lines *)

Lemma managed_address p ip : managed (address_line ip p) = true.
Proof. done. Qed.
Lemma ends_server p : ends_with §"/#" (p ++ §"/#") = true.
Proof. apply ends_with_spec. by exists p. Qed.
Lemma managed_server p : managed (server_line p) = true.
Proof.
  unfold managed, is_bypass_server_line, server_line.
  assert (strip_prefix §"server=/" (§"server=/" ++ p ++ §"/#") = Some (p ++ §"/#")) as -> by done.
  by rewrite ends_server.
Qed.

Lemma trim_server_line p : trim (server_line p) = server_line p.
Proof.
  apply (trim_ends _ x73 x23); [done | | done..].
  unfold server_line. rewrite app_assoc. by rewrite last_app.
Qed.

Lemma trim_address_line ip p : ip ≠ [] → forallb is_graphic ip = true → trim (address_line ip p) = address_line ip p.
Proof.
  intros Hne Hg. destruct (last ip) as [z|] eqn:E; [|by apply last_None in E].
  apply (trim_ends _ x61 z); [done | | done |].
  - unfold address_line. rewrite !app_assoc. by rewrite last_app, E.
  - rewrite forallb_forall in Hg. apply Hg. apply list_elem_of_In. by apply last_Some_elem_of.
Qed.

Section rules.
Context `{Unicode}.

Lemma rule_unmanaged src t : managed t = false → rule_of src t = None.
Proof.
  unfold managed, is_bypass_server_line. intros [Ha Hb]%orb_false_elim.
  unfold rule_of. case_decide; [done|]. destruct (starts_with §"#" t); [done|]. unfold parse_address_line, parse_bypass_line.
  assert (strip_prefix §"address=/" t = None) as -> by (unfold strip_prefix; by rewrite Ha).
  destruct (strip_prefix §"server=/" t) as [rest|]; [|done].
  cbn [mbind option_bind]. unfold strip_suffix. by rewrite Hb.
Qed.

Lemma rsplit_once_app c s t : c ∉ t → rsplit_once c (s ++ c :: t) = Some (s, t).
Proof.
  intros Hc. unfold rsplit_once. rewrite rfind_byte_app by done. cbn.
  by rewrite take_app_length, drop_S_app.
Qed.

Lemma rule_address src ip p :
  p ≠ [] → ip ≠ [] → SLASH ∉ ip → to_lowercase p = p →
  rule_of src (address_line ip p) = Some {| pattern := p; mode := RELAY; source := src |}.
Proof.
  intros Hp Hip Hs Hl. unfold rule_of. rewrite decide_False by done.
  assert (starts_with §"#" (address_line ip p) = false) as -> by done.
  unfold parse_address_line, address_line.
  assert (strip_prefix §"address=/" (§"address=/" ++ p ++ §"/" ++ ip) = Some (p ++ §"/" ++ ip)) as -> by done.
  cbn [mbind option_bind]. change (§"/" ++ ip) with (SLASH :: ip). rewrite rsplit_once_app by done. cbn.
  rewrite decide_False by tauto. by rewrite Hl.
Qed.

Lemma rule_server src p :
  p ≠ [] → to_lowercase p = p →
  rule_of src (server_line p) = Some {| pattern := p; mode := BYPASS; source := src |}.
Proof.
  intros Hp Hl. unfold rule_of. rewrite decide_False by done.
  assert (starts_with §"#" (server_line p) = false) as -> by done.
  unfold parse_address_line, parse_bypass_line, server_line.
  assert (strip_prefix §"address=/" (§"server=/" ++ p ++ §"/#") = None) as -> by done.
  assert (strip_prefix §"server=/" (§"server=/" ++ p ++ §"/#") = Some (p ++ §"/#")) as -> by done.
  cbn [mbind option_bind]. unfold strip_suffix. rewrite ends_server, length_app.
  rewrite Nat.add_sub, take_app_length. cbn [mbind option_bind]. rewrite decide_False by done. by rewrite Hl.
Qed.

(** ** The names to be kept *)

Definition norm (d : DnsDomain) : bytes := to_lowercase (trim (pattern d)).
Definition to_bypass (d : DnsDomain) : bool := bool_decide (mode d = BYPASS) || bool_decide (mode d = §"direct").

(** A name is bypassed when an entry says so, and relayed when an entry says so and none
    bypasses it. *)
Definition bypassed (domains : list DnsDomain) (p : bytes) : Prop :=
  p ≠ [] ∧ ∃ d, d ∈ domains ∧ norm d = p ∧ to_bypass d = true.
Definition relayed (domains : list DnsDomain) (p : bytes) : Prop :=
  p ≠ [] ∧ (∃ d, d ∈ domains ∧ norm d = p ∧ to_bypass d = false) ∧ ¬ bypassed domains p.

Lemma ex_cons {A} (P : A → Prop) x l : (∃ y, y ∈ x :: l ∧ P y) ↔ P x ∨ ∃ y, y ∈ l ∧ P y.
Proof.
  setoid_rewrite elem_of_cons. split.
  - intros (y & [->|Hy] & HP); [by left | right; by exists y].
  - intros [HP|(y & Hy & HP)]; [exists x | exists y]; auto.
Qed.

Lemma sort_domains_spec domains s p :
  let s' := foldl sort_domain s domains in
  (is_Some (s'.1 !! p) ↔ is_Some (s.1 !! p) ∨ p ≠ [] ∧ ∃ d, d ∈ domains ∧ norm d = p ∧ to_bypass d = false)
  ∧ (is_Some (s'.2 !! p) ↔ is_Some (s.2 !! p) ∨ bypassed domains p).
Proof.
  cbv zeta. revert s. induction domains as [|d domains IH]; intros s.
  { unfold bypassed. cbn [foldl]. set_solver. }
  cbn [foldl]. destruct (IH (sort_domain s d)) as [IH1 IH2]. rewrite IH1, IH2. clear IH IH1 IH2.
  unfold bypassed, sort_domain. fold (norm d). fold (to_bypass d).
  rewrite !ex_cons. destruct (decide (norm d = [])) as [Hn|Hn]; [|destruct (to_bypass d) eqn:Hb];
    cbn [fst snd]; rewrite ?lookup_insert_is_Some;
    destruct (decide (norm d = p)) as [<-|Hp]; intuition congruence.
Qed.

Lemma delete_all_lookup (l : list bytes) (r : NameSet) p :
  is_Some (foldl (λ r b, delete b r) r l !! p) ↔ is_Some (r !! p) ∧ p ∉ l.
Proof.
  revert r. induction l as [|b l IH]; intros r; cbn; [split; [|tauto]; intros ?; split; [done | apply not_elem_of_nil]|].
  rewrite IH, lookup_delete_is_Some, not_elem_of_cons. naive_solver.
Qed.

Lemma split_domains_spec domains relay bypass p :
  split_domains domains = (relay, bypass) →
  (is_Some (relay !! p) ↔ relayed domains p) ∧ (is_Some (bypass !! p) ↔ bypassed domains p).
Proof.
  unfold split_domains. destruct (foldl sort_domain (∅, ∅) domains) as [r b] eqn:E. intros [= <- <-].
  pose proof (sort_domains_spec domains (∅, ∅) p) as Hs. cbv zeta in Hs. rewrite E in Hs. cbn [fst snd] in Hs.
  rewrite !lookup_empty in Hs. destruct Hs as [Hr Hb].
  assert (is_Some (b !! p) ↔ bypassed domains p) as Hb'.
  { rewrite Hb. split; [by intros [[? ?]|?] | by right]. }
  split; [|done]. rewrite delete_all_lookup, elem_of_sorted_keys, Hb', Hr. unfold relayed.
  split; [intros [[[? ?]|(? & ?)] ?]; [done | tauto] | tauto].
Qed.

End rules.

(** * What the panel does not own *)

(** The trimmed lines that belong to the panel: every [address=] line, the [server=] lines
    that send a domain to the servers of the system, its comments, and blank lines. *)
Inductive panel_line : bytes → Prop :=
| pl_address rest : panel_line (§"address=/" ++ rest)
| pl_server domain : panel_line (§"server=/" ++ domain ++ §"/#")
| pl_managed rest : panel_line (§"# Managed by SNIrelay" ++ rest)
| pl_edit rest : panel_line (§"# Do not edit by hand while the panel" ++ rest)
| pl_match rest : panel_line (§"# Longest-match:" ++ rest)
| pl_preserved : panel_line §"# Other directives in this file are preserved."
| pl_separator : panel_line (§"# " ++ replicate 60 x2d)
| pl_blank : panel_line [].

(** The same as a test, by what the code removes. *)
Definition foreign (t : bytes) : bool :=
  negb (managed t) && negb (banner t) && negb (beqb t BANNER2) && negb (beqb t []).

Lemma starts_with_own p r : starts_with p (p ++ r) = true.
Proof. apply starts_with_spec. by exists r. Qed.

Lemma managed_spec t :
  managed t = true ↔ (∃ rest, t = §"address=/" ++ rest) ∨ ∃ d, t = §"server=/" ++ d ++ §"/#".
Proof.
  unfold managed, is_bypass_server_line. rewrite orb_true_iff, starts_with_spec.
  unfold strip_prefix. destruct (starts_with §"server=/" t) eqn:E.
  - apply starts_with_spec in E as [rest ->]. rewrite drop_app_length, ends_with_spec. split.
    + intros [?|[d ->]]; [by left | right; by exists d].
    + intros [?|[d Hd%(inj (app _))]]; [by left | right; by exists d].
  - split; [by intros [?|?]; [left|]|]. intros [?|[d ->]]; [by left|]. by rewrite starts_with_own in E.
Qed.

Lemma panel_line_spec t : panel_line t ↔ foreign t = false.
Proof.
  assert (panel_line t ↔ managed t = true ∨ banner t = true ∨ t = BANNER2 ∨ t = []) as ->.
  { rewrite managed_spec. unfold banner, beqb. rewrite !orb_true_iff, !starts_with_spec, bool_decide_eq_true.
    split; [intros []; eauto 8 | ]. unfold BANNER2.
    intros [[[? ->]|[? ->]]|[[[[[? ->]|[? ->]]|[? ->]]| ->]|[->| ->]]]; constructor. }
  unfold foreign, beqb. rewrite !andb_false_iff, !negb_false_iff, !bool_decide_eq_true. tauto.
Qed.
#[global] Instance panel_line_dec t : Decision (panel_line t).
Proof. destruct (foreign t) eqn:E; [right; rewrite panel_line_spec; congruence | left; by apply panel_line_spec]. Defined.
Lemma foreign_spec t : foreign t = true ↔ ¬ panel_line t.
Proof. rewrite panel_line_spec. by destruct (foreign t). Qed.

(** The lines of a text that do not belong to the panel, in order. *)
Definition other_lines (s : bytes) : list bytes := filter (λ t, ¬ panel_line t) (trimmed_lines s).

(** The foreign lines of a text, in order. *)
Definition directives (s : bytes) : list bytes := filter (λ t, foreign t = true) (trimmed_lines s).

Lemma other_lines_directives s : other_lines s = directives s.
Proof. apply list_filter_iff. intros t. by rewrite foreign_spec. Qed.

Lemma foreign_inv t : foreign t = true → managed t = false ∧ banner t = false ∧ t ≠ BANNER2 ∧ t ≠ [].
Proof.
  unfold foreign, beqb. intros Hf. repeat (apply andb_prop in Hf as [Hf ?]). bool_to_prop. done.
Qed.

Lemma directives_filter (Q : bytes → Prop) `{∀ x, Decision (Q x)} s :
  (∀ t, foreign t = true → Q t) →
  directives (unlines (filter (λ l, Q (trim l)) (lines s))) = directives s.
Proof.
  intros HQ. unfold directives. rewrite <- (app_nil_r (unlines _)), trimmed_lines_filter.
  change (trimmed_lines []) with (@nil bytes). rewrite app_nil_r. by apply filter_filter_keep.
Qed.

Lemma directives_strip_managed s : directives (strip_managed_lines s) = directives s.
Proof. exact (directives_filter (λ t, managed t = false) s (λ t Hf, proj1 (foreign_inv t Hf))). Qed.

Lemma directives_strip_banners s : directives (strip_panel_banners s) = directives s.
Proof. exact (directives_filter (λ t, banner t = false) s (λ t Hf, proj1 (proj2 (foreign_inv t Hf)))). Qed.

(** The managed file in lines. *)
Definition preserved_lines (existing : bytes) : list bytes :=
  let preserved := strip_panel_banners (strip_managed_lines existing) in
  if decide (trim preserved = []) then [] else filter (λ l, banner (trim l) = false) (lines (strip_managed_lines existing)) ++ [SEPARATOR].

Lemma unlines_ends p ls : ls ≠ [] → ends_with [LF] (p ++ unlines ls) = true.
Proof.
  intros Hls. destruct (exists_last Hls) as (l & x & ->). rewrite unlines_app. apply ends_with_spec.
  exists (p ++ unlines l ++ x). unfold unlines at 2. cbn. rewrite app_nil_r, <- !app_assoc. done.
Qed.

Lemma managed_contents_lines existing block :
  managed_contents existing block
  = unlines (BANNER1 :: BANNER2 :: preserved_lines existing) ++ block.
Proof.
  unfold managed_contents, preserved_lines. rewrite !unlines_cons. cbv zeta.
  generalize BANNER1 BANNER2 SEPARATOR. intros b1 b2 sep.
  case_decide as Hp.
  { by repeat (rewrite <- ?app_assoc; cbn [app]). }
  assert (ends_with [LF] ((b1 ++ [LF] ++ b2 ++ [LF]) ++ strip_panel_banners (strip_managed_lines existing)) = true) as ->.
  { unfold strip_panel_banners in Hp |- *. apply unlines_ends. intros E. by rewrite E in Hp. }
  rewrite unlines_app, !unlines_cons. unfold strip_panel_banners.
  by repeat (rewrite <- ?app_assoc; cbn [app]).
Qed.

Lemma trimmed_strip_managed s :
  trimmed_lines (strip_managed_lines s) = filter (λ t, managed t = false) (trimmed_lines s).
Proof.
  pose proof (trimmed_lines_filter (λ t, managed t = false) s []) as E.
  change (trimmed_lines []) with (@nil bytes) in E. rewrite !app_nil_r in E. exact E.
Qed.

Lemma preserved_no_LF existing : Forall (λ l, LF ∉ l) (BANNER1 :: BANNER2 :: preserved_lines existing).
Proof.
  constructor; [apply (bool_decide_eq_true_1 _); by vm_compute|].
  constructor; [apply (bool_decide_eq_true_1 _); by vm_compute|].
  unfold preserved_lines. case_decide; [constructor|]. apply Forall_app. split.
  - apply list.Forall_forall. intros l [_ Hl]%list_elem_of_filter. by eapply lines_no_LF.
  - constructor; [|constructor]. apply (bool_decide_eq_true_1 _). by vm_compute.
Qed.

(** What precedes the rules in a managed file holds no rule. *)
Lemma preserved_unmanaged existing :
  Forall (λ t, managed t = false) (trim <$> (BANNER1 :: BANNER2 :: preserved_lines existing)).
Proof.
  cbn [fmap list_fmap]. constructor; [by vm_compute|]. constructor; [by vm_compute|].
  unfold preserved_lines. case_decide; [constructor|]. rewrite fmap_app. apply Forall_app. split.
  - apply list.Forall_forall. intros t (l & -> & [_ Hl]%list_elem_of_filter)%list_elem_of_fmap.
    assert (trim l ∈ trimmed_lines (strip_managed_lines existing)) as Ht by by apply list_elem_of_fmap_2.
    rewrite trimmed_strip_managed in Ht. by apply list_elem_of_filter in Ht as [? _].
  - constructor; [by vm_compute | constructor].
Qed.

Lemma trimmed_managed_contents existing ls : Forall (λ l, LF ∉ l) ls →
  trimmed_lines (managed_contents existing (unlines ls))
  = (trim <$> (BANNER1 :: BANNER2 :: preserved_lines existing)) ++ (trim <$> ls).
Proof.
  intros Hls. rewrite managed_contents_lines, trimmed_lines_unlines by apply preserved_no_LF.
  by rewrite trimmed_lines_unlines'.
Qed.

Lemma directives_preserved existing :
  filter (λ t, foreign t = true) (trim <$> (BANNER1 :: BANNER2 :: preserved_lines existing)) = directives existing.
Proof.
  cbn [fmap list_fmap].
  rewrite filter_cons_False by by vm_compute. rewrite filter_cons_False by by vm_compute.
  rewrite <- (directives_strip_managed existing), <- (directives_strip_banners (strip_managed_lines existing)).
  unfold preserved_lines. case_decide as Hp.
  - apply blank_lines in Hp. unfold directives.
    rewrite (filter_none _ (trimmed_lines (strip_panel_banners _))); [done|].
    eapply list.Forall_impl; [exact Hp|]. intros t -> Hf. by apply foreign_inv in Hf as (_ & _ & _ & ?).
  - rewrite fmap_app, filter_app. cbn [fmap list_fmap]. rewrite (filter_cons_False _ (trim SEPARATOR)) by by vm_compute.
    rewrite app_nil_r. unfold directives. f_equal. unfold strip_panel_banners at 1.
    rewrite trimmed_lines_unlines'; [reflexivity|].
    apply list.Forall_forall. intros l [_ Hl]%list_elem_of_filter. by eapply lines_no_LF.
Qed.

Lemma directives_managed_contents existing ls :
  Forall (λ l, (LF ∉ l) ∧ managed (trim l) = true) ls →
  directives (managed_contents existing (unlines ls)) = directives existing.
Proof.
  intros Hls. unfold directives at 1. rewrite trimmed_managed_contents.
  2:{ eapply list.Forall_impl; [exact Hls|]. by intros l [? _]. }
  rewrite filter_app, directives_preserved. rewrite filter_none; [apply app_nil_r|].
  apply Forall_fmap. eapply list.Forall_impl; [exact Hls|]. cbn. intros l [_ Hm] (Hf & _)%foreign_inv. congruence.
Qed.

(** * Effects on the files *)

Section store.
Context `{Unicode} `{Kernel}.

Lemma is_conf_comps p q : comps p = comps q → is_conf p = is_conf q.
Proof. intros E. unfold is_conf, extension, file_name. by rewrite E. Qed.

Lemma read_to_string_Some p t s :
  read_to_string p t = Some s ↔ may_read (comps p) = true ∧ t !! comps p = Some (Text s).
Proof.
  unfold read_to_string, node. destruct (may_read (comps p)); [|by split; [|intros [? _]]].
  destruct (t !! comps p) as [[]|]; naive_solver.
Qed.

Lemma write_ok p s t t' : write p s t = (Ok tt, t') → t' = <[comps p := Text s]> t.
Proof.
  unfold write. destruct (write_file p s t) as [[] t1] eqn:E; [|done]. intros [= <-]. by apply write_file_inv in E.
Qed.
Lemma write_other p s t r t' cs : write p s t = (r, t') → cs ≠ comps p → t' !! cs = t !! cs.
Proof.
  unfold write. destruct (write_file p s t) as [b t1] eqn:E. intros [= _ <-]. by eapply write_file_other.
Qed.

(** The files as they were, but for directories on the way to [cs]. *)
Definition grown (cs : list bytes) (t t' : Tree) : Prop :=
  ∀ c, t' !! c = t !! c ∨ (t !! c = None ∧ t' !! c = Some Folder ∧ c `prefix_of` removelast cs).

Lemma parents_grown path t b t1 :
  match parent_comps path with Some d => create_dir_all d t | None => (true, t) end = (b, t1) →
  grown (comps path) t t1.
Proof.
  unfold parent_comps. case_decide; [intros [= _ <-] c; by left|].
  unfold create_dir_all. intros Hm c. by apply (mk_dirs_inv _ _ _ _ _ c) in Hm.
Qed.

Lemma write_managed_inv path block t t' :
  write_managed_file path block t = (Ok tt, t') →
  ∃ t1, grown (comps path) t t1
    ∧ t' = <[comps path := Text (managed_contents (unwrap_or (read_to_string path t1) []) block)]> t1.
Proof.
  unfold write_managed_file.
  destruct (match parent_comps path with Some _ => _ | None => _ end) as [[] t1] eqn:E; [|done].
  intros Hw%write_ok. exists t1. split; [by eapply parents_grown | done].
Qed.

Lemma removelast_prefix {A} (cs : list A) : cs ≠ [] → ¬ cs `prefix_of` removelast cs.
Proof.
  intros Hcs [k Hk]. destruct (exists_last Hcs) as (l & x & ->). rewrite removelast_last in Hk.
  apply (f_equal length) in Hk. rewrite !length_app in Hk. cbn in Hk. lia.
Qed.

(** ** Cleaning the other files *)

Definition cleanable (paths : DnsmasqPaths) (p : bytes) : bool :=
  is_conf p && negb (same_path p (relay_file paths)) && negb (same_path p (bypass_file paths)).

Lemma cleanable_false paths p :
  cleanable paths p = negb (negb (is_conf p) || same_path p (relay_file paths) || same_path p (bypass_file paths)).
Proof. unfold cleanable. by rewrite !negb_orb, negb_involutive. Qed.

Lemma clean_files_other paths files t r t' cs :
  clean_files paths files t = (r, t') →
  (∀ p, p ∈ files → cleanable paths p = true → comps p ≠ cs) → t' !! cs = t !! cs.
Proof.
  revert t. induction files as [|p files IH]; intros t; cbn [clean_files]; [by intros [= _ <-]|].
  intros Hc Hcs. pose proof (λ q Hq, Hcs q (list_elem_of_further _ _ _ Hq)) as Hcs'.
  destruct (negb (is_conf p) || _ || _) eqn:E; [by apply IH|].
  case_decide; [by apply IH|].
  destruct (write p _ t) as [r1 t1] eqn:Ew. eapply write_other in Ew.
  - destruct r1; [apply IH in Hc; [by rewrite Hc|done] | by injection Hc as _ <-].
  - intros Heq. by apply (Hcs p); [left | rewrite cleanable_false, E |].
Qed.

Lemma clean_files_clean paths files t t' p s :
  clean_files paths files t = (Ok tt, t') → NoDup (comps <$> files) →
  p ∈ files → cleanable paths p = true → may_read (comps p) = true → t !! comps p = Some (Text s) →
  t' !! comps p = Some (Text (strip_managed_lines s)).
Proof.
  revert t. induction files as [|q files IH]; intros t; cbn [clean_files]; [by intros _ _ ?%elem_of_nil|].
  intros Hc [Hq Hnd]%NoDup_cons Hp Hcl Hr Ht.
  assert (∀ t1, clean_files paths files t1 = (Ok tt, t') → comps p = comps q → t' !! comps p = t1 !! comps p) as Hkeep.
  { intros t1 Hc1 Heq. eapply clean_files_other; [exact Hc1|]. intros q' Hq' _ E. apply Hq.
    rewrite <- Heq, <- E. by apply list_elem_of_fmap_2. }
  assert (comps p ≠ comps q → p ∈ files) as Hin by (apply elem_of_cons in Hp as [->|Hp]; done).
  destruct (negb (is_conf q) || _ || _) eqn:E.
  { apply (IH t); try done. apply Hin. intros Heq.
    assert (cleanable paths q = true) as Hq'.
    { revert Hcl. unfold cleanable, same_path. by rewrite (is_conf_comps p q Heq), Heq. }
    by rewrite cleanable_false, E in Hq'. }
  destruct (decide (comps p = comps q)) as [Heq|Hne].
  - assert (read_to_string q t = Some s) as Hs by (apply read_to_string_Some; by rewrite <- Heq).
    rewrite Hs in Hc. change (unwrap_or (Some s) []) with s in Hc. case_decide as Hsame.
    + rewrite (Hkeep t Hc Heq), Ht. by rewrite Hsame.
    + destruct (write q _ t) as [[[]|] t1] eqn:Ew; [|done].
      apply write_ok in Ew as ->. rewrite (Hkeep _ Hc Heq), Heq. apply lookup_insert_eq.
  - case_decide; [by apply (IH t); auto|].
    destruct (write q _ t) as [[[]|] t1] eqn:Ew; [|done]. apply write_ok in Ew as ->.
    eapply (IH _ Hc); try done; [by apply Hin|]. by rewrite lookup_insert_ne.
Qed.

(** ** Loading *)

Definition key (d : DnsDomain) : bytes * bytes := (pattern d, mode d).
Definition keyed (m : DomainMap) : Prop := ∀ k d, m !! k = Some d → key d = k.

Lemma add_rules_spec rules m k :
  (keyed m → keyed (foldl add_rule m rules))
  ∧ (is_Some (foldl add_rule m rules !! k) ↔ is_Some (m !! k) ∨ ∃ d, d ∈ rules ∧ key d = k).
Proof.
  revert m. induction rules as [|d rules IH]; intros m.
  - split; [done|]. cbn. split; [by left | intros [?|(? & ?%elem_of_nil & _)]; done].
  - cbn [foldl]. destruct (IH (add_rule m d)) as [IH1 IH2]. split.
    + intros Hm. apply IH1. intros k' d'. unfold add_rule. rewrite lookup_insert_Some. 
      intros [[<- <-]|[_ Hd]]; [done | by apply Hm].
    + rewrite IH2, ex_cons. unfold add_rule. rewrite lookup_insert_is_Some. fold (key d).
      destruct (decide (key d = k)) as [<-|Hne]; intuition congruence.
Qed.

Lemma load_files_spec t files m :
  (∀ p, p ∈ files → is_conf p = true → is_Some (read_to_string p t)) → keyed m →
  ∃ m', load_files t m files = Ok m' ∧ keyed m'
  ∧ ∀ k, is_Some (m' !! k) ↔ is_Some (m !! k)
      ∨ ∃ p, p ∈ files ∧ is_conf p = true ∧ ∃ s d, read_to_string p t = Some s ∧ d ∈ rules_of p s ∧ key d = k.
Proof.
  revert m. induction files as [|p files IH]; intros m Hread Hm; cbn [load_files].
  - exists m. split_and!; [done..|]. intros k. split; [by left | intros [?|(? & ?%elem_of_nil & _)]; done].
  - assert (∀ q, q ∈ files → is_conf q = true → is_Some (read_to_string q t)) as Hread'
      by (intros q Hq; apply Hread; by right).
    destruct (is_conf p) eqn:Ep; cbn [negb].
    + destruct (Hread p ltac:(by left) Ep) as [s Hs]. rewrite Hs.
      destruct (add_rules_spec (rules_of p s) m ([], [])) as [Hk _].
      destruct (IH (foldl add_rule m (rules_of p s)) Hread' (Hk Hm)) as (m' & Hl & Hk' & Hspec).
      exists m'. split_and!; [done..|]. intros k. rewrite Hspec, ex_cons.
      rewrite (proj2 (add_rules_spec (rules_of p s) m k)). split.
      * intros [[?|(d & ? & ?)]|?]; [by left | right; left; split; [done|]; by exists s, d | right; by right].
      * intros [?|[(_ & s' & d & [= <-]%(eq_trans (eq_sym Hs)) & ? & ?)|?]]; [left; by left | left; right; by exists d | by right].
    + destruct (IH m Hread' Hm) as (m' & Hl & Hk' & Hspec). exists m'. split_and!; [done..|].
      intros k. rewrite Hspec, ex_cons, Ep. intuition congruence.
Qed.

Lemma elem_of_into_values m d : d ∈ into_values m ↔ ∃ k, m !! k = Some d.
Proof.
  unfold into_values. rewrite list_elem_of_fmap. split.
  - intros ([k d'] & -> & Hin). rewrite merge_sort_Permutation in Hin. apply elem_of_map_to_list in Hin. by exists k.
  - intros [k Hk]. exists (k, d). split; [done|]. rewrite merge_sort_Permutation. by apply elem_of_map_to_list.
Qed.

Lemma NoDup_into_values m : keyed m → NoDup (key <$> into_values m).
Proof.
  intros Hm. unfold into_values. rewrite <- list_fmap_compose.
  rewrite (list_fmap_ext _ fst (merge_sort key_le (map_to_list m))).
  - rewrite merge_sort_Permutation. apply NoDup_fst_map_to_list.
  - intros i [k d] Hi. apply list_elem_of_lookup_2 in Hi. rewrite merge_sort_Permutation in Hi.
    apply elem_of_map_to_list in Hi. cbn. by apply Hm.
Qed.

Lemma rules_of_trimmed p s :
  rules_of p s = omap (rule_of (unwrap_or (file_name p) §"unknown")) (trimmed_lines s).
Proof. unfold rules_of, trimmed_lines. symmetry. apply omap_fmap_comp. Qed.

Lemma rules_of_cleaned p s : rules_of p (strip_managed_lines s) = [].
Proof.
  rewrite rules_of_trimmed, trimmed_strip_managed. apply omap_none, list.Forall_forall.
  intros t [Ht _]%list_elem_of_filter. by apply rule_unmanaged.
Qed.

(** The rules of a managed file are those of its last lines. *)
Lemma rules_of_managed p existing ls (f : bytes → DnsDomain) (line : bytes → bytes) :
  let src := unwrap_or (file_name p) §"unknown" in
  Forall (λ d, (LF ∉ line d) ∧ trim (line d) = line d ∧ rule_of src (line d) = Some (f d)) ls →
  rules_of p (managed_contents existing (unlines (line <$> ls))) = f <$> ls.
Proof.
  cbv zeta. intros Hls. rewrite rules_of_trimmed, trimmed_managed_contents.
  2:{ apply Forall_fmap. eapply list.Forall_impl; [exact Hls|]. by intros d [? _]. }
  rewrite omap_app. rewrite omap_none.
  - cbn [app]. rewrite !omap_fmap_comp. apply omap_some.
    eapply list.Forall_impl; [exact Hls|]. cbn. intros d (_ & -> & Hr). exact Hr.
  - eapply list.Forall_impl; [apply preserved_unmanaged|]. intros t. apply rule_unmanaged.
Qed.

(** ** Saving *)

Lemma save_inv paths domains t t' :
  save_domains paths domains t = (Ok tt, t') →
  ∃ relay bypass files t1 t2,
    relay_ip paths ≠ [] ∧ split_domains domains = (relay, bypass)
    ∧ read_dir (conf_dir paths) t = Some files
    ∧ clean_files paths files t = (Ok tt, t1)
    ∧ write_managed_file (relay_file paths) (render_relay_lines relay (relay_ip paths)) t1 = (Ok tt, t2)
    ∧ write_managed_file (bypass_file paths) (render_bypass_lines bypass) t2 = (Ok tt, t').
Proof.
  unfold save_domains. case_decide as Hip; [done|].
  destruct (split_domains domains) as [relay bypass].
  destruct (read_dir (conf_dir paths) t) as [files|]; [|done].
  destruct (clean_files paths files t) as [[[]|] t1] eqn:Ec; [|done].
  destruct (write_managed_file (relay_file paths) _ t1) as [[[]|] t2] eqn:Er; [|done].
  intros Hb. by exists relay, bypass, files, t1, t2.
Qed.

(** The layout of the files: the two managed files are [.conf] files of the directory, and
    every other one can be read. *)
Record layout (paths : DnsmasqPaths) (t : Tree) (n1 n2 : bytes) : Prop := {
  lay_relay : comps (relay_file paths) = comps (conf_dir paths) ++ [n1];
  lay_bypass : comps (bypass_file paths) = comps (conf_dir paths) ++ [n2];
  lay_conf1 : is_conf (relay_file paths) = true;
  lay_conf2 : is_conf (bypass_file paths) = true;
  lay_read1 : may_read (comps (conf_dir paths) ++ [n1]) = true;
  lay_read2 : may_read (comps (conf_dir paths) ++ [n2]) = true;
  lay_names : ∀ n, n = n1 ∨ n = n2 ∨ is_Some (t !! (comps (conf_dir paths) ++ [n])) → name_ok n;
  lay_text : ∀ n, is_Some (t !! (comps (conf_dir paths) ++ [n])) → is_conf (path_join (conf_dir paths) n) = true →
    n ≠ n1 → n ≠ n2 → is_Some (read_to_string (path_join (conf_dir paths) n) t);
}.

Section layout.
Context (paths : DnsmasqPaths) (t : Tree) (n1 n2 : bytes) (Hlay : layout paths t n1 n2).
Abbreviation D := (comps (conf_dir paths)).
Abbreviation file n := (path_join (conf_dir paths) n).

Lemma grown_file n n' t1 t2 : grown (D ++ [n]) t1 t2 → t2 !! (D ++ [n']) = t1 !! (D ++ [n']).
Proof.
  intros Hg. destruct (Hg (D ++ [n'])) as [?|(_ & _ & [k Hk])]; [done|]. exfalso.
  rewrite removelast_last in Hk. apply (f_equal length) in Hk. rewrite !length_app in Hk. cbn in Hk. lia.
Qed.

Lemma comps_file n : name_ok n → comps (file n) = D ++ [n].
Proof. apply comps_join. Qed.

Lemma snoc_inj (l : list bytes) x y : l ++ [x] = l ++ [y] → x = y.
Proof. intros E. apply app_inv_head in E. by injection E. Qed.

(** The files of the directory after a successful save. *)
(** The files of the directory. *)
Lemma read_dir_files files : read_dir (conf_dir paths) t = Some files →
  (∀ p, p ∈ files ↔ ∃ n, p = file n ∧ is_Some (t !! (D ++ [n]))) ∧ NoDup (comps <$> files).
Proof.
  intros Hf. assert (Hfiles := read_dir_inv _ _ _ Hf). split.
  - intros p. rewrite Hfiles, list_elem_of_fmap. setoid_rewrite dir_order_perm. by setoid_rewrite elem_of_names_in.
  - rewrite Hfiles, <- list_fmap_compose. rewrite (list_fmap_ext _ (λ n, D ++ [n])).
    + assert (Inj (=) (=) (λ n, D ++ [n])) by (intros x y; apply snoc_inj).
      apply (NoDup_fmap_2 _). rewrite dir_order_perm. apply NoDup_names_in.
    + intros i n Hi%list_elem_of_lookup_2. rewrite dir_order_perm in Hi. apply elem_of_names_in in Hi.
      apply comps_file. apply (lay_names _ _ _ _ Hlay). auto.
Qed.

Lemma save_lookup domains t' relay bypass :
  split_domains domains = (relay, bypass) → save_domains paths domains t = (Ok tt, t') →
  (∃ e, t' !! (D ++ [n2]) = Some (Text (managed_contents e (render_bypass_lines bypass))))
  ∧ (n1 ≠ n2 → ∃ e, t' !! (D ++ [n1]) = Some (Text (managed_contents e (render_relay_lines relay (relay_ip paths)))))
  ∧ (∀ n, n ≠ n1 → n ≠ n2 → match t !! (D ++ [n]) with
       | None => t' !! (D ++ [n]) = None
       | Some _ => is_conf (file n) = true → ∃ s, read_to_string (file n) t = Some s
           ∧ t' !! (D ++ [n]) = Some (Text (strip_managed_lines s))
       end)
  ∧ is_Some (read_dir (conf_dir paths) t').
Proof.
  intros Hsp (r & b & files & t1 & t2 & Hip & Hsp' & Hf & Hc & Hr & Hb)%save_inv.
  rewrite Hsp in Hsp'. injection Hsp' as <- <-. pose proof Hlay as [].
  apply write_managed_inv in Hr as (t1' & Hg1 & ->), Hb as (t2' & Hg2 & ->).
  rewrite lay_relay0 in Hg1, Hg2. rewrite lay_bypass0 in Hg2 |- *.
  destruct (read_dir_files _ Hf) as [Hin Hnd].
  split_and!.
  - eexists. by rewrite lookup_insert_eq.
  - intros Hne. eexists. rewrite lookup_insert_ne by (intros E; by apply snoc_inj in E).
    rewrite (grown_file _ _ _ _ Hg2). by rewrite lookup_insert_eq.
  - intros n Hn1 Hn2.
    rewrite lookup_insert_ne by (intros E; apply snoc_inj in E; congruence).
    rewrite (grown_file _ _ _ _ Hg2).
    rewrite lookup_insert_ne by (intros E; apply snoc_inj in E; congruence).
    rewrite (grown_file _ _ _ _ Hg1).
    destruct (t !! (D ++ [n])) as [x|] eqn:Ex.
    + intros Hconf. assert (name_ok n) as Hok by (apply lay_names0; rewrite Ex; eauto).
      destruct (lay_text0 n ltac:(by rewrite Ex) Hconf Hn1 Hn2) as [s Hs]. exists s. split; [done|].
      apply read_to_string_Some in Hs as [Hrd Hs]. rewrite <- (comps_file n Hok).
      apply (clean_files_clean paths files t t1); try done.
      * apply Hin. exists n. rewrite Ex. eauto.
      * unfold cleanable, same_path. rewrite Hconf, comps_file, lay_relay0, lay_bypass0 by done.
        rewrite !bool_decide_eq_false_2; [done|..]; intros E; apply snoc_inj in E; congruence.
    + rewrite (clean_files_other _ _ _ _ _ _ Hc); [done|].
      intros p (n' & -> & Hn')%Hin _ E. rewrite comps_file in E by auto.
      apply snoc_inj in E as ->. rewrite Ex in Hn'. by destruct Hn'.
  - unfold read_dir, is_dir, node in Hf |- *.
    destruct (bool_decide (t !! D = Some Folder)) eqn:ED; [|done]. apply bool_decide_eq_true in ED.
    destruct (may_read D); [|done]. rewrite bool_decide_eq_true_2; [by eexists|].
    assert (∀ n, D ≠ D ++ [n]) as HD by (intros n E; apply (f_equal length) in E; rewrite length_app in E; cbn in E; lia).
    rewrite lookup_insert_ne by auto.
    assert (∀ c u v, grown c u v → u !! D = Some Folder → v !! D = Some Folder) as Hgr.
    { intros c u v Hg Hu. destruct (Hg D) as [->|[? _]]; congruence. }
    apply (Hgr _ _ _ Hg2). rewrite lookup_insert_ne by auto. apply (Hgr _ _ _ Hg1).
    rewrite (clean_files_other _ _ _ _ _ _ Hc); [done|].
    intros p (n' & -> & Hn')%Hin _ E. rewrite comps_file in E by auto. by apply (HD n').
Qed.

(** The rules that a successful save leaves in the directory. *)
Lemma save_load domains t' relay bypass :
  split_domains domains = (relay, bypass) → save_domains paths domains t = (Ok tt, t') →
  ∃ m, load_domains paths t' = Ok (into_values m) ∧ keyed m
  ∧ ∀ k, is_Some (m !! k) ↔ ∃ n s d, is_conf (file n) = true ∧ name_ok n
      ∧ read_to_string (file n) t' = Some s ∧ d ∈ rules_of (file n) s ∧ key d = k ∧ (n = n1 ∨ n = n2).
Proof.
  intros Hsp Hsave. destruct (save_lookup domains t' relay bypass Hsp Hsave) as ((e2 & H2) & H1 & Hoth & files & Hf).
  assert (Hfiles := read_dir_inv _ _ _ Hf). destruct Hlay.
  assert (∀ n, is_Some (t' !! (D ++ [n])) → name_ok n) as Hok.
  { intros n Hn. apply lay_names0. destruct (decide (n = n1)); [by left|]. destruct (decide (n = n2)); [by right; left|].
    right; right. specialize (Hoth n ltac:(done) ltac:(done)). destruct (t !! _); [by eexists|].
    rewrite Hoth in Hn. by destruct Hn. }
  assert (∀ p, p ∈ files ↔ ∃ n, p = file n ∧ is_Some (t' !! (D ++ [n]))) as Hin.
  { intros p. rewrite Hfiles, list_elem_of_fmap. setoid_rewrite dir_order_perm.
    by setoid_rewrite elem_of_names_in. }
  assert (∀ n, is_Some (t' !! (D ++ [n])) → is_conf (file n) = true → ∃ s, read_to_string (file n) t' = Some s
    ∧ (n = n1 ∨ n = n2 ∨ rules_of (file n) s = [])) as Hread.
  { intros n Hn Hconf. setoid_rewrite read_to_string_Some. rewrite comps_file by auto.
    destruct (decide (n = n2)) as [->|Hn2]; [by eexists; split; [split; [done | exact H2] | auto]|].
    destruct (decide (n = n1)) as [->|Hn1].
    { destruct (H1 Hn2) as [e1 He1]. by eexists; split; [split; [done | exact He1] | auto]. }
    specialize (Hoth n Hn1 Hn2). destruct (t !! (D ++ [n])) eqn:E; [|rewrite Hoth in Hn; by destruct Hn].
    destruct (Hoth Hconf) as (s & Hs & Ht'). apply read_to_string_Some in Hs as [Hs _]. rewrite comps_file in Hs by auto.
    eexists. split; [split; [exact Hs | exact Ht'] | right; right; apply rules_of_cleaned]. }
  destruct (load_files_spec t' files ∅) as (m & Hl & Hk & Hm).
  { intros p (n & -> & Hn)%Hin Hconf. destruct (Hread n Hn Hconf) as (s & -> & _). by eexists. }
  { intros k d. by rewrite lookup_empty. }
  exists m. split_and!; [|done|].
  { unfold load_domains. rewrite Hf. by rewrite Hl. }
  intros k. rewrite Hm, lookup_empty. split.
  - intros [[? ?]|(p & (n & -> & Hn)%Hin & Hconf & s & d & Hs & Hd & Hkd)]; [done|].
    destruct (Hread n Hn Hconf) as (s' & Hs' & Hor). rewrite Hs in Hs'. injection Hs' as <-.
    exists n, s, d. split_and!; try done; [by apply Hok|].
    destruct Hor as [?|[?|Hnil]]; [by left | by right |]. rewrite Hnil in Hd. by apply elem_of_nil in Hd.
  - intros (n & s & d & Hconf & Hn & Hs & Hd & Hkd & _). right. exists (file n). split_and!; [|done|by exists s, d].
    apply Hin. exists n. split; [done|]. apply read_to_string_Some in Hs as [_ Hs].
    rewrite comps_file in Hs by done. by rewrite Hs.
Qed.

Context (domains : list DnsDomain) `{Hlaws : !UnicodeLaws}.
Context (Hip : forallb is_graphic (relay_ip paths) = true) (Hslash : SLASH ∉ relay_ip paths).
Context (Hnames : ∀ d, d ∈ domains → LF ∉ norm d).

Lemma graphic_no_LF s : forallb is_graphic s = true → LF ∉ s.
Proof. intros Hs Hin. rewrite forallb_forall in Hs. by specialize (Hs LF (proj1 (list_elem_of_In _ _) Hin)). Qed.

Lemma wanted_name p : relayed domains p ∨ bypassed domains p → p ≠ [] ∧ (LF ∉ p) ∧ to_lowercase p = p.
Proof.
  intros [(Hp & (d & Hd & <- & _) & _)|(Hp & d & Hd & <- & _)]; (split_and!; [done | by apply Hnames | apply lower_idemp]).
Qed.

Lemma relay_rules q e relay bypass : split_domains domains = (relay, bypass) → relay_ip paths ≠ [] →
  rules_of q (managed_contents e (render_relay_lines relay (relay_ip paths)))
  = (λ p, {| pattern := p; mode := RELAY; source := unwrap_or (file_name q) §"unknown" |}) <$> sorted_keys relay.
Proof.
  intros Hsp Hne. apply rules_of_managed. apply list.Forall_forall. intros p Hp%elem_of_sorted_keys.
  apply (split_domains_spec _ _ _ p Hsp) in Hp. destruct (wanted_name p (or_introl Hp)) as (Hp0 & Hp1 & Hp2).
  split_and!; [|by apply trim_address_line | by apply rule_address].
  unfold address_line. rewrite !not_elem_of_app. split_and!; [|done| |by apply graphic_no_LF];
    apply (bool_decide_eq_true_1 _); by vm_compute.
Qed.

Lemma bypass_rules q e relay bypass : split_domains domains = (relay, bypass) →
  rules_of q (managed_contents e (render_bypass_lines bypass))
  = (λ p, {| pattern := p; mode := BYPASS; source := unwrap_or (file_name q) §"unknown" |}) <$> sorted_keys bypass.
Proof.
  intros Hsp. apply rules_of_managed. apply list.Forall_forall. intros p Hp%elem_of_sorted_keys.
  apply (split_domains_spec _ _ _ p Hsp) in Hp. destruct (wanted_name p (or_intror Hp)) as (Hp0 & Hp1 & Hp2).
  split_and!; [|apply trim_server_line | by apply rule_server].
  unfold server_line. rewrite !not_elem_of_app. split_and!; [|done|];
    apply (bool_decide_eq_true_1 _); by vm_compute.
Qed.

Lemma elem_of_loaded m p mo : keyed m →
  (p, mo) ∈ (λ d, (pattern d, mode d)) <$> into_values m ↔ is_Some (m !! (p, mo)).
Proof.
  intros Hk. rewrite list_elem_of_fmap. setoid_rewrite elem_of_into_values. split.
  - intros (d & [= -> ->] & k & Hd). assert (E := Hk _ _ Hd). unfold key in E. rewrite E, Hd. by eexists.
  - intros [d Hd]. exists d. split; [by rewrite <- (Hk _ _ Hd)|by eexists].
Qed.

Lemma saved_rules t' : save_domains paths domains t = (Ok tt, t') →
  ∃ l, load_domains paths t' = Ok l ∧ NoDup ((λ d, (pattern d, mode d)) <$> l)
  ∧ ∀ p m, (p, m) ∈ (λ d, (pattern d, mode d)) <$> l
      ↔ (n1 ≠ n2 ∧ m = RELAY ∧ relayed domains p) ∨ (m = BYPASS ∧ bypassed domains p).
Proof.
  intros Hsave. destruct (split_domains domains) as [relay bypass] eqn:Hsp.
  destruct (save_load domains t' relay bypass Hsp Hsave) as (m & Hl & Hk & Hm).
  destruct (save_lookup domains t' relay bypass Hsp Hsave) as ((e2 & HB) & HR & _ & _).
  destruct (save_inv _ _ _ _ Hsave) as (_ & _ & _ & _ & _ & Hip0 & _).
  exists (into_values m). split_and!; [done | by apply NoDup_into_values|].
  intros p mo. rewrite elem_of_loaded, Hm by done. clear Hm. destruct Hlay. split.
  - intros (n & s & d & _ & Hok & [_ Hs]%read_to_string_Some & Hd & Hkd & Hor). rewrite comps_file in Hs by done.
    destruct (decide (n = n2)) as [->|Hn2].
    + rewrite HB in Hs. injection Hs as <-. rewrite (bypass_rules _ _ _ _ Hsp) in Hd.
      apply list_elem_of_fmap in Hd as (p' & -> & Hp'%elem_of_sorted_keys). injection Hkd as -> <-.
      right. split; [done|]. by apply (split_domains_spec _ _ _ p Hsp).
    + destruct Hor as [->|?]; [|done]. destruct (HR Hn2) as [e1 He1].
      rewrite He1 in Hs. injection Hs as <-. rewrite (relay_rules _ _ _ _ Hsp Hip0) in Hd.
      apply list_elem_of_fmap in Hd as (p' & -> & Hp'%elem_of_sorted_keys). injection Hkd as -> <-.
      left. split_and!; [done..|]. by apply (split_domains_spec _ _ _ p Hsp).
  - assert (∀ n, n = n1 ∨ n = n2 → name_ok n) as Hok by (intros n [-> | ->]; apply lay_names0; auto).
    intros [(Hn & -> & Hp)|[-> Hp]].
    + destruct (HR Hn) as [e1 He1]. eexists n1, _, _. split_and!; [ | auto | | | | by left].
      * rewrite <- lay_conf3. apply is_conf_comps. by rewrite comps_file by auto.
      * apply read_to_string_Some. rewrite comps_file by auto. split; [done | exact He1].
      * rewrite (relay_rules _ _ _ _ Hsp Hip0). apply list_elem_of_fmap_2, elem_of_sorted_keys.
        by apply (split_domains_spec _ _ _ p Hsp).
      * done.
    + eexists n2, _, _. split_and!; [ | auto | | | | by right].
      * rewrite <- lay_conf4. apply is_conf_comps. by rewrite comps_file by auto.
      * apply read_to_string_Some. rewrite comps_file by auto. split; [done | exact HB].
      * rewrite (bypass_rules _ _ _ _ Hsp). apply list_elem_of_fmap_2, elem_of_sorted_keys.
        by apply (split_domains_spec _ _ _ p Hsp).
      * done.
Qed.

(** When one file is chosen for both, saving loses every relay rule: the second write strips
    what the first has written. *)
Lemma save_one_file_loses_relay t' :
  n1 = n2 → save_domains paths domains t = (Ok tt, t') →
  ∃ l, load_domains paths t' = Ok l
  ∧ ∀ p m, (p, m) ∈ (λ d, (pattern d, mode d)) <$> l ↔ m = BYPASS ∧ bypassed domains p.
Proof.
  intros Heq (l & Hl & _ & Hin)%saved_rules. exists l. split; [done|].
  intros p m. rewrite Hin. tauto.
Qed.
End layout.

(** C38: What the panel saves it reads back.  After a successful save of a list of domains, a
    load returns each name once per mode: exactly the names that some entry bypasses, and
    the names that some entry relays and none bypasses, trimmed and in lower case; whatever
    rules the files of the directory held before, in whatever order it is listed.
    Conditions: the relay and the bypass rules go to two different files, both readable
    [.conf] files of the directory, whose other [.conf] files can be read as text ([layout]);
    no pattern has a line feed inside (such a pattern adds lines of its own,
    [pattern_adds_rules]); and the relay's address is of visible ASCII characters, without a
    slash. *)
Theorem save_load_roundtrip `{!UnicodeLaws} paths t t' n1 n2 domains :
  layout paths t n1 n2 → n1 ≠ n2 →
  forallb is_graphic (relay_ip paths) = true → SLASH ∉ relay_ip paths →
  (∀ d, d ∈ domains → LF ∉ norm d) →
  save_domains paths domains t = (Ok tt, t') →
  ∃ l, load_domains paths t' = Ok l ∧ NoDup ((λ d, (pattern d, mode d)) <$> l)
  ∧ ∀ p m, (p, m) ∈ (λ d, (pattern d, mode d)) <$> l
      ↔ (m = RELAY ∧ relayed domains p) ∨ (m = BYPASS ∧ bypassed domains p).
Proof.
  intros Hlay Hne Hip Hs Hn Hsave.
  destruct (saved_rules paths t n1 n2 Hlay domains Hip Hs Hn t' Hsave) as (l & Hl & Hnd & Hin).
  exists l. split_and!; [done..|]. intros p m. rewrite Hin. tauto.
Qed.
End store.

(** * Nothing else is lost *)

Section preserves.
Context `{Unicode} `{Kernel}.

(** Every readable text keeps the lines that the panel does not own, in order. *)
Definition preserves (t t' : Tree) : Prop :=
  ∀ cs s, may_read cs = true → t !! cs = Some (Text s) →
    ∃ s', t' !! cs = Some (Text s') ∧ directives s' = directives s.

Lemma preserves_refl t : preserves t t.
Proof. intros cs s _ Hs. by exists s. Qed.

Lemma preserves_trans t1 t2 t3 : preserves t1 t2 → preserves t2 t3 → preserves t1 t3.
Proof.
  intros H12 H23 cs s Hr Hs. destruct (H12 cs s Hr Hs) as (s2 & Hs2 & E2).
  destruct (H23 cs s2 Hr Hs2) as (s3 & Hs3 & E3). exists s3. split; [done | congruence].
Qed.

Lemma grown_preserves cs t t' : grown cs t t' → preserves t t'.
Proof. intros Hg c s _ Hs. destruct (Hg c) as [E|[E _]]; [|congruence]. exists s. by rewrite E. Qed.

(** The same, but for the file of a write that failed. *)
Definition keeps_but_failed (r : result StoreError unit) (t t' : Tree) : Prop :=
  ∀ cs s, may_read cs = true → t !! cs = Some (Text s) →
    (∃ s', t' !! cs = Some (Text s') ∧ directives s' = directives s)
    ∨ ∃ q, r = Err (WriteFailed q) ∧ comps q = cs.

Lemma preserves_keeps r t t' : preserves t t' → keeps_but_failed r t t'.
Proof. intros Hp cs s Hr Hs. left. by apply Hp. Qed.
Lemma keeps_ok t t' : keeps_but_failed (Ok tt) t t' → preserves t t'.
Proof. intros Hp cs s Hr Hs. by destruct (Hp cs s Hr Hs) as [?|(q & [=] & _)]. Qed.
Lemma keeps_trans r t1 t2 t3 : preserves t1 t2 → keeps_but_failed r t2 t3 → keeps_but_failed r t1 t3.
Proof.
  intros H12 H23 cs s Hr Hs. destruct (H12 cs s Hr Hs) as (s2 & Hs2 & E2).
  destruct (H23 cs s2 Hr Hs2) as [(s3 & Hs3 & E3)|?]; [left; exists s3; split; [done | congruence] | by right].
Qed.

Lemma write_keeps p s t r t' :
  (∀ s0, read_to_string p t = Some s0 → directives s = directives s0) →
  write p s t = (r, t') → keeps_but_failed r t t'.
Proof.
  intros Hd E cs s0 Hr Hs0. destruct (decide (cs = comps p)) as [->|Hne].
  - unfold write in E. destruct (write_file p s t) as [[] t1] eqn:Ew; injection E as <- <-; [left|right; by exists p].
    apply write_file_inv in Ew as ->. exists s. rewrite lookup_insert_eq. split; [done|].
    by apply Hd, read_to_string_Some.
  - left. exists s0. by rewrite (write_other _ _ _ _ _ _ E Hne).
Qed.

Lemma clean_files_keeps paths files t r t' : clean_files paths files t = (r, t') → keeps_but_failed r t t'.
Proof.
  revert t. induction files as [|p files IH]; intros t; cbn [clean_files];
    [intros [= <- <-]; apply preserves_keeps, preserves_refl|].
  destruct (negb (is_conf p) || _ || _); [apply IH|]. case_decide; [apply IH|].
  destruct (write p _ t) as [r1 t1] eqn:E. apply write_keeps in E.
  2:{ intros s ->. apply directives_strip_managed. }
  destruct r1 as [[]|e]; [|by intros [= <- <-]]. intros Hc. eapply keeps_trans; [by apply keeps_ok | by apply IH].
Qed.

Lemma write_managed_keeps path ls t r t' :
  Forall (λ l, (LF ∉ l) ∧ managed (trim l) = true) ls →
  write_managed_file path (unlines ls) t = (r, t') → keeps_but_failed r t t'.
Proof.
  intros Hls. unfold write_managed_file.
  destruct (match parent_comps path with Some _ => _ | None => _ end) as [b t1] eqn:E.
  apply parents_grown, grown_preserves in E. destruct b; [|intros [= <- <-]; by apply preserves_keeps].
  intros Hw. eapply keeps_trans; [exact E|]. eapply write_keeps; [|exact Hw].
  intros s ->. by apply directives_managed_contents.
Qed.

Lemma managed_relay_lines paths domains relay bypass :
  forallb is_graphic (relay_ip paths) = true → relay_ip paths ≠ [] → (∀ d, d ∈ domains → LF ∉ norm d) →
  split_domains domains = (relay, bypass) →
  Forall (λ l, (LF ∉ l) ∧ managed (trim l) = true) (address_line (relay_ip paths) <$> sorted_keys relay)
  ∧ Forall (λ l, (LF ∉ l) ∧ managed (trim l) = true) (server_line <$> sorted_keys bypass).
Proof.
  intros Hip Hip0 Hn Hsp.
  assert (∀ p, relayed domains p ∨ bypassed domains p → LF ∉ p) as HLF
    by (intros p [(_ & (d & Hd & <- & _) & _)|(_ & d & Hd & <- & _)]; by apply Hn).
  split; apply Forall_fmap, list.Forall_forall; intros p Hp%elem_of_sorted_keys;
    apply (split_domains_spec _ _ _ p Hsp) in Hp; unfold compose; split.
  - unfold address_line. rewrite !not_elem_of_app. split_and!; [|by apply HLF; left| |by apply graphic_no_LF];
      apply (bool_decide_eq_true_1 _); by vm_compute.
  - by rewrite trim_address_line.
  - unfold server_line. rewrite !not_elem_of_app. split_and!; [|by apply HLF; right|];
      apply (bool_decide_eq_true_1 _); by vm_compute.
  - rewrite trim_server_line. apply managed_server.
Qed.

Lemma save_keeps paths domains t r t' :
  forallb is_graphic (relay_ip paths) = true → (∀ d, d ∈ domains → LF ∉ norm d) →
  save_domains paths domains t = (r, t') → keeps_but_failed r t t'.
Proof.
  intros Hip Hn. unfold save_domains. case_decide as Hip0; [intros [= <- <-]; apply preserves_keeps, preserves_refl|].
  destruct (split_domains domains) as [relay bypass] eqn:Hsp.
  destruct (managed_relay_lines paths domains relay bypass Hip Hip0 Hn Hsp) as [Hrl Hbl].
  destruct (read_dir _ t) as [files|]; [|intros [= <- <-]; apply preserves_keeps, preserves_refl].
  destruct (clean_files paths files t) as [r1 t1] eqn:Ec. apply clean_files_keeps in Ec.
  destruct r1 as [[]|]; [apply keeps_ok in Ec | by intros [= <- <-]].
  destruct (write_managed_file (relay_file paths) _ t1) as [r2 t2] eqn:Er. apply write_managed_keeps in Er; [|done].
  destruct r2 as [[]|]; [apply keeps_ok in Er | intros [= <- <-]; by eapply keeps_trans].
  intros Eb%write_managed_keeps; [|done]. eapply keeps_trans; [exact Ec|]. by eapply keeps_trans.
Qed.

(** A file that a save has no business with. *)
Lemma save_other paths domains t p x :
  node p t = Some x → comps p ≠ comps (relay_file paths) → comps p ≠ comps (bypass_file paths) →
  (∀ files q, read_dir (conf_dir paths) t = Some files → q ∈ files → is_conf q = true → comps q ≠ comps p) →
  node p (save_domains paths domains t).2 = Some x.
Proof.
  unfold node. intros Hx Hr Hb Hq.
  assert (∀ path block u, comps p ≠ comps path → u !! comps p = Some x →
    (write_managed_file path block u).2 !! comps p = Some x) as Hw.
  { intros path block u Hne Hu. unfold write_managed_file.
    destruct (match parent_comps path with Some _ => _ | None => _ end) as [b u1] eqn:E.
    apply parents_grown in E. assert (u1 !! comps p = Some x) as Hu1 by (destruct (E (comps p)) as [->|[? _]]; congruence).
    destruct b; [|done]. destruct (write path _ u1) as [r u2] eqn:Ew.
    cbn. by rewrite (write_other _ _ _ _ _ _ Ew Hne). }
  unfold save_domains. case_decide; [done|]. destruct (split_domains domains) as [relay bypass].
  destruct (read_dir _ t) as [files|] eqn:Ef; [|done].
  destruct (clean_files paths files t) as [r t1] eqn:Ec.
  assert (t1 !! comps p = Some x) as Ht1.
  { rewrite (clean_files_other _ _ _ _ _ _ Ec); [done|]. intros q Hin Hcl. apply (Hq files q); [done..|].
    unfold cleanable in Hcl. by repeat apply andb_prop in Hcl as [Hcl _]. }
  destruct r as [[]|]; [|done]. pose proof (Hw (relay_file paths) (render_relay_lines relay (relay_ip paths)) t1 Hr Ht1) as Ht2.
  destruct (write_managed_file (relay_file paths) _ t1) as [[[]|] t2]; [|done].
  by apply Hw.
Qed.

(** C39: Saving touches nothing but the rules.  A text file of the system that could be read
    keeps, after a save of domains, all its lines in order but those that belong to the
    panel ([panel_line]: every [address=] line, the [server=/domain/#] lines, the panel's
    own comments, blank lines; compared without the white space at their ends), with one
    exception: when the save fails in a write, the file of that write may have been emptied
    and filled only in part; the others are kept also then.  And a file that is neither a
    [.conf] file of the directory nor one of the two managed files is left as it is.
    Conditions: the relay's address is of visible ASCII characters, and no pattern has a
    line feed inside.  A file that is not UTF-8 is not covered, and a managed one is lost
    ([binary_file_lost]). *)
Theorem save_preserves paths domains t :
  forallb is_graphic (relay_ip paths) = true → (∀ d, d ∈ domains → LF ∉ norm d) →
  let r := (save_domains paths domains t).1 in
  let t' := (save_domains paths domains t).2 in
  (∀ p s, read_to_string p t = Some s →
     (∃ s', read_to_string p t' = Some s' ∧ other_lines s' = other_lines s)
     ∨ ∃ q, r = Err (WriteFailed q) ∧ comps q = comps p)
  ∧ (∀ p x, node p t = Some x → comps p ≠ comps (relay_file paths) → comps p ≠ comps (bypass_file paths) →
     (∀ files q, read_dir (conf_dir paths) t = Some files → q ∈ files → is_conf q = true → comps q ≠ comps p) →
     node p t' = Some x).
Proof.
  intros Hip Hn. cbv zeta. split; [|by intros p x; apply save_other].
  intros p s [Hr Hs]%read_to_string_Some. setoid_rewrite read_to_string_Some. setoid_rewrite other_lines_directives.
  destruct (save_domains paths domains t) as [r t'] eqn:E.
  destruct (save_keeps paths domains t r t' Hip Hn E _ _ Hr Hs) as [(s' & ? & ?)|?]; [left; by exists s' | by right].
Qed.
End preserves.

(** * Concrete directories *)

Definition open_kernel : Kernel :=
  {| may_read _ := true; may_write _ := true; write_stops _ _ _ := None; dir_order l := l; dir_order_perm l := Permutation_refl l |}.

Definition text (ls : list string) : Node := Text (unlines (lit <$> ls)).
Definition conf_tree (files : list (string * Node)) : Tree :=
  <[[[SLASH]] := Folder]> (<[comps §"/etc" := Folder]> (<[comps §"/etc/dnsmasq.d" := Folder]>
    (list_to_map ((λ f, (comps (§"/etc/dnsmasq.d/" ++ lit f.1), f.2)) <$> files)))).

Definition example_tree : Tree := conf_tree [
  ("routed.conf", text ["address=/ea.com/1.2.3.4"; "address=/steam.com/1.2.3.4"]);
  ("bypass.conf", text ["server=/gosredirector.ea.com/#"; "filter-AAAA"]);
  ("old.conf", text ["# by hand"; "address=/old.org/1.1.1.1"; "cache-size=1000"])]%string.

Definition example_paths : DnsmasqPaths := {|
  conf_dir := §"/etc/dnsmasq.d"; relay_file := §"/etc/dnsmasq.d/routed.conf";
  bypass_file := §"/etc/dnsmasq.d/bypass.conf"; relay_ip := §"9.9.9.9"; reload_cmd := None |}.

Definition rule (p m : string) : DnsDomain := {| pattern := lit p; mode := lit m; source := [] |}.
Definition example_domains : list DnsDomain :=
  [rule "New.Game " "relay"; rule "voice.example" "direct"; rule "ea.com" "relay"; rule "ea.com" "bypass"].

Definition example_saved : Tree :=
  (@save_domains ascii_unicode open_kernel example_paths example_domains example_tree).2.

Lemma example_save :
  @save_domains ascii_unicode open_kernel example_paths example_domains example_tree = (Ok tt, example_saved).
Proof.
  unfold example_saved.
  assert (is_ok (@save_domains ascii_unicode open_kernel example_paths example_domains example_tree).1 = true) as Hok
    by (by vm_compute).
  destruct (@save_domains ascii_unicode open_kernel example_paths example_domains example_tree) as [[[]|] t'];
    [done | discriminate Hok].
Qed.

Lemma example_no_LF d : d ∈ example_domains → LF ∉ @norm ascii_unicode d.
Proof.
  revert d. apply (list.Forall_forall (λ d, LF ∉ @norm ascii_unicode d)).
  repeat constructor; apply (bool_decide_eq_true_1 _); by vm_compute.
Qed.

Lemma example_layout : @layout open_kernel example_paths example_tree §"routed.conf" §"bypass.conf".
Proof.
  assert (names_in (comps (conf_dir example_paths)) example_tree
    ⊆ [§"routed.conf"; §"bypass.conf"; §"old.conf"]) as Hnames.
  { apply (bool_decide_eq_true_1 _). by vm_compute. }
  assert (∀ n, n = §"routed.conf" ∨ n = §"bypass.conf" ∨ is_Some (example_tree !! (comps (conf_dir example_paths) ++ [n]))
    → n ∈ [§"routed.conf"; §"bypass.conf"; §"old.conf"]) as Hin.
  { intros n [->|[->|Hn]]; [by left | by right; left |]. apply Hnames. by apply elem_of_names_in. }
  split; try (by vm_compute).
  - intros n Hn%Hin. revert n Hn. apply (list.Forall_forall name_ok).
    repeat constructor; try done; apply (bool_decide_eq_true_1 _); by vm_compute.
  - intros n Hn _ Hn1 Hn2. specialize (Hin n ltac:(by right; right)).
    apply elem_of_cons in Hin as [?|Hin]; [done|]. apply elem_of_cons in Hin as [?|Hin]; [done|].
    apply list_elem_of_singleton in Hin as ->. eexists. vm_compute. reflexivity.
Qed.

Lemma example_bypassed : @bypassed ascii_unicode example_domains §"ea.com".
Proof.
  split; [done|]. exists (rule "ea.com" "bypass"). split; [|by vm_compute].
  apply (bool_decide_eq_true_1 _). by vm_compute.
Qed.

Lemma save_load_roundtrip_witness :
  ∃ l, @load_domains ascii_unicode open_kernel example_paths example_saved = Ok l
  ∧ (§"ea.com", BYPASS) ∈ (λ d, (pattern d, mode d)) <$> l
  ∧ (§"ea.com", RELAY) ∉ (λ d, (pattern d, mode d)) <$> l.
Proof.
  destruct (@save_load_roundtrip ascii_unicode open_kernel ascii_unicode_laws example_paths example_tree
    example_saved §"routed.conf" §"bypass.conf" example_domains example_layout ltac:(done) ltac:(by vm_compute)
    ltac:(apply (bool_decide_eq_true_1 _); by vm_compute) example_no_LF example_save)
    as (l & Hl & _ & Hin).
  exists l. split; [exact Hl|]. rewrite !Hin. split.
  - right. split; [reflexivity | exact example_bypassed].
  - intros [[_ (_ & _ & Hnb)]|[Hm _]]; [exact (Hnb example_bypassed) | discriminate Hm].
Defined.

Lemma save_preserves_witness :
  ∃ s', @read_to_string open_kernel §"/etc/dnsmasq.d/old.conf" example_saved = Some s'
  ∧ other_lines s' = [§"# by hand"; §"cache-size=1000"].
Proof.
  destruct (proj1 (@save_preserves ascii_unicode open_kernel example_paths example_domains example_tree
    ltac:(by vm_compute) example_no_LF) §"/etc/dnsmasq.d/old.conf"
    (unlines [§"# by hand"; §"address=/old.org/1.1.1.1"; §"cache-size=1000"]) ltac:(by vm_compute))
    as [(s' & Hs & Hd)|(q & Hq & _)]; [|rewrite example_save in Hq; discriminate Hq].
  exists s'. split; [exact Hs|]. rewrite Hd, other_lines_directives. by vm_compute.
Defined.

(** ** Defects *)

(** Every save adds one more copy of the second banner line to each managed file. *)
Definition banners (s : bytes) : nat := length (filter (λ l, trim l = BANNER2) (lines s)).

Lemma managed_file_grows existing ls :
  Forall (λ l, (LF ∉ l) ∧ managed (trim l) = true) ls →
  banners (managed_contents existing (unlines ls)) = S (banners existing).
Proof.
  intros Hls.
  assert (∀ s, banners s = length (filter (λ t, t = BANNER2) (trimmed_lines s))) as Hb.
  { intros s. unfold banners, trimmed_lines. by rewrite filter_fmap_comm, length_fmap. }
  rewrite !Hb, trimmed_managed_contents.
  2:{ eapply list.Forall_impl; [exact Hls|]. by intros l [? _]. }
  rewrite filter_app, (filter_none _ (trim <$> ls)), app_nil_r.
  2:{ apply Forall_fmap. eapply list.Forall_impl; [exact Hls|]. intros l [_ Hm]. unfold compose.
      intros E. rewrite E in Hm. revert Hm. by vm_compute. }
  cbn [fmap list_fmap]. rewrite (filter_cons_False _ (trim BANNER1)) by by vm_compute.
  rewrite filter_cons_True by by vm_compute. cbn [length]. f_equal.
  assert (trimmed_lines (strip_panel_banners (strip_managed_lines existing))
    = filter (λ t, banner t = false) (filter (λ t, managed t = false) (trimmed_lines existing))) as Hp.
  { rewrite <- trimmed_strip_managed.
    pose proof (trimmed_lines_filter (λ t, banner t = false) (strip_managed_lines existing) []) as E.
    change (trimmed_lines []) with (@nil bytes) in E. rewrite !app_nil_r in E. exact E. }
  assert (filter (λ t, t = BANNER2) (trimmed_lines (strip_panel_banners (strip_managed_lines existing)))
    = filter (λ t, t = BANNER2) (trimmed_lines existing)) as Hf.
  { rewrite Hp.
    rewrite (filter_filter_keep _ (λ t, banner t = false)) by (intros t ->; by vm_compute).
    apply filter_filter_keep. intros t ->. by vm_compute. }
  rewrite <- Hf. unfold preserved_lines. case_decide as Ht.
  - apply blank_lines in Ht. rewrite (filter_none _ (trimmed_lines _)); [done|].
    eapply list.Forall_impl; [exact Ht|]. intros t ->. by vm_compute.
  - rewrite fmap_app, filter_app. cbn [fmap list_fmap]. rewrite (filter_cons_False _ (trim SEPARATOR)) by by vm_compute.
    rewrite app_nil_r. do 2 f_equal. unfold strip_panel_banners. rewrite trimmed_lines_unlines'; [done|].
    apply list.Forall_forall. intros l [_ Hl]%list_elem_of_filter. by eapply lines_no_LF.
Qed.

(** A directory with one file: it is detected as both files, and saving what was loaded loses
    the relay rule; and a managed file that is not UTF-8 is overwritten. *)
Lemma single_file_detected :
  let dir := §"/etc/dnsmasq.d" in
  let t := conf_tree [("main.conf", text ["address=/ea.com/1.2.3.4"; "server=/x.org/#"])]%string in
  let detected := @detect_files open_kernel dir t in
  let paths := {| conf_dir := dir; relay_file := unwrap_or detected.1 []; bypass_file := unwrap_or detected.2 [];
                  relay_ip := §"9.9.9.9"; reload_cmd := None |} in
  let names l := (λ d, (pattern d, mode d)) <$> l in
  detected = (Some §"/etc/dnsmasq.d/main.conf", Some §"/etc/dnsmasq.d/main.conf")
  ∧ match @load_domains ascii_unicode open_kernel paths t with
    | Ok l => names l = [(§"ea.com", RELAY); (§"x.org", BYPASS)]
        ∧ (names <$> result_ok (@load_domains ascii_unicode open_kernel paths
             (@save_domains ascii_unicode open_kernel paths l t).2)) = Some [(§"x.org", BYPASS)]
    | Err _ => False
    end.
Proof. by vm_compute. Qed.

Lemma binary_file_lost :
  let t := conf_tree [("routed.conf", Binary)]%string in
  match @node §"/etc/dnsmasq.d/routed.conf" (@save_domains ascii_unicode open_kernel example_paths [] t).2 with
  | Some (Text s) => directives s = []
  | _ => False
  end.
Proof. by vm_compute. Qed.

(** A pattern with a line feed inside, which the panel accepts, adds a rule for another name. *)
Lemma pattern_adds_rules :
  let d := {| pattern := §"a.org/1.1.1.1" ++ [LF] ++ §"address=/bank.com"; mode := RELAY; source := [] |} in
  let t := (@save_domains ascii_unicode open_kernel example_paths [d] example_tree).2 in
  match @load_domains ascii_unicode open_kernel example_paths t with
  | Ok l => pattern <$> l = [§"a.org"; §"bank.com"]
  | Err _ => False
  end.
Proof. by vm_compute. Qed.

(** An [address=] line without an address, which dnsmasq takes as "no such domain", is removed
    by a save of what was loaded, and not written again. *)
Lemma blocking_rule_lost :
  let t := conf_tree [("routed.conf", text ["address=/ads.com/"; "address=/ea.com/1.2.3.4"]); ("bypass.conf", text [])]%string in
  match @load_domains ascii_unicode open_kernel example_paths t with
  | Ok l =>
      pattern <$> l = [§"ea.com"]
      ∧ match @read_to_string open_kernel §"/etc/dnsmasq.d/routed.conf"
                (@save_domains ascii_unicode open_kernel example_paths l t).2 with
        | Some s => lines s = [BANNER1; BANNER2; §"address=/ea.com/9.9.9.9"]
        | None => False
        end
  | Err _ => False
  end.
Proof. by vm_compute. Qed.

(** A disk that is full when the bypass rules are written: the save fails, and a directive of
    that file is gone. *)
Definition full_disk : Kernel :=
  {| may_read _ := true; may_write _ := true; dir_order l := l; dir_order_perm l := Permutation_refl l;
     write_stops _ p _ := if decide (last p = Some §"bypass.conf") then Some 0 else None |}.
Lemma failed_write_loses_lines :
  let '(r, t) := @save_domains ascii_unicode full_disk example_paths example_domains example_tree in
  r = Err (WriteFailed §"/etc/dnsmasq.d/bypass.conf")
  ∧ @read_to_string full_disk §"/etc/dnsmasq.d/bypass.conf" t = Some [].
Proof. by vm_compute. Qed.
