(* ===== verification/PanelDb.v ===== *)
(** src/panel/db.rs: the SQLite database of the panel.

    A table is a map from its primary key or, for the tables with an automatic id, the list of
    its rows in the order of their insertion and the largest id that it ever had; a statement is a function.  [TEXT] compares byte by
    byte, a count is a 64-bit integer that turns into a floating-point number when it
    overflows.  The order of rows that a query leaves open and the fresh ids are SQLite's.
    The texts of dates are chrono's. *)

From S2P Require Import Prelude RustStr TextLines Collections Config.

(** * SQLite and chrono *)

(** Points in time, in nanoseconds since 1970. *)
Abbreviation Time := Z.
Definition HOUR : Z := 3600 * 1000000000.

Class Chrono := {
  to_rfc3339 : Time → bytes;    (** [Utc.to_rfc3339()] *)
  day_text : Time → bytes;      (** [format("%Y-%m-%d")] *)
}.
(** The texts of the dates of four-digit years are in the order of time. *)
Definition YEAR_10000 : Z := 253402300800 * 1000000000.
Definition dated (t : Time) : Prop := (0 ≤ t < YEAR_10000)%Z.
Class ChronoLaws `{Chrono} : Prop := {
  rfc3339_order : ∀ t u, dated t → dated u → bcmp (to_rfc3339 t) (to_rfc3339 u) = (t ?= u)%Z;
  day_text_mono : ∀ t u, dated t → dated u → (t ≤ u)%Z → bytes_le (day_text t) (day_text u);
}.

Class Sqlite := {
  next_rowid : Z → option Z;                     (** [AUTOINCREMENT], after the largest id so far *)
  next_rowid_greater : ∀ last i, next_rowid last = Some i → (last < i)%Z;
  row_order : ∀ {A}, list A → list A;            (** the order of the rows of a query *)
  row_order_perm : ∀ {A} (l : list A), row_order l ≡ₚ l;
  sql_like : bytes → bytes → bool;               (** [LIKE], of a pattern and a text *)
}.

(** A value of an [INTEGER] column. *)
Inductive Cell := Int (z : Z) | Real.
Definition i64_range (z : Z) : bool := ((- 2 ^ 63 <=? z) && (z <? 2 ^ 63))%Z.
Definition to_i64 (n : N) : Z := if (n <? 2 ^ 63)%N then Z.of_N n else (Z.of_N n - 2 ^ 64)%Z.
Definition to_u64 (z : Z) : N := Z.to_N (z mod 2 ^ 64).
Definition sql_add (a b : Cell) : Cell :=
  match a, b with
  | Int a, Int b => if i64_range (a + b) then Int (a + b) else Real
  | _, _ => Real
  end.

Inductive DbError :=
| Broken                       (** the file cannot be read or written *)
| Constraint                   (** a UNIQUE or PRIMARY KEY is violated *)
| TableFull | Overflow         (** no more ids; SUM overflows, or is not an integer *)
| EmptyPattern | NotFound (id : Z).

(** [SUM], read as an [i64]. *)
Fixpoint sum_cells (acc : Z) (l : list Cell) : result DbError Z :=
  match l with
  | [] => Ok acc
  | Int z :: l => if i64_range (acc + z) then sum_cells (acc + z) l else Err Overflow
  | Real :: _ => Err Overflow
  end.
Definition sql_sum (l : list Cell) : result DbError Z := sum_cells 0 l.

(** * The tables *)

Record DomainRow := {
  dr_id : Z; dr_pattern : bytes; dr_kind : bytes; dr_mode : bytes; dr_note : bytes; dr_created_at : bytes;
}.
Record IpTrafficRow := {
  it_client_ip : bytes; it_bytes_up : N; it_bytes_down : N; it_sessions : N; it_last_seen : bytes;
}.
Record IpDomainTrafficRow := {
  id_domain : bytes; id_bytes_up : N; id_bytes_down : N; id_sessions : N;
}.
Record DailyTrafficRow := {
  dt_day : bytes; dt_bytes_up : N; dt_bytes_down : N; dt_sessions : N;
}.
Record DnsQueryInsert := {
  qi_ts : bytes; qi_client_ip : bytes; qi_qtype : bytes; qi_domain : bytes; qi_action : bytes; qi_answer : bytes;
}.
Record DnsQueryRow := { qr_id : Z; qr : DnsQueryInsert }.

Record SessionRow := { se_created_at : bytes; se_expires_at : bytes }.
Record Counts := { up : Cell; down : Cell; times : Cell }.
Record IpCounts := { ip_counts : Counts; last_seen : bytes }.

(** A table with an automatic id. *)
Record Table (A : Type) := { rows : list A; last_id : Z }.
Arguments rows {A} _.
Arguments last_id {A} _.
Definition empty_table {A} : Table A := {| rows := []; last_id := 0 |}.
Definition with_rows {A} (l : list A) (t : Table A) : Table A := {| rows := l; last_id := last_id t |}.
Definition insert_row `{Sqlite} {A} (row : Z → A) (t : Table A) : result DbError (Z * Table A) :=
  match next_rowid (last_id t) with
  | None => Err TableFull
  | Some id => Ok (id, {| rows := rows t ++ [row id]; last_id := id |})
  end.

Record PanelDb := {
  settings : gmap bytes bytes;
  sessions : gmap bytes SessionRow;
  domains : Table DomainRow;
  traffic_by_ip_t : gmap (bytes * bytes) IpCounts;                  (** day, client *)
  traffic_by_ip_domain_t : gmap (bytes * bytes * bytes) Counts;     (** day, client, domain *)
  dns_queries : Table DnsQueryRow;
  broken : bool;
}.

(** What [open] creates, when the file is new. *)
Definition empty_db : PanelDb := {|
  settings := ∅; sessions := ∅; domains := empty_table; traffic_by_ip_t := ∅; traffic_by_ip_domain_t := ∅;
  dns_queries := empty_table; broken := false |}.

Definition with_settings (x : gmap bytes bytes) (db : PanelDb) : PanelDb := {|
  settings := x; sessions := sessions db; domains := domains db; traffic_by_ip_t := traffic_by_ip_t db;
  traffic_by_ip_domain_t := traffic_by_ip_domain_t db; dns_queries := dns_queries db; broken := broken db |}.
Definition with_sessions (x : gmap bytes SessionRow) (db : PanelDb) : PanelDb := {|
  settings := settings db; sessions := x; domains := domains db; traffic_by_ip_t := traffic_by_ip_t db;
  traffic_by_ip_domain_t := traffic_by_ip_domain_t db; dns_queries := dns_queries db; broken := broken db |}.
Definition with_domains (x : Table DomainRow) (db : PanelDb) : PanelDb := {|
  settings := settings db; sessions := sessions db; domains := x; traffic_by_ip_t := traffic_by_ip_t db;
  traffic_by_ip_domain_t := traffic_by_ip_domain_t db; dns_queries := dns_queries db; broken := broken db |}.
Definition with_traffic (x : gmap (bytes * bytes) IpCounts) (y : gmap (bytes * bytes * bytes) Counts)
    (db : PanelDb) : PanelDb := {|
  settings := settings db; sessions := sessions db; domains := domains db; traffic_by_ip_t := x;
  traffic_by_ip_domain_t := y; dns_queries := dns_queries db; broken := broken db |}.
Definition with_queries (x : Table DnsQueryRow) (db : PanelDb) : PanelDb := {|
  settings := settings db; sessions := sessions db; domains := domains db; traffic_by_ip_t := traffic_by_ip_t db;
  traffic_by_ip_domain_t := traffic_by_ip_domain_t db; dns_queries := x; broken := broken db |}.

(** A query, and a statement that changes the database (in a transaction: all or nothing). *)
Definition Query (A : Type) := PanelDb → result DbError A.
Definition Update (A : Type) := PanelDb → result DbError A * PanelDb.
Definition query {A} (f : PanelDb → result DbError A) : Query A := λ db,
  if broken db then Err Broken else f db.
Definition update {A} (f : PanelDb → result DbError (A * PanelDb)) : Update A := λ db,
  if broken db then (Err Broken, db) else
  match f db with Ok (a, db') => (Ok a, db') | Err e => (Err e, db) end.

(** * Settings and sessions *)

Definition get_setting (k : bytes) : Query (option bytes) := query (λ db, Ok (settings db !! k)).
Definition set_setting (k v : bytes) : Update unit := update (λ db,
  Ok (tt, with_settings (<[k := v]> (settings db)) db)).

Section sessions.
Context `{Chrono}.

Definition create_session (now : Time) (token : bytes) (ttl_hours : Z) : Update unit := update (λ db,
  match sessions db !! token with
  | Some _ => Err Constraint
  | None =>
      let row := {| se_created_at := to_rfc3339 now; se_expires_at := to_rfc3339 (now + ttl_hours * HOUR)%Z |} in
      Ok (tt, with_sessions (<[token := row]> (sessions db)) db)
  end).

(** [x > y] on [TEXT] *)
Definition text_gt (x y : bytes) : bool := match bcmp x y with Gt => true | _ => false end.

Definition session_valid (now : Time) (token : bytes) : Query bool := query (λ db,
  Ok (match sessions db !! token with
      | Some row => text_gt (se_expires_at row) (to_rfc3339 now)
      | None => false
      end)).

Definition delete_session (token : bytes) : Update unit := update (λ db,
  Ok (tt, with_sessions (delete token (sessions db)) db)).

Definition cleanup_sessions (now : Time) : Update unit := update (λ db,
  Ok (tt, with_sessions (filter (λ e, text_gt (se_expires_at e.2) (to_rfc3339 now) = true) (sessions db)) db)).

End sessions.

(** * Traffic *)

(** A row of a batch: client, domain, bytes up and down. *)
Abbreviation TrafficRow := (bytes * bytes * N * N)%type.

Section traffic.
Context `{Chrono} `{Sqlite}.

Definition add_counts (u d : N) (old : option Counts) : Counts :=
  match old with
  | None => {| up := Int (to_i64 u); down := Int (to_i64 d); times := Int 1 |}
  | Some c => {| up := sql_add (up c) (Int (to_i64 u)); down := sql_add (down c) (Int (to_i64 d));
                 times := sql_add (times c) (Int 1) |}
  end.

Definition add_row (day seen : bytes)
    (t : gmap (bytes * bytes) IpCounts * gmap (bytes * bytes * bytes) Counts) (r : TrafficRow) :=
  let '(ip, domain, u, d) := r in
  (<[(day, ip) := {| ip_counts := add_counts u d (ip_counts <$> t.1 !! (day, ip)); last_seen := seen |}]> t.1,
   <[(day, ip, domain) := add_counts u d (t.2 !! (day, ip, domain))]> t.2).

Definition apply_traffic_batch (now : Time) (rows : list TrafficRow) : Update unit := λ db,
  if decide (rows = []) then (Ok tt, db) else
  update (λ db,
    let '(t1, t2) := foldl (add_row (day_text now) (to_rfc3339 now))
                           (traffic_by_ip_t db, traffic_by_ip_domain_t db) rows in
    Ok (tt, with_traffic t1 t2 db)) db.

Definition day_between (from to day : bytes) : bool := bool_decide (bytes_le from day ∧ bytes_le day to).

(** [SUM(bytes_up), SUM(bytes_down), SUM(sessions)] of the rows of a group. *)
Definition sum_counts (l : list Counts) : result DbError (Z * Z * Z) :=
  u ← sql_sum (up <$> l); d ← sql_sum (down <$> l); n ← sql_sum (times <$> l); Ok (u, d, n).

Fixpoint result_list {A B} (f : A → result DbError B) (l : list A) : result DbError (list B) :=
  match l with
  | [] => Ok []
  | a :: l => b ← f a; bs ← result_list f l; Ok (b :: bs)
  end.

(** [GROUP BY]: the groups of the rows [l] by the key [f]. *)
Definition group_keys {A} (f : A → bytes) (l : list A) : list bytes :=
  sorted_keys (list_to_map ((λ a, (f a, tt)) <$> l) : gmap bytes unit).
Definition group_by {A B} (f : A → bytes) (g : bytes → list A → result DbError B) (l : list A)
    : result DbError (list B) :=
  result_list (λ k, g k (filter (λ a, f a = k) l)) (row_order (group_keys f l)).

(** [ORDER BY .. DESC LIMIT n]; the order of equal rows is left open. *)
Definition heavier {A} (w : A → Z) (a b : A) : Prop := (w b ≤ w a)%Z.
#[local] Instance heavier_dec {A} (w : A → Z) : RelDecision (heavier w).
Proof. unfold heavier. intros a b. apply _. Defined.
Definition order_desc {A} (w : A → Z) (l : list A) : list A := merge_sort (heavier w) (row_order l).
Definition sql_limit {A} (n : Z) (l : list A) : list A :=
  if (n <? 0)%Z then l else take (Z.to_nat n) l.

(** [MAX] *)
Definition text_max (x y : bytes) : bytes := if text_gt y x then y else x.

Definition ip_rows (from to : bytes) (db : PanelDb) : list (bytes * IpCounts) :=
  omap (λ e, if day_between from to e.1.1 then Some (e.1.2, e.2) else None)
       (row_order (map_to_list (traffic_by_ip_t db))).

Definition traffic_by_ip (from_day to_day : bytes) (limit : Z) : Query (list IpTrafficRow) := query (λ db,
  rows ← group_by fst (λ ip l,
    '(u, d, n) ← sum_counts (ip_counts ∘ snd <$> l);
    Ok ((u + d)%Z, {| it_client_ip := ip; it_bytes_up := to_u64 u; it_bytes_down := to_u64 d; it_sessions := to_u64 n;
                      it_last_seen := foldr text_max [] (last_seen ∘ snd <$> l) |})) (ip_rows from_day to_day db);
  Ok (snd <$> sql_limit limit (order_desc fst rows))).

Definition domain_rows (client_ip from to : bytes) (db : PanelDb) : list (bytes * Counts) :=
  omap (λ e, let '(day, ip, domain) := e.1 in
             if bool_decide (ip = client_ip) && day_between from to day then Some (domain, e.2) else None)
       (row_order (map_to_list (traffic_by_ip_domain_t db))).

Definition traffic_for_ip_domains (client_ip from_day to_day : bytes) (limit : Z)
    : Query (list IpDomainTrafficRow) := query (λ db,
  rows ← group_by fst (λ domain l,
    '(u, d, n) ← sum_counts (snd <$> l);
    Ok ((u + d)%Z, {| id_domain := domain; id_bytes_up := to_u64 u; id_bytes_down := to_u64 d; id_sessions := to_u64 n |})) (domain_rows client_ip from_day to_day db);
  Ok (snd <$> sql_limit limit (order_desc fst rows))).

(** The days are the groups, in their order. *)
Definition daily_totals (from_day to_day : bytes) : Query (list DailyTrafficRow) := query (λ db,
  let rows := omap (λ e, if day_between from_day to_day e.1.1 then Some (e.1.1, ip_counts e.2) else None)
                   (row_order (map_to_list (traffic_by_ip_t db))) in
  result_list (λ day,
    '(u, d, n) ← sum_counts (snd <$> filter (λ r, r.1 = day) rows);
    Ok {| dt_day := day; dt_bytes_up := to_u64 u; dt_bytes_down := to_u64 d; dt_sessions := to_u64 n |})
    (group_keys fst rows)).

End traffic.

(** * Domains *)

Section domains.
Context `{Unicode} `{Chrono} `{Sqlite}.

Definition kind_of (k : bytes) : bytes := if decide (k = §"wildcard") then k else §"exact".
Definition mode_of (m : bytes) : bytes := if decide (m = §"direct") then m else §"relay".

Definition by_pattern (a b : DomainRow) : Prop := bytes_le (dr_pattern a) (dr_pattern b).
#[local] Instance by_pattern_dec : RelDecision by_pattern.
Proof. unfold by_pattern. intros a b. apply _. Defined.

(** [ORDER BY pattern]; patterns are unique. *)
Definition list_domains : Query (list DomainRow) := query (λ db, Ok (merge_sort by_pattern (rows (domains db)))).

Definition has_pattern (p : bytes) (l : list DomainRow) : bool := existsb (λ r, bool_decide (dr_pattern r = p)) l.

Definition add_domain (now : Time) (pattern kind mode note : bytes) : Update Z := λ db,
  let pattern := to_lowercase (trim pattern) in
  if decide (pattern = []) then (Err EmptyPattern, db) else
  update (λ db,
    if has_pattern pattern (rows (domains db)) then Err Constraint else
    '(id, t) ← insert_row (λ id,
      {| dr_id := id; dr_pattern := pattern; dr_kind := kind_of kind; dr_mode := mode_of mode;
         dr_note := note; dr_created_at := to_rfc3339 now |}) (domains db);
    Ok (id, with_domains t db)) db.

Definition update_domain (id : Z) (pattern kind mode note : bytes) : Update unit := update (λ db,
  let pattern := to_lowercase (trim pattern) in
  let l := rows (domains db) in
  if existsb (λ r, bool_decide (dr_id r = id)) l then
    if has_pattern pattern (filter (λ r, dr_id r ≠ id) l) then Err Constraint
    else Ok (tt, with_domains (with_rows ((λ r,
      if decide (dr_id r = id)
      then {| dr_id := id; dr_pattern := pattern; dr_kind := kind_of kind; dr_mode := mode_of mode;
              dr_note := note; dr_created_at := dr_created_at r |}
      else r) <$> l) (domains db)) db)
  else Err (NotFound id)).

Definition delete_domain (id : Z) : Update unit := update (λ db,
  let l := rows (domains db) in
  if existsb (λ r, bool_decide (dr_id r = id)) l
  then Ok (tt, with_domains (with_rows (filter (λ r, dr_id r ≠ id) l) (domains db)) db)
  else Err (NotFound id)).

(** The kind and pattern of a line to import. *)
Definition import_line (raw : bytes) : option (bytes * bytes) :=
  let line := to_lowercase (trim raw) in
  if decide (line = []) then None else
  if starts_with §"#" line then None else
  let '(kind, pattern) :=
    match strip_prefix §"*." line with
    | Some rest => (§"wildcard", rest)
    | None => (§"exact", line)
    end in
  if decide (pattern = []) then None else Some (kind, pattern).

(** [INSERT .. ON CONFLICT(pattern) DO UPDATE SET mode] *)
Definition upsert_domain (created_at mode : bytes) (t : Table DomainRow) (kp : bytes * bytes)
    : result DbError (Table DomainRow) :=
  if has_pattern kp.2 (rows t) then
    Ok (with_rows ((λ r, if decide (dr_pattern r = kp.2)
              then {| dr_id := dr_id r; dr_pattern := dr_pattern r; dr_kind := dr_kind r; dr_mode := mode;
                      dr_note := dr_note r; dr_created_at := dr_created_at r |}
              else r) <$> rows t) t)
  else '(_, t) ← insert_row (λ id,
         {| dr_id := id; dr_pattern := kp.2; dr_kind := kp.1; dr_mode := mode; dr_note := []; dr_created_at := created_at |}) t;
       Ok t.

Fixpoint upsert_all (created_at mode : bytes) (t : Table DomainRow) (kps : list (bytes * bytes))
    : result DbError (Table DomainRow) :=
  match kps with
  | [] => Ok t
  | kp :: kps => t ← upsert_domain created_at mode t kp; upsert_all created_at mode t kps
  end.

Definition import_domains (now : Time) (text mode : bytes) : Update nat := update (λ db,
  let kps := omap import_line (lines text) in
  t ← upsert_all (to_rfc3339 now) (mode_of mode) (domains db) kps;
  Ok (length kps, with_domains t db)).

Definition relay_domains_for_dnsmasq : Query (list (bytes * bytes)) := query (λ db,
  Ok ((λ r, (dr_pattern r, dr_kind r)) <$> merge_sort by_pattern (filter (λ r, dr_mode r = §"relay") (rows (domains db))))).

Definition render_dnsmasq (domains : list (bytes * bytes)) (relay_ip : bytes) : bytes :=
  §"# Generated by SNIrelay admin panel" ++ [LF] ++ §"# relay_ip=" ++ relay_ip ++ [LF]
  ++ mjoin ((λ d, §"address=/" ++ d.1 ++ §"/" ++ relay_ip ++ [LF]) <$> domains).

End domains.

(** * DNS queries *)

Section queries.
Context `{Chrono} `{Sqlite}.

Definition insert_dns_query (row : DnsQueryInsert) : Update Z := update (λ db,
  '(id, t) ← insert_row (λ id, {| qr_id := id; qr := row |}) (dns_queries db);
  Ok (id, with_queries t db)).

Fixpoint insert_queries (rows : list DnsQueryInsert) (t : Table DnsQueryRow) : result DbError (Table DnsQueryRow) :=
  match rows with
  | [] => Ok t
  | row :: rows => '(_, t) ← insert_row (λ id, {| qr_id := id; qr := row |}) t; insert_queries rows t
  end.
Definition insert_dns_queries_batch (rows : list DnsQueryInsert) : Update unit := λ db,
  if decide (rows = []) then (Ok tt, db) else
  update (λ db, t ← insert_queries rows (dns_queries db); Ok (tt, with_queries t db)) db.

Definition set_result (action answer : bytes) (q : DnsQueryInsert) : DnsQueryInsert :=
  {| qi_ts := qi_ts q; qi_client_ip := qi_client_ip q; qi_qtype := qi_qtype q; qi_domain := qi_domain q;
     qi_action := action; qi_answer := answer |}.
Definition update_dns_query_result (id : Z) (action answer : bytes) : Update unit := update (λ db,
  Ok (tt, with_queries (with_rows
    ((λ r, if decide (qr_id r = id) then {| qr_id := id; qr := set_result action answer (qr r) |} else r)
     <$> rows (dns_queries db)) (dns_queries db)) db)).

Definition clamp (lo hi n : Z) : Z := Z.min (Z.max n lo) hi.

(** A filter that is given and not empty. *)
Definition opt_filter (f : bytes → bool) (o : option bytes) : bool :=
  match o with Some s => bool_decide (s = []) || f s | None => true end.
Definition percent (s : bytes) : bytes := §"%" ++ s ++ §"%".

Definition newer (a b : DnsQueryRow) : Prop := (qr_id b ≤ qr_id a)%Z.
#[local] Instance newer_dec : RelDecision newer.
Proof. unfold newer. intros a b. apply _. Defined.

Definition list_dns_queries (limit : Z) (domain_q client_q action_q : option bytes)
    : Query (list DnsQueryRow) := query (λ db,
  let rows := filter (λ r,
    opt_filter (λ d, sql_like (percent d) (qi_domain (qr r))) domain_q
    && opt_filter (λ c, sql_like (percent c) (qi_client_ip (qr r))) client_q
    && opt_filter (λ a, bool_decide (qi_action (qr r) = a)) action_q = true) (rows (dns_queries db)) in
  Ok (sql_limit (clamp 1 2000 limit) (merge_sort newer rows))).

Definition counted_actions : list bytes :=
  [§"query"; §"relay"; §"reply"; §"forwarded"; §"cached"; §"config"].
Definition dns_query_top_domains (limit : Z) : Query (list (bytes * Z)) := query (λ db,
  let rows := filter (λ r, qi_action (qr r) ∈ counted_actions) (rows (dns_queries db)) in
  groups ← group_by (λ r, qi_domain (qr r)) (λ d l, Ok (d, Z.of_nat (length l))) rows;
  Ok (sql_limit (clamp 1 100 limit) (order_desc snd groups))).

Definition clear_dns_queries : Update nat := update (λ db,
  Ok (length (rows (dns_queries db)), with_queries (with_rows [] (dns_queries db)) db)).

Definition prune_dns_queries (now : Time) (retain_hours : N) : Update nat := update (λ db,
  let cutoff := to_rfc3339 (now - to_i64 retain_hours * HOUR)%Z in
  let kept := filter (λ r, text_gt cutoff (qi_ts (qr r)) = false) (rows (dns_queries db)) in
  Ok (length (rows (dns_queries db)) - length kept, with_queries (with_rows kept (dns_queries db)) db)).

Definition dns_queries_count : Query Z := query (λ db, Ok (Z.of_nat (length (rows (dns_queries db))))).

End queries.
