(* ===== verification/PanelDbProofs.v ===== *)
(** The theorems on PanelDb: sessions live as long as they should and the tables stay
    well-formed; the traffic reports are in PanelTraffic. *)

From S2P Require Import Prelude RustStr TextLines Collections Config PanelDb.

Lemma text_gt_spec `{Chrono} `{!ChronoLaws} t u : dated t → dated u →
  text_gt (to_rfc3339 t) (to_rfc3339 u) = true ↔ (u < t)%Z.
Proof.
  intros Ht Hu. unfold text_gt. rewrite rfc3339_order by done.
  destruct (Z.compare_spec t u); split; (done || lia).
Qed.

(** * Sessions *)

Section sessions.
Context `{Chrono} `{!ChronoLaws}.
Context (ttl_hours : Z).
Abbreviation ttl := (ttl_hours * HOUR)%Z.

(** What happens to the table: a login, a logout, the hourly clean-up. *)
Inductive session_op := Login (t : Time) (token : bytes) | Logout (t : Time) (token : bytes) | Cleanup (t : Time).
Definition op_time (o : session_op) : Time := match o with Login t _ | Logout t _ | Cleanup t => t end.

Definition run_session_op (db : PanelDb) (o : session_op) : PanelDb :=
  match o with
  | Login t token => (create_session t token ttl_hours db).2
  | Logout _ token => (delete_session token db).2
  | Cleanup t => (cleanup_sessions t db).2
  end.

(** The specification: a login stands until its logout; the latest operation comes first. *)
Fixpoint standing (ops : list session_op) (token : bytes) : option Time :=
  match ops with
  | [] => None
  | Login t tok :: ops => if decide (tok = token) then Some t else standing ops token
  | Logout _ tok :: ops => if decide (tok = token) then None else standing ops token
  | Cleanup _ :: ops => standing ops token
  end.

(** A history, the latest operation first: the times do not decrease and are texts of
    four-digit years, and a token, being 32 random bytes, is issued once. *)
Fixpoint history_ok (ops : list session_op) (now : Time) : Prop :=
  match ops with
  | [] => True
  | o :: ops =>
      (op_time o ≤ now)%Z ∧ dated (op_time o) ∧ history_ok ops (op_time o)
      ∧ match o with
        | Login t token => dated (t + ttl)%Z ∧ (∀ o, o ∈ ops → match o with Login _ tok => tok ≠ token | _ => True end)
        | _ => True
        end
  end.

(** What the table holds after a history. *)
Record sessions_inv (ops : list session_op) (now : Time) (db : PanelDb) : Prop := {
  si_works : broken db = false;
  si_row : ∀ token row, sessions db !! token = Some row →
    ∃ t, standing ops token = Some t ∧ se_expires_at row = to_rfc3339 (t + ttl) ∧ dated (t + ttl)%Z
    ∧ (∃ t', Login t' token ∈ ops);
  si_gone : ∀ token t, standing ops token = Some t → sessions db !! token = None → (t + ttl ≤ now)%Z;
}.

Lemma history_le ops now o : history_ok ops now → o ∈ ops → (op_time o ≤ now)%Z.
Proof.
  revert now. induction ops as [|o' ops IH]; intros now; [by intros _ ?%elem_of_nil|].
  intros (Hle & _ & Hh & _) [->|Ho]%elem_of_cons; [done|]. specialize (IH _ Hh Ho). lia.
Qed.

Lemma sessions_step o ops now db1 :
  sessions_inv ops (op_time o) db1 → history_ok (o :: ops) now → sessions_inv (o :: ops) now (run_session_op db1 o).
Proof.
  intros [Hw Hrow Hgone] (Hle & Hdo & Hh & Ho).
  destruct o as [t token|t token|t]; cbn [run_session_op op_time] in *.
  - destruct Ho as [Hd Hfresh]. unfold create_session, update. rewrite Hw.
    destruct (sessions db1 !! token) as [row|] eqn:E.
    { destruct (Hrow token row E) as (_ & _ & _ & _ & t' & Hin). by specialize (Hfresh _ Hin). }
    split; cbn [snd with_sessions broken sessions standing]; [done| |].
    + intros tok row. rewrite lookup_insert_Some. intros [[<- <-]|[Hne Hr]].
      * exists t. rewrite decide_True by done. split_and!; [done | done | done | exists t; by left].
      * rewrite decide_False by done. destruct (Hrow tok row Hr) as (t0 & ? & ? & ? & t' & ?).
        exists t0. split_and!; [done.. | exists t'; by right].
    + intros tok t0. case_decide as Htok; [subst; by rewrite lookup_insert_eq|].
      rewrite lookup_insert_ne by done. intros Hs Hn. specialize (Hgone tok t0 Hs Hn). lia.
  - unfold delete_session, update. rewrite Hw.
    split; cbn [snd with_sessions broken sessions standing]; [done| |].
    + intros tok row. rewrite lookup_delete_Some. intros [Hne Hr]. rewrite decide_False by done.
      destruct (Hrow tok row Hr) as (t0 & ? & ? & ? & t' & ?). exists t0. split_and!; [done.. | exists t'; by right].
    + intros tok t0. case_decide; [done|]. rewrite lookup_delete_ne by done. intros Hs Hn.
      specialize (Hgone tok t0 Hs Hn). lia.
  - unfold cleanup_sessions, update. rewrite Hw.
    split; cbn [snd with_sessions broken sessions standing]; [done| |].
    + intros tok row. rewrite map_lookup_filter_Some. intros [Hr _].
      destruct (Hrow tok row Hr) as (t0 & ? & ? & ? & t' & ?). exists t0. split_and!; [done.. | exists t'; by right].
    + intros tok t0 Hs Hn. apply map_lookup_filter_None in Hn as [Hn|Hn].
      * specialize (Hgone tok t0 Hs Hn). lia.
      * destruct (sessions db1 !! tok) as [row|] eqn:E; [|specialize (Hgone tok t0 Hs E); lia].
        destruct (Hrow tok row E) as (t1 & Hs' & He' & Hd' & _). rewrite Hs in Hs'. injection Hs' as <-.
        specialize (Hn row eq_refl). cbn in Hn. rewrite He' in Hn.
        rewrite text_gt_spec in Hn by done. lia.
Qed.

Lemma sessions_run ops now db :
  broken db = false → sessions db = ∅ → history_ok ops now →
  sessions_inv ops now (foldr (λ o db, run_session_op db o) db ops).
Proof.
  intros Hb He. revert now. induction ops as [|o ops IH]; intros now Hh.
  { split; cbn; [done | | done]. intros token row. by rewrite He, lookup_empty. }
  cbn [foldr]. apply sessions_step; [|done]. by apply IH, Hh.
Qed.

(** The invariant is about the table of sessions, and lasts. *)
Lemma sessions_inv_ext ops now now' db db' :
  sessions db' = sessions db → broken db' = broken db → (now ≤ now')%Z →
  sessions_inv ops now db → sessions_inv ops now' db'.
Proof.
  intros Es Eb Hle [Hw Hrow Hgone]. split; rewrite ?Es, ?Eb; [done | done |].
  intros token t Hs Hn. specialize (Hgone token t Hs Hn). lia.
Qed.

Lemma session_valid_spec ops now db token :
  sessions_inv ops now db → dated now →
  session_valid now token db
  = Ok (match standing ops token with Some t => bool_decide (now < t + ttl)%Z | None => false end).
Proof.
  intros [Hw Hrow Hgone] Hnow. unfold session_valid, query. rewrite Hw. f_equal.
  destruct (sessions db !! token) as [row|] eqn:E.
  - destruct (Hrow token row E) as (t & -> & -> & Hd & _). apply eq_bool_prop_intro.
    rewrite bool_decide_spec. rewrite <- text_gt_spec by done. apply Is_true_true.
  - destruct (standing ops token) as [t|] eqn:Es; [|done].
    specialize (Hgone token t Es E). by rewrite bool_decide_eq_false_2 by lia.
Qed.
End sessions.

(** A session of the panel is valid exactly from its login until its logout or the end of its
    time, whichever comes first, after any history of logins, logouts and clean-ups; a
    clean-up never ends a session early, and the comparison of dates as texts is the
    comparison of times. *)
Theorem session_lifecycle `{Chrono} `{!ChronoLaws} ttl_hours db ops now token :
  broken db = false → sessions db = ∅ → history_ok ttl_hours ops now → dated now →
  session_valid now token (foldr (λ o db, run_session_op ttl_hours db o) db ops)
  = Ok (match standing ops token with
        | Some t => bool_decide (now < t + ttl_hours * HOUR)%Z
        | None => false
        end).
Proof.
  intros Hb He Hh Hnow. apply session_valid_spec; [|done]. by apply sessions_run.
Qed.

(** * Well-formed tables *)

(** The ids are unique and have not been given to other rows before. *)
Record ids_wf {A} (id : A → Z) (t : Table A) : Prop := {
  wf_unique : NoDup (id <$> rows t);
  wf_last : Forall (λ i, i ≤ last_id t)%Z (id <$> rows t);
}.
Definition domain_values_ok (r : DomainRow) : Prop :=
  (dr_kind r = §"exact" ∨ dr_kind r = §"wildcard") ∧ (dr_mode r = §"relay" ∨ dr_mode r = §"direct").
Record domains_wf (t : Table DomainRow) : Prop := {
  wf_ids : ids_wf dr_id t;
  wf_patterns : NoDup (dr_pattern <$> rows t);
  wf_values : Forall domain_values_ok (rows t);
}.
Record db_wf (db : PanelDb) : Prop := {
  wf_domains : domains_wf (domains db);
  wf_queries : ids_wf qr_id (dns_queries db);
}.

Section wf.
Context `{Unicode} `{Chrono} `{Sqlite}.

Lemma update_wf {A} (f : PanelDb → result DbError (A * PanelDb)) db :
  (∀ a db', f db = Ok (a, db') → db_wf db → db_wf db') → db_wf db → db_wf (update f db).2.
Proof.
  intros Hf Hwf. unfold update. destruct (broken db); [done|].
  destruct (f db) as [[a db']|e] eqn:E; [|done]. by eapply Hf.
Qed.

Lemma has_pattern_spec p l : has_pattern p l = true ↔ p ∈ dr_pattern <$> l.
Proof.
  unfold has_pattern. rewrite existsb_exists, list_elem_of_fmap. setoid_rewrite bool_decide_eq_true.
  setoid_rewrite <- list_elem_of_In. split; intros (r & ? & ?); exists r; auto.
Qed.

Lemma has_pattern_false p l : has_pattern p l = false ↔ p ∉ dr_pattern <$> l.
Proof. by rewrite <- has_pattern_spec, not_true_iff_false. Qed.

Lemma kind_of_ok k : kind_of k = §"exact" ∨ kind_of k = §"wildcard".
Proof. unfold kind_of. case_decide; auto. Qed.
Lemma mode_of_ok m : mode_of m = §"relay" ∨ mode_of m = §"direct".
Proof. unfold mode_of. case_decide; auto. Qed.

Lemma NoDup_snoc {A} (l : list A) a : NoDup l → a ∉ l → NoDup (l ++ [a]).
Proof.
  intros Hl Ha. apply NoDup_app. split_and!; [done | | apply NoDup_singleton].
  by intros x Hx ->%list_elem_of_singleton.
Qed.

Lemma insert_row_wf {A} (id : A → Z) (row : Z → A) t i t' :
  ids_wf id t → (∀ i, id (row i) = i) → insert_row row t = Ok (i, t') → ids_wf id t' ∧ rows t' = rows t ++ [row i].
Proof.
  intros [Hu Hl] Hid. unfold insert_row. destruct (next_rowid (last_id t)) as [j|] eqn:E; [|done].
  intros [= <- <-]. apply next_rowid_greater in E. split; [|done]. rewrite list.Forall_forall in Hl.
  split; cbn; rewrite fmap_app; cbn; rewrite Hid.
  - apply NoDup_snoc; [done|]. intros Hj. specialize (Hl j Hj). lia.
  - apply Forall_app. split; [|by repeat constructor]. apply list.Forall_forall. intros k Hk. specialize (Hl k Hk). lia.
Qed.

(** Rows changed in place, and rows removed. *)
Lemma ids_wf_map {A} (id : A → Z) (f : A → A) t :
  ids_wf id t → (∀ a, id (f a) = id a) → ids_wf id (with_rows (f <$> rows t) t).
Proof.
  intros [Hu Hl] Hf. assert (id <$> (f <$> rows t) = id <$> rows t) as E.
  { rewrite <- list_fmap_compose. apply list_fmap_ext. intros i a _. apply Hf. }
  by split; cbn; rewrite E.
Qed.
Lemma NoDup_filter_fmap {A B} (f : A → B) (P : A → Prop) `{∀ a, Decision (P a)} (l : list A) :
  NoDup (f <$> l) → NoDup (f <$> filter P l).
Proof. intros Hl. eapply sublist_NoDup; [exact Hl|]. apply fmap_sublist, sublist_filter. Qed.
Lemma ids_wf_filter {A} (id : A → Z) (P : A → Prop) `{∀ a, Decision (P a)} t :
  ids_wf id t → ids_wf id (with_rows (filter P (rows t)) t).
Proof.
  intros [Hu Hl]. split; cbn; [by apply NoDup_filter_fmap|]. cbn. rewrite Forall_fmap in Hl |- *.
  rewrite list.Forall_forall in Hl |- *. intros a [_ Ha]%list_elem_of_filter. by apply Hl.
Qed.

Lemma domains_wf_insert (row : Z → DomainRow) t i t' :
  domains_wf t → (∀ i, dr_id (row i) = i) → (∀ i j, dr_pattern (row i) = dr_pattern (row j)) →
  dr_pattern (row i) ∉ dr_pattern <$> rows t → domain_values_ok (row i) →
  insert_row row t = Ok (i, t') → domains_wf t'.
Proof.
  intros [Hi Hp Hv] Hid Hsame Hpat Hval E. destruct (insert_row_wf dr_id row t i t' Hi Hid E) as [Hi' Hr].
  split; [done | |]; rewrite Hr.
  - rewrite fmap_app. by apply NoDup_snoc.
  - apply Forall_app. by split; [|constructor; [|constructor]].
Qed.

Lemma domains_wf_map t (f : DomainRow → DomainRow) :
  domains_wf t → (∀ r, dr_id (f r) = dr_id r) → NoDup (dr_pattern <$> (f <$> rows t)) →
  (∀ r, domain_values_ok r → domain_values_ok (f r)) →
  domains_wf (with_rows (f <$> rows t) t).
Proof.
  intros [Hi Hp Hv] Hid Hpat Hval. split; [by apply ids_wf_map | done |].
  rewrite list.Forall_forall in Hv. apply Forall_fmap, list.Forall_forall. intros r Hr. by apply Hval, Hv.
Qed.

Lemma NoDup_map_one {A B} `{EqDecision A} (g : A → B) (l : list A) (P : A → Prop) `{∀ a, Decision (P a)} b :
  NoDup (g <$> l) → (∀ a a', a ∈ l → a' ∈ l → P a → P a' → a = a') →
  b ∉ g <$> filter (λ a, ¬ P a) l →
  NoDup ((λ a, if decide (P a) then b else g a) <$> l).
Proof.
  intros Hnd Huniq Hb. induction l as [|a l IH]; [constructor|].
  rewrite fmap_cons in Hnd |- *. apply NoDup_cons in Hnd as [Ha Hnd].
  assert (b ∉ g <$> filter (λ a, ¬ P a) l) as Hb'.
  { intros Hin. apply Hb. rewrite filter_cons. case_decide; [|done]. by right. }
  constructor; [|apply IH; [done | | done]; intros x y Hx Hy; apply Huniq; by right].
  intros (a' & E & Ha')%list_elem_of_fmap. destruct (decide (P a)) as [HPa|HPa], (decide (P a')) as [HPa'|HPa'].
  - rewrite (Huniq a a' ltac:(by left) ltac:(by right) HPa HPa') in Ha. apply Ha. by apply list_elem_of_fmap_2.
  - apply Hb'. rewrite E. by apply list_elem_of_fmap_2, list_elem_of_filter.
  - apply Hb. rewrite <- E. apply list_elem_of_fmap_2, list_elem_of_filter. split; [done | by left].
  - apply Ha. rewrite E. by apply list_elem_of_fmap_2.
Qed.

Lemma upsert_all_wf created mode t kps t' :
  (mode = §"relay" ∨ mode = §"direct") → Forall (λ kp, kp.1 = §"exact" ∨ kp.1 = §"wildcard") kps →
  domains_wf t → upsert_all created mode t kps = Ok t' → domains_wf t'.
Proof.
  intros Hm Hkps. revert t. induction Hkps as [|kp kps Hk _ IH]; intros t Ht; cbn [upsert_all]; [by intros [= <-]|].
  unfold upsert_domain. destruct (has_pattern kp.2 (rows t)) eqn:E; cbn [mbind result_bind].
  - apply IH. apply domains_wf_map; [done | | |].
    + intros r. by case_decide.
    + rewrite <- list_fmap_compose. erewrite list_fmap_ext; [apply Ht|]. intros i r _. cbn. by case_decide.
    + intros r [? ?]. case_decide; by split.
  - destruct (insert_row _ t) as [[i t1]|] eqn:Ei; [|done]. cbn [mbind result_bind]. apply IH.
    apply has_pattern_false in E. by eapply (domains_wf_insert _ t i t1); [.. | exact Ei].
Qed.

Lemma import_line_kind raw kp : import_line raw = Some kp → kp.1 = §"exact" ∨ kp.1 = §"wildcard".
Proof.
  unfold import_line. case_decide; [done|]. destruct (starts_with _ _); [done|].
  destruct (strip_prefix _ _); case_decide; intros [= <-]; auto.
Qed.

Lemma insert_queries_wf rows t t' : ids_wf qr_id t → insert_queries rows t = Ok t' → ids_wf qr_id t'.
Proof.
  revert t. induction rows as [|row rows IH]; intros t Ht; cbn [insert_queries]; [by intros [= <-]|].
  destruct (insert_row _ t) as [[i t1]|] eqn:E; [|done]. cbn [mbind result_bind]. apply IH.
  by apply (insert_row_wf qr_id (λ id, {| qr_id := id; qr := row |}) t i t1 Ht (λ _, eq_refl) E).
Qed.

(** The changes that the panel makes to its database. *)
Inductive db_op :=
| SetSetting (k v : bytes)
| CreateSession (t : Time) (token : bytes) (ttl : Z) | DeleteSession (token : bytes) | CleanupSessions (t : Time)
| ApplyTraffic (t : Time) (rows : list TrafficRow)
| AddDomain (t : Time) (pattern kind mode note : bytes) | UpdateDomain (id : Z) (pattern kind mode note : bytes)
| DeleteDomain (id : Z) | ImportDomains (t : Time) (text mode : bytes)
| InsertQuery (row : DnsQueryInsert) | InsertQueries (rows : list DnsQueryInsert)
| UpdateQuery (id : Z) (action answer : bytes) | ClearQueries | PruneQueries (t : Time) (hours : N)
| Breaks (b : bool).   (** the file becomes unusable, or usable again *)

Definition run_db_op (db : PanelDb) (o : db_op) : PanelDb :=
  match o with
  | SetSetting k v => (set_setting k v db).2
  | CreateSession t token ttl => (create_session t token ttl db).2
  | DeleteSession token => (delete_session token db).2
  | CleanupSessions t => (cleanup_sessions t db).2
  | ApplyTraffic t rows => (apply_traffic_batch t rows db).2
  | AddDomain t p k m n => (add_domain t p k m n db).2
  | UpdateDomain id p k m n => (update_domain id p k m n db).2
  | DeleteDomain id => (delete_domain id db).2
  | ImportDomains t text m => (import_domains t text m db).2
  | InsertQuery row => (insert_dns_query row db).2
  | InsertQueries rows => (insert_dns_queries_batch rows db).2
  | UpdateQuery id a r => (update_dns_query_result id a r db).2
  | ClearQueries => (clear_dns_queries db).2
  | PruneQueries t h => (prune_dns_queries t h db).2
  | Breaks b => {| settings := settings db; sessions := sessions db; domains := domains db;
                   traffic_by_ip_t := traffic_by_ip_t db; traffic_by_ip_domain_t := traffic_by_ip_domain_t db;
                   dns_queries := dns_queries db; broken := b |}
  end.

Lemma update_domain_wf db id p k m n : db_wf db → db_wf (update_domain id p k m n db).2.
Proof.
  intros Hwf. apply update_wf; [|done]. intros ? ?. cbv zeta. destruct (existsb _ _); [|done].
  destruct (has_pattern _ _) eqn:E; [done|]. intros [= <- <-] [Hd Hq]. split; [|done].
  apply has_pattern_false in E. apply domains_wf_map; [done | | |].
  - intros r. by case_decide; subst.
  - rewrite <- list_fmap_compose.
    rewrite (list_fmap_ext _ (λ r, if decide (dr_id r = id) then to_lowercase (trim p) else dr_pattern r))
      by (intros i r _; cbn; by case_decide).
    assert (EqDecision DomainRow) by solve_decision.
    apply NoDup_map_one; [apply Hd | | done].
    intros x y Hx Hy Hxi Hyi. destruct Hd as [[Hi _] _ _]. clear -Hi Hx Hy Hxi Hyi.
    apply list_elem_of_lookup in Hx as [i Hx], Hy as [j Hy].
    assert (i = j) as ->; [|congruence].
    eapply (NoDup_lookup (dr_id <$> rows (domains db))); [done | by rewrite list_lookup_fmap, Hx |].
    rewrite list_lookup_fmap, Hy. cbn. congruence.
  - intros r [? ?]. case_decide; [|done]. split; [apply kind_of_ok | apply mode_of_ok].
Qed.

Lemma add_domain_wf db t p k m n : db_wf db → db_wf (add_domain t p k m n db).2.
Proof.
  intros Hwf. unfold add_domain. cbv zeta. case_decide; [done|]. apply update_wf; [|done]. intros ? ?.
  destruct (has_pattern _ _) eqn:E; [done|]. apply has_pattern_false in E.
  destruct (insert_row _ _) as [[i t1]|] eqn:Ei; [|done]. cbn [mbind result_bind].
  intros [= <- <-] [Hd Hq]. split; [|done].
  eapply (domains_wf_insert _ (domains db) i t1); [.. | exact Ei]; [done | done | done | done |].
  split; [apply kind_of_ok | apply mode_of_ok].
Qed.

Lemma delete_domain_wf db id : db_wf db → db_wf (delete_domain id db).2.
Proof.
  intros Hwf. apply update_wf; [|done]. intros ? ?. cbv zeta. destruct (existsb _ _); [|done].
  intros [= <- <-] [[Hi Hp Hv] Hq]. split; [|done].
  split; [by apply ids_wf_filter | by apply NoDup_filter_fmap |]. rewrite list.Forall_forall in Hv |- *.
  intros r [_ Hr]%list_elem_of_filter. by apply Hv.
Qed.

Lemma run_db_op_wf db o : db_wf db → db_wf (run_db_op db o).
Proof.
  intros Hwf. destruct o as [k v|t token ttl|token|t|t rws|t p k m n|id p k m n|id|t text m|row|rws|id a r| |t h|b];
    cbn [run_db_op]; first [by apply add_domain_wf | by apply update_domain_wf | by apply delete_domain_wf | idtac].
  - apply update_wf; [|done]. intros ? ? [= <- <-] [? ?]. by split.
  - apply update_wf; [|done]. intros ? ?. destruct (sessions db !! token); [done|]. intros [= <- <-] [? ?]. by split.
  - apply update_wf; [|done]. intros ? ? [= <- <-] [? ?]. by split.
  - apply update_wf; [|done]. intros ? ? [= <- <-] [? ?]. by split.
  - unfold apply_traffic_batch. case_decide; [done|]. apply update_wf; [|done]. intros ? ?.
    destruct (foldl _ _ rws). intros [= <- <-] [? ?]. by split.
  - apply update_wf; [|done]. intros ? ?. cbv zeta. destruct (upsert_all _ _ (domains db) _) as [l|] eqn:El; [|done].
    intros [= <- <-] [Hd Hq]. split; [|done].
    eapply upsert_all_wf; [apply mode_of_ok | | exact Hd | exact El].
    apply list.Forall_forall. intros kp (raw & _ & Hraw)%list_elem_of_omap. by eapply import_line_kind.
  - apply update_wf; [|done]. intros ? ?. destruct (insert_row _ _) as [[i t1]|] eqn:E; [|done]. cbn [mbind result_bind].
    intros [= <- <-] [Hd Hq]. split; [done|]. by apply (insert_row_wf qr_id (λ id, {| qr_id := id; qr := row |}) _ i t1 Hq (λ _, eq_refl) E).
  - unfold insert_dns_queries_batch. case_decide; [done|]. apply update_wf; [|done]. intros ? ?.
    destruct (insert_queries _ _) as [l|] eqn:E; [|done]. cbn [mbind result_bind]. intros [= <- <-] [Hd Hq]. split; [done|].
    by eapply insert_queries_wf.
  - apply update_wf; [|done]. intros ? ? [= <- <-] [Hd Hq]. split; [done|]. apply ids_wf_map; [done|].
    intros q. by case_decide; subst.
  - apply update_wf; [|done]. intros ? ? [= <- <-] [Hd Hq]. split; [done|]. by split; constructor.
  - apply update_wf; [|done]. intros ? ? [= <- <-] [Hd Hq]. split; [done|]. by apply ids_wf_filter.
  - destruct Hwf. by split.
Qed.
End wf.

(** C40: The tables stay well-formed under every operation of the panel, failing ones and a database
    that breaks down in between included: ids and patterns of domains are unique, their kinds
    and modes are those of the program, and the ids of the query log are unique. *)
Theorem db_well_formed `{Unicode} `{Chrono} `{Sqlite} ops : db_wf (foldl run_db_op empty_db ops).
Proof.
  assert (db_wf empty_db) as Hwf by (repeat (constructor || split)).
  revert Hwf. generalize empty_db. induction ops as [|o ops IH]; intros db Hwf; [done|].
  apply IH. by apply run_db_op_wf.
Qed.

(** * Examples *)

(** Texts of dates for the examples: numbers of nine bytes. *)
Fixpoint big_endian (w : nat) (n : N) : bytes :=
  match w with O => [] | S w => big_endian w (n / 256) ++ [as_u8 n] end.

Lemma bcmp_snoc s t a b : length s = length t →
  bcmp (s ++ [a]) (t ++ [b]) = match bcmp s t with Eq => (bn a ?= bn b)%N | c => c end.
Proof.
  revert t. induction s as [|x s IH]; intros [|y t]; cbn; try done; intros Hl.
  - by destruct (bn a ?= bn b)%N.
  - rewrite IH by lia. by destruct (bn x ?= bn y)%N.
Qed.

Lemma length_big_endian w n : length (big_endian w n) = w.
Proof. revert n. induction w as [|w IH]; intros n; [done|]. cbn. rewrite length_app, IH. cbn. lia. Qed.

Lemma big_endian_order w n m : (n < 256 ^ N.of_nat w)%N → (m < 256 ^ N.of_nat w)%N →
  bcmp (big_endian w n) (big_endian w m) = (n ?= m)%N.
Proof.
  revert n m. induction w as [|w IH]; intros n m Hn Hm.
  { cbn in *. replace n with 0%N by lia. by replace m with 0%N by lia. }
  rewrite Nat2N.inj_succ, N.pow_succ_r' in Hn, Hm. cbn [big_endian].
  rewrite bcmp_snoc by by rewrite !length_big_endian.
  rewrite IH by (apply N.Div0.div_lt_upper_bound; lia). rewrite !bn_as_u8.
  pose proof (N.div_mod' n 256). pose proof (N.div_mod' m 256).
  pose proof (N.mod_lt n 256 ltac:(lia)). pose proof (N.mod_lt m 256 ltac:(lia)). clear IH Hn Hm.
  generalize dependent (n mod 256)%N. generalize dependent (m mod 256)%N.
  generalize dependent (n / 256)%N. generalize dependent (m / 256)%N. intros.
  repeat match goal with |- context [(?x ?= ?y)%N] => destruct (N.compare_spec x y) end; (done || lia).
Qed.

Definition DAY : Z := 24 * HOUR.
Definition example_chrono : Chrono := {|
  to_rfc3339 t := big_endian 9 (Z.to_N t);
  day_text t := big_endian 9 (Z.to_N (t / DAY)) |}.

Lemma dated_bound t : dated t → (Z.to_N t < 256 ^ N.of_nat 9)%N.
Proof. unfold dated, YEAR_10000. change (256 ^ N.of_nat 9)%N with 4722366482869645213696%N. lia. Qed.

#[local] Existing Instance example_chrono.
Lemma example_chrono_laws : ChronoLaws.
Proof.
  split.
  - intros t u Ht Hu. cbn -[big_endian]. rewrite big_endian_order by by apply dated_bound.
    unfold dated in *. rewrite Z2N.inj_compare by lia. done.
  - intros t u Ht Hu Htu. unfold bytes_le. cbn -[big_endian].
    assert (∀ t, dated t → 0 ≤ t / DAY ≤ t)%Z as Hday.
    { clear. unfold dated. intros t [Ht _]. unfold DAY, HOUR. split; [by apply Z.div_pos | apply Z.div_le_upper_bound; lia]. }
    pose proof (Hday t Ht). pose proof (Hday u Hu). pose proof (dated_bound t Ht). pose proof (dated_bound u Hu).
    rewrite big_endian_order by lia. rewrite Z2N.inj_compare by lia.
    intros Hgt. change ((t / DAY) > (u / DAY))%Z in Hgt.
    assert (t / DAY ≤ u / DAY)%Z by by apply Z.div_le_mono. lia.
Qed.

#[local] Existing Instance example_chrono_laws.

(** One more than the last id; rows as they come; [LIKE] without its wildcards. *)
Definition example_next (last : Z) : option Z := if (last <? 2 ^ 63 - 1)%Z then Some (last + 1)%Z else None.
Lemma example_next_greater last i : example_next last = Some i → (last < i)%Z.
Proof. unfold example_next. destruct (last <? _)%Z; [|done]. intros [= <-]. lia. Qed.
Definition example_sqlite : Sqlite := {|
  next_rowid := example_next; next_rowid_greater := example_next_greater;
  row_order A l := l; row_order_perm A l := Permutation_refl l;
  sql_like p s := bool_decide (p = percent s) |}.

(** An admin logs in on another day, the clean-up runs 14 hours later, and 12 hours is the
    limit; a second session is ended by its user. *)
Example session_lifecycle_witness :
  let t := (1700000000 * 1000000000)%Z in
  let ops := [Cleanup (t + 14 * HOUR); Logout (t + 13 * HOUR) §"bb"; Login (t + 12 * HOUR) §"bb"; Login t §"aa"]%Z in
  session_valid (t + 15 * HOUR)%Z §"aa" (foldr (λ o db, run_session_op 12 db o) empty_db ops) = Ok false
  ∧ session_valid (t + 11 * HOUR)%Z §"aa" (foldr (λ o db, run_session_op 12 db o) empty_db [Login t §"aa"]) = Ok true.
Proof.
  split.
  - rewrite session_lifecycle.
    + reflexivity.
    + done.
    + done.
    + cbn. unfold dated, YEAR_10000, HOUR. split_and!; try lia; try done.
      all: intros o Ho; repeat (apply elem_of_cons in Ho as [->|Ho]; [done|]); by apply elem_of_nil in Ho.
    + unfold dated, YEAR_10000, HOUR. lia.
  - rewrite session_lifecycle.
    + reflexivity.
    + done.
    + done.
    + cbn. unfold dated, YEAR_10000, HOUR. split_and!; try lia; try done.
      intros o Ho. by apply elem_of_nil in Ho.
    + unfold dated, YEAR_10000, HOUR. lia.
Defined.
