(* ===== verification/PanelTraffic.v ===== *)
(** src/panel/traffic.rs, and the theorems on the traffic tables of PanelDb: from the sample
    that a connection records to the reports of the panel. *)

From S2P Require Import Prelude RustStr TextLines Collections Config PanelDb PanelDbProofs.

(** * Sums of cells *)

Definition sumN (l : list N) : N := foldr N.add 0%N l.
Lemma sumN_app l k : sumN (l ++ k) = (sumN l + sumN k)%N.
Proof. induction l as [|n l IH]; cbn; [done|]. unfold sumN in *. cbn. rewrite IH. lia. Qed.

Definition BOUND : N := 2 ^ 63.

Lemma to_i64_small n : (n < BOUND)%N → to_i64 n = Z.of_N n.
Proof. intros Hn. unfold to_i64. apply N.ltb_lt in Hn. unfold BOUND in Hn. by rewrite Hn. Qed.
Lemma to_u64_of_N n : (n < BOUND)%N → to_u64 (Z.of_N n) = n.
Proof.
  intros Hn. unfold to_u64. rewrite Z.mod_small; [apply N2Z.id|]. unfold BOUND in Hn. lia.
Qed.
Lemma i64_range_of_N n : (n < BOUND)%N → i64_range (Z.of_N n) = true.
Proof. intros Hn. unfold i64_range, BOUND in *. rewrite andb_true_iff, Z.leb_le, Z.ltb_lt. lia. Qed.

Lemma sum_cells_ok (l : list N) acc : (acc + sumN l < BOUND)%N →
  sum_cells (Z.of_N acc) ((λ n, Int (Z.of_N n)) <$> l) = Ok (Z.of_N (acc + sumN l)).
Proof.
  revert acc. induction l as [|n l IH]; intros acc Hb; cbn [sum_cells fmap list_fmap sumN foldr] in *.
  - by rewrite N.add_0_r.
  - change (foldr N.add 0%N l) with (sumN l) in *. rewrite <- N2Z.inj_add.
    rewrite i64_range_of_N by lia. rewrite IH by lia. do 2 f_equal. lia.
Qed.

Lemma sql_sum_ok (l : list N) : (sumN l < BOUND)%N → sql_sum ((λ n, Int (Z.of_N n)) <$> l) = Ok (Z.of_N (sumN l)).
Proof. intros Hb. unfold sql_sum. change 0%Z with (Z.of_N 0). by rewrite sum_cells_ok by lia. Qed.

(** * A table and the log of what was added to it *)

Section table.
Context {K : Type} `{Countable K}.

(** A key, bytes up and bytes down. *)
Abbreviation Entry := (K * (N * N))%type.
Definition ups (l : list Entry) : N := sumN ((λ e, e.2.1) <$> l).
Definition downs (l : list Entry) : N := sumN ((λ e, e.2.2) <$> l).
Definition number (l : list Entry) : N := N.of_nat (length l).
Definition bounded (l : list Entry) : Prop := (ups l < BOUND ∧ downs l < BOUND ∧ number l < BOUND)%N.

Definition cell_of (l : list Entry) : option Counts :=
  match l with
  | [] => None
  | _ => Some {| up := Int (Z.of_N (ups l)); down := Int (Z.of_N (downs l)); times := Int (Z.of_N (number l)) |}
  end.
Definition add_entry (m : gmap K Counts) (e : Entry) : gmap K Counts :=
  <[e.1 := add_counts e.2.1 e.2.2 (m !! e.1)]> m.

Lemma ups_app l k : ups (l ++ k) = (ups l + ups k)%N.
Proof. unfold ups. by rewrite fmap_app, sumN_app. Qed.
Lemma downs_app l k : downs (l ++ k) = (downs l + downs k)%N.
Proof. unfold downs. by rewrite fmap_app, sumN_app. Qed.
Lemma number_app l k : number (l ++ k) = (number l + number k)%N.
Proof. unfold number. rewrite length_app. lia. Qed.

Lemma bounded_app l k : bounded (l ++ k) → bounded l ∧ bounded k.
Proof. unfold bounded. rewrite ups_app, downs_app, number_app. intuition lia. Qed.

Lemma bounded_filter (P : Entry → Prop) `{∀ e, Decision (P e)} l : bounded l → bounded (filter P l).
Proof.
  assert (∀ l, (ups (filter P l) ≤ ups l ∧ downs (filter P l) ≤ downs l ∧ number (filter P l) ≤ number l)%N) as Hle.
  { clear l. induction l as [|e l IH]; [done|]. rewrite filter_cons.
    change (e :: l) with ([e] ++ l). rewrite ups_app, downs_app, number_app.
    case_decide; [|lia]. change (e :: filter P l) with ([e] ++ filter P l). rewrite ups_app, downs_app, number_app. lia. }
  unfold bounded. specialize (Hle l). lia.
Qed.

Lemma add_counts_cell u d l k : bounded (l ++ [(k, (u, d))]) →
  Some (add_counts u d (cell_of l)) = cell_of (l ++ [(k, (u, d))]).
Proof.
  unfold bounded. rewrite ups_app, downs_app, number_app. unfold ups, downs, number.
  cbn [fmap list_fmap sumN foldr fst snd length]. intros (Hu & Hd & Hn).
  destruct l as [|e l]; cbn [cell_of add_counts app].
  - unfold ups, downs, number. cbn [fmap list_fmap sumN foldr fst snd length] in *.
    rewrite !to_i64_small by lia. do 2 f_equal; f_equal; lia.
  - change (e :: l ++ [(k, (u, d))]) with ((e :: l) ++ [(k, (u, d))]). unfold ups, downs, number.
    rewrite !fmap_app, !sumN_app, length_app. cbn [fmap list_fmap sumN foldr fst snd length up down times] in *.
    change (foldr N.add 0%N ?x) with (sumN x) in *.
    unfold sql_add. rewrite !to_i64_small by lia. rewrite <- !N2Z.inj_add. change 1%Z with (Z.of_N 1). rewrite <- !N2Z.inj_add.
    rewrite !i64_range_of_N by lia. do 2 f_equal; f_equal; f_equal; lia.
Qed.

Lemma table_cells log k : bounded log →
  foldl add_entry ∅ log !! k = cell_of (filter (λ e, e.1 = k) log).
Proof.
  induction log as [|[k' [u d]] log IH] using rev_ind; intros Hb; [done|].
  rewrite foldl_app. cbn [foldl]. unfold add_entry at 1. cbn [fst snd].
  specialize (IH (proj1 (bounded_app _ _ Hb))). rewrite filter_app.
  destruct (decide (k' = k)) as [->|Hne].
  - rewrite lookup_insert_eq, IH. rewrite (filter_cons_True _ (k, (u, d))) by done.
    rewrite <- (add_counts_cell u d _ k); [done|].
    apply (bounded_filter (λ e, e.1 = k)) in Hb. rewrite filter_app, (filter_cons_True _ (k, (u, d))) in Hb by done.
    exact Hb.
  - rewrite lookup_insert_ne, IH by done. rewrite (filter_cons_False _ (k', (u, d))) by done. by rewrite app_nil_r.
Qed.

(** ** The sum over the keys of a group *)

Lemma sum_partition (f : Entry → N) (log : list Entry) (ks : list K) (P : K → Prop) `{∀ k, Decision (P k)} :
  NoDup ks → (∀ k, k ∈ ks → P k) → (∀ e, e ∈ log → P e.1 → e.1 ∈ ks) →
  sumN ((λ k, sumN (f <$> filter (λ e, e.1 = k) log)) <$> ks) = sumN (f <$> filter (λ e, P e.1) log).
Proof.
  intros Hnd HP. induction log as [|e log IH]; intros Hin.
  - cbn. clear. induction ks as [|k ks IHk]; [done|]. cbn. exact IHk.
  - assert (∀ ks, NoDup ks → sumN ((λ k, sumN (f <$> filter (λ e0, e0.1 = k) (e :: log))) <$> ks)
      = (sumN ((λ k, sumN (f <$> filter (λ e0, e0.1 = k) log)) <$> ks) + if decide (e.1 ∈ ks) then f e else 0)%N) as Hstep.
    { clear ks Hnd HP IH Hin. intros ks. induction 1 as [|k ks Hk Hnd IHk]; [done|].
      rewrite !fmap_cons. unfold sumN in IHk |- *. cbn [foldr]. rewrite IHk. clear IHk.
      rewrite (filter_cons _ e). destruct (decide (e.1 = k)) as [->|Hne].
      - rewrite fmap_cons. cbn [foldr]. destruct (decide (k ∈ ks)) as [?|_]; [done|].
        destruct (decide (k ∈ k :: ks)) as [_|Hn]; [lia | destruct Hn; by left].
      - destruct (decide (e.1 ∈ ks)) as [Hi|Hi], (decide (e.1 ∈ k :: ks)) as [Hi'|Hi']; try lia.
        + destruct Hi'. by right.
        + by apply elem_of_cons in Hi' as [?|?]. }
    rewrite Hstep, IH by (done || (intros e' He'; apply Hin; by right)).
    rewrite filter_cons. destruct (decide (P e.1)) as [HPe|HPe].
    + rewrite decide_True by (apply Hin; [by left | done]). rewrite fmap_cons. unfold sumN. cbn [foldr]. lia.
    + rewrite decide_False; [lia|]. intros He. by apply HPe, HP.
Qed.

Lemma group_sums (log : list Entry) (ks : list K) (P : K → Prop) `{∀ k, Decision (P k)} :
  bounded log → NoDup ks → (∀ k, k ∈ ks ↔ is_Some (foldl add_entry ∅ log !! k) ∧ P k) →
  let l := filter (λ e, P e.1) log in
  sum_counts (omap (foldl add_entry ∅ log !!.) ks) = Ok (Z.of_N (ups l), Z.of_N (downs l), Z.of_N (number l)).
Proof.
  intros Hb Hnd Hks. cbv zeta.
  assert (∀ e, e ∈ log → P e.1 → e.1 ∈ ks) as Hin.
  { intros e He HPe. apply Hks. split; [|done]. rewrite table_cells by done.
    destruct (filter (λ e0, e0.1 = e.1) log) eqn:E; [|by eexists].
    assert (e ∈ filter (λ e0, e0.1 = e.1) log) as Hf by by apply list_elem_of_filter.
    rewrite E in Hf. by apply elem_of_nil in Hf. }
  assert (∀ (f : Entry → N),
    sumN ((λ k, sumN (f <$> filter (λ e, e.1 = k) log)) <$> ks) = sumN (f <$> filter (λ e, P e.1) log)) as Hpart.
  { intros f. apply sum_partition; [done | | done]. intros k Hk. by apply Hks. }
  assert (∀ l : list Entry, sumN ((λ _, 1%N) <$> l) = number l) as Hone.
  { induction l as [|e l IH]; [done|]. rewrite fmap_cons. unfold sumN, number in *. cbn [foldr length]. lia. }
  apply (bounded_filter (λ e, P e.1)) in Hb as Hbf. destruct Hbf as (Hbu & Hbd & Hbn).
  set (cell := λ k, filter (λ e : Entry, e.1 = k) log) in *.
  assert (omap (foldl add_entry ∅ log !!.) ks
    = (λ k, {| up := Int (Z.of_N (ups (cell k))); down := Int (Z.of_N (downs (cell k)));
               times := Int (Z.of_N (number (cell k))) |}) <$> ks) as ->.
  { assert (∀ k, k ∈ ks → is_Some (foldl add_entry ∅ log !! k)) as Hsome by by intros k [? _]%Hks.
    apply omap_some, list.Forall_forall. intros k Hk. destruct (Hsome k Hk) as [c Hc]. rewrite Hc.
    rewrite table_cells in Hc by done. fold (cell k) in Hc. destruct (cell k); [done|]. by injection Hc as <-. }
  unfold sum_counts. rewrite <- !list_fmap_compose. unfold compose. cbn [up down times].
  assert (∀ g : K → N, (λ k, Int (Z.of_N (g k))) <$> ks = (λ n, Int (Z.of_N n)) <$> (g <$> ks)) as Hg
    by (intros g; by rewrite <- list_fmap_compose).
  rewrite !Hg. unfold ups, downs in *.
  assert (sumN ((λ k, number (cell k)) <$> ks) = number (filter (λ e, P e.1) log)) as Hn.
  { rewrite <- Hone, <- (Hpart (λ _, 1%N)). f_equal. apply list_fmap_ext. intros i k _. by rewrite Hone. }
  rewrite !sql_sum_ok; [|by rewrite ?Hn, ?Hpart..].
  cbn. by rewrite Hn, !Hpart.
Qed.
End table.

(** * The tables are the log of the samples *)

Section reports.
Context `{Chrono} `{Sqlite}.

Definition run_batches (db : PanelDb) (batches : list (Time * list TrafficRow)) : PanelDb :=
  foldl (λ db b, (apply_traffic_batch b.1 b.2 db).2) db batches.

(** Each row under the day on which it was written. *)
Abbreviation Sample := (bytes * TrafficRow)%type.
Definition samples (batches : list (Time * list TrafficRow)) : list Sample :=
  mjoin ((λ b, pair (day_text b.1) <$> b.2) <$> batches).
Definition s_ip (s : Sample) : bytes := s.2.1.1.1.
Definition s_domain (s : Sample) : bytes := s.2.1.1.2.
Definition s_bytes (s : Sample) : N * N := (s.2.1.2, s.2.2).
Definition ip_entry (s : Sample) : (bytes * bytes) * (N * N) := ((s.1, s_ip s), s_bytes s).
Definition domain_entry (s : Sample) : (bytes * bytes * bytes) * (N * N) := ((s.1, s_ip s, s_domain s), s_bytes s).

Lemma add_rows_log day seen rows t1 t2 :
  let t := foldl (add_row day seen) (t1, t2) rows in
  ip_counts <$> t.1 = foldl add_entry (ip_counts <$> t1) (ip_entry <$> (pair day <$> rows))
  ∧ t.2 = foldl add_entry t2 (domain_entry <$> (pair day <$> rows)).
Proof.
  cbv zeta. revert t1 t2. induction rows as [|[[[ip dom] u] d] rows IH]; intros t1 t2; [done|].
  cbn [foldl fmap list_fmap]. unfold add_row at 2 4. cbn [fst snd].
  destruct (IH (<[(day, ip) := {| ip_counts := add_counts u d (ip_counts <$> t1 !! (day, ip)); last_seen := seen |}]> t1)
    (<[(day, ip, dom) := add_counts u d (t2 !! (day, ip, dom))]> t2)) as [-> ->].
  split; [|done]. f_equal. rewrite fmap_insert. unfold add_entry. cbn. by rewrite lookup_fmap.
Qed.

Lemma run_batches_log db batches :
  broken db = false → traffic_by_ip_t db = ∅ → traffic_by_ip_domain_t db = ∅ →
  let db' := run_batches db batches in
  broken db' = false
  ∧ ip_counts <$> traffic_by_ip_t db' = foldl add_entry ∅ (ip_entry <$> samples batches)
  ∧ traffic_by_ip_domain_t db' = foldl add_entry ∅ (domain_entry <$> samples batches).
Proof.
  cbv zeta. intros Hb H1 H2. induction batches as [|[t rows] batches IH] using rev_ind.
  { cbn. rewrite H1, H2. by rewrite fmap_empty. }
  destruct IH as (IHb & IH1 & IH2). unfold run_batches in *. rewrite foldl_app. cbn [foldl fst snd].
  set (db1 := foldl _ db batches) in *. unfold samples.
  rewrite !fmap_app, !join_app. fold (samples batches). rewrite !fmap_app, !foldl_app, <- IH1, <- IH2.
  cbn [fmap list_fmap mjoin list_join fst snd]. rewrite app_nil_r.
  unfold apply_traffic_batch. case_decide as Hr; [by subst|]. unfold update. rewrite IHb.
  pose proof (add_rows_log (day_text t) (to_rfc3339 t) rows (traffic_by_ip_t db1) (traffic_by_ip_domain_t db1)) as [E1 E2].
  destruct (foldl (add_row _ _) _ rows) as [t1 t2]. cbn in *. done.
Qed.

Lemma group_keys_spec {A} (f : A → bytes) (l : list A) :
  NoDup (group_keys f l) ∧ ∀ k, k ∈ group_keys f l ↔ ∃ a, a ∈ l ∧ f a = k.
Proof.
  unfold group_keys. split; [apply NoDup_sorted_keys|]. intros k. rewrite elem_of_sorted_keys.
  induction l as [|a l IH]; cbn [fmap list_fmap list_to_map foldr].
  - rewrite lookup_empty. split; [by intros [? ?] | by intros (? & ?%elem_of_nil & _)].
  - cbn. rewrite lookup_insert_is_Some, IH. setoid_rewrite elem_of_cons. split.
    + intros [<-|[_ (b & ? & ?)]]; [by exists a; auto | exists b; auto].
    + intros (b & [->|Hb] & <-); [by left|]. destruct (decide (f a = f b)); [by left | right; split; [done|]; by exists b].
Qed.

Lemma result_list_ok {A B} (f : A → result DbError B) (g : A → B) l :
  (∀ a, a ∈ l → f a = Ok (g a)) → result_list f l = Ok (g <$> l).
Proof.
  induction l as [|a l IH]; intros Hf; [done|]. cbn. rewrite Hf by by left. cbn.
  rewrite IH by (intros b Hb; apply Hf; by right). done.
Qed.

(** The samples of a client, or all of them, in a range of days. *)
Definition in_range (from to : bytes) (s : Sample) : Prop := bytes_le from s.1 ∧ bytes_le s.1 to.
#[global] Instance in_range_dec from to s : Decision (in_range from to s).
Proof. unfold in_range. apply _. Defined.
Definition of_client (ip from to : bytes) (l : list Sample) : list Sample :=
  filter (λ s, in_range from to s ∧ s_ip s = ip) l.
Definition total_up (l : list Sample) : N := sumN ((λ s, (s_bytes s).1) <$> l).
Definition total_down (l : list Sample) : N := sumN ((λ s, (s_bytes s).2) <$> l).

(** Less than 8 EiB in all, either way, and fewer than 2^63 sessions. *)
Definition within_i64 (l : list Sample) : Prop :=
  (total_up l < BOUND ∧ total_down l < BOUND ∧ N.of_nat (length l) < BOUND)%N.

Lemma bounded_ip l : within_i64 l → bounded (ip_entry <$> l).
Proof.
  unfold within_i64, bounded, ups, downs, number, total_up, total_down.
  by rewrite <- !list_fmap_compose, length_fmap.
Qed.

(** The counts of a client, from its rows. *)
Lemma client_counts (l : list Sample) (t : gmap (bytes * bytes) IpCounts) from to ip rows :
  within_i64 l → ip_counts <$> t = foldl add_entry ∅ (ip_entry <$> l) →
  rows ≡ₚ map_to_list t →
  let mine := filter (λ a, a.1 = ip)
    (omap (λ e : (bytes * bytes) * IpCounts, if day_between from to e.1.1 then Some (e.1.2, e.2) else None) rows) in
  sum_counts (ip_counts ∘ snd <$> mine)
  = Ok (Z.of_N (total_up (of_client ip from to l)), Z.of_N (total_down (of_client ip from to l)),
        Z.of_N (N.of_nat (length (of_client ip from to l)))).
Proof.
  intros Hb Ht Hrows. cbv zeta.
  set (P := λ k : bytes * bytes, day_between from to k.1 = true ∧ k.2 = ip).
  set (ks := filter P (fst <$> rows)).
  pose proof (group_sums (ip_entry <$> l) ks P (bounded_ip l Hb)) as Hg. cbv zeta in Hg.
  rewrite <- Ht in Hg.
  assert (∀ k c, (k, c) ∈ rows → (ip_counts <$> t) !! k = Some (ip_counts c)) as Hin.
  { intros k c Hkc. rewrite Hrows in Hkc. apply elem_of_map_to_list in Hkc. by rewrite lookup_fmap, Hkc. }
  assert (ip_counts ∘ snd <$> filter (λ a, a.1 = ip)
      (omap (λ e : (bytes * bytes) * IpCounts, if day_between from to e.1.1 then Some (e.1.2, e.2) else None) rows)
    = omap ((ip_counts <$> t) !!.) ks) as ->.
  { unfold ks. clear Hg Hrows. induction rows as [|[[day i] c] rows IH]; [done|].
    specialize (IH (λ k c' Hkc, Hin k c' (list_elem_of_further _ _ _ Hkc))).
    rewrite fmap_cons. cbn [omap list_omap fst snd].
    destruct (day_between from to day) eqn:Ed; [destruct (decide (i = ip)) as [->|Hi]|].
    - rewrite (filter_cons_True P) by done. rewrite (filter_cons_True _ (ip, c)) by done.
      rewrite fmap_cons. cbn [omap list_omap fst snd]. rewrite (Hin (day, ip) c) by by left.
      unfold compose at 1. cbn [snd]. f_equal. exact IH.
    - rewrite (filter_cons_False P) by by intros [_ ?]. rewrite (filter_cons_False _ (i, c)) by done. exact IH.
    - rewrite (filter_cons_False P); [exact IH|]. unfold P. cbn [fst]. intros [? _]. congruence. }
  rewrite Hg.
  - unfold of_client, total_up, total_down.
    assert (filter (λ e, P e.1) (ip_entry <$> l) = ip_entry <$> filter (λ s, in_range from to s ∧ s_ip s = ip) l) as ->.
    { rewrite filter_fmap_comm. f_equal. apply list_filter_iff. intros s. unfold P, day_between, in_range. cbn.
      by rewrite bool_decide_eq_true. }
    unfold ups, downs, number. by rewrite <- !list_fmap_compose, length_fmap.
  - apply NoDup_filter. rewrite Hrows. apply NoDup_fst_map_to_list.
  - intros k. unfold ks. rewrite list_elem_of_filter, list_elem_of_fmap. split.
    + intros [HP ([k' c] & -> & Hc)]. split; [|done]. cbn. rewrite (Hin _ _ Hc). by eexists.
    + intros [[c Hc] HP]. split; [done|]. rewrite lookup_fmap in Hc. destruct (t !! k) as [c'|] eqn:E; [|done].
      exists (k, c'). split; [done|]. rewrite Hrows. by apply elem_of_map_to_list.
Qed.
(** The row of a client in a report. *)
Definition is_report (l : list Sample) (from to : bytes) (row : IpTrafficRow) : Prop :=
  let mine := of_client (it_client_ip row) from to l in
  it_bytes_up row = total_up mine ∧ it_bytes_down row = total_down mine
  ∧ it_sessions row = N.of_nat (length mine).
Definition row_total (row : IpTrafficRow) : N := (it_bytes_up row + it_bytes_down row)%N.

Lemma within_i64_filter (P : Sample → Prop) `{∀ s, Decision (P s)} l : within_i64 l → within_i64 (filter P l).
Proof.
  assert (∀ l, (total_up (filter P l) ≤ total_up l ∧ total_down (filter P l) ≤ total_down l)%N
                ∧ length (filter P l) ≤ length l) as Hle.
  { clear l. unfold total_up, total_down. induction l as [|s l IH]; [done|]. rewrite filter_cons.
    unfold sumN in *. case_decide; rewrite !fmap_cons; cbn [foldr length]; lia. }
  unfold within_i64. specialize (Hle l). lia.
Qed.

Lemma order_desc_sorted {A} (w : A → Z) l : StronglySorted (heavier w) (order_desc w l).
Proof.
  apply StronglySorted_merge_sort.
  - intros a b c. unfold heavier. lia.
  - intros a b. unfold heavier. lia.
Qed.
Lemma order_desc_perm {A} (w : A → Z) l : order_desc w l ≡ₚ l.
Proof. unfold order_desc. by rewrite merge_sort_Permutation, row_order_perm. Qed.

Lemma elem_of_ip_rows from to db ip c :
  (ip, c) ∈ ip_rows from to db ↔ ∃ day, day_between from to day = true ∧ traffic_by_ip_t db !! (day, ip) = Some c.
Proof.
  unfold ip_rows. rewrite list_elem_of_omap. setoid_rewrite row_order_perm. split.
  - intros ([[day i] c'] & Hin%elem_of_map_to_list & Heq). cbn in Heq.
    destruct (day_between from to day) eqn:E; [|done]. injection Heq as -> ->. by exists day.
  - intros (day & Hd & Hc). exists ((day, ip), c). split; [by apply elem_of_map_to_list|]. cbn. by rewrite Hd.
Qed.

(** A client has a row in the range exactly when it has a sample there. *)
Lemma client_present (l : list Sample) db from to ip :
  within_i64 l → ip_counts <$> traffic_by_ip_t db = foldl add_entry ∅ (ip_entry <$> l) →
  (∃ c, (ip, c) ∈ ip_rows from to db) ↔ of_client ip from to l ≠ [].
Proof.
  intros Hb Ht. setoid_rewrite elem_of_ip_rows. split.
  - intros (c & day & Hd & Hc). assert ((ip_counts <$> traffic_by_ip_t db) !! (day, ip) = Some (ip_counts c)) as Hc'
      by by rewrite lookup_fmap, Hc.
    rewrite Ht, table_cells in Hc' by by apply bounded_ip.
    destruct (filter _ _) as [|e l'] eqn:E; [done|].
    assert (e ∈ filter (λ e0, e0.1 = (day, ip)) (ip_entry <$> l)) as He by (rewrite E; by left).
    apply list_elem_of_filter in He as [He (s & -> & Hs)%list_elem_of_fmap]. injection He as Hday Hip.
    assert (s ∈ of_client ip from to l) as Hin.
    { apply list_elem_of_filter. split; [|done]. split; [|done]. unfold in_range. rewrite Hday.
      by apply bool_decide_eq_true in Hd. }
    intros Hnil. rewrite Hnil in Hin. by apply elem_of_nil in Hin.
  - intros Hne. destruct (of_client ip from to l) as [|s l'] eqn:E; [done|].
    assert (s ∈ of_client ip from to l) as Hs by (rewrite E; by left).
    apply list_elem_of_filter in Hs as [[Hr Hip] Hs].
    assert (is_Some ((ip_counts <$> traffic_by_ip_t db) !! (s.1, ip))) as [c Hc].
    { rewrite Ht, table_cells by by apply bounded_ip.
      destruct (filter (λ e, e.1 = (s.1, ip)) (ip_entry <$> l)) eqn:Ef; [|by eexists].
      assert (ip_entry s ∈ filter (λ e, e.1 = (s.1, ip)) (ip_entry <$> l)) as He.
      { apply list_elem_of_filter. split; [cbn; by rewrite Hip | by apply list_elem_of_fmap_2]. }
      rewrite Ef in He. by apply elem_of_nil in He. }
    rewrite lookup_fmap in Hc. destruct (traffic_by_ip_t db !! (s.1, ip)) as [c'|] eqn:Ec; [|done].
    exists c', s.1. split; [|done]. unfold day_between. by apply bool_decide_eq_true.
Qed.
End reports.

(** * The aggregator: src/panel/traffic.rs

    Connections record samples on a bounded channel; one task moves them to a buffer and
    writes the buffer when it is full, at every tick, and when the last sender is gone. *)

Module Aggregator.
Section aggregator.
Context `{Chrono}.

Record TrafficSample := { client_ip : bytes; domain : bytes; bytes_up : N; bytes_down : N }.

Definition CHANNEL : nat := N.to_nat 8192.
Definition BUFFER : nat := 500.

Record TrafficAggregator := {
  channel : list TrafficSample;   (** sent and not yet received *)
  senders : bool;                 (** some clone of the aggregator is alive *)
  running : bool;                 (** the task has not ended *)
  buf : list TrafficRow;
  db : PanelDb;
}.

Definition start (db : PanelDb) : TrafficAggregator :=
  {| channel := []; senders := true; running := true; buf := []; db := db |}.

Definition row_of (s : TrafficSample) : TrafficRow := (client_ip s, domain s, bytes_up s, bytes_down s).

(** [record]: whether the sample was taken; it never waits. *)
Definition record (s : TrafficSample) (a : TrafficAggregator) : bool * TrafficAggregator :=
  if running a && senders a && (length (channel a) <? CHANNEL)
  then (true, {| channel := channel a ++ [s]; senders := senders a; running := running a; buf := buf a; db := db a |})
  else (false, a).

(** [flush_buf], and the batch that it passed to the database: an error is only logged. *)
Definition flush_buf (now : Time) (a : TrafficAggregator) : list (Time * list TrafficRow) * TrafficAggregator :=
  if decide (buf a = []) then ([], a) else
  ([(now, buf a)],
   {| channel := channel a; senders := senders a; running := running a; buf := [];
      db := (apply_traffic_batch now (buf a) (db a)).2 |}).

(** The arm [sample = rx.recv()] of the loop, when it is ready. *)
Definition on_recv (now : Time) (a : TrafficAggregator) : list (Time * list TrafficRow) * TrafficAggregator :=
  match channel a with
  | s :: rest =>
      let a := {| channel := rest; senders := senders a; running := running a; buf := buf a ++ [row_of s]; db := db a |} in
      if BUFFER <=? length (buf a) then flush_buf now a else ([], a)
  | [] =>
      if senders a then ([], a) else
      let '(out, a) := flush_buf now a in
      (out, {| channel := channel a; senders := senders a; running := false; buf := buf a; db := db a |})
  end.

(** What happens, in the order in which it happens. *)
Inductive event := Record_ (s : TrafficSample) | Received (now : Time) | Ticked (now : Time) | LastDropped.

Definition step (a : TrafficAggregator) (e : event) : list TrafficRow * list (Time * list TrafficRow) * TrafficAggregator :=
  match e with
  | Record_ s => let '(taken, a) := record s a in (if taken : bool then [row_of s] else [], [], a)
  | Received now => if running a then let '(out, a) := on_recv now a in ([], out, a) else ([], [], a)
  | Ticked now => if running a then let '(out, a) := flush_buf now a in ([], out, a) else ([], [], a)
  | LastDropped => ([], [], {| channel := channel a; senders := false; running := running a; buf := buf a; db := db a |})
  end.

(** The samples that were taken, the batches that were passed to the database, the state. *)
Fixpoint run (a : TrafficAggregator) (es : list event) : list TrafficRow * list (Time * list TrafficRow) * TrafficAggregator :=
  match es with
  | [] => ([], [], a)
  | e :: es =>
      let '(taken, out, a) := step a e in
      let '(taken', out', a) := run a es in
      (taken ++ taken', out ++ out', a)
  end.

Definition pending (a : TrafficAggregator) : list TrafficRow := buf a ++ (row_of <$> channel a).
Definition handed (out : list (Time * list TrafficRow)) : list TrafficRow := mjoin (snd <$> out).
Record sound (a : TrafficAggregator) : Prop := {
  s_channel : length (channel a) ≤ CHANNEL;
  s_buf : length (buf a) < BUFFER;
  s_ended : running a = false → pending a = [];
}.
(** One step or several from [a] to [a']: what was pending or taken is handed over or pending. *)
Definition moves (a : TrafficAggregator) (taken : list TrafficRow) (out : list (Time * list TrafficRow))
    (a' : TrafficAggregator) : Prop :=
  sound a' ∧ pending a ++ taken = handed out ++ pending a' ∧ db a' = run_batches (db a) out
  ∧ Forall (λ b, 0 < length b.2 ≤ BUFFER) out.

Lemma moves_none a : sound a → moves a [] [] a.
Proof. intros Ha. split_and!; [done | by rewrite app_nil_r | done | done]. Qed.

Lemma flush_moves now a :
  length (channel a) ≤ CHANNEL → length (buf a) ≤ BUFFER → running a = true →
  let '(out, a') := flush_buf now a in
  moves a [] out a' ∧ buf a' = [] ∧ channel a' = channel a.
Proof.
  intros Hc Hb Hr. unfold flush_buf. case_decide as Hn.
  - split; [|done]. apply moves_none. split; [done | rewrite Hn; cbn; unfold BUFFER; lia | congruence].
  - split; [|done]. split_and!; cbn.
    + split; cbn; [done | unfold BUFFER; lia | congruence].
    + unfold pending, handed. cbn. rewrite !app_nil_r. done.
    + done.
    + constructor; [|constructor]. cbn. split; [|done]. destruct (buf a); [done|]. cbn. lia.
Qed.

Lemma step_moves a e : sound a → let '(taken, out, a') := step a e in moves a taken out a'.
Proof.
  intros Ha. destruct e as [s|now|now|]; cbn [step].
  - unfold record. destruct (running a) eqn:Er; [|by apply moves_none].
    destruct (senders a) eqn:Es; [|by apply moves_none]. cbn [andb].
    destruct (length (channel a) <? CHANNEL) eqn:El; [|by apply moves_none]. bool_to_prop.
    split_and!; cbn; [|unfold pending; cbn; by rewrite fmap_app, app_assoc | done | done].
    split; cbn; [rewrite length_app; cbn; lia | apply Ha | congruence].
  - destruct (running a) eqn:Er; [|by apply moves_none]. unfold on_recv.
    destruct (channel a) as [|s rest] eqn:Ec.
    + destruct (senders a); [by apply moves_none|].
      pose proof (flush_moves now a (s_channel _ Ha) ltac:(pose proof (s_buf _ Ha); lia) Er) as Hf.
      destruct (flush_buf now a) as [out a']. destruct Hf as ((Hs & Hp & Hd & Hf) & Hb & Hc).
      split_and!; cbn; [|exact Hp | done | done].
      split; cbn; [apply Hs | apply Hs | intros _; unfold pending; cbn; by rewrite Hb, Hc, Ec].
    + set (a1 := {| channel := rest; buf := buf a ++ [row_of s] |}).
      assert (pending a1 = pending a) as Hp by (unfold pending, a1; cbn; by rewrite Ec, <- app_assoc).
      pose proof (s_channel _ Ha) as Hc. rewrite Ec in Hc. cbn in Hc. pose proof (s_buf _ Ha) as Hb.
      assert (length (buf a1) = S (length (buf a))) as Hl by (cbn; rewrite length_app; cbn; lia).
      destruct (BUFFER <=? length (buf a1)) eqn:E; bool_to_prop.
      * pose proof (flush_moves now a1 ltac:(cbn; lia) ltac:(lia) Er) as Hf.
        destruct (flush_buf now a1) as [out a']. unfold moves in *. rewrite Hp in Hf. by destruct Hf as [? _].
      * split_and!; [|by rewrite app_nil_r | done | done].
        split; [cbn; lia | lia | cbn; congruence].
  - destruct (running a) eqn:Er; [|by apply moves_none].
    pose proof (flush_moves now a (s_channel _ Ha) ltac:(pose proof (s_buf _ Ha); lia) Er) as Hf.
    destruct (flush_buf now a) as [out a']. by destruct Hf as [? _].
  - split_and!; cbn; [|by rewrite app_nil_r | done | done].
    split; cbn; apply Ha.
Qed.

Lemma run_moves a es : sound a → let '(taken, out, a') := run a es in moves a taken out a'.
Proof.
  revert a. induction es as [|e es IH]; intros a Ha; cbn [run]; [by apply moves_none|].
  pose proof (step_moves a e Ha) as H1. destruct (step a e) as [[t1 o1] a1].
  specialize (IH a1 (proj1 H1)). destruct (run a1 es) as [[t2 o2] a2].
  destruct H1 as (_ & Hp1 & Hd1 & Hf1), IH as (Hs & Hp2 & Hd2 & Hf2). split_and!; [done | | |].
  - unfold handed in *. rewrite fmap_app, join_app, <- app_assoc, <- Hp2, !app_assoc. by f_equal.
  - rewrite Hd2, Hd1. unfold run_batches. by rewrite foldl_app.
  - by apply Forall_app.
Qed.
End aggregator.
End Aggregator.

(** C37: No sample that the aggregator took is lost or counted twice: at any moment the samples
    taken so far, in their order, are the batches passed to the database, the buffer and the
    channel, one after the other; the database has received exactly these batches.  A batch
    has between 1 and 500 rows, the channel holds at most 8192 samples, and when the task
    has ended nothing is left in either.  (A batch that the database refuses is lost.) *)
Theorem aggregator_conserves `{Chrono} db events :
  let '(taken, out, a) := Aggregator.run (Aggregator.start db) events in
  taken = Aggregator.handed out ++ Aggregator.buf a ++ (Aggregator.row_of <$> Aggregator.channel a)
  ∧ Aggregator.db a = run_batches db out
  ∧ Forall (λ b, 0 < length b.2 ≤ 500) out
  ∧ length (Aggregator.channel a) ≤ N.to_nat 8192 ∧ length (Aggregator.buf a) < 500
  ∧ (Aggregator.running a = false → Aggregator.buf a = [] ∧ Aggregator.channel a = []).
Proof.
  assert (Aggregator.sound (Aggregator.start db)) as Hs by (split; cbn; unfold Aggregator.BUFFER; (lia || done)).
  pose proof (Aggregator.run_moves (Aggregator.start db) events Hs) as Hm.
  destruct (Aggregator.run _ events) as [[taken out] a]. destruct Hm as (Ha & Hp & Hd & Hf).
  split_and!; [exact Hp | exact Hd | exact Hf | apply Ha | apply Ha |].
  intros Hr. apply (Aggregator.s_ended _ Ha) in Hr. apply app_nil in Hr as [-> Hc]. split; [done|].
  by apply fmap_nil_inv in Hc.
Qed.

(** C36: From a database without traffic, after any batches of samples that were flushed on
    whatever days, the report of the clients for a range of days lists exactly the clients
    with a sample on one of those days, each of them once, with the exact sums of their
    bytes and the number of their sessions, the heaviest first, up to the limit; unless one
    of the sums does not fit into 63 bits. *)
Theorem traffic_report `{Chrono} `{Sqlite} from to limit db batches :
  broken db = false → traffic_by_ip_t db = ∅ → traffic_by_ip_domain_t db = ∅ →
  within_i64 (samples batches) →
  ∃ report,
    traffic_by_ip from to limit (run_batches db batches) = Ok (sql_limit limit report)
    ∧ (∀ ip, ip ∈ it_client_ip <$> report ↔ of_client ip from to (samples batches) ≠ [])
    ∧ NoDup (it_client_ip <$> report)
    ∧ Forall (is_report (samples batches) from to) report
    ∧ StronglySorted (λ a b, (row_total b ≤ row_total a)%N) report.
Proof.
  intros Hb H1 H2 Hin. destruct (run_batches_log db batches Hb H1 H2) as (Hw & Ht & _).
  set (db' := run_batches db batches) in *. set (l := samples batches) in *. clearbody db' l.
  set (rows := ip_rows from to db').
  set (row := λ ip, let mine := of_client ip from to l in
    {| it_client_ip := ip; it_bytes_up := total_up mine; it_bytes_down := total_down mine;
       it_sessions := N.of_nat (length mine);
       it_last_seen := foldr text_max [] (last_seen ∘ snd <$> filter (λ a, a.1 = ip) rows) |}).
  set (weighted := λ ip, (Z.of_N (row_total (row ip)), row ip)).
  set (ks := row_order (group_keys fst rows)).
  exists (snd <$> order_desc fst (weighted <$> ks)).
  assert (ks ≡ₚ group_keys fst rows) as Hks by apply row_order_perm.
  assert (snd <$> order_desc fst (weighted <$> ks) ≡ₚ row <$> ks) as Hperm.
  { rewrite order_desc_perm. by rewrite <- list_fmap_compose. }
  assert (it_client_ip <$> (snd <$> order_desc fst (weighted <$> ks)) ≡ₚ ks) as Hips.
  { rewrite Hperm, <- list_fmap_compose. apply reflexive_eq, list_fmap_id. }
  split_and!.
  - unfold traffic_by_ip, query. rewrite Hw. fold rows. unfold group_by. fold ks.
    rewrite (result_list_ok _ weighted).
    + cbn. unfold sql_limit. case_match; [done|]. by rewrite fmap_take.
    + intros ip _. pose proof (client_counts l (traffic_by_ip_t db') from to ip _ Hin Ht (row_order_perm _)) as Hc.
      cbv zeta in Hc. unfold rows, ip_rows. rewrite Hc.
      pose proof (within_i64_filter (λ s, in_range from to s ∧ s_ip s = ip) l Hin) as (Hu & Hd & Hn).
      fold (of_client ip from to l) in Hu, Hd, Hn. cbn [mbind result_bind fst snd].
      unfold weighted, row, row_total. cbn [it_bytes_up it_bytes_down]. rewrite !to_u64_of_N by done.
      by rewrite N2Z.inj_add.
  - intros ip. rewrite Hips, Hks, (proj2 (group_keys_spec fst rows)).
    rewrite <- (client_present l db') by done. fold rows. split.
    + intros ([i c] & Hi & <-). by exists c.
    + intros [c Hc]. by exists (ip, c).
  - rewrite Hips, Hks. apply group_keys_spec.
  - rewrite Hperm. apply Forall_fmap, list.Forall_forall. intros ip _. by split_and!.
  - pose proof (order_desc_sorted fst (weighted <$> ks)) as Hs.
    assert (Forall (λ a : Z * IpTrafficRow, a.1 = Z.of_N (row_total a.2)) (order_desc fst (weighted <$> ks))) as Hf.
    { rewrite order_desc_perm. apply Forall_fmap, list.Forall_forall. done. }
    clear -Hs Hf. induction Hs as [|a k Hs IH Ha]; [constructor|]. apply Forall_cons in Hf as [Hfa Hf].
    rewrite fmap_cons. constructor; [by apply IH|]. apply Forall_fmap.
    rewrite list.Forall_forall in Ha, Hf |- *. intros b Hbk. specialize (Ha b Hbk). specialize (Hf b Hbk).
    unfold heavier in Ha. cbn. lia.
Qed.

(** Two clients on two days; the report of the first day. *)
Definition example_day : Time := 1700000000 * 1000000000.
Definition example_batches : list (Time * list TrafficRow) :=
  [(example_day, [(§"10.0.0.1", §"a.example", 10, 20); (§"10.0.0.2", §"a.example", 1, 500)]);
   (example_day, [(§"10.0.0.1", §"b.example", 5, 5)]);
   ((example_day + 48 * HOUR)%Z, [(§"10.0.0.1", §"a.example", 0, 1000)])]%N.
#[local] Existing Instances example_chrono example_sqlite.

Example traffic_report_example :
  ((λ row, (it_client_ip row, it_bytes_up row, it_bytes_down row, it_sessions row))
    <$> default [] (result_ok (traffic_by_ip (day_text example_day) (day_text example_day) 10
                                 (run_batches empty_db example_batches))))
  = [(§"10.0.0.2", 1, 500, 1); (§"10.0.0.1", 15, 25, 2)]%N.
Proof. vm_compute. reflexivity. Qed.

Example traffic_report_witness :
  ∃ report,
    traffic_by_ip (day_text example_day) (day_text example_day) 10 (run_batches empty_db example_batches)
    = Ok (sql_limit 10 report)
    ∧ §"10.0.0.1" ∈ (it_client_ip <$> report) ∧ (§"10.0.0.3" ∉ it_client_ip <$> report)
    ∧ Forall (is_report (samples example_batches) (day_text example_day) (day_text example_day)) report.
Proof.
  destruct (traffic_report (day_text example_day) (day_text example_day) 10 empty_db example_batches)
    as (report & Hr & Hin & _ & Hrows & _).
  - reflexivity.
  - reflexivity.
  - reflexivity.
  - vm_compute. auto.
  - exists report. split_and!; [exact Hr | | | exact Hrows].
    + apply Hin. vm_compute. discriminate.
    + intros Hi. apply Hin in Hi. apply Hi. vm_compute. reflexivity.
Defined.
