(* ===== verification/QueryLog.v ===== *)
(** src/panel/dnsmasq_query_log.rs: the log of DNS queries, read from the end of dnsmasq's file.

    The regular expressions, chrono's parsers and the upper case of non-ASCII text are
    parameters.  A look at the file has three moments: whether it exists, its length, and its
    contents when it is read, each of which may fail or have changed. *)

From S2P Require Import Prelude RustStr TextLines Collections Net PanelDb PanelDbProofs.

(** * The environment *)

(** [regex]: the groups of the leftmost match of a pattern. *)
Class Captures := captures : bytes → bytes → option (list bytes).
Class UpperCase := uni_upper : bytes → bytes.

(** chrono's parsers: [DateTime::parse_from_rfc3339]; [NaiveDateTime::parse_from_str] with the
    format [%Y %b %e %H:%M:%S], as if in UTC; the moment of a local time, when there is
    exactly one; the local year. *)
Class LogClock := {
  parse_from_rfc3339 : bytes → option Time;
  parse_syslog : bytes → option Time;
  from_local : Time → option Time;
  local_year : Time → Z;
}.

Definition ascii_upper_byte (b : Byte.byte) : Byte.byte :=
  if is_lower b then default b (Byte.of_N (bn b - 32)) else b.
Definition to_uppercase `{UpperCase} (s : bytes) : bytes :=
  if all_ascii s then ascii_upper_byte <$> s else uni_upper s.

Definition show_Z (z : Z) : bytes := if (z <? 0)%Z then x2d :: show (Z.to_N (- z)) else show (Z.to_N z).

(** * Parsing a line *)

Record ParsedEvent := {
  ev_ts : bytes; ev_client_ip : bytes; ev_qtype : bytes; ev_domain : bytes; ev_kind : bytes; ev_answer : bytes;
}.

Definition RE_QUERY : bytes := §"(?i)query\[([^\]]+)\]\s+(\S+)\s+from\s+(\S+)".
Definition RE_CONFIG : bytes := §"(?i)\bconfig\s+(\S+)\s+is\s+(.+)$".
Definition RE_REPLY : bytes := §"(?i)\breply\s+(\S+)\s+is\s+(.+)$".
Definition RE_FWD : bytes := §"(?i)\bforwarded\s+(\S+)\s+to\s+(\S+)".
Definition RE_CACHED : bytes := §"(?i)\bcached\s+(\S+)\s+is\s+(.+)$".

Definition looks_like_ip (s : bytes) : bool := match parse_ip s with Some _ => true | None => false end.

Section lines.
Context `{Unicode} `{Captures} `{UpperCase} `{Chrono} `{LogClock}.

(** [&s[..i]] *)
Definition str_upto (i : nat) (s : bytes) : eval bytes := if char_boundary s i then Val (take i s) else Panic.

Definition iso_timestamp (line : bytes) : eval (option bytes) :=
  if (19 <=? length line) && bool_decide (line !! 4 = Some x2d)
  then stamp ← str_upto 19 line; Val (to_rfc3339 <$> parse_from_rfc3339 stamp)
  else Val None.

Definition syslog_timestamp (now : Time) (line : bytes) : option bytes :=
  match split_whitespace line with
  | a :: b :: c :: _ =>
      naive ← parse_syslog (show_Z (local_year now) ++ §" " ++ a ++ §" " ++ b ++ §" " ++ c);
      Some (to_rfc3339 (default naive (from_local naive)))
  | _ => None
  end.

Definition extract_timestamp (now : Time) (line : bytes) : eval (option bytes) :=
  iso ← iso_timestamp line;
  Val (match iso with Some ts => Some ts | None => syslog_timestamp now line end).

(** [c[1]] and [c[2]]; a pattern with a match has all its groups. *)
Definition group (i : nat) (c : list bytes) : bytes := nth (i - 1) c [].
Definition domain_of (s : bytes) : bytes := to_lowercase (trim_end_matches x2e s).

Definition answer_event (ts kind : bytes) (c : list bytes) : ParsedEvent := {|
  ev_ts := ts; ev_client_ip := []; ev_qtype := §"A"; ev_domain := domain_of (group 1 c); ev_kind := kind;
  ev_answer := trim (group 2 c) |}.

Definition parse_dnsmasq_line (now : Time) (line : bytes) : eval (option ParsedEvent) :=
  let line := trim line in
  if decide (line = []) then Val None else
  stamp ← extract_timestamp now line;
  let ts := unwrap_or stamp (to_rfc3339 now) in
  Val (match captures RE_QUERY line with
       | Some c => Some {| ev_ts := ts; ev_client_ip := group 3 c; ev_qtype := to_uppercase (group 1 c);
                           ev_domain := domain_of (group 2 c); ev_kind := §"query"; ev_answer := [] |}
       | None =>
       match captures RE_CONFIG line with
       | Some c => Some (answer_event ts (if looks_like_ip (trim (group 2 c)) then §"relay" else §"config") c)
       | None =>
       match captures RE_CACHED line with
       | Some c => Some (answer_event ts §"cached" c)
       | None =>
       match captures RE_REPLY line with
       | Some c => Some (answer_event ts §"reply" c)
       | None =>
       match captures RE_FWD line with
       | Some c => Some (answer_event ts §"forwarded" c)
       | None => None
       end end end end end).

(** * Recording the events *)

Abbreviation Pending := (gmap bytes Z).

Definition full_key (ev : ParsedEvent) : bytes := ev_client_ip ev ++ §"|" ++ ev_qtype ev ++ §"|" ++ ev_domain ev.

Definition row_of_event (action : bytes) (ev : ParsedEvent) : DnsQueryInsert := {|
  qi_ts := ev_ts ev; qi_client_ip := ev_client_ip ev; qi_qtype := ev_qtype ev; qi_domain := ev_domain ev;
  qi_action := action; qi_answer := if decide (action = §"query") then [] else ev_answer ev |}.

(** [pending.remove(&full).or_else(|| pending.remove(&ev.domain))] *)
Definition take_pending (ev : ParsedEvent) (pending : Pending) : option Z * Pending :=
  match pending !! full_key ev with
  | Some id => (Some id, base.delete (full_key ev) pending)
  | None => (pending !! ev_domain ev, base.delete (ev_domain ev) pending)
  end.

Context `{Sqlite}.

Definition record_event (ev : ParsedEvent) (pending : Pending) (db : PanelDb) : Pending * PanelDb :=
  if decide (ev_kind ev = §"query") then
    match insert_dns_query (row_of_event §"query" ev) db with
    | (Ok id, db) => (<[ev_domain ev := id]> (<[full_key ev := id]> pending), db)
    | (Err _, db) => (pending, db)
    end
  else
    match take_pending ev pending with
    | (Some id, pending) =>
        (filter (λ e, e.2 ≠ id) pending, (update_dns_query_result id (ev_kind ev) (ev_answer ev) db).2)
    | (None, pending) => (pending, (insert_dns_query (row_of_event (ev_kind ev) ev) db).2)
    end.

(** One line, at the time when it is processed. *)
Definition ingest_line (now : Time) (line : bytes) (pending : Pending) (db : PanelDb) : eval (Pending * PanelDb) :=
  ev ← parse_dnsmasq_line now line;
  Val (match ev with Some ev => record_event ev pending db | None => (pending, db) end).

Fixpoint ingest_lines (clock : nat → Time) (ls : list bytes) (pending : Pending) (db : PanelDb) : eval (Pending * PanelDb) :=
  match ls with
  | [] => Val (pending, db)
  | l :: ls => '(pending, db) ← ingest_line (clock 0) l pending db; ingest_lines (λ i, clock (S i)) ls pending db
  end.

(** * Reading the file *)

Inductive LogError := StatFailed | OpenFailed | ReadFailed | NotUtf8.

(** What one call finds on the disk. *)
Record Look := { there : bool; stat_len : option N; can_open : bool; contents : option bytes }.

Record LogState := { offset : N; pending : Pending }.

Definition PENDING_MAX : N := 50000.
Definition cap_pending (p : Pending) : Pending := if (PENDING_MAX <? N.of_nat (size p))%N then ∅ else p.

(** The part before the lines: an error, nothing new, or the length of the file and the text
    that follows the offset.  A file that has become shorter is read from the start. *)
Definition read_new (look : Look) (log : LogState) : result LogError (option (N * bytes)) * LogState :=
  if negb (there look) then (Ok None, log) else
  match stat_len look with
  | None => (Err StatFailed, log)
  | Some len =>
      let log := if (len <? offset log)%N then {| offset := 0; pending := ∅ |} else log in
      if (len =? offset log)%N then (Ok None, log) else
      if negb (can_open look) then (Err OpenFailed, log) else
      match contents look with
      | None => (Err ReadFailed, log)
      | Some text =>
          match from_utf8 (drop (N.to_nat (offset log)) text) with
          | None => (Err NotUtf8, log)
          | Some buf => (Ok (Some (len, buf)), log)
          end
      end
  end.

Definition ingest_once (look : Look) (clock : nat → Time) (log : LogState) (db : PanelDb)
    : eval (result LogError nat * LogState * PanelDb) :=
  match read_new look log with
  | (Err e, log) => Val (Err e, log, db)
  | (Ok None, log) => Val (Ok 0, log, db)
  | (Ok (Some (len, buf)), log) =>
      '(p, db) ← ingest_lines clock (lines buf) (pending log) db;
      Val (Ok (length (lines buf)), {| offset := len; pending := cap_pending p |}, db)
  end.

(** * The background task *)

Definition OFFSET_KEY : bytes := §"dnsmasq_log_offset".

Definition log_start (db : PanelDb) : LogState := {|
  offset := unwrap_or (s ← mjoin (result_ok (get_setting OFFSET_KEY db)); parse_u64 s) 0%N; pending := ∅ |}.

Definition tick (look : Look) (clock : nat → Time) (log : LogState) (db : PanelDb) : eval (LogState * PanelDb) :=
  '(r, log, db) ← ingest_once look clock log db;
  Val (log, match r with
            | Ok n => if 0 <? n then (set_setting OFFSET_KEY (show (offset log)) db).2 else db
            | Err _ => db
            end).

(** What a tick has done to the database when the process is stopped after [k] lines, before
    the offset is saved. *)
Definition interrupted_tick (k : nat) (look : Look) (clock : nat → Time) (log : LogState) (db : PanelDb) : eval PanelDb :=
  match (read_new look log).1 with
  | Ok (Some (_, buf)) => '(_, db) ← ingest_lines clock (take k (lines buf)) (pending log) db; Val db
  | _ => Val db
  end.

Definition prune_tick (now : Time) (retain_hours : N) (db : PanelDb) : PanelDb := (prune_dns_queries now retain_hours db).2.

(** * Runs *)

(** The file of dnsmasq, the task that reads it, and the database. *)
Record LogWorld := { text : bytes; log : LogState; ldb : PanelDb }.

Inductive LogEvent :=
| Appended (ls : list bytes)             (** dnsmasq writes lines *)
| Ticked (late : list bytes) (clock : nat → Time)
    (** the task looks at the file; meanwhile dnsmasq writes [late], after the length of the
        file was taken and before its end was read *)
| Missed (found stat open : bool)        (** a look at which the file cannot be read *)
| Interrupted (k : nat) (late : list bytes) (clock : nat → Time)
    (** a look during which the process is stopped, when [k] lines have been recorded and the
        offset has not been saved; then it starts again *)
| Pruned (now : Time) (retain_hours : N)
| Restarted.                             (** the process stops between two looks and starts again *)

(** What a look finds in a file that grows from [s] by [late] after its length was taken. *)
Definition look_at (s late : bytes) : Look :=
  {| there := true; stat_len := Some (N.of_nat (length s)); can_open := true; contents := Some (s ++ late) |}.
Definition look_missed (s : bytes) (found stat open : bool) : Look :=
  {| there := found; stat_len := if stat then Some (N.of_nat (length s)) else None; can_open := open; contents := None |}.

Definition log_step (e : LogEvent) (w : LogWorld) : eval LogWorld :=
  match e with
  | Appended ls => Val {| text := text w ++ unlines ls; log := log w; ldb := ldb w |}
  | Ticked late clock =>
      '(log', db') ← tick (look_at (text w) (unlines late)) clock (log w) (ldb w);
      Val {| text := text w ++ unlines late; log := log'; ldb := db' |}
  | Missed found stat open =>
      '(log', db') ← tick (look_missed (text w) found stat open) (λ _, 0%Z) (log w) (ldb w);
      Val {| text := text w; log := log'; ldb := db' |}
  | Interrupted k late clock =>
      db' ← interrupted_tick k (look_at (text w) (unlines late)) clock (log w) (ldb w);
      Val {| text := text w ++ unlines late; log := log_start db'; ldb := db' |}
  | Pruned now h => Val {| text := text w; log := log w; ldb := prune_tick now h (ldb w) |}
  | Restarted => Val {| text := text w; log := log_start (ldb w); ldb := ldb w |}
  end.
Fixpoint log_run (es : list LogEvent) (w : LogWorld) : eval LogWorld :=
  match es with [] => Val w | e :: es => w ← log_step e w; log_run es w end.

(** What a run amounts to: a queue of lines, without files and offsets.  A look at which the
    queue is not empty takes every line from it and the late ones, which it also leaves in the
    queue; an interrupted one takes a few lines, and leaves them all; a restart forgets which
    queries wait for their answer, and nothing else. *)
Record LogQueue := { unread : list bytes; waiting : Pending; qdb : PanelDb }.

Definition queue_step (e : LogEvent) (q : LogQueue) : eval LogQueue :=
  match e with
  | Appended ls => Val {| unread := unread q ++ ls; waiting := waiting q; qdb := qdb q |}
  | Ticked late clock =>
      if decide (unread q = []) then Val {| unread := late; waiting := waiting q; qdb := qdb q |} else
      '(p, db) ← ingest_lines clock (unread q ++ late) (waiting q) (qdb q);
      Val {| unread := late; waiting := cap_pending p; qdb := db |}
  | Missed _ _ _ => Val q
  | Interrupted k late clock =>
      if decide (unread q = []) then Val {| unread := late; waiting := ∅; qdb := qdb q |} else
      '(_, db) ← ingest_lines clock (take k (unread q ++ late)) (waiting q) (qdb q);
      Val {| unread := unread q ++ late; waiting := ∅; qdb := db |}
  | Pruned now h => Val {| unread := unread q; waiting := waiting q; qdb := prune_tick now h (qdb q) |}
  | Restarted => Val {| unread := unread q; waiting := ∅; qdb := qdb q |}
  end.
Fixpoint queue_run (es : list LogEvent) (q : LogQueue) : eval LogQueue :=
  match es with [] => Val q | e :: es => q ← queue_step e q; queue_run es q end.

(** The lines that dnsmasq writes in a run; those that the looks take, and those left over. *)
Definition event_lines (e : LogEvent) : list bytes :=
  match e with Appended ls => ls | Ticked late _ | Interrupted _ late _ => late | _ => [] end.
Definition written (es : list LogEvent) : list bytes := es ≫= event_lines.

Fixpoint taken (es : list LogEvent) (unread : list bytes) : list bytes * list bytes :=
  match es with
  | [] => ([], unread)
  | Appended ls :: es => taken es (unread ++ ls)
  | Ticked late _ :: es =>
      let '(t, u) := taken es late in (if decide (unread = []) then (t, u) else ((unread ++ late) ++ t, u))
  | Interrupted k late _ :: es =>
      if decide (unread = []) then taken es late
      else let '(t, u) := taken es (unread ++ late) in (take k (unread ++ late) ++ t, u)
  | _ :: es => taken es unread
  end.

(** Nothing is written between the two moments of a look, and no look is cut short. *)
Definition undisturbed (e : LogEvent) : Prop :=
  match e with Ticked late _ => late = [] | Interrupted _ _ _ => False | _ => True end.

Lemma taken_all es u : u ++ written es `sublist_of` (taken es u).1 ++ (taken es u).2.
Proof.
  unfold written. revert u. induction es as [|e es IH]; intros u; [cbn; by rewrite app_nil_r|].
  cbn [mbind list_bind taken event_lines]. destruct e as [ls|late clock| |k late clock| |]; try exact (IH u).
  - rewrite app_assoc. apply IH.
  - specialize (IH late). destruct (taken es late) as [t v]. case_decide as Hu; [by rewrite Hu|].
    cbn [fst snd] in *. rewrite <- (app_assoc _ t v), app_assoc. apply sublist_app; [done|].
    etransitivity; [|exact IH]. by apply sublist_inserts_l.
  - case_decide as Hu; [rewrite Hu; apply IH|]. specialize (IH (u ++ late)).
    destruct (taken es (u ++ late)) as [t v]. cbn [fst snd] in *. rewrite <- app_assoc.
    apply sublist_inserts_l. by rewrite app_assoc.
Qed.

Lemma taken_once es u : Forall undisturbed es → (taken es u).1 ++ (taken es u).2 = u ++ written es.
Proof.
  unfold written. intros He. revert u. induction He as [|e es Hq _ IH]; intros u; [cbn; by rewrite app_nil_r|].
  cbn [mbind list_bind taken event_lines]. destruct e as [ls|late clock| |k late clock| |]; cbn in Hq; try exact (IH u); [| |done].
  - by rewrite app_assoc.
  - subst late. specialize (IH []). destruct (taken es []) as [t v]. case_decide as Hu; [by rewrite Hu|].
    cbn [fst snd app] in *. by rewrite app_nil_r, <- app_assoc, IH.
Qed.

Lemma queue_run_unread es q q' : queue_run es q = Val q' → unread q' = (taken es (unread q)).2.
Proof.
  revert q. induction es as [|e es IH]; intros q; [by intros [= <-]|]. cbn [queue_run taken].
  destruct e as [ls|late clock| |k late clock| |]; cbn [queue_step mbind eval_bind];
    [intros Hr; by apply IH in Hr | | intros Hr; by apply IH in Hr | | intros Hr; by apply IH in Hr ..].
  - case_decide; cbn.
    + intros Hr. apply IH in Hr. cbn in Hr. by destruct (taken es late).
    + destruct (ingest_lines _ _ _ _) as [[p db]|]; [|done]. cbn. intros Hr. apply IH in Hr. cbn in Hr.
      by destruct (taken es late).
  - case_decide; cbn; [intros Hr; by apply IH in Hr|].
    destruct (ingest_lines _ _ _ _) as [[p db]|]; [|done]. cbn. intros Hr. apply IH in Hr. cbn in Hr.
    by destruct (taken es _).
Qed.

(** * The settings play no part in recording *)

(** An operation that neither reads nor writes the settings, nor breaks the database. *)
Definition blind {A} (u : PanelDb → A * PanelDb) : Prop :=
  ∀ x db, u (with_settings x db) = ((u db).1, with_settings x (u db).2) ∧ broken (u db).2 = broken db.

Lemma insert_blind row : blind (insert_dns_query row).
Proof.
  intros x [? ? ? ? ? ? b]. unfold insert_dns_query, update. cbn. destruct b; [done|]. cbn.
  by destruct (insert_row _ _) as [[? ?]|?].
Qed.
Lemma update_result_blind id action answer : blind (update_dns_query_result id action answer).
Proof. intros x [? ? ? ? ? ? b]. unfold update_dns_query_result, update. cbn. by destruct b. Qed.
Lemma prune_blind now h : blind (prune_dns_queries now h).
Proof. intros x [? ? ? ? ? ? b]. unfold prune_dns_queries, update. cbn. by destruct b. Qed.

Lemma record_blind ev p : blind (record_event ev p).
Proof.
  intros x db. unfold record_event. case_decide.
  - destruct (insert_blind (row_of_event §"query" ev) x db) as [-> Hb].
    destruct (insert_dns_query _ db) as [[id|e] db']; cbn in *; by rewrite Hb.
  - destruct (take_pending ev p) as [[id|] p']; cbn.
    + destruct (update_result_blind id (ev_kind ev) (ev_answer ev) x db) as [-> Hb]. by rewrite Hb.
    + destruct (insert_blind (row_of_event (ev_kind ev) ev) x db) as [-> Hb]. by rewrite Hb.
Qed.

(** A line whose time stamp can be cut out. *)
Definition safe_line (l : bytes) : Prop :=
  length (trim l) < 19 ∨ trim l !! 4 ≠ Some x2d ∨ char_boundary (trim l) 19 = true.
Definition log_line (l : bytes) : Prop := plain_line l ∧ utf8_valid l = true ∧ safe_line l.

Lemma parse_safe now l : safe_line l → ∃ o, parse_dnsmasq_line now l = Val o.
Proof.
  intros Hs. unfold parse_dnsmasq_line. case_decide; [by eexists|].
  assert (∃ o, iso_timestamp (trim l) = Val o) as [o Ho].
  { unfold iso_timestamp, str_upto. destruct (19 <=? length (trim l)) eqn:El; [|by eexists].
    bool_to_prop. case_bool_decide; [|by eexists]. cbn. destruct Hs as [?|[?| ->]]; [lia | done | by eexists]. }
  unfold extract_timestamp. rewrite Ho. cbn. by eexists.
Qed.

Lemma ingest_lines_blind clock ls p x db : Forall safe_line ls →
  ∃ p' db', ingest_lines clock ls p db = Val (p', db') ∧ broken db' = broken db
    ∧ ingest_lines clock ls p (with_settings x db) = Val (p', with_settings x db').
Proof.
  intros Hl. revert clock p db. induction Hl as [|l ls Hs _ IH]; intros clock p db; [by eexists _, _|].
  cbn [ingest_lines]. unfold ingest_line. destruct (parse_safe (clock 0) l Hs) as [[ev|] ->]; cbn; [|apply IH].
  destruct (record_blind ev p x db) as [-> Hb]. destruct (record_event ev p db) as [p1 db1]. cbn in *.
  rewrite <- Hb. apply IH.
Qed.

(** * The file and its offset refine the queue *)

Lemma cap_small p : (N.of_nat (size p) ≤ PENDING_MAX)%N → cap_pending p = p.
Proof. unfold cap_pending. intros Hp. destruct (_ <? _)%N eqn:E; bool_to_prop; [lia | done]. Qed.
Lemma cap_bound p : (N.of_nat (size (cap_pending p)) ≤ PENDING_MAX)%N.
Proof. unfold cap_pending. destruct (_ <? _)%N eqn:E; bool_to_prop; [rewrite map_size_empty|]; unfold PENDING_MAX in *; lia. Qed.

Lemma unlines_valid ls : Forall log_line ls → utf8_valid (unlines ls) = true.
Proof.
  induction 1 as [|l ls (_ & Hv & _) _ IH]; [done|]. rewrite unlines_cons. apply utf8_valid_app; [done|]. exact IH.
Qed.

(** What a look finds, when the file has grown by whole lines since the offset, and grows. *)
Lemma read_new_appended read ls late p : Forall log_line ls → Forall log_line late →
  read_new (look_at (read ++ unlines ls) (unlines late)) {| offset := N.of_nat (length read); pending := p |}
  = (Ok (if decide (ls = []) then None
         else Some (N.of_nat (length (read ++ unlines ls)), unlines (ls ++ late))),
     {| offset := N.of_nat (length read); pending := p |}).
Proof.
  intros Hl Hlate. unfold read_new, look_at. cbn [there stat_len can_open contents offset negb].
  rewrite length_app. rewrite (proj2 (N.ltb_ge _ _)) by lia. cbn [offset pending]. case_decide as Hls.
  { subst ls. change (unlines []) with ([] : bytes). cbn [length]. by rewrite Nat.add_0_r, N.eqb_refl. }
  assert (0 < length (unlines ls)) as Hpos.
  { destruct ls as [|l ls]; [done|]. rewrite unlines_cons, length_app. cbn. lia. }
  rewrite (proj2 (N.eqb_neq _ _)) by lia.
  rewrite Nat2N.id, <- app_assoc, drop_app_length, <- unlines_app. unfold from_utf8.
  by rewrite unlines_valid by by apply Forall_app.
Qed.

Lemma read_new_missed s found stat open n p : (n ≤ N.of_nat (length s))%N →
  ∃ r, read_new (look_missed s found stat open) {| offset := n; pending := p |} = (r, {| offset := n; pending := p |})
  ∧ ∀ x, r ≠ Ok (Some x).
Proof.
  intros Hn. unfold read_new, look_missed. cbn [there stat_len can_open contents].
  destruct found; cbn [negb]; [|by eexists]. destruct stat; [|by eexists]. cbn [offset].
  rewrite (proj2 (N.ltb_ge _ _)) by done. cbn [offset]. destruct (_ =? _)%N; [by eexists|].
  destruct open; by eexists.
Qed.

Lemma log_lines ls : Forall log_line ls → lines (unlines ls) = ls.
Proof. intros Hl. apply lines_unlines. eapply Forall_impl; [exact Hl|]. by intros ? [? _]. Qed.
Lemma log_safe ls : Forall log_line ls → Forall safe_line ls.
Proof. intros Hl. eapply Forall_impl; [exact Hl|]. by intros ? (_ & _ & ?). Qed.

Lemma log_start_saved n d : (n ≤ u64_max)%N → broken d = false →
  log_start (set_setting OFFSET_KEY (show n) d).2 = {| offset := n; pending := ∅ |}.
Proof.
  intros Hn Hb. unfold log_start, set_setting, get_setting, update, query. rewrite Hb. cbn. rewrite Hb. cbn.
  rewrite lookup_insert_eq. cbn. unfold parse_u64. by rewrite parse_uint_show.
Qed.

(** The relation on the databases and what was saved, under an operation that ignores the
    settings. *)
Definition db_rel (n : N) (d qd : PanelDb) : Prop :=
  d = with_settings (settings d) qd ∧ broken d = false ∧ log_start d = {| offset := n; pending := ∅ |}.

Lemma db_rel_blind n d qd d' qd' :
  db_rel n d qd → d' = with_settings (settings d) qd' → broken d' = broken d → db_rel n d' qd'.
Proof.
  intros (Hd & Hb & Hs) Hd' Hb'. assert (settings d' = settings d) as Es by by rewrite Hd'.
  unfold db_rel. rewrite Es, Hb'. split_and!; [done | done|].
  rewrite <- Hs. unfold log_start, get_setting, query. by rewrite Hb', Hb, Es.
Qed.

Lemma db_rel_ingest n d qd clock ls p : db_rel n d qd → Forall log_line ls →
  ∃ p' d' qd', ingest_lines clock ls p d = Val (p', d') ∧ ingest_lines clock ls p qd = Val (p', qd')
  ∧ db_rel n d' qd'.
Proof.
  intros Hr Hl. destruct Hr as (Hd & Hb & Hs).
  destruct (ingest_lines_blind clock ls p (settings d) qd (log_safe _ Hl)) as (p' & qd' & Eq & Hb' & Ew).
  rewrite <- Hd in Ew. exists p', (with_settings (settings d) qd'), qd'. split_and!; [done | done|].
  eapply db_rel_blind; [by split_and! | done|]. cbn. rewrite Hb'. rewrite Hd in Hb |- *. by rewrite Hb.
Qed.

Lemma tick_refines read ls late clock p d qd :
  db_rel (N.of_nat (length read)) d qd → Forall log_line ls → Forall log_line late →
  (N.of_nat (size p) ≤ PENDING_MAX)%N → (N.of_nat (length (read ++ unlines ls)) ≤ u64_max)%N →
  ∃ p' d' qd',
    tick (look_at (read ++ unlines ls) (unlines late)) clock {| offset := N.of_nat (length read); pending := p |} d
    = Val ({| offset := N.of_nat (length (read ++ unlines ls)); pending := p' |}, d')
    ∧ queue_step (Ticked late clock) {| unread := ls; waiting := p; qdb := qd |}
      = Val {| unread := late; waiting := p'; qdb := qd' |}
    ∧ (N.of_nat (size p') ≤ PENDING_MAX)%N
    ∧ db_rel (N.of_nat (length (read ++ unlines ls))) d' qd'.
Proof.
  intros Hr Hl Hlate Hc Hlen. unfold tick, ingest_once. rewrite read_new_appended by done.
  cbn [queue_step unread waiting qdb]. case_decide as Hls; cbn [pending].
  - subst ls. exists p, d, qd. change (unlines []) with ([] : bytes). rewrite app_nil_r. done.
  - rewrite log_lines by by apply Forall_app.
    destruct (db_rel_ingest _ d qd clock (ls ++ late) p Hr) as (p' & d' & qd' & -> & -> & Hr'); [by apply Forall_app|].
    cbn [mbind eval_bind offset]. rewrite (proj2 (Nat.ltb_lt _ _)) by (destruct ls; [done | cbn; lia]).
    exists (cap_pending p'), (set_setting OFFSET_KEY (show (N.of_nat (length (read ++ unlines ls)))) d').2, qd'.
    split_and!; [done | done | apply cap_bound |]. destruct Hr' as (Hd' & Hb' & _).
    assert (log_start (set_setting OFFSET_KEY (show (N.of_nat (length (read ++ unlines ls)))) d').2
      = {| offset := N.of_nat (length (read ++ unlines ls)); pending := ∅ |}) as Hst by by apply log_start_saved.
    revert Hst. unfold db_rel, set_setting, update. rewrite Hb'. cbn. intros Hst. split_and!; [|done|done].
    by rewrite Hd'.
Qed.

Record log_rel (w : LogWorld) (q : LogQueue) : Prop := {
  lr_text : ∃ read, text w = read ++ unlines (unread q) ∧ offset (log w) = N.of_nat (length read);
  lr_lines : Forall log_line (unread q);
  lr_pending : pending (log w) = waiting q;
  lr_cap : (N.of_nat (size (waiting q)) ≤ PENDING_MAX)%N;
  lr_db : db_rel (offset (log w)) (ldb w) (qdb q);
}.

Lemma log_step_refines e w q :
  log_rel w q → Forall log_line (event_lines e) →
  (N.of_nat (length (text w) + length (unlines (event_lines e))) ≤ u64_max)%N →
  ∃ w' q', log_step e w = Val w' ∧ queue_step e q = Val q' ∧ log_rel w' q' ∧ text w' = text w ++ unlines (event_lines e).
Proof.
  destruct w as [s [off pend] db], q as [ls p qd]. intros [(read & Ht & Ho) Hl Hp Hc Hr] He Hlen.
  cbn [text log ldb offset pending unread waiting qdb] in *. subst s off pend.
  destruct e as [new|late clock|found stat open|k late clock|now h|];
    cbn [event_lines log_step text log ldb] in *.
  - eexists _, _. split_and!; [done | done | | done].
    split; cbn [text log ldb offset pending unread waiting qdb]; try done; [|by apply Forall_app].
    exists read. by rewrite unlines_app, app_assoc.
  - destruct (tick_refines read ls late clock p db qd) as (p' & d' & qd' & -> & -> & Hc' & Hr'); try done.
    { lia. }
    eexists _, _. split_and!; [done | done | | done].
    split; cbn [text log ldb offset pending unread waiting qdb]; try done. by exists (read ++ unlines ls).
  - change (unlines []) with ([] : bytes) in *. rewrite app_nil_r.
    destruct (read_new_missed (read ++ unlines ls) found stat open (N.of_nat (length read)) p) as (r & Er & Hn).
    { rewrite length_app. lia. }
    unfold tick, ingest_once. rewrite Er. destruct r as [[x|]|e]; [by destruct (Hn x)| |];
      (eexists _, _; split_and!; [done | done | | done]; split; try done; by exists read).
  - unfold interrupted_tick. rewrite read_new_appended by done. cbn [fst queue_step unread waiting qdb].
    destruct (decide (ls = [])) as [Hls|Hls].
    + subst ls. change (unlines []) with ([] : bytes) in *. rewrite app_nil_r in *. destruct Hr as (Hd & Hb & Hs).
      eexists _, _. split_and!; [done | done | | done]. cbn [ldb]. rewrite Hs.
      split; try done. by exists read.
    + rewrite log_lines by by apply Forall_app. cbn [pending].
      destruct (db_rel_ingest _ db qd clock (take k (ls ++ late)) p Hr) as (p' & d' & qd' & -> & -> & Hr').
      { by apply Forall_take, Forall_app. }
      eexists _, _. split_and!; [done | done | | done]. pose proof Hr' as (Hd' & Hb' & Hs'). cbn [ldb]. rewrite Hs'.
      split; cbn [text log ldb offset pending unread waiting qdb]; try done; [|by apply Forall_app].
      exists read. by rewrite unlines_app, app_assoc.
  - change (unlines []) with ([] : bytes) in *. rewrite app_nil_r. eexists _, _. split_and!; [done | done | | done].
    split; cbn [text log ldb offset pending unread waiting qdb]; try done; [by exists read|].
    destruct (prune_blind now h (settings db) qd) as [Ew Hb']. pose proof Hr as (Hd & Hb & _).
    rewrite <- Hd in Ew. eapply db_rel_blind; [done | unfold prune_tick; by rewrite Ew|].
    unfold prune_tick. rewrite Ew. cbn. rewrite Hb', Hd. done.
  - change (unlines []) with ([] : bytes) in *. rewrite app_nil_r. eexists _, _. split_and!; [done | done | | done].
    destruct Hr as (Hd & Hb & Hs). cbn [ldb]. rewrite Hs. split; try done. by exists read.
Qed.

Lemma log_run_refines es w q :
  log_rel w q → Forall log_line (written es) →
  (N.of_nat (length (text w) + length (unlines (written es))) ≤ u64_max)%N →
  ∃ w' q', log_run es w = Val w' ∧ queue_run es q = Val q' ∧ log_rel w' q'
  ∧ text w' = text w ++ unlines (written es).
Proof.
  unfold written. revert w q. induction es as [|e es IH]; intros w q Hr Hl Hn.
  { eexists _, _. split_and!; [done..|]. cbn. by rewrite app_nil_r. }
  cbn [mbind list_bind] in *. apply Forall_app in Hl as [He Hl]. rewrite unlines_app, length_app in Hn.
  destruct (log_step_refines e w q Hr He ltac:(lia)) as (w1 & q1 & E1 & E2 & Hr1 & Ht).
  destruct (IH w1 q1 Hr1 Hl) as (w' & q' & E1' & E2' & Hr' & Ht'); [rewrite Ht, length_app; lia|].
  exists w', q'. cbn [log_run queue_run]. rewrite E1, E2. split_and!; [done..|].
  by rewrite Ht', Ht, unlines_app, app_assoc.
Qed.

End lines.

(** C20: No line of dnsmasq's log is lost, and which ones are recorded twice is known.  The
    writes of dnsmasq, the looks of the task (also while dnsmasq writes, also at a file that
    cannot be read, also cut short by a stop of the process between two lines or before the
    offset is saved), the prunings and the restarts may come in any order: the database and
    the table of waiting queries are those of a queue of lines.  A look takes every line of
    the queue, and leaves in it those written after it took the length of the file, and, if
    it is cut short, all.  So the lines taken contain all those written, in their order, but
    for the ones still in the queue; and when no look is raced by a write or cut short, they
    are exactly those, each once.  Conditions: the file is only appended to, by whole lines
    of UTF-8, none of which has a dash as its fifth byte and a character across its
    nineteenth ([safe_line]; such a line panics, [log_line_can_panic]); the file is shorter
    than 2^64 bytes; the database works and holds no offset at the start. *)
Theorem log_refines_queue `{Unicode} `{Captures} `{UpperCase} `{Chrono} `{LogClock} `{Sqlite} (d : PanelDb) (es : list LogEvent) :
  broken d = false → settings d !! OFFSET_KEY = None →
  Forall plain_line (written es) → Forall (λ l, utf8_valid l = true) (written es) →
  Forall safe_line (written es) → (N.of_nat (length (unlines (written es))) ≤ u64_max)%N →
  (∃ w q, log_run es {| text := []; log := log_start d; ldb := d |} = Val w
    ∧ queue_run es {| unread := []; waiting := ∅; qdb := d |} = Val q
    ∧ pending (log w) = waiting q ∧ ldb w = with_settings (settings (ldb w)) (qdb q)
    ∧ text w = unlines (written es)
    ∧ (offset (log w) + N.of_nat (length (unlines (unread q))))%N = N.of_nat (length (text w))
    ∧ unread q = (taken es []).2)
  ∧ written es `sublist_of` (taken es []).1 ++ (taken es []).2
  ∧ (Forall undisturbed es → (taken es []).1 ++ (taken es []).2 = written es).
Proof.
  intros Hb Hs Hl Hu Hsafe Hn. split_and!; [|exact (taken_all es []) | exact (taken_once es [])].
  assert (log_start d = {| offset := 0; pending := ∅ |}) as Hst.
  { unfold log_start, get_setting, query. by rewrite Hb, Hs. }
  assert (Forall log_line (written es)) as Hll.
  { apply list.Forall_forall. intros l Hin. rewrite list.Forall_forall in Hl, Hu, Hsafe. split_and!; auto. }
  destruct (log_run_refines es {| text := []; log := log_start d; ldb := d |} {| unread := []; waiting := ∅; qdb := d |})
    as (w & q & Ew & Eq & [(read & Ht & Ho) _ Hp _ (Hd & _ & _)] & Htext); [|done..|].
  { split; rewrite ?Hst; cbn; try done; [by exists [] | split_and!; [by destruct d | done | done]]. }
  exists w, q. split_and!; [done.. | | exact (queue_run_unread _ _ _ Eq)]. rewrite Ho, Ht, length_app. lia.
Qed.

(** * On concrete lines *)

#[local] Existing Instances ascii_unicode example_chrono example_sqlite.

(** The words that follow a word, when the one in between is the right one. *)
Fixpoint after_word (start : bytes → option bytes) (mid : bytes) (ws : list bytes) : option (list bytes) :=
  match ws with
  | w :: ((d :: m :: a :: _) as ws') =>
      match start w with
      | Some x => if decide (m = mid) then Some [x; d; a] else after_word start mid ws'
      | None => after_word start mid ws'
      end
  | _ => None
  end.
Definition word (w x : bytes) : option bytes := if decide (x = w) then Some x else None.
#[local] Instance example_captures : Captures := λ re line,
  let ws := split_whitespace line in
  if decide (re = RE_QUERY) then after_word (λ w, strip_prefix §"query[" w ≫= strip_suffix §"]") §"from" ws
  else if decide (re = RE_CONFIG) then tail <$> after_word (word §"config") §"is" ws
  else if decide (re = RE_REPLY) then tail <$> after_word (word §"reply") §"is" ws
  else if decide (re = RE_FWD) then tail <$> after_word (word §"forwarded") §"to" ws
  else if decide (re = RE_CACHED) then tail <$> after_word (word §"cached") §"is" ws
  else None.
#[local] Instance example_upper : UpperCase := λ s, s.
#[local] Instance example_log_clock : LogClock :=
  {| parse_from_rfc3339 _ := None; parse_syslog _ := None; from_local t := Some t; local_year _ := 2026%Z |}.

Definition stamp : bytes := §"Oct  7 11:20:01 box dnsmasq[1]: ".
Definition ask (t d c : bytes) : bytes := stamp ++ §"query[" ++ t ++ §"] " ++ d ++ §" from " ++ c.
Definition reply (d a : bytes) : bytes := stamp ++ §"reply " ++ d ++ §" is " ++ a.

(** The two lines of the test in the source. *)
Example parses_query_and_config :
  match parse_dnsmasq_line 0 (ask §"A" §"steam.com" §"10.0.0.5"),
        parse_dnsmasq_line 0 (stamp ++ §"config steam.com is 94.182.174.181") with
  | Val (Some q), Val (Some c) =>
      (ev_kind q, ev_domain q, ev_client_ip q, ev_qtype q, ev_kind c, ev_answer c)
      = (§"query", §"steam.com", §"10.0.0.5", §"A", §"relay", §"94.182.174.181")
  | _, _ => False
  end.
Proof. by vm_compute. Qed.

Definition shown (r : DnsQueryRow) : bytes * bytes * bytes * bytes :=
  (qi_client_ip (qr r), qi_qtype (qr r), qi_action (qr r), qi_answer (qr r)).

(** A restart between a query and its answer: both are recorded, once.  An answer that is
    written during a look is recorded by that look and by the next. *)
Definition example_events : list LogEvent := [
  Appended [ask §"A" §"steam.com" §"10.0.0.5"]; Ticked [] (λ _, 0%Z); Restarted;
  Appended [reply §"steam.com" §"1.2.3.4"; ask §"A" §"a.org" §"10.0.0.6"];
  Ticked [reply §"a.org" §"5.6.7.8"] (λ _, 1%Z); Missed true false false; Ticked [] (λ _, 2%Z)].

Example log_refines_queue_witness :
  ∃ w, log_run example_events {| text := []; log := log_start empty_db; ldb := empty_db |} = Val w
    ∧ shown <$> rows (dns_queries (ldb w)) = [
        (§"10.0.0.5", §"A", §"query", []); ([], §"A", §"reply", §"1.2.3.4"); (§"10.0.0.6", §"A", §"reply", §"5.6.7.8");
        ([], §"A", §"reply", §"5.6.7.8")].
Proof.
  destruct (log_refines_queue empty_db example_events) as [(w & q & Ew & Eq & _ & Hd & _) _].
  - reflexivity.
  - reflexivity.
  - unfold plain_line. repeat constructor; apply (bool_decide_eq_true_1 _); by vm_compute.
  - repeat constructor.
  - unfold safe_line. repeat constructor; try (by vm_compute); try (right; left; by vm_compute);
      apply (bool_decide_eq_true_1 _); by vm_compute.
  - vm_compute. discriminate.
  - exists w. split; [exact Ew|]. rewrite Hd. cbn [with_settings dns_queries].
    revert Eq. vm_compute. intros [= <-]. reflexivity.
Defined.

(** Two queries for one name wait under one key: the first answer goes to the second query, the
    second answer to neither. *)
Lemma second_answer_misplaced :
  match ingest_lines (λ _, 0%Z) [ask §"A" §"a.org" §"10.0.0.6"; ask §"AAAA" §"a.org" §"10.0.0.6";
                                 reply §"a.org" §"5.6.7.8"; reply §"a.org" §"::5"] ∅ empty_db with
  | Val (_, d) => shown <$> rows (dns_queries d) = [
      (§"10.0.0.6", §"A", §"query", []); (§"10.0.0.6", §"AAAA", §"reply", §"5.6.7.8"); ([], §"A", §"reply", §"::5")]
  | Panic => False
  end.
Proof. by vm_compute. Qed.

(** A line that begins like a date and has a long character across its 19th byte. *)
Lemma log_line_can_panic : parse_dnsmasq_line 0 (§"2026-10-07T11:20:0" ++ [xc3; xa9; x21]) = Panic.
Proof. by vm_compute. Qed.
