(* ===== verification/Panel.v ===== *)
(** src/panel/mod.rs: the state of the admin panel, its start, its sessions' cookie and the
    pages it serves.

    The password hash, the embedded files and their types are third-party code.  A state is
    shared by all requests; a request runs its handler on it. *)

From S2P Require Import Prelude RustStr TextLines Collections Net Hosts Config UpstreamRegistry ClientAcl Files PanelDb.

(** [hash_password], of a random salt and a password, and [verify_password]. *)
Class Argon2 := {
  hash_password : bytes → bytes → option bytes;
  verify_password : bytes → bytes → bool;
}.

Record PanelState `{Yaml} `{RegexLib} `{Host} := {
  db : PanelDb;
  cfg : AppConfig;
  upstream_ok : bool;
  hosts_live : option HostsTable;
  hosts_entries : list HostsEntry;
  upstream_registry : UpstreamRegistry;
  client_acl : ClientAcl;
  config_file : bytes;      (** [config_path] *)
  files : Tree;             (** the files of the configuration and of dnsmasq *)
  host : HostState;         (** what commands act on *)
}.

(** * Start *)

Section start.
Context `{Yaml} `{RegexLib} `{Host} `{Argon2}.

Definition PASSWORD_KEY : bytes := §"admin_password_hash".

Inductive StartError := DbFailed (e : DbError) | HashFailed | InvalidPanelAddr | BindFailed.

(** [admin_password] is the environment variable [ADMIN_PASSWORD]. *)
Definition ensure_admin_password (admin_password : option bytes) (salt : bytes) (d : PanelDb)
    : result StartError unit * PanelDb :=
  match get_setting PASSWORD_KEY d with
  | Err e => (Err (DbFailed e), d)
  | Ok (Some _) => (Ok tt, d)
  | Ok None =>
      match hash_password salt (unwrap_or admin_password §"snirelay") with
      | None => (Err HashFailed, d)
      | Some hash =>
          let '(r, d) := set_setting PASSWORD_KEY hash d in
          (match r with Ok _ => Ok tt | Err e => Err (DbFailed e) end, d)
      end
  end.

(** [start_panel]: what the database and the environment are like, whether the address can be
    bound; when the panel is disabled there is no state to serve. *)
Definition start_panel (c : AppConfig) (ok : bool) (reg : UpstreamRegistry) (acl : ClientAcl)
    (admin_password : option bytes) (salt : bytes) (can_bind : SocketAddr → bool)
    (opened : result DbError PanelDb) (t : Tree) (h : HostState)
    : result StartError (option PanelState) :=
  match opened with
  | Err e => Err (DbFailed e)
  | Ok d =>
      if negb (panel_enabled (panel c)) then Ok None else
      let '(r, d) := ensure_admin_password admin_password salt d in
      _ ← r;
      addr ← ok_or (parse_socket_addr (panel_addr (panel c))) InvalidPanelAddr;
      if negb (can_bind addr) then Err BindFailed else
      Ok (Some {|
        db := d; cfg := c; upstream_ok := ok; hosts_live := hosts_table c; hosts_entries := hosts c;
        upstream_registry := reg; client_acl := acl;
        config_file := unwrap_or (config_path c) §"/etc/sniproxy/config.yaml"; files := t; host := h |})
  end.

End start.

(** * The cookie of a session *)

Definition COOKIE : bytes := §"snirelay_session=".

(** [HeaderValue::to_str] *)
Definition header_text (v : bytes) : option bytes :=
  if forallb (λ b, in_range 32 126 b || (bn b =? 9)%N) v then Some v else None.

Fixpoint find_map {A B} (f : A → option B) (l : list A) : option B :=
  match l with
  | [] => None
  | a :: l => match f a with Some b => Some b | None => find_map f l end
  end.

(** Of the value of the first Cookie header. *)
Definition session_token_from_headers (cookie : option bytes) : option bytes :=
  v ← cookie;
  cookies ← header_text v;
  find_map (λ c, strip_prefix COOKIE (trim c)) (split_by (λ b, (bn b =? 59)%N) cookies).

(** * Pages *)

(** The embedded files, and the guess of their type by name. *)
Class PanelAssets := {
  asset : bytes → option bytes;
  mime : bytes → bytes;
}.

(** Status, content type, cache control and body. *)
Record Page := { page_status : N; content_type : option bytes; cache_control : option bytes; page_body : bytes }.

Section pages.
Context `{PanelAssets}.

Definition serve_asset (path : bytes) : Page :=
  match asset path with
  | Some data => {| page_status := 200; content_type := Some (mime path); cache_control := Some §"no-cache"; page_body := data |}
  | None =>
      match asset §"index.html" with
      | Some data => {| page_status := 200; content_type := Some §"text/html; charset=utf-8"; cache_control := None; page_body := data |}
      | None => {| page_status := 404; content_type := Some §"text/plain; charset=utf-8"; cache_control := None;
                   page_body := §"panel assets missing" |}
      end
  end.

Definition index_handler : Page := serve_asset §"index.html".

Definition static_handler (path : bytes) : Page :=
  let path := drop_while (λ b, (bn b =? 47)%N) path in
  if bool_decide (path = []) || bool_decide (path = §"index.html") then serve_asset §"index.html" else
  if starts_with §"api/" path
  then {| page_status := 404; content_type := Some §"text/plain; charset=utf-8"; cache_control := None; page_body := §"not found" |}
  else serve_asset path.

End pages.
