(* ===== verification/PanelApi.v ===== *)
(** src/panel/api.rs: the REST interface of the admin panel.

    A handler is a function of the moment, the request and the state of the panel; the shared
    structures are read and replaced as the code reads and replaces them.  axum has found the
    handler and decoded the request, so a malformed request never gets here.  A JSON object is
    the list of its members, in the order of the code.  The texts of errors, the YAML library
    and chance are the environment. *)

From S2P Require Import Prelude RustStr TextLines Collections Net Hosts Config UpstreamRegistry ClientAcl Metrics Files Ufw DnsmasqStore PanelDb Panel.

(** * JSON *)

#[warnings="-register-all"]
Inductive Json :=
| JNull | JBool (b : bool) | JNum (z : Z) | JStr (s : bytes) | JArr (l : list Json) | JObj (l : list (bytes * Json)).

Record Response := { status : N; set_cookie : option bytes; body : Json }.
Definition OK : N := 200.
Definition BAD_REQUEST : N := 400.
Definition UNAUTHORIZED : N := 401.
Definition INTERNAL_SERVER_ERROR : N := 500.

Definition json (j : Json) : Response := {| status := OK; set_cookie := None; body := j |}.
Definition error (code : N) (text : bytes) : Response :=
  {| status := code; set_cookie := None; body := JObj [(§"error", JStr text)] |}.

Definition jnum (n : N) : Json := JNum (Z.of_N n).
Definition jopt (o : option bytes) : Json := match o with Some s => JStr s | None => JNull end.
(** A map from strings, as [serde_json] orders it. *)
Definition jmap {A} (f : A → Json) (m : gmap bytes A) : Json := JObj ((λ e, (e.1, f e.2)) <$> sorted_entries m).

(** * The environment *)

(** What a request finds that is not in the state: the time, 32 random bytes as hexadecimal
    digits, a random salt, and the counters of the process. *)
Record Moment := { now : Time; fresh_token : bytes; fresh_salt : bytes; counters : Metric → Z }.

(** [serde_yaml]: a document, the insertion of a value under a key of a mapping, and the
    values that the panel writes. *)
Inductive Field :=
| FHosts (l : list HostsEntry) | FProfiles (m : gmap bytes UpstreamProxy) | FText (s : bytes)
| FClients (m : gmap bytes bytes) | FBool (b : bool) | FProxy (p : UpstreamProxy) | FWhitelist (l : list WhitelistEntry).
Class YamlDoc := {
  Doc : Type;
  doc_parse : bytes → option Doc;
  is_mapping : Doc → bool;
  to_value : Field → bool;                 (** whether it can be serialized *)
  doc_insert : bytes → Field → Doc → Doc;
  doc_print : Doc → option bytes;
}.

Inductive PersistError := ReadYaml (path : bytes) | ParseYaml | SerializeYaml | NotAMapping | PrintYaml | WriteYaml (path : bytes).

(** [e.to_string()] *)
Class ErrorText := {
  db_text : DbError → bytes;
  store_text : StoreError → bytes;
  registry_text : RegistryError → bytes;
  acl_text : AclError → bytes;
  hosts_text : HostsError → bytes;
  ufw_text : UfwError → bytes;
  persist_text : PersistError → bytes;
  argon2_text : bytes;
}.

(** * Requests *)

Record RangeQuery := { range : bytes; from : option bytes; to : option bytes; limit : Z }.
Record DomainReq := { d_pattern : bytes; d_kind : bytes; d_mode : bytes; d_note : bytes }.
Record DnsQueriesQuery := { q_limit : Z; q_domain : option bytes; q_client : option bytes; q_action : option bytes }.
Record UpstreamsPayload := {
  p_upstreams : gmap bytes UpstreamProxy; p_default : bytes; p_clients : gmap bytes bytes; p_failover : bool;
}.
Record WhitelistPayload := { w_ips : list bytes; w_entries : list WhitelistEntry; w_ufw_sync : option bool }.

Inductive Request :=
| Health
| Login (password : bytes) | Logout | Me
| ChangePassword (current new_password : bytes)
| Stats
| TrafficIps (q : RangeQuery) | TrafficIpDetail (ip : bytes) (q : RangeQuery) | TrafficDaily (q : RangeQuery)
| ListDomains | CreateDomain (b : DomainReq) | ReplaceDomains (items : list DnsDomain)
| UpdateDomain (pattern : bytes) (b : DomainReq) | DeleteDomain (pattern mode : bytes) | ImportDomains (text mode : bytes)
| DnsmasqExport | DnsmasqApply | DnsmasqReload
| ListDnsQueries (q : DnsQueriesQuery) | ClearDnsQueries | DnsQueriesTop (q : DnsQueriesQuery)
| ConfigSummary
| GetHosts | PutHosts (hosts : list HostsEntry)
| GetUpstreams | PutUpstreams (b : UpstreamsPayload)
| AddClientUpstream (ip profile : bytes) | DeleteClientUpstream (ip : bytes)
| GetWhitelist | PutWhitelist (b : WhitelistPayload)
| AddWhitelistIp (ip username : bytes) | DeleteWhitelistIp (ip : bytes).

Section api.
Context `{Unicode} `{Yaml} `{RegexLib} `{HashOrder} `{Kernel} `{Host} `{Chrono} `{Sqlite} `{Argon2} `{YamlDoc} `{ErrorText}.

Definition Handler := Moment → PanelState → Response * PanelState.

(** A read of the database, and a change to it. *)
Definition on_query {A} (q : Query A) (code : N) (k : A → Json) : Handler := λ _ s,
  (match q (db s) with Ok a => json (k a) | Err e => error code (db_text e) end, s).
Definition on_update {A} (u : Update A) (code : N) (k : A → Json) : Handler := λ _ s,
  let '(r, d) := u (db s) in
  (match r with Ok a => json (k a) | Err e => error code (db_text e) end, s {{ db := d }}).

(** * Sessions *)

Definition VERSION : bytes := §"0.3.0".
Definition SESSION_HOURS : Z := 24 * 7.
Definition OK_TRUE : bytes * Json := (§"ok", JBool true).

Definition require_auth (cookie : option bytes) (m : Moment) (s : PanelState) : bool :=
  match session_token_from_headers cookie with
  | None => false
  | Some token => match session_valid (now m) token (db s) with Ok b => b | Err _ => false end
  end.
Definition unauthorized : Response := error UNAUTHORIZED §"unauthorized".

(** The handlers that start with [require_auth]. *)
Definition authed (cookie : option bytes) (k : Handler) : Handler := λ m s,
  if require_auth cookie m s then k m s else (unauthorized, s).

Definition health : Handler := λ _ s, (json (JObj [OK_TRUE; (§"service", JStr §"snirelay-panel")]), s).

Definition login (password : bytes) : Handler := λ m s,
  match get_setting PASSWORD_KEY (db s) with
  | Ok (Some hash) =>
      if negb (verify_password password hash) then (error UNAUTHORIZED §"invalid password", s) else
      let token := fresh_token m in
      let '(r, d) := create_session (now m) token SESSION_HOURS (db s) in
      let s := s {{ db := d }} in
      (match r with
       | Err e => error INTERNAL_SERVER_ERROR (db_text e)
       | Ok _ =>
           let cookie := COOKIE ++ token ++ §"; Path=/; HttpOnly; SameSite=Lax; Max-Age=" ++ show (7 * 24 * 3600)%N in
           {| status := OK; set_cookie := Some cookie; body := JObj [OK_TRUE] |}
       end, s)
  | _ => (error INTERNAL_SERVER_ERROR §"password not configured", s)
  end.

Definition logout (cookie : option bytes) : Handler := λ _ s,
  ({| status := OK; set_cookie := Some (COOKIE ++ §"; Path=/; HttpOnly; Max-Age=0"); body := JObj [OK_TRUE] |},
   match session_token_from_headers cookie with
   | Some token => s {{ db := (delete_session token (db s)).2 }}
   | None => s
   end).

Definition me (cookie : option bytes) : Handler := authed cookie (λ _ s, (json (JObj [OK_TRUE; (§"user", JStr §"admin")]), s)).

Definition change_password (cookie : option bytes) (current new_password : bytes) : Handler := authed cookie (λ m s,
  if length new_password <? 6 then (error BAD_REQUEST §"password too short", s) else
  let hash := match get_setting PASSWORD_KEY (db s) with Ok (Some h) => h | _ => [] end in
  if negb (verify_password current hash) then (error UNAUTHORIZED §"current password incorrect", s) else
  match hash_password (fresh_salt m) new_password with
  | Some h => (json (JObj [OK_TRUE]), s {{ db := (set_setting PASSWORD_KEY h (db s)).2 }})
  | None => (error INTERNAL_SERVER_ERROR argon2_text, s)
  end).

(** * Figures *)

Definition stats (cookie : option bytes) : Handler := authed cookie (λ m s,
  (json (JObj [
    (§"active_connections", JNum (counters m ACTIVE_CONNECTIONS));
    (§"total_connections", JNum (counters m TOTAL_CONNECTIONS));
    (§"bytes_proxied", JNum (counters m BYTES_PROXIED));
    (§"connection_errors", JNum (counters m CONNECTION_ERRORS));
    (§"upstream_ok", JBool (upstream_ok s));
    (§"upstream", JStr (show_proxy (upstream_proxy (cfg s))));
    (§"version", JStr VERSION)]), s)).

Definition default_range : bytes := §"7d".
Definition default_limit : Z := 100.
Definition DAY_LENGTH : Z := 24 * HOUR.

Definition resolve_range (m : Moment) (q : RangeQuery) : bytes * bytes :=
  match from q, to q with
  | Some f, Some t => (f, t)
  | _, _ =>
      let days := (if bool_decide (range q = §"1d") || bool_decide (range q = §"today") then 0
                   else if bool_decide (range q = §"30d") then 29 else 6)%Z in
      (day_text (now m - days * DAY_LENGTH)%Z, day_text (now m))
  end.

Definition ip_traffic_json (r : IpTrafficRow) : Json := JObj [
  (§"client_ip", JStr (it_client_ip r)); (§"bytes_up", jnum (it_bytes_up r)); (§"bytes_down", jnum (it_bytes_down r));
  (§"sessions", jnum (it_sessions r)); (§"last_seen", JStr (it_last_seen r))].
Definition domain_traffic_json (r : IpDomainTrafficRow) : Json := JObj [
  (§"domain", JStr (id_domain r)); (§"bytes_up", jnum (id_bytes_up r)); (§"bytes_down", jnum (id_bytes_down r));
  (§"sessions", jnum (id_sessions r))].
Definition daily_traffic_json (r : DailyTrafficRow) : Json := JObj [
  (§"day", JStr (dt_day r)); (§"bytes_up", jnum (dt_bytes_up r)); (§"bytes_down", jnum (dt_bytes_down r));
  (§"sessions", jnum (dt_sessions r))].

Definition traffic_ips (cookie : option bytes) (q : RangeQuery) : Handler := authed cookie (λ m,
  let '(from, to) := resolve_range m q in
  on_query (traffic_by_ip from to (clamp 1 1000 (limit q))) INTERNAL_SERVER_ERROR
    (λ rows, JObj [(§"from", JStr from); (§"to", JStr to); (§"items", JArr (ip_traffic_json <$> rows))]) m).

Definition traffic_ip_detail (cookie : option bytes) (ip : bytes) (q : RangeQuery) : Handler := authed cookie (λ m,
  let '(from, to) := resolve_range m q in
  on_query (traffic_for_ip_domains ip from to (clamp 1 500 (limit q))) INTERNAL_SERVER_ERROR
    (λ rows, JObj [(§"client_ip", JStr ip); (§"from", JStr from); (§"to", JStr to);
                   (§"domains", JArr (domain_traffic_json <$> rows))]) m).

Definition traffic_daily (cookie : option bytes) (q : RangeQuery) : Handler := authed cookie (λ m,
  let '(from, to) := resolve_range m q in
  on_query (daily_totals from to) INTERNAL_SERVER_ERROR
    (λ rows, JObj [(§"from", JStr from); (§"to", JStr to); (§"items", JArr (daily_traffic_json <$> rows))]) m).

(** * Domains *)

Definition dnsmasq_paths (s : PanelState) : option DnsmasqPaths := from_panel (panel (cfg s)) (files s).

Definition jreload (o : option bool) : Json := match o with Some b => JBool b | None => JNull end.

Definition save_dnsmasq (domains : list DnsDomain) (s : PanelState) : result bytes (list (bytes * Json)) * PanelState :=
  match dnsmasq_paths s with
  | None => (Err §"dnsmasq conf dir not available (set DNSMASQ_CONF_DIR=/etc/dnsmasq.d)", s)
  | Some paths =>
      let '(r, t) := save_domains paths domains (files s) in
      let s := s {{ files := t }} in
      match r with
      | Err e => (Err (store_text e), s)
      | Ok _ =>
          let '(r, h) := reload paths (host s) in
          let s := s {{ host := h }} in
          (match r with
           | Err e => Err (store_text e)
           | Ok reload_ok => Ok [
               OK_TRUE; (§"source", JStr §"dnsmasq"); (§"relay_file", JStr (relay_file paths));
               (§"bypass_file", JStr (bypass_file paths)); (§"relay_ip", JStr (DnsmasqStore.relay_ip paths));
               (§"reload_ok", jreload reload_ok); (§"count", JNum (Z.of_nat (length domains)))]
           end, s)
      end
  end.

(** [match save_dnsmasq(..)], with more members for the answer. *)
Definition saved (more : list (bytes * Json)) (domains : list DnsDomain) (s : PanelState) : Response * PanelState :=
  let '(r, s) := save_dnsmasq domains s in
  (match r with Ok v => json (JObj (v ++ more)) | Err e => error BAD_REQUEST e end, s).

(** With the rules of dnsmasq when its files are there, otherwise with the database. *)
Definition with_domains (dnsmasq : DnsmasqPaths → list DnsDomain → Handler) (sqlite : Handler) : Handler := λ m s,
  match dnsmasq_paths s with
  | Some paths =>
      match load_domains paths (files s) with
      | Err e => (error INTERNAL_SERVER_ERROR (store_text e), s)
      | Ok items => dnsmasq paths items m s
      end
  | None => sqlite m s
  end.

Definition dns_domain_json (d : DnsDomain) : Json := JObj [
  (§"pattern", JStr (DnsmasqStore.pattern d)); (§"mode", JStr (mode d)); (§"source", JStr (source d))].
Definition domain_row_json (r : DomainRow) : Json := JObj [
  (§"id", JNum (dr_id r)); (§"pattern", JStr (dr_pattern r)); (§"kind", JStr (dr_kind r)); (§"mode", JStr (dr_mode r));
  (§"note", JStr (dr_note r)); (§"created_at", JStr (dr_created_at r))].

Definition dnsmasq_hint (configured : option bytes) : bytes :=
  match nonempty configured with
  | Some p => §"Configured dnsmasq_conf_dir=" ++ p ++ §" but it is missing inside the container. "
              ++ §"Mount host path: -v /etc/dnsmasq.d:/etc/dnsmasq.d"
  | None => §"Set panel.dnsmasq_conf_dir: " ++ [x22] ++ §"/etc/dnsmasq.d" ++ [x22] ++ §" in snirelay.yaml "
            ++ §"(or DNSMASQ_CONF_DIR=/etc/dnsmasq.d) and mount /etc/dnsmasq.d into the container."
  end.

Definition list_domains_handler (cookie : option bytes) : Handler := authed cookie (with_domains
  (λ paths items _ s, (json (JObj [
     (§"source", JStr §"dnsmasq"); (§"relay_ip", JStr (DnsmasqStore.relay_ip paths)); (§"relay_file", JStr (relay_file paths));
     (§"bypass_file", JStr (bypass_file paths)); (§"conf_dir", JStr (conf_dir paths)); (§"items", JArr (dns_domain_json <$> items))]), s))
  (λ m s,
     let configured := dnsmasq_conf_dir (panel (cfg s)) in
     on_query list_domains INTERNAL_SERVER_ERROR
       (λ items, JObj [(§"source", JStr §"sqlite"); (§"items", JArr (domain_row_json <$> items));
                       (§"dnsmasq_hint", JStr (dnsmasq_hint configured)); (§"dnsmasq_conf_dir", jopt configured)]) m s)).

Definition normalize_mode (mode : bytes) : bytes :=
  if bool_decide (mode = §"bypass") || bool_decide (mode = §"direct") then §"bypass" else §"relay".

(** [items.retain(..); items.push(..)] *)
Definition put_rule (pattern rule_mode : bytes) (items : list DnsDomain) : list DnsDomain :=
  filter (λ d, ¬ (DnsmasqStore.pattern d = pattern ∧ mode d = rule_mode)) items
  ++ [{| DnsmasqStore.pattern := pattern; mode := rule_mode; source := [] |}].

Definition create_domain (cookie : option bytes) (b : DomainReq) : Handler := authed cookie (
  let mode := normalize_mode (d_mode b) in
  with_domains
    (λ _ items _ s,
       let pattern := to_lowercase (trim (d_pattern b)) in
       if decide (pattern = []) then (error BAD_REQUEST §"empty pattern", s)
       else saved [] (put_rule pattern mode items) s)
    (λ m, on_update (add_domain (now m) (d_pattern b) (d_kind b) mode (d_note b)) BAD_REQUEST
            (λ id, JObj [OK_TRUE; (§"id", JNum id)]) m)).

Definition replace_domains (cookie : option bytes) (items : list DnsDomain) : Handler := authed cookie (λ _ s,
  match dnsmasq_paths s with
  | None => (error BAD_REQUEST §"bulk replace requires DNSMASQ_CONF_DIR", s)
  | Some _ => saved [] items s
  end).

Definition update_domain_handler (cookie : option bytes) (pattern : bytes) (b : DomainReq) : Handler := authed cookie (
  let mode := normalize_mode (d_mode b) in
  with_domains
    (λ _ items _ s,
       let old := to_lowercase pattern in
       let new_pat := to_lowercase (trim (d_pattern b)) in
       if decide (new_pat = []) then (error BAD_REQUEST §"empty pattern", s)
       else saved [] (put_rule new_pat mode (filter (λ d, DnsmasqStore.pattern d ≠ old) items)) s)
    (λ m s,
       match parse_i64 pattern with
       | None => (error BAD_REQUEST §"invalid id", s)
       | Some id => on_update (update_domain id (d_pattern b) (d_kind b) mode (d_note b)) BAD_REQUEST
                      (λ _, JObj [OK_TRUE]) m s
       end)).

Definition delete_domain_handler (cookie : option bytes) (pattern query_mode : bytes) : Handler := authed cookie (
  let rule_mode := normalize_mode query_mode in
  with_domains
    (λ _ items _ s,
       let pat := to_lowercase pattern in
       let kept := filter (λ d, ¬ (DnsmasqStore.pattern d = pat ∧ mode d = rule_mode)) items in
       saved [] (if length kept =? length items then filter (λ d, DnsmasqStore.pattern d ≠ pat) kept else kept) s)
    (λ m s,
       match parse_i64 pattern with
       | None => (error BAD_REQUEST §"invalid id", s)
       | Some id => on_update (delete_domain id) BAD_REQUEST (λ _, JObj [OK_TRUE]) m s
       end)).

(** The rule of a line of the text to import. *)
Definition import_rule (default_mode raw : bytes) : option (bytes * bytes) :=
  let line := to_lowercase (trim raw) in
  if bool_decide (line = []) || starts_with §"#" line then None else
  let '(pat, line_mode) :=
    match (r ← strip_prefix §"address=/" line; rsplit_once SLASH r) with
    | Some (p, _) => (p, §"relay")
    | None =>
        match (r ← strip_prefix §"server=/" line; strip_suffix §"/#" r) with
        | Some p => (p, §"bypass")
        | None =>
            match strip_prefix §"*." line with
            | Some rest => (rest, default_mode)
            | None => (line, default_mode)
            end
        end
    end in
  if decide (pat = []) then None else Some (pat, line_mode).

Definition import_domains_handler (cookie : option bytes) (text query_mode : bytes) : Handler := authed cookie (
  let default_mode := normalize_mode query_mode in
  with_domains
    (λ _ items _ s,
       let rules := omap (import_rule default_mode) (lines text) in
       saved [(§"imported", JNum (Z.of_nat (length rules)))] (foldl (λ items r, put_rule r.1 r.2 items) items rules) s)
    (λ m, on_update (import_domains (now m) text default_mode) BAD_REQUEST
            (λ n, JObj [OK_TRUE; (§"imported", JNum (Z.of_nat n))]) m)).

Definition dnsmasq_export (cookie : option bytes) : Handler := authed cookie (with_domains
  (λ paths items _ s,
     let is_bypass d := bool_decide (mode d = §"bypass") in
     let relay := mjoin ((λ d, address_line (DnsmasqStore.relay_ip paths) (DnsmasqStore.pattern d) ++ [LF]) <$> filter (λ d, is_bypass d = false) items) in
     let bypass := mjoin ((λ d, server_line (DnsmasqStore.pattern d) ++ [LF]) <$> filter (λ d, is_bypass d = true) items) in
     (json (JObj [
        (§"relay_ip", JStr (DnsmasqStore.relay_ip paths)); (§"relay_file", JStr (relay_file paths)); (§"bypass_file", JStr (bypass_file paths));
        (§"content", JStr (§"# relay" ++ [LF] ++ relay ++ [LF] ++ §"# bypass" ++ [LF] ++ bypass));
        (§"relay", JStr relay); (§"bypass", JStr bypass)]), s))
  (λ m s,
     match nonempty (Config.relay_ip (panel (cfg s))) with
     | None => (error BAD_REQUEST §"relay_ip not configured", s)
     | Some ip => on_query relay_domains_for_dnsmasq INTERNAL_SERVER_ERROR
                    (λ domains, JObj [(§"relay_ip", JStr ip); (§"content", JStr (render_dnsmasq domains ip))]) m s
     end)).

Definition dnsmasq_apply (cookie : option bytes) : Handler := authed cookie (with_domains
  (λ _ items _ s, saved [] items s)
  (λ _ s, (error BAD_REQUEST §"configure DNSMASQ_CONF_DIR to apply to live dnsmasq files", s))).

Definition dnsmasq_reload (cookie : option bytes) : Handler := authed cookie (λ _ s,
  match dnsmasq_paths s with
  | None => (error BAD_REQUEST §"dnsmasq not configured", s)
  | Some paths =>
      let '(r, h) := reload paths (host s) in
      (match r with
       | Ok reload_ok => json (JObj [OK_TRUE; (§"reload_ok", jreload reload_ok)])
       | Err e => error INTERNAL_SERVER_ERROR (store_text e)
       end, s {{ host := h }})
  end).

(** * The log of DNS queries *)

Definition query_json (r : DnsQueryRow) : Json := JObj [
  (§"id", JNum (qr_id r)); (§"ts", JStr (qi_ts (qr r))); (§"client_ip", JStr (qi_client_ip (qr r)));
  (§"qtype", JStr (qi_qtype (qr r))); (§"domain", JStr (qi_domain (qr r))); (§"action", JStr (qi_action (qr r)));
  (§"answer", JStr (qi_answer (qr r)))].

Definition default_dns_limit : Z := 200.

Definition list_dns_queries_handler (cookie : option bytes) (q : DnsQueriesQuery) : Handler := authed cookie (λ m s,
  let p := panel (cfg s) in
  on_query (list_dns_queries (q_limit q) (q_domain q) (q_client q) (q_action q)) INTERNAL_SERVER_ERROR
    (λ items, JObj [
       (§"enabled", JBool (match nonempty (dnsmasq_query_log p) with Some _ => true | None => false end));
       (§"log_path", jopt (dnsmasq_query_log p)); (§"retain_hours", jnum (dns_query_retain_hours p));
       (§"total", JNum (match dns_queries_count (db s) with Ok n => n | Err _ => Z.of_nat (length items) end));
       (§"items", JArr (query_json <$> items))]) m s).

Definition dns_queries_top (cookie : option bytes) (q : DnsQueriesQuery) : Handler := authed cookie (
  on_query (dns_query_top_domains (clamp 1 100 (q_limit q))) INTERNAL_SERVER_ERROR
    (λ rows, JObj [(§"items", JArr ((λ r, JObj [(§"domain", JStr r.1); (§"count", JNum r.2)]) <$> rows))])).

Definition clear_dns_queries_handler (cookie : option bytes) : Handler := authed cookie (
  on_update clear_dns_queries INTERNAL_SERVER_ERROR (λ n, JObj [OK_TRUE; (§"deleted", JNum (Z.of_nat n))])).

(** * Upstreams *)

Definition given (o : option bytes) : bool := match nonempty o with Some _ => true | None => false end.

Definition proxy_public_json (p : UpstreamProxy) : Json :=
  match p with
  | Socks5 host port username password => JObj [
      (§"type", JStr §"socks5"); (§"host", JStr host); (§"port", jnum port); (§"username", jopt username);
      (§"has_password", JBool (given password))]
  | Http host port auth => JObj [
      (§"type", JStr §"http"); (§"host", JStr host); (§"port", jnum port); (§"has_auth", JBool (given auth))]
  | Direct => JObj [(§"type", JStr §"direct")]
  end.

Definition merge_proxy_secrets (new old : UpstreamProxy) : UpstreamProxy :=
  match new, old with
  | Socks5 h p u new_pw, Socks5 _ _ _ old_pw => Socks5 h p u (if given new_pw then new_pw else old_pw)
  | Http h p new_auth, Http _ _ old_auth => Http h p (if given new_auth then new_auth else old_auth)
  | _, _ => new
  end.

Definition get_upstreams (cookie : option bytes) : Handler := authed cookie (λ _ s,
  let reg := upstream_registry s in
  (json (JObj [
     (§"upstreams", jmap proxy_public_json (profiles reg)); (§"default_upstream", JStr (default reg));
     (§"client_upstreams", jmap JStr (by_ip reg)); (§"upstream_failover", JBool (failover reg))]), s)).

(** ** The YAML file *)

Fixpoint to_values (fields : list (bytes * Field)) : bool :=
  match fields with [] => true | (_, v) :: fields => to_value v && to_values fields end.

Definition persist_yaml (path : bytes) (fields : list (bytes * Field)) (t : Tree) : result PersistError unit * Tree :=
  match read_to_string path t with
  | None => (Err (ReadYaml path), t)
  | Some content =>
      match doc_parse content with
      | None => (Err ParseYaml, t)
      | Some value =>
          if negb (to_values fields) then (Err SerializeYaml, t) else
          if negb (is_mapping value) then (Err NotAMapping, t) else
          match doc_print (foldl (λ d kv, doc_insert kv.1 kv.2 d) value fields) with
          | None => (Err PrintYaml, t)
          | Some out =>
              let '(ok, t) := write_file path out t in (if ok : bool then Ok tt else Err (WriteYaml path), t)
          end
      end
  end.

Definition hosts_fields (hosts : list HostsEntry) : list (bytes * Field) := [(§"hosts", FHosts hosts)].
Definition upstreams_fields (reg : UpstreamRegistry) : list (bytes * Field) := [
  (§"upstreams", FProfiles (profiles reg)); (§"default_upstream", FText (default reg));
  (§"client_upstreams", FClients (by_ip reg)); (§"upstream_failover", FBool (failover reg));
  (§"upstream_proxy", FProxy (match default_proxy reg with Ok p => p | Err _ => Direct end))].
Definition whitelist_fields (acl : ClientAcl) : list (bytes * Field) := [
  (§"client_whitelist", FWhitelist (as_entries acl)); (§"client_whitelist_ufw", FBool (ClientAcl.ufw_sync acl))].

(** [persist_hosts_yaml] and its like: the message for the answer, and the state. *)
Definition persist (fields : list (bytes * Field)) (s : PanelState) : bytes * PanelState :=
  let '(r, t) := persist_yaml (config_file s) fields (files s) in
  (match r with Ok _ => §"saved" | Err e => §"hot-reloaded; YAML save failed: " ++ persist_text e end,
   s {{ files := t }}).

Definition put_upstreams (cookie : option bytes) (b : UpstreamsPayload) : Handler := authed cookie (λ _ s,
  let current := profiles (upstream_registry s) in
  let merged := map_imap (λ name p,
    Some (match current !! name with Some old => merge_proxy_secrets p old | None => p end)) (p_upstreams b) in
  match from_parts merged (p_default b) (p_clients b) (p_failover b) with
  | Err e => (error BAD_REQUEST (registry_text e), s)
  | Ok reg =>
      let '(msg, s) := persist (upstreams_fields reg) (s {{ upstream_registry := reg }}) in
      (json (JObj [
         OK_TRUE; (§"persist", JStr msg); (§"default_upstream", JStr (default reg)); (§"upstream_failover", JBool (failover reg));
         (§"profiles", JNum (Z.of_nat (size (profiles reg)))); (§"client_routes", JNum (Z.of_nat (size (by_ip reg))));
         (§"client_upstreams", jmap JStr (by_ip reg)); (§"note", JStr §"upstream routing hot-reloaded for new connections")]), s)
  end).

Definition add_client_upstream (cookie : option bytes) (ip profile : bytes) : Handler := authed cookie (λ _ s,
  match set_client_upstream (upstream_registry s) ip (trim profile) with
  | Err e => (error BAD_REQUEST (registry_text e), s)
  | Ok reg =>
      let '(msg, s) := persist (upstreams_fields reg) (s {{ upstream_registry := reg }}) in
      (json (JObj [
         OK_TRUE; (§"persist", JStr msg); (§"ip", JStr (unwrap_or (normalize_client_ip ip) ip)); (§"profile", JStr (trim profile));
         (§"client_upstreams", jmap JStr (by_ip reg)); (§"default_upstream", JStr (default reg))]), s)
  end).

Definition delete_client_upstream (cookie : option bytes) (ip : bytes) : Handler := authed cookie (λ _ s,
  match remove_client_upstream (upstream_registry s) ip with
  | Err e => (error BAD_REQUEST (registry_text e), s)
  | Ok (reg, removed) =>
      let '(msg, s) := persist (upstreams_fields reg) (s {{ upstream_registry := reg }}) in
      (json (JObj [
         OK_TRUE; (§"removed", JBool removed); (§"persist", JStr msg); (§"client_upstreams", jmap JStr (by_ip reg));
         (§"default_upstream", JStr (default reg))]), s)
  end).

(** * Hosts *)

Definition host_json (e : HostsEntry) : Json := JObj [(§"pattern", JStr (Hosts.pattern e)); (§"address", JStr (address e))].

Definition get_hosts (cookie : option bytes) : Handler := authed cookie (λ _ s, (json (JObj [(§"hosts", JArr (host_json <$> hosts_entries s))]), s)).

Definition put_hosts (cookie : option bytes) (hosts : list HostsEntry) : Handler := authed cookie (λ _ s,
  match compile_hosts_table hosts with
  | Err e => (error BAD_REQUEST (hosts_text e), s)
  | Ok compiled =>
      let '(msg, s) := persist (hosts_fields hosts) (s {{ hosts_live := compiled }} {{ hosts_entries := hosts }}) in
      (json (JObj [OK_TRUE; (§"persist", JStr msg); (§"note", JStr §"hosts table hot-reloaded for new connections")]), s)
  end).

(** * The summary *)

Definition listen_json (l : ListenerConfig) : Json := JObj [
  (§"name", JStr (label l)); (§"addr", JStr (addr l)); (§"proto", JStr (proto_str l))].

Definition config_summary (cookie : option bytes) : Handler := authed cookie (λ _ s,
  let reg := upstream_registry s in
  let p := panel (cfg s) in
  (json (JObj [
     (§"upstream", JStr (show_proxy (upstream_proxy (cfg s)))); (§"default_upstream", JStr (default reg));
     (§"upstream_failover", JBool (failover reg)); (§"upstreams", jmap proxy_public_json (profiles reg));
     (§"client_upstreams", jmap JStr (by_ip reg)); (§"listens", JArr (listen_json <$> listens (cfg s)));
     (§"hosts", JArr (host_json <$> hosts_entries s));
     (§"panel", JObj [
        (§"addr", JStr (panel_addr p)); (§"db_path", JStr (db_path p)); (§"relay_ip", jopt (Config.relay_ip p));
        (§"dnsmasq_conf_dir", jopt (dnsmasq_conf_dir p)); (§"dnsmasq_relay_file", jopt (dnsmasq_relay_file p));
        (§"dnsmasq_bypass_file", jopt (dnsmasq_bypass_file p)); (§"dnsmasq_conf_path", jopt (dnsmasq_conf_path p));
        (§"dnsmasq_query_log", jopt (dnsmasq_query_log p)); (§"dns_query_retain_hours", jnum (dns_query_retain_hours p));
        (§"dns_queries_count", JNum (match dns_queries_count (db s) with Ok n => n | Err _ => 0%Z end));
        (§"dnsmasq_reload_cmd", jopt (dnsmasq_reload_cmd p));
        (§"dnsmasq_live", match dnsmasq_paths s with
           | Some d => JObj [(§"conf_dir", JStr (conf_dir d)); (§"relay_file", JStr (relay_file d));
                             (§"bypass_file", JStr (bypass_file d)); (§"relay_ip", JStr (DnsmasqStore.relay_ip d))]
           | None => JNull
           end)]);
     (§"config_path", JStr (config_file s)); (§"version", JStr VERSION)]), s)).

(** * White list *)

Definition whitelist_entries_json (acl : ClientAcl) : Json :=
  JArr ((λ e, JObj [(§"ip", JStr (ip e)); (§"username", JStr (unwrap_or (username e) []))]) <$> as_entries acl).
Definition ips_json (acl : ClientAcl) : Json := JArr (JStr <$> as_vec acl).

Definition WHITELIST_NOTE : bytes :=
  §"Empty list = allow all (ACL off). Panel itself is never filtered. UFW comment = snirelay:<username>.".

Definition get_whitelist (cookie : option bytes) : Handler := authed cookie (λ _ s,
  let acl := client_acl s in
  let bin := ufw_bin (cfg s) in
  let '(available, h) := ufw_available bin (host s) in
  (json (JObj [
     (§"ips", ips_json acl); (§"entries", whitelist_entries_json acl); (§"open", JBool (is_open acl));
     (§"ufw_sync", JBool (ClientAcl.ufw_sync acl)); (§"ufw_available", JBool available); (§"ufw_bin", jopt bin);
     (§"note", JStr WHITELIST_NOTE)]), s {{ host := h }})).

(** The note on one command, and those on several, one after the other. *)
Definition ufw_step (sign ip : bytes) (m : HostM bytes) (h : HostState) : bytes * HostState :=
  let '(r, h) := m h in
  (sign ++ §" " ++ ip ++ §": " ++ match r with Ok msg => msg | Err e => §"ERROR " ++ ufw_text e end, h).
Fixpoint ufw_steps (l : list (HostState → bytes * HostState)) (h : HostState) : list bytes * HostState :=
  match l with
  | [] => ([], h)
  | f :: l => let '(note, h) := f h in let '(notes, h) := ufw_steps l h in (note :: notes, h)
  end.

(** The commands of [put_whitelist]: for the new and renamed entries, then for those gone. *)
Definition whitelist_commands (bin : option bytes) (prev acl : ClientAcl) : list (HostState → bytes * HostState) :=
  ((λ e, ufw_step §"+" (ip e) (allow_ip (ip e) (username e) bin))
     <$> filter (λ e, contains_ip prev (ip e) && bool_decide (username_for prev (ip e) = username e) = false) (as_entries acl))
  ++ ((λ i, ufw_step §"-" i (delete_ip i bin)) <$> filter (λ i, contains_ip acl i = false) (as_vec prev)).

Definition put_whitelist (cookie : option bytes) (b : WhitelistPayload) : Handler := authed cookie (λ _ s,
  let rows := if decide (w_entries b = []) then ip_only <$> w_ips b else w_entries b in
  let prev := client_acl s in
  match acl_from_parts rows (unwrap_or (w_ufw_sync b) (ClientAcl.ufw_sync prev)) with
  | Err e => (error BAD_REQUEST (acl_text e), s)
  | Ok acl =>
      let '(notes, h) := if ClientAcl.ufw_sync acl then ufw_steps (whitelist_commands (ufw_bin (cfg s)) prev acl) (host s)
                         else ([], host s) in
      let '(msg, s) := persist (whitelist_fields acl) (s {{ host := h }}) in
      (json (JObj [
         OK_TRUE; (§"persist", JStr msg); (§"ips", ips_json acl); (§"entries", whitelist_entries_json acl);
         (§"open", JBool (is_open acl)); (§"ufw_sync", JBool (ClientAcl.ufw_sync acl)); (§"ufw", JArr (JStr <$> notes))]),
       s {{ client_acl := acl }})
  end).

Definition ufw_note (r : result UfwError bytes) : Json :=
  JStr (match r with Ok msg => msg | Err e => §"ERROR: " ++ ufw_text e end).

Definition add_whitelist_ip (cookie : option bytes) (i user : bytes) : Handler := authed cookie (λ _ s,
  match require_username user with
  | Err e => (error BAD_REQUEST (acl_text e), s)
  | Ok user =>
      match add (client_acl s) i user with
      | Err e => (error BAD_REQUEST (acl_text e), s)
      | Ok (acl, added, user) =>
          let '(note, h) :=
            if ClientAcl.ufw_sync acl then
              let '(r, h) := allow_ip i (Some user) (ufw_bin (cfg s)) (host s) in (ufw_note r, h)
            else (JNull, host s) in
          let '(msg, s) := persist (whitelist_fields acl) (s {{ host := h }}) in
          (json (JObj [
             OK_TRUE; (§"added", JBool added); (§"username", JStr user); (§"ufw_comment", JStr (rule_comment (Some user)));
             (§"persist", JStr msg); (§"ips", ips_json acl); (§"entries", whitelist_entries_json acl);
             (§"open", JBool (is_open acl)); (§"ufw", note)]), s {{ client_acl := acl }})
      end
  end).

Definition delete_whitelist_ip (cookie : option bytes) (i : bytes) : Handler := authed cookie (λ _ s,
  match remove (client_acl s) i with
  | Err e => (error BAD_REQUEST (acl_text e), s)
  | Ok (acl, removed) =>
      let '(note, h) :=
        if removed && ClientAcl.ufw_sync acl then
          let '(r, h) := delete_ip i (ufw_bin (cfg s)) (host s) in (ufw_note r, h)
        else (JNull, host s) in
      let '(msg, s) := persist (whitelist_fields acl) (s {{ host := h }}) in
      (json (JObj [
         OK_TRUE; (§"removed", JBool removed); (§"persist", JStr msg); (§"ips", ips_json acl);
         (§"entries", whitelist_entries_json acl); (§"open", JBool (is_open acl)); (§"ufw", note)]), s {{ client_acl := acl }})
  end).

(** * The router *)

Definition handler (cookie : option bytes) (r : Request) : Handler :=
  match r with
  | Health => health
  | Login password => login password
  | Logout => logout cookie
  | Me => me cookie
  | ChangePassword current new_password => change_password cookie current new_password
  | Stats => stats cookie
  | TrafficIps q => traffic_ips cookie q
  | TrafficIpDetail i q => traffic_ip_detail cookie i q
  | TrafficDaily q => traffic_daily cookie q
  | ListDomains => list_domains_handler cookie
  | CreateDomain b => create_domain cookie b
  | ReplaceDomains items => replace_domains cookie items
  | ImportDomains text mode => import_domains_handler cookie text mode
  | UpdateDomain pattern b => update_domain_handler cookie pattern b
  | DeleteDomain pattern mode => delete_domain_handler cookie pattern mode
  | DnsmasqExport => dnsmasq_export cookie
  | DnsmasqApply => dnsmasq_apply cookie
  | DnsmasqReload => dnsmasq_reload cookie
  | ListDnsQueries q => list_dns_queries_handler cookie q
  | ClearDnsQueries => clear_dns_queries_handler cookie
  | DnsQueriesTop q => dns_queries_top cookie q
  | ConfigSummary => config_summary cookie
  | GetHosts => get_hosts cookie
  | PutHosts hosts => put_hosts cookie hosts
  | GetUpstreams => get_upstreams cookie
  | PutUpstreams b => put_upstreams cookie b
  | AddClientUpstream i profile => add_client_upstream cookie i profile
  | DeleteClientUpstream i => delete_client_upstream cookie i
  | GetWhitelist => get_whitelist cookie
  | PutWhitelist b => put_whitelist cookie b
  | AddWhitelistIp i user => add_whitelist_ip cookie i user
  | DeleteWhitelistIp i => delete_whitelist_ip cookie i
  end.

End api.
