(* ===== verification/PanelAuth.v ===== *)
(** The theorems on who may do what through the panel: requests without a login get nothing
    and change nothing, and no answer shows a secret. *)

From S2P Require Import Prelude RustStr TextLines Collections Net Hosts Config UpstreamRegistry ClientAcl Metrics Files Ufw DnsmasqStore PanelDb PanelDbProofs Panel PanelApi.

(** The requests that need a session. *)
Definition protected (r : Request) : bool :=
  match r with Health | Login _ | Logout => false | _ => true end.

Section auth.
Context `{Unicode} `{Yaml} `{RegexLib} `{HashOrder} `{Kernel} `{Host} `{Chrono} `{!ChronoLaws} `{Sqlite} `{Argon2} `{YamlDoc} `{ErrorText}.

(** * Handlers that leave the sessions alone *)

Definition keeps_sessions (k : Handler) : Prop := ∀ m s,
  sessions (db (k m s).2) = sessions (db s) ∧ broken (db (k m s).2) = broken (db s).

Lemma keeps_authed cookie k : keeps_sessions k → keeps_sessions (authed cookie k).
Proof. intros Hk m s. unfold authed. by destruct (require_auth _ _ _). Qed.

Lemma keeps_query {A} (q : Query A) code k : keeps_sessions (on_query q code k).
Proof. intros m s. unfold on_query. split; reflexivity. Qed.

Definition keeps_db {A} (u : Update A) : Prop := ∀ d, sessions (u d).2 = sessions d ∧ broken (u d).2 = broken d.
Lemma keeps_update {A} (u : Update A) code k : keeps_db u → keeps_sessions (on_update u code k).
Proof. intros Hu m s. unfold on_update. specialize (Hu (db s)). destruct (u (db s)) as [r d]. exact Hu. Qed.

Lemma update_keeps {A} (f : PanelDb → result DbError (A * PanelDb)) :
  (∀ d a d', f d = Ok (a, d') → sessions d' = sessions d ∧ broken d' = broken d) → keeps_db (update f).
Proof.
  intros Hf d. unfold update. destruct (broken d) eqn:Eb; [by cbn|].
  destruct (f d) as [[a d']|] eqn:E; [|by cbn]. rewrite <- Eb. by apply (Hf d a).
Qed.

Lemma keeps_with_domains f k : (∀ paths items, keeps_sessions (f paths items)) → keeps_sessions k → keeps_sessions (with_domains f k).
Proof.
  intros Hf Hk m s. unfold with_domains. destruct (dnsmasq_paths s) as [paths|]; [|apply Hk].
  destruct (load_domains _ _); [apply Hf | done].
Qed.

(** What the handlers on files and commands return keeps the whole database. *)
Lemma saved_db more domains s : db (saved more domains s).2 = db s.
Proof.
  unfold saved, save_dnsmasq. destruct (dnsmasq_paths s) as [paths|]; [|done].
  destruct (save_domains _ _ _) as [[u|e] t]; [|done]. cbn.
  by destruct (reload _ _) as [[o|e] h].
Qed.
Lemma persist_db fields s : db (persist fields s).2 = db s.
Proof. unfold persist. by destruct (persist_yaml _ _ _). Qed.

Lemma keeps_saved more f : keeps_sessions (λ _ s, saved more f s).
Proof. intros m s. by rewrite saved_db. Qed.

Lemma set_setting_keeps k v : keeps_db (set_setting k v).
Proof. apply update_keeps. by intros d a d' [= <- <-]. Qed.
Lemma add_domain_keeps t p k m n : keeps_db (add_domain t p k m n).
Proof.
  intros d. unfold add_domain. cbv zeta. case_decide; [done|]. apply update_keeps. clear d. intros d a d'.
  destruct (has_pattern _ _); [done|]. destruct (insert_row _ _) as [[i t1]|]; [|done]. by intros [= <- <-].
Qed.
Lemma update_domain_keeps id p k m n : keeps_db (update_domain id p k m n).
Proof.
  apply update_keeps. intros d a d'. cbv zeta. destruct (existsb _ _); [|done]. destruct (has_pattern _ _); [done|].
  by intros [= <- <-].
Qed.
Lemma delete_domain_keeps id : keeps_db (delete_domain id).
Proof. apply update_keeps. intros d a d'. cbv zeta. destruct (existsb _ _); [|done]. by intros [= <- <-]. Qed.
Lemma import_domains_keeps t text m : keeps_db (import_domains t text m).
Proof. apply update_keeps. intros d a d'. cbv zeta. destruct (upsert_all _ _ _ _); [|done]. by intros [= <- <-]. Qed.
Lemma clear_dns_queries_keeps : keeps_db clear_dns_queries.
Proof. apply update_keeps. by intros d a d' [= <- <-]. Qed.

Ltac db_unchanged :=
  repeat first
    [ split; reflexivity
    | rewrite saved_db
    | match goal with
      | |- context [persist ?fields ?s] =>
          let E := fresh in pose proof (persist_db fields s) as E; destruct (persist fields s) as [? ?];
          split; [exact (f_equal sessions E) | exact (f_equal broken E)]
      end
    | match goal with |- context [match ?x with _ => _ end] => destruct x end ].

Lemma protected_keeps cookie r : protected r = true → keeps_sessions (handler cookie r).
Proof.
  destruct r; try done; intros _; cbn [handler]; apply keeps_authed;
    try (apply keeps_update, clear_dns_queries_keeps);
    try (apply keeps_with_domains; [intros paths items|]);
    try (intros m; apply keeps_update; auto using add_domain_keeps, import_domains_keeps; fail);
    intros m s; try (unfold on_query; cbv zeta; db_unchanged; fail).
  - destruct (_ <? _); [done|]. cbv zeta. destruct (verify_password _ _); [|done]. cbn [negb].
    destruct (hash_password _ _); [apply set_setting_keeps | done].
  - destruct (parse_i64 pattern); [apply keeps_update, update_domain_keeps | done].
  - destruct (parse_i64 pattern); [apply keeps_update, delete_domain_keeps | done].
Qed.

(** * Histories *)

(** What happens to the panel: requests, the hourly clean-up, and the batches of traffic. *)
Inductive event :=
| Answered (m : Moment) (cookie : option bytes) (r : Request)
| Cleaned (t : Time)
| Flushed (t : Time) (rows : list TrafficRow).

Definition step (s : PanelState) (e : event) : PanelState :=
  match e with
  | Answered m cookie r => (handler cookie r m s).2
  | Cleaned t => s {{ db := (cleanup_sessions t (db s)).2 }}
  | Flushed t rows => s {{ db := (apply_traffic_batch t rows (db s)).2 }}
  end.

(** The state after a history, the latest event first. *)
Definition after (s0 : PanelState) (es : list event) : PanelState := foldr (λ e s, step s e) s0 es.

Definition correct_password (password : bytes) (s : PanelState) : bool :=
  match settings (db s) !! PASSWORD_KEY with Some hash => verify_password password hash | None => false end.

(** What an event means for the sessions: only a login with the right password opens one. *)
Definition session_event (s : PanelState) (e : event) : list session_op :=
  match e with
  | Answered m _ (Login password) => if correct_password password s then [PanelDbProofs.Login (now m) (fresh_token m)] else []
  | Answered m cookie Logout =>
      match session_token_from_headers cookie with Some token => [PanelDbProofs.Logout (now m) token] | None => [] end
  | Cleaned t => [Cleanup t]
  | _ => []
  end.
Fixpoint session_history (s0 : PanelState) (es : list event) : list session_op :=
  match es with
  | [] => []
  | e :: es => session_event (after s0 es) e ++ session_history s0 es
  end.

Definition event_time (e : event) : Time :=
  match e with Answered m _ _ => now m | Cleaned t | Flushed t _ => t end.
(** Times do not decrease and have four-digit years, to the end of the sessions; the random
    tokens are different. *)
Fixpoint events_ok (es : list event) (t : Time) : Prop :=
  match es with
  | [] => True
  | e :: es => (event_time e ≤ t)%Z ∧ dated (event_time e) ∧ dated (event_time e + SESSION_HOURS * HOUR)%Z
               ∧ events_ok es (event_time e)
  end.
Definition event_token (e : event) : option bytes :=
  match e with Answered m _ (Login _) => Some (fresh_token m) | _ => None end.

(** The time of the login that stands for the token of a request. *)
Definition standing_login (s0 : PanelState) (es : list event) (cookie : option bytes) : option Time :=
  token ← session_token_from_headers cookie; standing (session_history s0 es) token.

Lemma session_history_tokens s0 es t token :
  PanelDbProofs.Login t token ∈ session_history s0 es → token ∈ omap event_token es.
Proof.
  induction es as [|e es IH]; [by intros ?%elem_of_nil|]. cbn [session_history]. intros [He|He]%elem_of_app.
  - destruct e as [m cookie r|t'|t' rows]; cbn in He; [|by apply list_elem_of_singleton in He | by apply elem_of_nil in He].
    destruct r; try by apply elem_of_nil in He.
    + destruct (correct_password _ _); [|by apply elem_of_nil in He]. apply list_elem_of_singleton in He as [= -> ->].
      cbn. by left.
    + destruct (session_token_from_headers cookie); [|by apply elem_of_nil in He].
      by apply list_elem_of_singleton in He.
  - specialize (IH He). cbn. destruct (event_token e); [by right | done].
Qed.

Lemma history_ok_le ttl ops t t' : history_ok ttl ops t → (t ≤ t')%Z → history_ok ttl ops t'.
Proof. destruct ops as [|o ops]; [done|]. intros (? & ?) ?. split; [lia | done]. Qed.

Lemma session_event_time s e o : o ∈ session_event s e → op_time o = event_time e.
Proof.
  destruct e as [m cookie r|t|t rows]; cbn; [| by intros ->%list_elem_of_singleton | by intros ?%elem_of_nil].
  destruct r; try by intros ?%elem_of_nil.
  - destruct (correct_password _ _); [by intros ->%list_elem_of_singleton | by intros ?%elem_of_nil].
  - destruct (session_token_from_headers _); [by intros ->%list_elem_of_singleton | by intros ?%elem_of_nil].
Qed.

(** At most one operation for an event. *)
Lemma session_event_one s e : session_event s e = [] ∨ ∃ o, session_event s e = [o].
Proof.
  destruct e as [m cookie r|t|t rows]; cbn; [|right; by eexists | by left].
  destruct r; try by left.
  - destruct (correct_password _ _); [right; by eexists | by left].
  - destruct (session_token_from_headers _); [right; by eexists | by left].
Qed.

Lemma session_history_ok s0 es t :
  events_ok es t → NoDup (omap event_token es) → history_ok SESSION_HOURS (session_history s0 es) t.
Proof.
  revert t. induction es as [|e es IH]; intros t; [done|]. cbn [events_ok session_history].
  intros (Hle & Hd & Hd' & Hes) Hnd.
  assert (NoDup (omap event_token es)) as Hnd'.
  { cbn in Hnd. destruct (event_token e); [by apply NoDup_cons in Hnd as [_ ?] | done]. }
  specialize (IH _ Hes Hnd'). destruct (session_event_one (after s0 es) e) as [->|[o Ho]].
  { by eapply history_ok_le. }
  rewrite Ho. cbn. assert (op_time o = event_time e) as Ht by (eapply session_event_time; rewrite Ho; by left).
  rewrite Ht. split_and!; [done | done | done |]. destruct o as [t' token|t' token|t']; [|done | done]. cbn in Ht. subst t'.
  split; [done|]. intros [t2 token2|t2 token2|t2] Hin; [|done | done]. intros ->.
  apply session_history_tokens in Hin.
  destruct e as [m cookie r| |]; cbn in Ho; [|done | done].
  destruct r; try done; [|by destruct (session_token_from_headers _)].
  destruct (correct_password _ _); [|done]. cbn in Ho. injection Ho as E. rewrite <- E in Hin. cbn in Hnd.
  by apply NoDup_cons in Hnd as [? _].
Qed.

Lemma apply_traffic_keeps t rows : keeps_db (apply_traffic_batch t rows).
Proof.
  intros d. unfold apply_traffic_batch. case_decide; [done|]. apply update_keeps. clear d. intros d a d'.
  destruct (foldl _ _ _). by intros [= <- <-].
Qed.

(** The table of sessions is that of the history. *)
Lemma after_inv s0 es t :
  broken (db s0) = false → sessions (db s0) = ∅ → events_ok es t → NoDup (omap event_token es) →
  sessions_inv SESSION_HOURS (session_history s0 es) t (db (after s0 es)).
Proof.
  intros Hb He. revert t. induction es as [|e es IH]; intros t Hok Hnd.
  { cbn. apply (sessions_run SESSION_HOURS [] t (db s0)); [done | done | done]. }
  pose proof (session_history_ok s0 (e :: es) t Hok Hnd) as Hh. cbn [session_history] in *.
  destruct Hok as (Hle & _ & _ & Hes).
  assert (NoDup (omap event_token es)) as Hnd'.
  { cbn in Hnd. destruct (event_token e); [by apply NoDup_cons in Hnd as [_ ?] | done]. }
  specialize (IH _ Hes Hnd'). cbn [after foldr]. fold (after s0 es). set (s := after s0 es) in *. clearbody s.
  pose proof (si_works _ _ _ _ IH) as Hw.
  destruct e as [m cookie r|t'|t' rows]; cbn [step session_event event_time app] in *.
  - destruct (protected r) eqn:Hp.
    { destruct (protected_keeps cookie r Hp m s) as [E1 E2].
      destruct r; try done; by eapply sessions_inv_ext. }
    destruct r; try done; cbn [handler] in *.
    + by eapply sessions_inv_ext.
    + unfold correct_password, login, get_setting, query in *. rewrite Hw.
      destruct (settings (db s) !! PASSWORD_KEY) as [hash|]; [|by eapply sessions_inv_ext].
      destruct (verify_password password hash); cbn [negb]; [|by eapply sessions_inv_ext].
      pose proof (sessions_step SESSION_HOURS (PanelDbProofs.Login (now m) (fresh_token m)) _ t (db s) IH Hh) as Hs.
      cbn [run_session_op app] in *. by destruct (create_session _ _ _ _) as [r d].
    + unfold logout. cbn [snd]. destruct (session_token_from_headers cookie) as [token|]; [|by eapply sessions_inv_ext].
      exact (sessions_step SESSION_HOURS (PanelDbProofs.Logout (now m) token) _ t (db s) IH Hh).
  - exact (sessions_step SESSION_HOURS (Cleanup t') _ t (db s) IH Hh).
  - destruct (apply_traffic_keeps t' rows (db s)) as [E1 E2]. by eapply sessions_inv_ext.
Qed.

Lemma require_auth_spec s0 es cookie m :
  broken (db s0) = false → sessions (db s0) = ∅ → events_ok es (now m) → NoDup (omap event_token es) → dated (now m) →
  require_auth cookie m (after s0 es)
  = match standing_login s0 es cookie with
    | Some t => bool_decide (now m < t + SESSION_HOURS * HOUR)%Z
    | None => false
    end.
Proof.
  intros Hb He Hok Hnd Hd. unfold require_auth, standing_login.
  destruct (session_token_from_headers cookie) as [token|]; [|done]. cbn.
  rewrite (session_valid_spec SESSION_HOURS (session_history s0 es)) by (done || by apply after_inv). done.
Qed.

Lemma protected_unauthorized cookie r m s :
  protected r = true → require_auth cookie m s = false → handler cookie r m s = (unauthorized, s).
Proof.
  intros Hp Ha.
  assert (∀ k, authed cookie k m s = (unauthorized, s)) as Hk by (intros k; unfold authed; by rewrite Ha).
  destruct r; try done; apply Hk.
Qed.

Lemma login_refused password m s :
  correct_password password s = false → ∃ resp, login password m s = (resp, s) ∧ set_cookie resp = None ∧ status resp ≠ OK.
Proof.
  unfold correct_password, login, get_setting, query. intros Hc.
  destruct (broken (db s)); [by eexists|].
  destruct (settings (db s) !! PASSWORD_KEY) as [hash|]; [|by eexists]. rewrite Hc. by eexists.
Qed.

(** * Secrets *)

(** The requests that read. *)
Definition is_get (r : Request) : bool :=
  match r with
  | Health | Me | Stats | TrafficIps _ | TrafficIpDetail _ _ | TrafficDaily _ | ListDomains | DnsmasqExport
  | ListDnsQueries _ | DnsQueriesTop _ | ConfigSummary | GetHosts | GetUpstreams | GetWhitelist => true
  | _ => false
  end.

(** A state whose secrets are hidden: the passwords of the proxies, wherever they are kept,
    the token of the Telegram bot, and the hash of the panel's own password. *)
Definition hide (o : option bytes) : option bytes := if given o then Some §"*" else None.
Definition hide_proxy (p : UpstreamProxy) : UpstreamProxy :=
  match p with
  | Socks5 h port u pw => Socks5 h port u (hide pw)
  | Http h port auth => Http h port (hide auth)
  | Direct => Direct
  end.
Definition hide_config (c : AppConfig) : AppConfig :=
  c {{ upstream_proxy := hide_proxy (upstream_proxy c) }} {{ upstreams := hide_proxy <$> upstreams c }}
    {{ telegram ::= λ t, t {{ bot_token := hide (bot_token t) }} }}.
Definition hide_secrets (s : PanelState) : PanelState :=
  s {{ upstream_registry ::= λ r, r {{ profiles := hide_proxy <$> profiles r }} }}
    {{ cfg := hide_config (cfg s) }} {{ db := with_settings ∅ (db s) }}.

Lemma given_hide o : given (hide o) = given o.
Proof. unfold hide. destruct (given o) eqn:E; [done|]. done. Qed.
Lemma public_hide p : proxy_public_json (hide_proxy p) = proxy_public_json p.
Proof. destruct p; cbn; by rewrite ?given_hide. Qed.
Lemma show_hide p : show_proxy (hide_proxy p) = show_proxy p.
Proof. by destruct p. Qed.
Lemma jmap_fmap {A B} (f : A → B) (g : B → Json) (m : gmap bytes A) : jmap g (f <$> m) = jmap (g ∘ f) m.
Proof. unfold jmap. rewrite sorted_entries_fmap, <- list_fmap_compose. done. Qed.
Lemma jmap_public (m : gmap bytes UpstreamProxy) : jmap proxy_public_json (hide_proxy <$> m) = jmap proxy_public_json m.
Proof.
  rewrite jmap_fmap. unfold jmap. f_equal. apply list_fmap_ext. intros i [k p] _. cbn. by rewrite public_hide.
Qed.

(** Handlers whose answer does not depend on them. *)
Definition blind (k : Handler) : Prop := ∀ m s, (k m (hide_secrets s)).1 = (k m s).1.

Lemma blind_authed cookie k : blind k → blind (authed cookie k).
Proof.
  intros Hk m s. unfold authed. assert (require_auth cookie m (hide_secrets s) = require_auth cookie m s) as -> by done.
  destruct (require_auth cookie m s); [apply Hk | done].
Qed.
Lemma blind_query {A} (q : Query A) code k : (∀ d, q (with_settings ∅ d) = q d) → blind (on_query q code k).
Proof. intros Hq m s. unfold on_query. cbn [fst]. specialize (Hq (db s)). cbn in Hq |- *. by rewrite Hq. Qed.
Lemma blind_with_domains f k : (∀ paths items, blind (f paths items)) → blind k → blind (with_domains f k).
Proof.
  intros Hf Hk m s. unfold with_domains.
  assert (dnsmasq_paths (hide_secrets s) = dnsmasq_paths s) as -> by done.
  destruct (dnsmasq_paths s) as [paths|]; [|apply Hk].
  assert (load_domains paths (files (hide_secrets s)) = load_domains paths (files s)) as -> by done.
  destruct (load_domains _ _); [apply Hf | done].
Qed.

Lemma get_blind cookie r : is_get r = true → blind (handler cookie r).
Proof.
  destruct r; try done; intros _; cbn [handler]; try (apply blind_authed); try done.
  - intros m s. cbn. by rewrite show_hide.
  - intros m. unfold blind. intros s. destruct (resolve_range m q). by apply blind_query.
  - intros m s. destruct (resolve_range m q). by apply blind_query.
  - intros m s. destruct (resolve_range m q). by apply blind_query.
  - apply blind_with_domains; [done|]. intros m s. by apply blind_query.
  - apply blind_with_domains; [done|]. intros m s.
    assert (nonempty (Config.relay_ip (panel (cfg (hide_secrets s)))) = nonempty (Config.relay_ip (panel (cfg s)))) as -> by done.
    destruct (nonempty _) as [i|]; [|done].
    exact (blind_query relay_domains_for_dnsmasq INTERNAL_SERVER_ERROR
             (λ domains, JObj [(§"relay_ip", JStr i); (§"content", JStr (render_dnsmasq domains i))]) (λ _, eq_refl) m s).
  - intros m s. cbn. rewrite show_hide, jmap_public. done.
  - intros m s. cbn. by rewrite jmap_public.
  - intros m s. cbn. by destruct (ufw_available _ _).
Qed.
End auth.

(** C14: The panel is closed without a login.  After any history of requests, clean-ups and
    background writes: a request other than health, login and logout is let through exactly
    when its cookie carries the token of a login with the right password that is less than
    a week old and not logged out; otherwise it is answered 401 and changes nothing at all,
    neither the database nor a file nor the routing, and no command is run.  A login with a
    wrong password gets no cookie and changes nothing, and a logout touches only sessions. *)
Theorem panel_closed_without_login `{Unicode} `{Yaml} `{RegexLib} `{HashOrder} `{Kernel} `{Host} `{Chrono} `{!ChronoLaws} `{Sqlite}
    `{Argon2} `{YamlDoc} `{ErrorText} (s0 : PanelState) es cookie m :
  broken (db s0) = false → sessions (db s0) = ∅ → events_ok es (now m) → NoDup (omap event_token es) → dated (now m) →
  let s := after s0 es in
  let in_session := match standing_login s0 es cookie with
                    | Some t => bool_decide (now m < t + 168 * HOUR)%Z
                    | None => false
                    end in
  require_auth cookie m s = in_session
  ∧ (∀ r, protected r = true → in_session = false → handler cookie r m s = (unauthorized, s))
  ∧ (∀ password, correct_password password s = false →
       ∃ resp, handler cookie (Login password) m s = (resp, s) ∧ set_cookie resp = None ∧ status resp ≠ OK)
  ∧ handler cookie Health m s = (json (JObj [OK_TRUE; (§"service", JStr §"snirelay-panel")]), s)
  ∧ (∃ d, (handler cookie Logout m s).2 = s {{ db := PanelDb.with_sessions d (db s) }}).
Proof.
  intros Hb He Hok Hnd Hd. cbv zeta. pose proof (require_auth_spec s0 es cookie m Hb He Hok Hnd Hd) as Ha.
  split_and!; [exact Ha | | | done |].
  - intros r Hp Hs. apply protected_unauthorized; [done|]. rewrite Ha. exact Hs.
  - intros password Hp. by apply login_refused.
  - cbn [handler]. unfold logout. cbn [snd]. set (s := after s0 es). destruct (session_token_from_headers cookie) as [token|].
    + unfold delete_session, update. destruct (broken (db s)); cbn [snd];
        [exists (sessions (db s)) | eexists; reflexivity]. destruct s as [d]. cbn. by destruct d.
    + exists (sessions (db s)). destruct s as [d]. cbn. by destruct d.
Qed.

(** C18: No answer to a reading request shows a secret: it is the same whatever the passwords of the
    upstream proxies, the token of the Telegram bot and the hash of the panel's password
    are, as long as the same ones are set. *)
Theorem no_secret_is_shown `{Unicode} `{Yaml} `{RegexLib} `{HashOrder} `{Kernel} `{Host} `{Chrono} `{Sqlite} `{Argon2}
    `{YamlDoc} `{ErrorText} (s s' : PanelState) cookie r m :
  is_get r = true → hide_secrets s = hide_secrets s' →
  (handler cookie r m s).1 = (handler cookie r m s').1.
Proof.
  intros Hr Hs. rewrite <- (get_blind cookie r Hr m s), <- (get_blind cookie r Hr m s'). by rewrite Hs.
Qed.
