(* ===== verification/PanelEdits.v ===== *)
(** The theorems on what the panel changes: the rules of the firewall follow the white list, and
    sending back the upstreams as they are shown changes nothing. *)

From S2P Require Import Prelude RustStr TextLines Collections Net Hosts Config UpstreamRegistry ClientAcl Metrics Files Ufw DnsmasqStore PanelDb Panel PanelApi.

(** The comment of the rule of an entry; the empty name stands for none. *)
Definition comment_of (u : bytes) : bytes := rule_comment (if decide (u = []) then None else Some u).

Section edits.
Context `{Unicode} `{Yaml} `{RegexLib} `{HashOrder} `{Kernel} `{Host} `{Chrono} `{Sqlite} `{Argon2} `{YamlDoc} `{ErrorText}.

(** * The firewall *)

Lemma ufw_steps_app l k h :
  (ufw_steps (l ++ k) h).2 = (ufw_steps k (ufw_steps l h).2).2.
Proof.
  revert h. induction l as [|f l IH]; intros h; [done|]. cbn [app ufw_steps]. destruct (f h) as [n h1].
  specialize (IH h1). destruct (ufw_steps (l ++ k) h1), (ufw_steps l h1). exact IH.
Qed.

Lemma ufw_step_state sign i m h : (ufw_step sign i m h).2 = (m h).2.
Proof. unfold ufw_step. by destruct (m h). Qed.

Section firewall.
Context (bin : option bytes) `{!Firewall bin}.

Lemma allow_steps es h :
  ready h → Forall (λ e, manageable (ip e)) es →
  let h' := (ufw_steps ((λ e, ufw_step §"+" (ip e) (allow_ip (ip e) (username e) bin)) <$> es) h).2 in
  ready h' ∧ ufw_rules h' = insert_all ((λ e, (ip e, rule_comment (username e))) <$> es) (ufw_rules h).
Proof.
  cbv zeta. intros Hr Hm. revert h Hr. induction Hm as [|e es He _ IH]; intros h Hr; [done|].
  cbn [fmap list_fmap ufw_steps]. pose proof (allow_ip_spec bin h (ip e) (username e) Hr He) as Ha.
  pose proof (ufw_step_state §"+" (ip e) (allow_ip (ip e) (username e) bin) h) as Hs.
  destruct (ufw_step _ _ _ h) as [n h1]. cbn in Hs. destruct (allow_ip _ _ _ h) as [r h2]. cbn in Hs. subst h2.
  destruct Ha as (_ & Hr1 & Eq1). destruct (IH h1 Hr1) as [Hr2 Eq2].
  destruct (ufw_steps _ h1) as [ns h2]. cbn in *. by rewrite Eq2, Eq1.
Qed.

Lemma delete_steps js h :
  ready h → Forall manageable js →
  let h' := (ufw_steps ((λ i, ufw_step §"-" i (delete_ip i bin)) <$> js) h).2 in
  ready h' ∧ ufw_rules h' = foldl (λ m i, base.delete i m) (ufw_rules h) js.
Proof.
  cbv zeta. intros Hr Hm. revert h Hr. induction Hm as [|i js Hi _ IH]; intros h Hr; [done|].
  cbn [fmap list_fmap ufw_steps]. pose proof (delete_ip_spec bin h i Hr Hi) as Ha.
  pose proof (ufw_step_state §"-" i (delete_ip i bin) h) as Hs.
  destruct (ufw_step _ _ _ h) as [n h1]. cbn in Hs. destruct (delete_ip _ _ h) as [r h2]. cbn in Hs, Ha. subst h2.
  destruct Ha as [Hr1 Eq1]. destruct (IH h1 Hr1) as [Hr2 Eq2].
  destruct (ufw_steps _ h1) as [ns h2]. cbn in *. by rewrite Eq2, Eq1.
Qed.

Lemma deletes_lookup (js : list bytes) (m : gmap bytes bytes) i :
  foldl (λ m i, base.delete i m) m js !! i = if decide (i ∈ js) then None else m !! i.
Proof.
  revert m. induction js as [|j js IH]; intros m; cbn [foldl]; [done|]. rewrite IH.
  destruct (decide (i ∈ js)) as [Hi|Hi]; [rewrite decide_True by (by right); done|].
  destruct (decide (i = j)) as [->|Hij].
  - rewrite lookup_delete_eq, decide_True by (by left). done.
  - rewrite lookup_delete_ne by done. rewrite decide_False; [done|]. by intros [?|?]%elem_of_cons.
Qed.

(** The addresses of the two lists, in canonical form. *)
Lemma contains_canonical (acl : ClientAcl) i :
  normalize_client_ip i = Some i → contains_ip acl i = bool_decide (is_Some (entries acl !! i)).
Proof. intros Hi. unfold contains_ip. by rewrite Hi. Qed.
Lemma username_canonical (acl : ClientAcl) i : normalize_client_ip i = Some i → username_for acl i = entries acl !! i.
Proof. intros Hi. unfold username_for. by rewrite Hi. Qed.

Lemma elem_of_as_entries (acl : ClientAcl) i u :
  {| ip := i; username := u |} ∈ as_entries acl ↔ ∃ v, entries acl !! i = Some v ∧ u = if decide (v = []) then None else Some v.
Proof.
  unfold as_entries. rewrite list_elem_of_fmap. split.
  - intros ([k v] & [= -> ->] & Hk%elem_of_sorted_entries). by exists v.
  - intros (v & Hv & ->). exists (i, v). split; [done | by apply elem_of_sorted_entries].
Qed.
Lemma NoDup_entry_ips (acl : ClientAcl) : NoDup (ip <$> as_entries acl).
Proof.
  unfold as_entries. rewrite <- list_fmap_compose. unfold compose. cbn.
  change (NoDup (sorted_entries (entries acl)).*1). rewrite sorted_entries_keys. apply NoDup_sorted_keys.
Qed.

(** The two lists of [whitelist_commands]. *)
Definition entries_to_allow (prev acl : ClientAcl) : list WhitelistEntry :=
  filter (λ e, contains_ip prev (ip e) && bool_decide (username_for prev (ip e) = username e) = false) (as_entries acl).
Definition ips_to_delete (prev acl : ClientAcl) : list bytes := filter (λ i, contains_ip acl i = false) (as_vec prev).

Lemma elem_of_gone prev acl i : acl_wf prev → i ∈ ips_to_delete prev acl ↔ is_Some (entries prev !! i) ∧ entries acl !! i = None.
Proof.
  intros Hprev. unfold ips_to_delete. rewrite list_elem_of_filter. unfold as_vec. rewrite elem_of_sorted_keys. split.
  - intros [Hc [u Hu]]. rewrite contains_canonical in Hc by by apply (Hprev i u).
    apply bool_decide_eq_false in Hc. apply eq_None_not_Some in Hc. split; [by exists u | done].
  - intros [[u Hu] Hn]. rewrite contains_canonical, Hn by by apply (Hprev i u). split; [done | by exists u].
Qed.
Lemma NoDup_entries_to_allow prev acl : NoDup ((λ e, (ip e, rule_comment (username e))) <$> entries_to_allow prev acl).*1.
Proof.
  rewrite <- list_fmap_compose. unfold compose. cbn. eapply sublist_NoDup; [apply (NoDup_entry_ips acl)|].
  apply fmap_sublist, sublist_filter.
Qed.

Lemma commands_spec (prev acl : ClientAcl) h :
  acl_wf prev → acl_wf acl → ready h →
  (∀ i, is_Some (entries prev !! i) ∨ is_Some (entries acl !! i) → manageable i) →
  (∀ i u, entries prev !! i = Some u → ufw_rules h !! i = Some (comment_of u)) →
  let h' := (ufw_steps (whitelist_commands bin prev acl) h).2 in
  ready h' ∧ ∀ i, ufw_rules h' !! i =
    match entries acl !! i with
    | Some u => Some (comment_of u)
    | None => if decide (is_Some (entries prev !! i)) then None else ufw_rules h !! i
    end.
Proof.
  intros Hprev Hacl Hr Hm Hsync. cbv zeta. unfold whitelist_commands. rewrite ufw_steps_app.
  fold (entries_to_allow prev acl) (ips_to_delete prev acl). set (new := entries_to_allow prev acl). set (gone := ips_to_delete prev acl).
  destruct (allow_steps new h) as [Hr1 Eq1]; [done | |].
  { apply list.Forall_forall. intros [i u] [_ Hi]%list_elem_of_filter. apply elem_of_as_entries in Hi as (v & Hv & _).
    apply Hm. right. by exists v. }
  set (h1 := (ufw_steps (_ <$> new) h).2) in *.
  destruct (delete_steps gone h1) as [Hr2 Eq2]; [done | |].
  { apply list.Forall_forall. intros i [_ Hi]%list_elem_of_filter. apply elem_of_sorted_keys in Hi. apply Hm. by left. }
  split; [done|]. intros i. rewrite Eq2, deletes_lookup, Eq1.
  pose proof (elem_of_gone prev acl i Hprev) as Hgone. fold gone in Hgone. pose proof (NoDup_entries_to_allow prev acl) as Hnd. fold new in Hnd.
  destruct (entries acl !! i) as [u|] eqn:Eu.
  - rewrite decide_False by by rewrite Hgone; intros [_ ?].
    destruct (decide ({| ip := i; username := if decide (u = []) then None else Some u |} ∈ new)) as [Hn|Hn].
    + apply insert_all_NoDup; [done|]. apply list_elem_of_fmap.
      exists {| ip := i; username := if decide (u = []) then None else Some u |}. by split.
    + destruct (insert_all _ _ !! i) as [c|] eqn:Ec.
      * apply insert_all_lookup in Ec as [([j v] & [= -> ->] & Hj)%list_elem_of_fmap|Ec].
        { apply list_elem_of_filter in Hj as [_ (v' & Hv' & ->)%elem_of_as_entries]. by simplify_eq. }
        destruct (Hacl i u Eu) as [Hi _]. unfold new, entries_to_allow in Hn. rewrite list_elem_of_filter, elem_of_as_entries in Hn.
        cbn [ip username] in Hn. rewrite contains_canonical, username_canonical in Hn by exact Hi.
        destruct (bool_decide (is_Some _) && _) eqn:Eb in Hn; [|destruct Hn; split; [done | by exists u]].
        apply andb_prop in Eb as [Ea%bool_decide_eq_true Eb%bool_decide_eq_true].
        case_decide as Hu; [rewrite Eb in Ea; by destruct Ea|].
        rewrite (Hsync i u Eb) in Ec. by rewrite <- Ec.
      * exfalso. apply eq_None_not_Some in Ec. apply Ec, insert_all_is_Some. right.
        destruct (entries prev !! i) as [v|] eqn:Ev; [rewrite (Hsync i v Ev); by eexists|].
        exfalso. apply Hn. unfold new, entries_to_allow. rewrite list_elem_of_filter, elem_of_as_entries.
        destruct (Hacl i u Eu) as [Hi _]. cbn [ip username]. rewrite contains_canonical, Ev by done. split; [done | by exists u].
  - destruct (decide (is_Some (entries prev !! i))) as [Hp|Hp]; [by rewrite decide_True by by rewrite Hgone|].
    rewrite decide_False by by rewrite Hgone; intros [? _].
    destruct (insert_all _ _ !! i) as [c|] eqn:Ec.
    + apply insert_all_lookup in Ec as [([j v] & [= -> ->] & Hj)%list_elem_of_fmap|Ec]; [|done].
      apply list_elem_of_filter in Hj as [_ (v' & Hv' & ->)%elem_of_as_entries]. by simplify_eq.
    + destruct (ufw_rules h !! i) eqn:Er; [|done]. exfalso. apply eq_None_not_Some in Ec. apply Ec, insert_all_is_Some.
      right. by rewrite Er.
Qed.
End firewall.

Lemma persist_frame fields s :
  let s' := (persist fields s).2 in
  cfg s' = cfg s ∧ host s' = host s ∧ client_acl s' = client_acl s ∧ upstream_registry s' = upstream_registry s
  ∧ hosts_live s' = hosts_live s ∧ config_file s' = config_file s.
Proof. unfold persist. by destruct (persist_yaml _ _ _). Qed.

Lemma from_parts_acl_wf es sync acl : acl_from_parts es sync = Ok acl → acl_wf acl.
Proof.
  unfold acl_from_parts. destruct (insert_entries es ∅) eqn:E; [|done]. cbn. intros [= <-].
  by eapply insert_entries_wf; [|apply empty_wf].
Qed.

(** * Upstreams sent back *)

(** What the page sends for a profile: as it was shown, without the secrets. *)
Definition without_secrets (p : UpstreamProxy) : UpstreamProxy :=
  match p with
  | Socks5 h port u _ => Socks5 h port u None
  | Http h port _ => Http h port None
  | Direct => Direct
  end.

Lemma merge_without_secrets p : merge_proxy_secrets (without_secrets p) p = p.
Proof. by destruct p. Qed.

Lemma normalize_by_ip_canonical ps l acc :
  (∀ k p, (k, p) ∈ l → normalize_client_ip k = Some k ∧ is_Some (ps !! p)) →
  normalize_by_ip ps l acc = Ok (insert_all l acc).
Proof.
  revert acc. induction l as [|[k p] l IH]; intros acc Hl; [done|]. cbn [normalize_by_ip].
  destruct (Hl k p ltac:(by left)) as [Hk Hp]. rewrite bool_decide_true by done. cbn [negb]. rewrite Hk. cbn [ok_or mbind result_bind].
  rewrite IH; [done|]. intros k' p' Hin. apply Hl. by right.
Qed.

Lemma from_parts_same r :
  registry_wf r → (∀ k p, by_ip r !! k = Some p → normalize_client_ip k = Some k) →
  from_parts (profiles r) (UpstreamRegistry.default r) (by_ip r) (failover r) = Ok r.
Proof.
  intros [Hd Hb] Hk. unfold from_parts. rewrite decide_False by (intros E; rewrite E, lookup_empty in Hd; by destruct Hd).
  rewrite bool_decide_true by done. cbn [negb]. rewrite normalize_by_ip_canonical.
  - cbn. rewrite insert_all_hash_iter. by destruct r.
  - intros k p Hin. apply elem_of_hash_iter in Hin. split; [by eapply Hk | by eapply Hb].
Qed.

Lemma merged_same r :
  map_imap (λ name p, Some (match profiles r !! name with Some old => merge_proxy_secrets p old | None => p end))
    (without_secrets <$> profiles r) = profiles r.
Proof.
  apply map_eq. intros k. rewrite map_lookup_imap, lookup_fmap.
  destruct (profiles r !! k) as [p|]; [|done]. cbn. by rewrite merge_without_secrets.
Qed.
End edits.

(** Whatever mode a request names, the database stores [relay]. *)
Lemma api_stores_relay_only m : mode_of (normalize_mode m) = §"relay".
Proof. unfold normalize_mode. repeat case_match; by vm_compute. Qed.

(** C16: The rules of the firewall follow the white list: when the rules of the entries are in
    place, replacing the list leaves exactly the rule of each new entry, with its user name
    in the comment, none for the addresses that are gone, and every other rule as it was,
    whatever the order of the commands; for a firewall that can be run. *)
Theorem whitelist_ufw_sync `{Unicode} `{Yaml} `{RegexLib} `{HashOrder} `{Kernel} `{Host} `{Chrono} `{Sqlite} `{Argon2}
    `{YamlDoc} `{ErrorText} (s : PanelState) `{!Firewall (ufw_bin (cfg s))} cookie m (b : WhitelistPayload) acl :
  require_auth cookie m s = true →
  acl_from_parts (if decide (w_entries b = []) then ip_only <$> w_ips b else w_entries b)
    (unwrap_or (w_ufw_sync b) (ClientAcl.ufw_sync (client_acl s))) = Ok acl →
  ClientAcl.ufw_sync acl = true →
  acl_wf (client_acl s) → ready (host s) →
  (∀ i, is_Some (entries (client_acl s) !! i) ∨ is_Some (entries acl !! i) → manageable i) →
  (∀ i u, entries (client_acl s) !! i = Some u → ufw_rules (host s) !! i = Some (comment_of u)) →
  let '(resp, s') := handler cookie (PutWhitelist b) m s in
  status resp = OK ∧ client_acl s' = acl ∧ ready (host s')
  ∧ ∀ i, ufw_rules (host s') !! i =
      match entries acl !! i with
      | Some u => Some (comment_of u)
      | None => if decide (is_Some (entries (client_acl s) !! i)) then None else ufw_rules (host s) !! i
      end.
Proof.
  intros Ha Hacl Hsync Hwf Hr Hm Hrules. cbn [handler]. unfold put_whitelist, authed. rewrite Ha. cbv zeta. rewrite Hacl, Hsync.
  pose proof (commands_spec (ufw_bin (cfg s)) (client_acl s) acl (host s) Hwf (from_parts_acl_wf _ _ _ Hacl) Hr Hm Hrules) as Hc.
  cbv zeta in Hc. destruct (ufw_steps _ (host s)) as [notes h].
  pose proof (persist_frame (whitelist_fields acl) (s {{ host := h }})) as (_ & Eh & _).
  destruct (persist _ _) as [msg s1]. cbn in Eh, Hc. rewrite <- Eh in Hc.
  exact (conj eq_refl (conj eq_refl Hc)).
Qed.

(** C19: Saving the upstreams as they are shown changes nothing: the page shows the profiles without
    their passwords, and a profile that comes back without one keeps the password it has; the
    registry after the request is the one before, in every order of the hash maps. *)
Theorem shown_upstreams_roundtrip `{Unicode} `{Yaml} `{RegexLib} `{HashOrder} `{Kernel} `{Host} `{Chrono} `{Sqlite} `{Argon2}
    `{YamlDoc} `{ErrorText} (s : PanelState) cookie m :
  let r := upstream_registry s in
  require_auth cookie m s = true → registry_wf r →
  (∀ k p, by_ip r !! k = Some p → normalize_client_ip k = Some k) →
  let '(resp, s') := handler cookie (PutUpstreams {|
    p_upstreams := without_secrets <$> profiles r; p_default := UpstreamRegistry.default r;
    p_clients := by_ip r; p_failover := failover r |}) m s in
  status resp = OK ∧ upstream_registry s' = r.
Proof.
  cbv zeta. intros Ha Hr Hk. cbn [handler]. unfold put_upstreams, authed. rewrite Ha. cbv zeta.
  cbn [p_upstreams p_default p_clients p_failover]. rewrite merged_same, from_parts_same by done.
  match goal with |- context [persist ?f ?s1] =>
    pose proof (persist_frame f s1) as (_ & _ & _ & Er & _); destruct (persist f s1) as [msg s2] end.
  exact (conj eq_refl Er).
Qed.
