(* ===== verification/PanelRestart.v ===== *)
(** The edits of the panel and the configuration file: what an edit saves is what the file
    then describes, which is what a restart loads (Startup).

    What the YAML library is relied on for is stated as the laws of [YamlFile]. *)

From S2P Require Import Prelude RustStr TextLines Collections Net Hosts Config UpstreamRegistry ClientAcl Metrics Files Ufw DnsmasqStore PanelDb Panel PanelApi PanelEdits.

Section restart.
Context `{Unicode} `{Yaml} `{RegexLib} `{HashOrder} `{Kernel} `{Host} `{Chrono} `{Sqlite} `{Argon2} `{YamlDoc} `{ErrorText}.

(** What a value means under a key of the file: the derived decoders, and those of the white list. *)
Definition set_field (k : bytes) (v : Field) (c : AppConfig) : option AppConfig :=
  match v with
  | FHosts l => if decide (k = §"hosts") then Some (c {{ hosts := l }}) else None
  | FProfiles m => if decide (k = §"upstreams") then Some (c {{ upstreams := m }}) else None
  | FText d => if decide (k = §"default_upstream") then Some (c {{ default_upstream := Some d }}) else None
  | FClients m => if decide (k = §"client_upstreams") then Some (c {{ client_upstreams := m }}) else None
  | FBool b =>
      if decide (k = §"upstream_failover") then Some (c {{ upstream_failover := b }})
      else if decide (k = §"client_whitelist_ufw") then Some (c {{ client_whitelist_ufw := b }}) else None
  | FProxy p => if decide (k = §"upstream_proxy") then Some (c {{ upstream_proxy := p }}) else None
  | FWhitelist l =>
      if decide (k = §"client_whitelist")
      then Some (c {{ client_whitelist := (λ e, whitelist_deserialize (whitelist_serialize e)) <$> l }}) else None
  end.
Fixpoint set_fields (fields : list (bytes * Field)) (c : AppConfig) : option AppConfig :=
  match fields with
  | [] => Some c
  | (k, v) :: fields => c ← set_field k v c; set_fields fields c
  end.

(** What a computation returns that does not panic. *)
Definition returned {A} (m : eval (option A)) : option A := match m with Val o => o | Panic => None end.

(** [serde_yaml] on the configuration: what is printed is read back, and a member that is
    inserted into a mapping is the one that is decoded. *)
Class YamlFile (from_str : bytes → eval (option AppConfig)) := {
  decode : Doc → eval (option AppConfig);
  from_str_decode : ∀ text, from_str text = match doc_parse text with Some d => decode d | None => Val None end;
  doc_print_parse : ∀ d out, doc_print d = Some out → doc_parse out = Some d;
  decode_insert : ∀ d k v c c',
    is_mapping d = true → to_value v = true → decode d = Val (Some c) → set_field k v c = Some c' →
    is_mapping (doc_insert k v d) = true ∧ decode (doc_insert k v d) = Val (Some c');
}.

Context (from_str : bytes → eval (option AppConfig)) `{!YamlFile from_str}.

(** The shared state that the configuration file describes by itself.  (What a start makes of
    it, with the environment and the command line, is [Startup.restart].) *)
Definition described (s : PanelState) : option (UpstreamRegistry * ClientAcl * option HostsTable) :=
  text ← read_to_string (config_file s) (files s);
  c0 ← returned (from_str text);
  c ← result_ok (finalize c0);
  Some (from_config c, acl_from_config c, hosts_table c).
Definition in_memory (s : PanelState) : UpstreamRegistry * ClientAcl * option HostsTable :=
  (upstream_registry s, client_acl s, hosts_live s).

(** * The file *)

Lemma inserts_decode fields d c c' :
  is_mapping d = true → to_values fields = true → decode d = Val (Some c) → set_fields fields c = Some c' →
  decode (foldl (λ d kv, doc_insert kv.1 kv.2 d) d fields) = Val (Some c').
Proof.
  revert d c. induction fields as [|[k v] fields IH]; intros d c Hm Hv Hd; cbn [set_fields foldl to_values] in *.
  { by intros [= <-]. }
  apply andb_prop in Hv as [Hv Hvs]. destruct (set_field k v c) as [c1|] eqn:E; [|done]. cbn.
  destruct (decode_insert d k v c c1 Hm Hv Hd E) as [Hm1 Hd1]. by apply IH.
Qed.

Lemma read_written p text t t' : write_file p text t = (true, t') → may_read (comps p) = true → read_to_string p t' = Some text.
Proof.
  intros ->%write_file_inv Hr. unfold read_to_string, node. rewrite Hr. by rewrite lookup_insert_eq.
Qed.

Lemma persisted_config path fields t t' text c0 c1 :
  read_to_string path t = Some text → from_str text = Val (Some c0) → set_fields fields c0 = Some c1 →
  persist_yaml path fields t = (Ok tt, t') →
  ∃ text', read_to_string path t' = Some text' ∧ from_str text' = Val (Some c1).
Proof.
  intros Hr Hf Hs. unfold persist_yaml. rewrite Hr. rewrite from_str_decode in Hf.
  destruct (doc_parse text) as [d|]; [|done]. cbn in Hf.
  destruct (to_values fields) eqn:Ev; [|done]. cbn [negb]. destruct (is_mapping d) eqn:Em; [|done]. cbn [negb].
  destruct (doc_print _) as [out|] eqn:Eo; [|done]. destruct (write_file path out t) as [[] t1] eqn:Ew; [|done].
  intros [= <-]. exists out. split.
  - apply (read_written path out t t1 Ew). unfold read_to_string in Hr. by destruct (may_read (comps path)).
  - rewrite from_str_decode, (doc_print_parse _ _ Eo). cbn. by apply (inserts_decode fields d c0).
Qed.

(** * Finalization, for other values of some fields *)

Definition with_whitelist (l : list WhitelistEntry) (u : bool) (c : AppConfig) : AppConfig :=
  c {{ client_whitelist := l }} {{ client_whitelist_ufw := u }}.
Definition with_hosts (l : list HostsEntry) (c : AppConfig) : AppConfig := c {{ hosts := l }}.
Definition with_registry (r : UpstreamRegistry) (c : AppConfig) : AppConfig :=
  c {{ upstreams := profiles r }} {{ default_upstream := Some (UpstreamRegistry.default r) }} {{ client_upstreams := by_ip r }}
    {{ upstream_failover := failover r }}
    {{ upstream_proxy := match default_proxy r with Ok p => p | Err _ => Direct end }}.

Lemma finalize_listeners_with (f : AppConfig → AppConfig) c c1 :
  (f = with_hosts (hosts (f c)) ∨ f = with_whitelist (client_whitelist (f c)) (client_whitelist_ufw (f c)) ∨ ∃ r, f = with_registry r) →
  finalize_listeners c = Ok c1 → finalize_listeners (f c) = Ok (f c1).
Proof.
  intros Hf. unfold finalize_listeners. cbv zeta.
  assert (merge_listeners (f c) = f (merge_listeners c)) as ->.
  { unfold merge_listeners. cbv zeta. destruct Hf as [->|[->|[r ->]]];
      destruct c; cbn; repeat (case_decide; cbn); done. }
  assert (listens (f (merge_listeners c)) = listens (merge_listeners c)) as ->.
  { by destruct Hf as [->|[->|[r ->]]]. }
  destruct (normalize_listeners 0 _) as [ls|]; [|done]. cbn. intros [= <-]. f_equal.
  destruct Hf as [->|[->|[r ->]]]; by destruct (merge_listeners c).
Qed.

Lemma normalize_upstreams_with (f : AppConfig → AppConfig) c c2 :
  (f = with_hosts (hosts (f c)) ∨ f = with_whitelist (client_whitelist (f c)) (client_whitelist_ufw (f c))) →
  normalize_upstreams c = Ok c2 → normalize_upstreams (f c) = Ok (f c2).
Proof.
  intros Hf. unfold normalize_upstreams. cbv zeta.
  set (base := λ c : AppConfig, if decide (upstreams c = ∅) then
    c {{ upstreams := <[§"default" := upstream_proxy c]> (upstreams c); default_upstream := Some §"default" }} else c).
  change (if decide (upstreams c = ∅) then _ else c) with (base c).
  change (if decide (upstreams (f c) = ∅) then _ else f c) with (base (f c)).
  assert (base (f c) = f (base c)) as ->.
  { unfold base. destruct Hf as [->| ->]; destruct c; cbn; by case_decide. }
  assert (pick_default (f (base c)) = pick_default (base c)) as -> by (by destruct Hf as [->| ->]).
  destruct (pick_default (base c)) as [d|]; [|done]. cbn [mbind result_bind].
  destruct Hf as [->| ->]; destruct (base c); cbn; (destruct (_ !! d); [|done]); cbn; intros [= <-]; done.
Qed.

Lemma normalize_upstreams_registry r c c2 :
  normalize_upstreams c = Ok c2 → with_registry r c2 = with_registry r c.
Proof.
  unfold normalize_upstreams. cbv zeta. set (c0 := if decide (upstreams c = ∅) then _ else c).
  assert (with_registry r c0 = with_registry r c) as <-.
  { unfold c0. case_decide; [|done]. by destruct c. }
  destruct (pick_default c0) as [d|]; [|done]. cbn [mbind result_bind].
  destruct c0; cbn. destruct (_ !! d); [|done]. cbn. by intros [= <-].
Qed.

Lemma with_registry_wf r c : registry_wf r → routing_wf (with_registry r c).
Proof.
  intros [[p Hp] Hb]. split; [|exact Hb]. exists (UpstreamRegistry.default r). split; [done|].
  unfold with_registry, default_proxy, ok_or. destruct c. cbn. by rewrite Hp.
Qed.

Lemma finalize_hosts l t c0 c :
  compile_hosts_table l = Ok t → finalize c0 = Ok c →
  ∃ c', finalize (with_hosts l c0) = Ok c' ∧ from_config c' = from_config c ∧ acl_from_config c' = acl_from_config c
    ∧ hosts_table c' = t.
Proof.
  intros Ht (c1 & c2 & t0 & El & En & _ & ->)%finalize_inv.
  exists ((normalize_client_whitelist (with_hosts l c2)) {{ hosts_table := t }}). split_and!; [|by destruct c2..].
  unfold finalize. rewrite (finalize_listeners_with (with_hosts l) c0 c1) by auto. cbn [mbind result_bind].
  rewrite (normalize_upstreams_with (with_hosts l) c1 c2) by auto. cbn [mbind result_bind]. cbv zeta.
  assert (hosts (normalize_client_whitelist (with_hosts l c2)) = l) as -> by by destruct c2. by rewrite Ht.
Qed.

Lemma finalize_registry r c0 c :
  registry_wf r → finalize c0 = Ok c →
  ∃ c', finalize (with_registry r c0) = Ok c' ∧ from_config c' = r ∧ acl_from_config c' = acl_from_config c
    ∧ hosts_table c' = hosts_table c.
Proof.
  intros Hr (c1 & c2 & t & El & En & Ht & ->)%finalize_inv.
  exists ((normalize_client_whitelist (with_registry r c2)) {{ hosts_table := t }}).
  split_and!; [| by destruct c2, r | by destruct c2.. ].
  unfold finalize. rewrite (finalize_listeners_with (with_registry r) c0 c1) by eauto. cbn [mbind result_bind].
  rewrite normalize_upstreams_id by by apply with_registry_wf. cbn [mbind result_bind]. cbv zeta.
  rewrite (normalize_upstreams_registry r c1 c2 En).
  assert (hosts (normalize_client_whitelist (with_registry r c1)) = hosts c2) as ->.
  { destruct (normalize_upstreams_frame c1 c2 En) as (_ & _ & _ & _ & Eh & _). rewrite Eh. by destruct c1. }
  by rewrite Ht.
Qed.

Lemma as_entries_wf a : acl_wf a → whitelist_wf (as_entries a).
Proof.
  intros Ha. split; [apply NoDup_entry_ips|]. apply list.Forall_forall. intros [i u] (v & Hv & ->)%elem_of_as_entries.
  destruct (Ha i v Hv) as [Hi Hu]. split; [done|]. cbn. case_decide; [done|]. by destruct Hu.
Qed.

Lemma acl_from_entries a (c : AppConfig) :
  acl_wf a → client_whitelist c = as_entries a → client_whitelist_ufw c = ClientAcl.ufw_sync a → acl_from_config c = a.
Proof.
  intros Ha Hl Hu. pose proof (acl_roundtrip_entries a Ha) as Hr. unfold acl_from_config. rewrite Hl, Hu.
  assert (∀ es (m m' : gmap bytes bytes), insert_entries es m = Ok m' →
    foldl (λ m e, match normalize_client_ip (ip e) with Some n => <[n := entry_user e]> m | None => m end) m es = m') as Hf.
  { induction es as [|e es IH]; intros m0 m0'; cbn; [by intros [= ->]|].
    destruct (normalize_client_ip (ip e)); [|done]. cbn. apply IH. }
  rewrite (Hf _ _ _ Hr). by destruct a.
Qed.

Lemma finalize_whitelist a c0 c :
  acl_wf a → finalize c0 = Ok c →
  ∃ c', finalize (with_whitelist ((λ e, whitelist_deserialize (whitelist_serialize e)) <$> as_entries a) (ClientAcl.ufw_sync a) c0) = Ok c'
    ∧ from_config c' = from_config c ∧ acl_from_config c' = a ∧ hosts_table c' = hosts_table c.
Proof.
  intros Ha (c1 & c2 & t & El & En & Ht & ->)%finalize_inv. pose proof (as_entries_wf a Ha) as Hw.
  assert ((λ e, whitelist_deserialize (whitelist_serialize e)) <$> as_entries a = as_entries a) as ->.
  { rewrite <- (list_fmap_id (as_entries a)) at 2. apply list_fmap_ext. intros i e He%list_elem_of_lookup_2.
    destruct Hw as [_ Hall]. rewrite list.Forall_forall in Hall. apply whitelist_entry_roundtrip. by apply Hall. }
  exists ((normalize_client_whitelist (with_whitelist (as_entries a) (ClientAcl.ufw_sync a) c2)) {{ hosts_table := t }}).
  split_and!; [| by destruct c2 | | by destruct c2].
  - unfold finalize.
    rewrite (finalize_listeners_with (with_whitelist (as_entries a) (ClientAcl.ufw_sync a)) c0 c1) by auto. cbn [mbind result_bind].
    rewrite (normalize_upstreams_with (with_whitelist (as_entries a) (ClientAcl.ufw_sync a)) c1 c2) by auto.
    cbn [mbind result_bind]. cbv zeta.
    assert (hosts (normalize_client_whitelist (with_whitelist (as_entries a) (ClientAcl.ufw_sync a) c2)) = hosts c2) as ->
      by by destruct c2. by rewrite Ht.
  - apply acl_from_entries; [done | | by destruct c2].
    unfold normalize_client_whitelist. cbn. rewrite <- (whitelist_dedup_id (as_entries a) ∅) at 2; [by destruct c2 | done |].
    apply list.Forall_forall. intros e _. apply not_elem_of_empty.
Qed.

(** * Edits *)

(** The requests that change the shared state and the file. *)
Definition is_edit (r : Request) : bool :=
  match r with
  | PutHosts _ | PutUpstreams _ | AddClientUpstream _ _ | DeleteClientUpstream _
  | PutWhitelist _ | AddWhitelistIp _ _ | DeleteWhitelistIp _ => true
  | _ => false
  end.

(** The answer says that the file was saved. *)
Definition saved (resp : Response) : Prop :=
  match body resp with JObj l => (§"persist", JStr §"saved") ∈ l | _ => False end.

Lemma persist_restart fields s1 s2 text c0 c1 c :
  persist fields s1 = (§"saved", s2) →
  read_to_string (config_file s1) (files s1) = Some text → from_str text = Val (Some c0) →
  set_fields fields c0 = Some c1 → finalize c1 = Ok c →
  described s2 = Some (from_config c, acl_from_config c, hosts_table c).
Proof.
  unfold persist. destruct (persist_yaml _ _ _) as [r t] eqn:E. intros Hp Hr Hf Hs Hc.
  destruct r as [[]|e]; [|by injection Hp]. injection Hp as <-.
  destruct (persisted_config _ _ _ _ _ _ _ Hr Hf Hs E) as (text' & Hr' & Hf').
  refine (eq_trans (y := (text ← read_to_string (config_file s1) t; c0 ← returned (from_str text);
    c ← result_ok (finalize c0); Some (from_config c, acl_from_config c, hosts_table c))) eq_refl _).
  rewrite Hr'. cbn. rewrite Hf'. cbn. by rewrite Hc.
Qed.

(** The state and the file agree, and the state is well-formed. *)
Record agrees (s : PanelState) : Prop := {
  ag_registry : registry_wf (upstream_registry s);
  ag_acl : acl_wf (client_acl s);
  ag_file : described s = Some (in_memory s);
}.

Lemma agrees_inv s : agrees s → ∃ text c0 c,
  read_to_string (config_file s) (files s) = Some text ∧ from_str text = Val (Some c0) ∧ finalize c0 = Ok c
  ∧ from_config c = upstream_registry s ∧ acl_from_config c = client_acl s ∧ hosts_table c = hosts_live s.
Proof.
  intros [_ _ Hf]. unfold described in Hf. destruct (read_to_string _ _) as [text|] eqn:E1; [|done]. cbn in Hf.
  destruct (from_str text) as [[c0|]|] eqn:E2; [|done..]. cbn in Hf. destruct (finalize c0) as [c|] eqn:E3; [|done]. cbn in Hf.
  injection Hf as Hr Ha Ht. by exists text, c0, c.
Qed.

(** The three kinds of edits; [s1] is the state when the file is written. *)
Lemma edit_hosts s s1 msg s2 l t :
  agrees s → config_file s1 = config_file s → files s1 = files s → compile_hosts_table l = Ok t →
  persist (hosts_fields l) s1 = (msg, s2) → msg = §"saved" →
  described s2 = Some (upstream_registry s, client_acl s, t).
Proof.
  intros Hag Ec Ef Ht Hp ->. destruct (agrees_inv s Hag) as (text & c0 & c & Hr & Hf & Hc & <- & <- & _).
  destruct (finalize_hosts l t c0 c Ht Hc) as (c' & Hc' & <- & <- & <-).
  rewrite <- Ec, <- Ef in Hr. by apply (persist_restart _ _ _ _ _ (with_hosts l c0) _ Hp Hr Hf).
Qed.
Lemma edit_registry s s1 msg s2 r :
  agrees s → config_file s1 = config_file s → files s1 = files s → registry_wf r →
  persist (upstreams_fields r) s1 = (msg, s2) → msg = §"saved" →
  described s2 = Some (r, client_acl s, hosts_live s).
Proof.
  intros Hag Ec Ef Hw Hp ->. destruct (agrees_inv s Hag) as (text & c0 & c & Hr & Hf & Hc & _ & <- & <-).
  destruct (finalize_registry r c0 c Hw Hc) as (c' & Hc' & <- & <- & <-).
  rewrite <- Ec, <- Ef in Hr. by apply (persist_restart _ _ _ _ _ (with_registry (from_config c') c0) _ Hp Hr Hf).
Qed.
Lemma edit_acl s s1 msg s2 a :
  agrees s → config_file s1 = config_file s → files s1 = files s → acl_wf a →
  persist (whitelist_fields a) s1 = (msg, s2) → msg = §"saved" →
  described s2 = Some (upstream_registry s, a, hosts_live s).
Proof.
  intros Hag Ec Ef Hw Hp ->. destruct (agrees_inv s Hag) as (text & c0 & c & Hr & Hf & Hc & <- & _ & <-).
  destruct (finalize_whitelist a c0 c Hw Hc) as (c' & Hc' & <- & Ha & <-).
  rewrite <- Ec, <- Ef in Hr. rewrite (persist_restart _ _ _ _ _ _ _ Hp Hr Hf eq_refl Hc'). by rewrite Ha.
Qed.
End restart.

(** No edit moves the configuration file. *)
Lemma edit_config_file `{Unicode} `{Yaml} `{RegexLib} `{HashOrder} `{Kernel} `{Host} `{Chrono} `{Sqlite} `{Argon2}
    `{YamlDoc} `{ErrorText} cookie r m (s : PanelState) :
  is_edit r = true → config_file (handler cookie r m s).2 = config_file s.
Proof.
  assert (∀ fields s1, config_file s1 = config_file s → config_file (persist fields s1).2 = config_file s) as Hp.
  { intros fields s1 <-. by destruct (persist_frame fields s1) as (_ & _ & _ & _ & _ & ?). }
  assert (∀ (k : Handler), config_file (k m s).2 = config_file s → config_file (authed cookie k m s).2 = config_file s) as Ha.
  { intros k Hk. unfold authed. by destruct (require_auth cookie m s). }
  destruct r; try done; intros _; cbn [handler]; apply Ha; clear Ha; cbv zeta;
    [ destruct (compile_hosts_table _) | destruct (from_parts _ _ _ _) | destruct (set_client_upstream _ _ _)
    | destruct (remove_client_upstream _ _) as [[??]|] | destruct (acl_from_parts _ _) as [acl|]
    | destruct (require_username _); [destruct (add _ _ _) as [[[acl ?] ?]|]|]
    | destruct (remove _ _) as [[acl ?]|] ]; try done;
    try (destruct (if _ : bool then _ else _) as [? ?]);
    match goal with |- context [persist ?f ?s1] => specialize (Hp f s1 eq_refl); by destruct (persist f s1) end.
Qed.

(** Where the answer says whether the file was saved. *)
Lemma saved_msg resp msg l : body resp = JObj l → saved resp →
  (∀ k j, (k, j) ∈ l → k = §"persist" → j = JStr msg) → msg = §"saved".
Proof. unfold saved. intros -> Hs Hl. specialize (Hl _ _ Hs eq_refl). by injection Hl. Qed.

Ltac find_msg :=
  match goal with
  | H : saved ?resp |- ?msg = _ =>
      apply (saved_msg resp msg _ eq_refl H); intros ? ?;
      repeat (intros [[= -> ->]|Hin]%elem_of_cons; [(done || intros [=])|revert Hin]); by intros ?%elem_of_nil
  end.

(** The state agrees with the file of which [E] says what a restart loads. *)
Ltac by_file E :=
  match goal with
  | Ea : client_acl _ = _, Er : upstream_registry _ = _, El : hosts_live _ = _ |- _ =>
      split; [first [assumption | exact (eq_ind_r registry_wf ltac:(eassumption) Er)]
             | first [assumption | exact (eq_ind_r acl_wf ltac:(eassumption) Ea)] |];
      refine (eq_trans E _); unfold in_memory; f_equal; f_equal; [f_equal|];
      first [reflexivity | exact (eq_sym Er) | exact (eq_sym Ea) | exact (eq_sym El)]
  end.

(** One edit: [lem] is what it writes, [Hx] that the new part is well-formed. *)
Ltac by_edit lem Hag Hx :=
  match goal with
  | |- context [persist ?f ?s1] =>
      let Hf := fresh "Hf" in let msg := fresh "msg" in let s2 := fresh "s2" in
      let Ep := fresh "Ep" in let Hs := fresh "Hs" in let Hm := fresh "Hm" in
      pose proof (persist_frame f s1) as Hf; destruct (persist f s1) as [msg s2] eqn:Ep;
      destruct Hf as (_ & _ & ? & ? & ? & _); cbn [snd] in *;
      intros Hs; specialize (Hs eq_refl); assert (msg = §"saved") as Hm by find_msg;
      by_file (lem s1 msg s2 Hag eq_refl eq_refl Hx Ep Hm)
  end.

(** When the shared state, the upstream registry, the white list and the hosts table, is the
    one that the configuration file describes, it still is after any edit, accepted or
    refused, whose answer does not report a failure to save. *)
Lemma edits_keep_agreement `{Unicode} `{Yaml} `{RegexLib} `{HashOrder} `{Kernel} `{Host} `{Chrono} `{Sqlite} `{Argon2}
    `{YamlDoc} `{ErrorText} (from_str : bytes → eval (option AppConfig)) `{!YamlFile from_str} (s : PanelState) cookie m r :
  agrees from_str s → is_edit r = true →
  let '(resp, s') := handler cookie r m s in
  (status resp = OK → saved resp) → agrees from_str s'.
Proof.
  intros Hag Hr.
  assert (∀ k : Handler, (let '(resp, s') := k m s in (status resp = OK → saved resp) → agrees from_str s') →
    let '(resp, s') := authed cookie k m s in (status resp = OK → saved resp) → agrees from_str s') as Hauth.
  { intros k Hk. unfold authed. by destruct (require_auth cookie m s). }
  pose proof (ag_registry _ _ Hag) as Hreg. pose proof (ag_acl _ _ Hag) as Hacl.
  destruct r; try done; clear Hr; cbn [handler]; apply Hauth; clear Hauth.
  - destruct (compile_hosts_table hosts) as [t|e] eqn:Et; [|done].
    by_edit (λ s1 msg s2, edit_hosts from_str s s1 msg s2 hosts t) Hag Et.
  - cbv zeta. destruct (from_parts _ _ _ _) as [reg|e] eqn:Et; [|done]. apply from_parts_wf in Et.
    by_edit (λ s1 msg s2, edit_registry from_str s s1 msg s2 reg) Hag Et.
  - destruct (set_client_upstream _ _ _) as [reg|e] eqn:Et; [|done]. apply set_client_upstream_wf in Et; [|done].
    by_edit (λ s1 msg s2, edit_registry from_str s s1 msg s2 reg) Hag Et.
  - destruct (remove_client_upstream _ _) as [[reg removed]|e] eqn:Et; [|done]. apply remove_client_upstream_wf in Et; [|done].
    by_edit (λ s1 msg s2, edit_registry from_str s s1 msg s2 reg) Hag Et.
  - cbv zeta. destruct (acl_from_parts _ _) as [acl|e] eqn:Et; [|done]. apply from_parts_acl_wf in Et.
    destruct (if ClientAcl.ufw_sync acl then _ else _) as [notes h].
    by_edit (λ s1 msg s2, edit_acl from_str s s1 msg s2 acl) Hag Et.
  - destruct (require_username username) as [user|e]; [|done].
    destruct (add _ _ _) as [[[acl added] user']|e] eqn:Et; [|done]. apply add_wf in Et; [|done].
    destruct (if ClientAcl.ufw_sync acl then _ else _) as [note h].
    by_edit (λ s1 msg s2, edit_acl from_str s s1 msg s2 acl) Hag Et.
  - destruct (remove _ _) as [[acl removed]|e] eqn:Et; [|done]. apply remove_wf in Et; [|done].
    destruct (if removed && ClientAcl.ufw_sync acl then _ else _) as [note h].
    by_edit (λ s1 msg s2, edit_acl from_str s s1 msg s2 acl) Hag Et.
Qed.
