(* ===== verification/PanelErrors.v ===== *)
(** The theorem on the errors of the panel: a request that is refused leaves everything as it
    was, the files and commands of dnsmasq apart. *)

From S2P Require Import Prelude RustStr TextLines Collections Net Hosts Config UpstreamRegistry ClientAcl Metrics Files Ufw DnsmasqStore PanelDb Panel PanelApi.

Section errors.
Context `{Unicode} `{Yaml} `{RegexLib} `{HashOrder} `{Kernel} `{Host} `{Chrono} `{Sqlite} `{Argon2} `{YamlDoc} `{ErrorText}.

(** The requests that write the rules of dnsmasq, or run the command that loads them. *)
Definition touches_dnsmasq (r : Request) : bool :=
  match r with
  | CreateDomain _ | ReplaceDomains _ | UpdateDomain _ _ | DeleteDomain _ _ | ImportDomains _ _ | DnsmasqApply | DnsmasqReload => true
  | _ => false
  end.

(** A handler whose refusals change nothing, and one whose refusals may have come after a
    write to the files of dnsmasq or a command. *)
Definition quiet (k : Handler) : Prop := ∀ m s, status (k m s).1 ≠ OK → (k m s).2 = s.
Definition contained (k : Handler) : Prop := ∀ m s, status (k m s).1 ≠ OK →
  (∃ t h, (k m s).2 = s {{ files := t }} {{ host := h }}) ∧ (dnsmasq_paths s = None → (k m s).2 = s).

Lemma same_files (s : PanelState) : s = s {{ files := files s }} {{ host := host s }}.
Proof. by destruct s. Qed.
Lemma quiet_contained k : quiet k → contained k.
Proof.
  intros Hk m s Hs. specialize (Hk m s Hs). rewrite Hk. split; [|done]. eexists _, _. apply same_files.
Qed.

(** * The ways a handler is built *)

Lemma quiet_authed cookie k : quiet k → quiet (authed cookie k).
Proof. intros Hk m s. unfold authed. destruct (require_auth _ _ _); [apply Hk | done]. Qed.
Lemma contained_authed cookie k : contained k → contained (authed cookie k).
Proof.
  intros Hk m s. unfold authed. destruct (require_auth _ _ _); [apply Hk|]. intros _.
  split; [|done]. eexists _, _. apply same_files.
Qed.

Lemma quiet_query {A} (q : Query A) code k : quiet (on_query q code k).
Proof. done. Qed.

(** A change to the database that fails is not made. *)
Definition all_or_nothing {A} (u : Update A) : Prop := ∀ d e, (u d).1 = Err e → (u d).2 = d.
Lemma update_all_or_nothing {A} (f : PanelDb → result DbError (A * PanelDb)) : all_or_nothing (update f).
Proof. intros d e. unfold update. destruct (broken d); [done|]. by destruct (f d) as [[a d']|]. Qed.
Lemma add_domain_all_or_nothing t p k m n : all_or_nothing (add_domain t p k m n).
Proof. intros d e. unfold add_domain. cbv zeta. case_decide; [done|]. by apply update_all_or_nothing. Qed.

Lemma same_db (s : PanelState) : s {{ db := db s }} = s.
Proof. by destruct s. Qed.
Lemma quiet_update {A} (u : Update A) code k : all_or_nothing u → quiet (on_update u code k).
Proof.
  intros Hu m s. unfold on_update. specialize (Hu (db s)). destruct (u (db s)) as [[a|e] d]; [done|]. cbn.
  intros _. specialize (Hu e eq_refl). cbn in Hu. rewrite Hu. apply same_db.
Qed.

Lemma quiet_with_domains f k : (∀ paths items, quiet (f paths items)) → quiet k → quiet (with_domains f k).
Proof.
  intros Hf Hk m s. unfold with_domains. destruct (dnsmasq_paths s) as [paths|]; [|apply Hk].
  destruct (load_domains _ _); [apply Hf | done].
Qed.
(** Without the files of dnsmasq the request goes to the database. *)
Lemma contained_with_domains f k :
  (∀ paths items m s, dnsmasq_paths s = Some paths → ∃ t h, (f paths items m s).2 = s {{ files := t }} {{ host := h }}) →
  quiet k → contained (with_domains f k).
Proof.
  intros Hf Hk m s. unfold with_domains. destruct (dnsmasq_paths s) as [paths|] eqn:E.
  - destruct (load_domains _ _) as [items|]; intros _; (split; [|done]); [by apply Hf|]. eexists _, _. apply same_files.
  - intros Hs. rewrite (Hk m s Hs). split; [|done]. eexists _, _. apply same_files.
Qed.

Lemma saved_contained more domains s : ∃ t h, (saved more domains s).2 = s {{ files := t }} {{ host := h }}.
Proof.
  unfold saved, save_dnsmasq. destruct (dnsmasq_paths s) as [paths|]; [|eexists _, _; apply same_files].
  destruct (save_domains _ _ _) as [[u|e] t].
  - destruct (reload paths (host (s {{ files := t }}))) as [[o|e] h]; by exists t, h.
  - exists t, (host s). by destruct s.
Qed.
Lemma saved_refused more domains s : dnsmasq_paths s = None → (saved more domains s).2 = s.
Proof. unfold saved, save_dnsmasq. by intros ->. Qed.

(** * The requests *)

Lemma login_quiet password : quiet (login password).
Proof.
  intros m s. unfold login. destruct (get_setting _ _) as [[hash|]|]; [|done | done]. destruct (negb _); [done|]. cbv zeta.
  pose proof (update_all_or_nothing (λ db, match sessions db !! fresh_token m with
    | Some _ => Err Constraint
    | None => Ok (tt, PanelDb.with_sessions (<[fresh_token m := {| se_created_at := to_rfc3339 (now m);
                se_expires_at := to_rfc3339 (now m + SESSION_HOURS * HOUR)%Z |}]> (sessions db)) db) end) (db s)) as Hu.
  unfold create_session. destruct (update _ _) as [[u|e] d]; [done|]. intros _. cbn in Hu |- *. rewrite (Hu e eq_refl). apply same_db.
Qed.

Lemma change_password_quiet cookie current new_password : quiet (change_password cookie current new_password).
Proof.
  apply quiet_authed. intros m s. destruct (_ <? _); [done|]. cbv zeta. destruct (negb _); [done|].
  by destruct (hash_password _ _).
Qed.


Lemma put_upstreams_quiet cookie b : quiet (put_upstreams cookie b).
Proof. apply quiet_authed. intros m s. cbv zeta. destruct (from_parts _ _ _ _) as [reg|]; [by destruct (persist _ _)|done]. Qed.
Lemma add_client_quiet cookie i profile : quiet (add_client_upstream cookie i profile).
Proof. apply quiet_authed. intros m s. destruct (set_client_upstream _ _ _) as [reg|]; [by destruct (persist _ _)|done]. Qed.
Lemma delete_client_quiet cookie i : quiet (delete_client_upstream cookie i).
Proof. apply quiet_authed. intros m s. destruct (remove_client_upstream _ _) as [[reg b]|]; [by destruct (persist _ _)|done]. Qed.
Lemma put_hosts_quiet cookie l : quiet (put_hosts cookie l).
Proof. apply quiet_authed. intros m s. destruct (compile_hosts_table l); [by destruct (persist _ _)|done]. Qed.
Lemma get_whitelist_quiet cookie : quiet (get_whitelist cookie).
Proof. apply quiet_authed. intros m s. cbv zeta. by destruct (ufw_available _ _). Qed.
Lemma put_whitelist_quiet cookie b : quiet (put_whitelist cookie b).
Proof.
  apply quiet_authed. intros m s. cbv zeta. destruct (acl_from_parts _ _) as [acl|]; [|done].
  destruct (if ClientAcl.ufw_sync acl then _ else _) as [notes h]. by destruct (persist _ _).
Qed.
Lemma add_whitelist_quiet cookie i user : quiet (add_whitelist_ip cookie i user).
Proof.
  apply quiet_authed. intros m s. destruct (require_username user) as [u|]; [|done].
  destruct (add _ _ _) as [[[acl added] v]|]; [|done].
  destruct (if ClientAcl.ufw_sync acl then _ else _) as [note h]. by destruct (persist _ _).
Qed.
Lemma delete_whitelist_quiet cookie i : quiet (delete_whitelist_ip cookie i).
Proof.
  apply quiet_authed. intros m s. destruct (remove _ _) as [[acl removed]|]; [|done].
  destruct (if removed && ClientAcl.ufw_sync acl then _ else _) as [note h]. by destruct (persist _ _).
Qed.

Lemma handler_quiet cookie r : touches_dnsmasq r = false → quiet (handler cookie r).
Proof.
  destruct r; try done; intros _; cbn [handler];
    try first
      [ apply login_quiet | apply change_password_quiet | apply put_upstreams_quiet | apply add_client_quiet
      | apply delete_client_quiet | apply put_hosts_quiet | apply get_whitelist_quiet | apply put_whitelist_quiet
      | apply add_whitelist_quiet | apply delete_whitelist_quiet
      | apply quiet_authed, quiet_query | apply quiet_authed, quiet_update, update_all_or_nothing
      | apply quiet_authed; intros m s; unfold on_query; cbv zeta; done ];
    try (apply quiet_authed).
  - by intros m s.
  - intros m s. by destruct (resolve_range m q).
  - intros m s. by destruct (resolve_range m q).
  - intros m s. by destruct (resolve_range m q).
  - by apply quiet_with_domains.
  - apply quiet_with_domains; [done|]. intros m s. by destruct (nonempty _).
Qed.

Lemma handler_contained cookie r : touches_dnsmasq r = true → contained (handler cookie r).
Proof.
  assert (∀ (s : PanelState), ∃ t h, s = s {{ files := t }} {{ host := h }}) as Hsame by (intros s; eexists _, _; apply same_files).
  destruct r; try done; intros _; cbn [handler]; apply contained_authed;
    try (apply contained_with_domains; [intros paths items m s _; cbv zeta; try case_decide; auto using saved_contained|]).
  - intros m. apply quiet_update, add_domain_all_or_nothing.
  - intros m s _. destruct (dnsmasq_paths s) eqn:E; (split; [auto using saved_contained | done]).
  - intros m s. destruct (parse_i64 pattern); [|done]. apply (quiet_update (update_domain _ _ _ _ _)), update_all_or_nothing.
  - intros m s. destruct (parse_i64 pattern); [|done]. apply (quiet_update (delete_domain _)), update_all_or_nothing.
  - intros m. apply quiet_update, update_all_or_nothing.
  - done.
  - intros m s _. destruct (dnsmasq_paths s) as [paths|] eqn:E; [|split; [apply Hsame | done]].
    destruct (reload paths (host s)) as [o h]. split; [|done]. exists (files s), h. by destruct s.
Qed.
End errors.

(** C17: A request that is refused changes nothing: when the answer is not 200, the database,
    the configuration, the routing table, the white list and the hosts table are as they were,
    and for every request but those on the rules of dnsmasq the configuration file and
    whatever commands act on are too.  Only a request on the rules of dnsmasq, and only when
    their directory is there, may have written some of the rules before it failed. *)
Theorem refused_changes_nothing `{Unicode} `{Yaml} `{RegexLib} `{HashOrder} `{Kernel} `{Host} `{Chrono} `{Sqlite}
    `{Argon2} `{YamlDoc} `{ErrorText} (s s' : PanelState) cookie r m resp :
  handler cookie r m s = (resp, s') → status resp ≠ OK →
  s' = s {{ files := files s' }} {{ host := host s' }}
  ∧ (touches_dnsmasq r = false ∨ dnsmasq_paths s = None → s' = s).
Proof.
  intros E Hs. destruct (touches_dnsmasq r) eqn:Hr.
  - pose proof (handler_contained cookie r Hr m s) as Hc. rewrite E in Hc. destruct (Hc Hs) as [(t & h & Et) Hn].
    cbn [snd] in *. split; [|by intros [|?]; [|apply Hn]]. rewrite Et. by destruct s.
  - pose proof (handler_quiet cookie r Hr m s) as Hq. rewrite E in Hq. cbn [fst snd] in Hq. rewrite (Hq Hs).
    split; [apply same_files | done].
Qed.
