(* ===== verification/PanelShared.v ===== *)
(** What the requests to the panel do to the structures it shares with the relay: the upstream
    registry, the white list and the hosts table.  Each is replaced by the requests that edit
    it and by no other, and the replacement is well-formed. *)

From S2P Require Import Prelude RustStr TextLines Collections Net Hosts Config UpstreamRegistry ClientAcl Metrics Files Ufw DnsmasqStore PanelDb Panel PanelApi PanelAuth PanelEdits PanelErrors.

Definition changes_registry (r : Request) : bool :=
  match r with PutUpstreams _ | AddClientUpstream _ _ | DeleteClientUpstream _ => true | _ => false end.
Definition changes_whitelist (r : Request) : bool :=
  match r with PutWhitelist _ | AddWhitelistIp _ _ | DeleteWhitelistIp _ => true | _ => false end.
Definition changes_hosts (r : Request) : bool := match r with PutHosts _ => true | _ => false end.

Section shared.
Context `{Unicode} `{Yaml} `{RegexLib} `{HashOrder} `{Kernel} `{Host} `{Chrono} `{Sqlite} `{Argon2} `{YamlDoc} `{ErrorText}.

(** The shared structures after a request, by what it is allowed to replace. *)
Record shared_step (reg acl table : bool) (s s' : PanelState) : Prop := {
  sh_registry : reg = true ∨ upstream_registry s' = upstream_registry s;
  sh_acl : acl = true ∨ client_acl s' = client_acl s;
  sh_hosts : table = true ∨ hosts_live s' = hosts_live s;
  sh_registry_wf : registry_wf (upstream_registry s) → registry_wf (upstream_registry s');
  sh_acl_wf : acl_wf (client_acl s) → acl_wf (client_acl s');
}.

Lemma shared_refl reg acl table s : shared_step reg acl table s s.
Proof. split; auto. Qed.

(** A state that differs in nothing that is shared. *)
Lemma shared_same reg acl table s s' :
  upstream_registry s' = upstream_registry s → client_acl s' = client_acl s → hosts_live s' = hosts_live s →
  shared_step reg acl table s s'.
Proof. intros Er Ea Eh. split; auto; by rewrite ?Er, ?Ea. Qed.

(** * Requests that edit nothing shared *)

Definition leaves_shared (k : Handler) : Prop := ∀ m s, shared_step false false false s (k m s).2.

Lemma leaves_authed cookie k : leaves_shared k → leaves_shared (authed cookie k).
Proof. intros Hk m s. unfold authed. destruct (require_auth _ _ _); [apply Hk | apply shared_refl]. Qed.
Lemma leaves_query {A} (q : Query A) code k : leaves_shared (on_query q code k).
Proof. intros m s. apply shared_refl. Qed.
Lemma leaves_update {A} (u : Update A) code k : leaves_shared (on_update u code k).
Proof. intros m s. unfold on_update. destruct (u (db s)) as [r d]. by apply shared_same. Qed.
Lemma leaves_with_domains f k :
  (∀ paths items, leaves_shared (f paths items)) → leaves_shared k → leaves_shared (with_domains f k).
Proof.
  intros Hf Hk m s. unfold with_domains. destruct (dnsmasq_paths s) as [paths|]; [|apply Hk].
  destruct (load_domains _ _); [apply Hf | apply shared_refl].
Qed.
Lemma leaves_saved more domains s : shared_step false false false s (saved more domains s).2.
Proof. destruct (saved_contained more domains s) as (t & h & ->). by apply shared_same. Qed.

Lemma leaves_login password : leaves_shared (login password).
Proof.
  intros m s. unfold login. destruct (get_setting _ _) as [[hash|]|]; [|apply shared_refl..].
  destruct (negb _); [apply shared_refl|]. cbv zeta. destruct (create_session _ _ _ _) as [r d]. by apply shared_same.
Qed.
Lemma leaves_logout cookie : leaves_shared (logout cookie).
Proof. intros m s. unfold logout. destruct (session_token_from_headers cookie); by apply shared_same. Qed.
Lemma leaves_change_password cookie current new_password : leaves_shared (change_password cookie current new_password).
Proof.
  apply leaves_authed. intros m s. destruct (_ <? _); [apply shared_refl|]. cbv zeta. destruct (negb _); [apply shared_refl|].
  destruct (hash_password _ _); by apply shared_same.
Qed.

Lemma handler_leaves cookie r :
  changes_registry r = false → changes_whitelist r = false → changes_hosts r = false → leaves_shared (handler cookie r).
Proof.
  destruct r; try done; intros _ _ _; cbn [handler];
    try first
      [ apply leaves_login | apply leaves_logout | apply leaves_change_password
      | intros m s; apply shared_refl
      | apply leaves_authed, leaves_query | apply leaves_authed, leaves_update
      | apply leaves_authed; intros m s; unfold on_query; cbv zeta; apply shared_refl ];
    apply leaves_authed;
    try (apply leaves_with_domains;
         [intros paths items m s; cbv zeta; first [apply leaves_saved | apply shared_refl | case_decide; auto using leaves_saved, shared_refl]
         | try (intros m; apply leaves_update); try (intros m s; apply shared_refl)]).
  - intros m s. destruct (resolve_range m q). apply shared_refl.
  - intros m s. destruct (resolve_range m q). apply shared_refl.
  - intros m s. destruct (resolve_range m q). apply shared_refl.
  - intros m s. destruct (dnsmasq_paths s); [apply leaves_saved | apply shared_refl].
  - intros m s. destruct (parse_i64 pattern); [apply leaves_update | apply shared_refl].
  - intros m s. destruct (parse_i64 pattern); [apply leaves_update | apply shared_refl].
  - intros m s. destruct (nonempty _); apply shared_refl.
  - intros m s. destruct (dnsmasq_paths s) as [paths|]; [|apply shared_refl]. destruct (reload _ _) as [o h]. by apply shared_same.
  - intros m s. cbv zeta. destruct (ufw_available _ _) as [b h]. by apply shared_same.
Qed.

(** * Requests that edit *)

Definition steps (reg acl table : bool) (k : Handler) : Prop := ∀ m s, shared_step reg acl table s (k m s).2.
Lemma steps_authed reg acl table cookie k : steps reg acl table k → steps reg acl table (authed cookie k).
Proof. intros Hk m s. unfold authed. destruct (require_auth _ _ _); [apply Hk | apply shared_refl]. Qed.

(** The state of an answer, after it has been saved. *)
Lemma persist_shared fields s s0 reg acl table :
  shared_step reg acl table s s0 → shared_step reg acl table s (persist fields s0).2.
Proof.
  intros [? ? ? ? ?]. destruct (persist_frame fields s0) as (_ & _ & Ea & Er & Eh & _).
  split; by rewrite ?Ea, ?Er, ?Eh.
Qed.
Lemma registry_saved s fields r : (registry_wf (upstream_registry s) → registry_wf r) →
  shared_step true false false s (persist fields (s {{ upstream_registry := r }})).2.
Proof. intros Hr. apply persist_shared. split; auto. Qed.

Lemma put_upstreams_steps cookie b : steps true false false (put_upstreams cookie b).
Proof.
  apply steps_authed. intros m s. cbv zeta. destruct (from_parts _ _ _ _) as [reg|] eqn:E; [|apply shared_refl].
  pose proof (registry_saved s (upstreams_fields reg) reg (λ _, from_parts_wf _ _ _ _ _ E)) as Hp. by destruct (persist _ _).
Qed.
Lemma add_client_steps cookie i profile : steps true false false (add_client_upstream cookie i profile).
Proof.
  apply steps_authed. intros m s. destruct (set_client_upstream _ _ _) as [reg|] eqn:E; [|apply shared_refl].
  pose proof (registry_saved s (upstreams_fields reg) reg (λ Hw, set_client_upstream_wf _ _ _ _ Hw E)) as Hp. by destruct (persist _ _).
Qed.
Lemma delete_client_steps cookie i : steps true false false (delete_client_upstream cookie i).
Proof.
  apply steps_authed. intros m s. destruct (remove_client_upstream _ _) as [[reg b]|] eqn:E; [|apply shared_refl].
  pose proof (registry_saved s (upstreams_fields reg) reg (λ Hw, remove_client_upstream_wf _ _ _ _ Hw E)) as Hp. by destruct (persist _ _).
Qed.
Lemma put_hosts_steps cookie l : steps false false true (put_hosts cookie l).
Proof.
  apply steps_authed. intros m s. destruct (compile_hosts_table l) as [t|]; [|apply shared_refl].
  assert (shared_step false false true s (s {{ hosts_live := t }} {{ hosts_entries := l }})) as Hstep by (split; auto).
  pose proof (persist_shared (hosts_fields l) _ _ _ _ _ Hstep) as Hp. by destruct (persist _ _).
Qed.

(** The white list is replaced last. *)
Lemma acl_saved s h fields a : (acl_wf (client_acl s) → acl_wf a) →
  shared_step false true false s ((persist fields (s {{ host := h }})).2 {{ client_acl := a }}).
Proof.
  intros Ha. destruct (persist_frame fields (s {{ host := h }})) as (_ & _ & _ & Er & Eh & _).
  split; [right; exact Er | by left | right; exact Eh | intros Hr; exact (eq_ind_r registry_wf Hr Er) | exact Ha].
Qed.
Lemma put_whitelist_steps cookie b : steps false true false (put_whitelist cookie b).
Proof.
  apply steps_authed. intros m s. cbv zeta. destruct (acl_from_parts _ _) as [acl|] eqn:E; [|apply shared_refl].
  apply from_parts_acl_wf in E. destruct (if ClientAcl.ufw_sync acl then _ else _) as [notes h].
  pose proof (acl_saved s h (whitelist_fields acl) acl (λ _, E)) as Hp. by destruct (persist _ _).
Qed.
Lemma add_whitelist_steps cookie i user : steps false true false (add_whitelist_ip cookie i user).
Proof.
  apply steps_authed. intros m s. destruct (require_username user) as [u|]; [|apply shared_refl].
  destruct (add _ _ _) as [[[acl added] v]|] eqn:E; [|apply shared_refl].
  destruct (if ClientAcl.ufw_sync acl then _ else _) as [note h].
  pose proof (acl_saved s h (whitelist_fields acl) acl (λ Hw, add_wf _ _ _ _ _ _ Hw E)) as Hp. by destruct (persist _ _).
Qed.
Lemma delete_whitelist_steps cookie i : steps false true false (delete_whitelist_ip cookie i).
Proof.
  apply steps_authed. intros m s. destruct (remove _ _) as [[acl removed]|] eqn:E; [|apply shared_refl].
  destruct (if removed && ClientAcl.ufw_sync acl then _ else _) as [note h].
  pose proof (acl_saved s h (whitelist_fields acl) acl (λ Hw, remove_wf _ _ _ _ Hw E)) as Hp. by destruct (persist _ _).
Qed.

Lemma handler_shared cookie r :
  steps (changes_registry r) (changes_whitelist r) (changes_hosts r) (handler cookie r).
Proof.
  destruct r; cbn [changes_registry changes_whitelist changes_hosts];
    first [ by apply handler_leaves
          | apply put_upstreams_steps | apply add_client_steps | apply delete_client_steps | apply put_hosts_steps
          | apply put_whitelist_steps | apply add_whitelist_steps | apply delete_whitelist_steps ].
Qed.

(** * Events *)

(** The background work of the panel is on its database. *)
Lemma step_shared s e :
  shared_step
    (match e with Answered _ _ r => changes_registry r | _ => false end)
    (match e with Answered _ _ r => changes_whitelist r | _ => false end)
    (match e with Answered _ _ r => changes_hosts r | _ => false end) s (step s e).
Proof. destruct e as [m cookie r|t|t rows]; [apply handler_shared | by apply shared_same..]. Qed.

(** * Requests that overlap *)

(** A handler of the white list reads the list, and writes its own version of it at the end
    without looking again; a request that was answered meanwhile is between the two. *)
Definition commit_acl (cookie : option bytes) (r : Request) (m : Moment) (read written : PanelState) : PanelState :=
  let '(resp, s) := handler cookie r m read in
  if (status resp =? OK)%N then written {{ client_acl := client_acl s }} else written.

(** Without an overlap it is the request itself, for the list. *)
Lemma commit_acl_alone cookie r m s :
  client_acl (commit_acl cookie r m s s) = client_acl (handler cookie r m s).2 ∨ status (handler cookie r m s).1 ≠ OK.
Proof.
  unfold commit_acl. destruct (handler cookie r m s) as [resp s']. cbn [fst snd].
  destruct (N.eqb_spec (status resp) OK); [by left | by right].
Qed.
End shared.
