(* ===== verification/PanelExamples.v ===== *)
(** A small panel on which the theorems of PanelAuth, PanelEdits, PanelRestart and PanelErrors are tried: two
    addresses, a firewall that is a table, and a YAML library that knows two texts. *)

From S2P Require Import Prelude RustStr TextLines Collections Net Hosts Config UpstreamRegistry ClientAcl Metrics Files Ufw DnsmasqStore DnsmasqProofs PanelDb PanelDbProofs Panel PanelApi PanelAuth PanelEdits PanelRestart PanelErrors PanelShared.

#[local] Existing Instances ascii_unicode example_yaml example_regex sorted_order open_kernel example_chrono example_chrono_laws example_sqlite.

(** * The environment *)

Definition alice : bytes := §"10.0.0.2".
Definition bob : bytes := §"10.0.0.1".

(** Three lines, as ufw prints them. *)
Definition status_text (a b : bool) : bytes :=
  unlines ([§"Status: active"] ++ (if a then [§"Anywhere ALLOW 10.0.0.2"] else []) ++ (if b then [§"Anywhere ALLOW 10.0.0.1"] else [])).
Definition has_rule (i : bytes) (h : gmap bytes bytes) : bool := bool_decide (is_Some (h !! i)).
Definition answer (out : bytes) : option Output := Some {| success := true; stdout := out; stderr := []; exit_text := [] |}.

Definition run_command (args : list bytes) (h : gmap bytes bytes) : option Output * gmap bytes bytes :=
  match args with
  | [_; _] => (answer (status_text (has_rule alice h) (has_rule bob h)), h)
  | [_; verb; _; i; last; c] =>
      if decide (verb = §"allow") then (answer §"Rule added", <[i := c]> h) else (answer §"Rule deleted", base.delete c h)
  | _ => (None, h)
  end.
#[local] Instance example_host : Host := {| HostState := gmap bytes bytes; host_file _ := false; exec := run_command |}.

#[local] Instance example_firewall : Firewall None.
Proof.
  refine {| ufw_rules := λ h : HostState, h : gmap bytes bytes; manageable i := i = alice ∨ i = bob; ready _ := True |}.
  - intros h _. eexists _, h. split_and!; [reflexivity | done | done | done |].
    intros i Hi Hs. assert (has_rule i h = true) as Hr by by apply bool_decide_eq_true.
    destruct Hi as [->| ->]; rewrite Hr.
    + exists §"Anywhere ALLOW 10.0.0.2". split; [|done]. cbn [stdout].
      apply (bool_decide_eq_true_1 _). by destruct (has_rule bob h); vm_compute.
    + exists §"Anywhere ALLOW 10.0.0.1". split; [|done]. cbn [stdout].
      apply (bool_decide_eq_true_1 _). by destruct (has_rule alice h); vm_compute.
  - intros h i c _ _ _. by eexists _, _.
  - intros h i _ _. by eexists _, _.
Defined.

#[local] Instance example_argon2 : Argon2 := {| hash_password salt p := Some (salt ++ p); verify_password p h := bool_decide (h = §"salt" ++ p) |}.
#[local] Instance example_errors : ErrorText := {|
  db_text _ := §"db"; store_text _ := §"dnsmasq"; registry_text _ := §"registry"; acl_text _ := §"acl"; hosts_text _ := §"hosts";
  ufw_text _ := §"ufw"; persist_text _ := §"yaml"; argon2_text := §"argon2" |}.

(** A document is the list of the members that were set; two of them have a text. *)
#[local] Instance HostsEntry_eq_dec : EqDecision HostsEntry.
Proof. solve_decision. Defined.
#[local] Instance Field_eq_dec : EqDecision Field.
Proof. solve_decision. Defined.
Definition new_entries : list WhitelistEntry := [{| ip := §" 10.0.0.2"; username := Some §"alice" |}].
Definition new_acl : ClientAcl := {| entries := {[alice := §"alice"]}; ClientAcl.ufw_sync := true |}.
Definition saved_document : list (bytes * Field) := whitelist_fields new_acl.
#[local] Instance example_doc : YamlDoc := {|
  Doc := list (bytes * Field);
  doc_parse text := if decide (text = §"first") then Some [] else if decide (text = §"second") then Some saved_document else None;
  is_mapping _ := true; to_value _ := true;
  doc_insert k v d := d ++ [(k, v)];
  doc_print d := if decide (d = saved_document) then Some §"second" else None |}.

Lemma set_fields_app fields fields' (c : AppConfig) :
  set_fields (fields ++ fields') c = set_fields fields c ≫= set_fields fields'.
Proof.
  revert c. induction fields as [|[k v] fields IH]; intros c; [done|]. cbn [app set_fields].
  destruct (set_field k v c); [apply IH | done].
Qed.

Definition example_from_str (text : bytes) : eval (option AppConfig) :=
  Val ((doc_parse text : option (list (bytes * Field))) ≫= λ d, set_fields d example_config).
#[local] Instance example_yaml_file : YamlFile example_from_str.
Proof.
  refine {| decode := (λ d, Val (set_fields d example_config)) : Doc → eval (option AppConfig) |}.
  - intros text. unfold example_from_str. by destruct (doc_parse text).
  - intros d out. cbn. case_decide; [|done]. intros [= <-]. subst. done.
  - intros d k v c c' _ _ Hd Hs. cbn in *. split; [done|]. injection Hd as Hd. rewrite set_fields_app, Hd. cbn. by rewrite Hs.
Defined.

(** * The state *)

Definition example_time : Time := 1700000000 * 1000000000.
Definition the_config : AppConfig := match finalize example_config with Ok c => c | Err _ => example_config end.
Definition example_panel : PanelState := {|
  db := PanelDb.with_settings {[PASSWORD_KEY := §"saltsecret"]} empty_db;
  cfg := the_config; upstream_ok := true; hosts_live := hosts_table the_config; hosts_entries := hosts the_config;
  upstream_registry := from_config the_config; client_acl := acl_from_config the_config; config_file := §"/etc/config.yaml";
  files := <[comps §"/etc" := Folder]> {[comps §"/etc/config.yaml" := Text §"first"]};
  host := ({[bob := §"snirelay:bob"; §"192.168.1.1" := §"ssh"]} : gmap bytes bytes) |}.

Definition moment (t : Time) : Moment := {| now := t; fresh_token := §"aa"; fresh_salt := §"salt"; counters _ := 0%Z |}.
Definition cookie_of (token : bytes) : option bytes := Some (§"theme=dark; snirelay_session=" ++ token).
Definition logged_in : list event := [Answered (moment example_time) None (Login §"secret")].

(** * The theorems on it *)

Example panel_closed_witness :
  let m := moment (example_time + 24 * HOUR)%Z in
  let s := after example_panel logged_in in
  handler (cookie_of §"bb") (PutHosts []) m s = (unauthorized, s)
  ∧ require_auth (cookie_of §"aa") m s = true
  ∧ require_auth (cookie_of §"aa") (moment (example_time + 168 * HOUR)) s = false.
Proof.
  assert (∀ t, (example_time ≤ t < example_time + 400 * HOUR)%Z → dated t ∧ events_ok logged_in t) as Hok.
  { intros t Ht. unfold example_time, HOUR in *. cbn [events_ok logged_in event_time now moment].
    unfold dated, YEAR_10000, SESSION_HOURS, HOUR, example_time. split_and!; try done; lia. }
  assert (NoDup (omap event_token logged_in)) as Hnd by apply NoDup_singleton.
  assert (∀ cookie t, (example_time ≤ t < example_time + 400 * HOUR)%Z →
    let s := after example_panel logged_in in
    let b := match standing_login example_panel logged_in cookie with Some t' => bool_decide (t < t' + 168 * HOUR)%Z | None => false end in
    require_auth cookie (moment t) s = b
    ∧ (b = false → handler cookie (PutHosts []) (moment t) s = (unauthorized, s))) as Hall.
  { intros cookie t Ht. destruct (Hok t Ht) as [Hd He].
    destruct (panel_closed_without_login example_panel logged_in cookie (moment t) eq_refl eq_refl He Hnd Hd) as (E & Hr & _).
    split; [exact E|]. intros Hb. by apply Hr. }
  cbv zeta. split_and!.
  - apply (Hall (cookie_of §"bb") (example_time + 24 * HOUR)%Z); [unfold example_time, HOUR; lia | by vm_compute].
  - destruct (Hall (cookie_of §"aa") (example_time + 24 * HOUR)%Z) as [-> _]; [unfold example_time, HOUR; lia | by vm_compute].
  - destruct (Hall (cookie_of §"aa") (example_time + 168 * HOUR)%Z) as [-> _]; [unfold example_time, HOUR; lia | by vm_compute].
Defined.

(** The same answers whatever the password of the proxy is. *)
Definition with_asia (p : UpstreamProxy) (s : PanelState) : PanelState :=
  s {{ upstream_registry ::= λ r, r {{ profiles ::= λ ps, <[§"asia" := p]> ps }} }}.
Definition one_secret : PanelState := with_asia (Http §"10.1.1.1" 3128 (Some §"u:new")) (after example_panel logged_in).
Definition other_secret : PanelState := with_asia (Http §"10.1.1.1" 3128 (Some §"u:old")) (after example_panel logged_in).

Lemma with_asia_hidden p q s : hide_proxy p = hide_proxy q → hide_secrets (with_asia p s) = hide_secrets (with_asia q s).
Proof.
  intros E. destruct s as [? ? ? ? ? [? ? ? ?] ? ? ? ?]. unfold hide_secrets, with_asia. cbn -[hide_proxy].
  by rewrite !fmap_insert, E.
Qed.

Example no_secret_witness :
  (handler (cookie_of §"aa") GetUpstreams (moment example_time) one_secret).1
  = (handler (cookie_of §"aa") GetUpstreams (moment example_time) other_secret).1.
Proof.
  exact (no_secret_is_shown one_secret other_secret (cookie_of §"aa") GetUpstreams (moment example_time) eq_refl
    (with_asia_hidden _ _ _ eq_refl)).
Defined.

(** The request that replaces bob by alice and switches the firewall on. *)
Definition replace_bob : WhitelistPayload := {| w_ips := []; w_entries := new_entries; w_ufw_sync := Some true |}.
Definition session_panel : PanelState := after example_panel logged_in.

Lemma session_acl_wf : acl_wf (client_acl session_panel).
Proof. apply acl_from_config_wf. Qed.
Lemma session_entries : entries (client_acl session_panel) = {[bob := §"bob"]}.
Proof. apply (bool_decide_eq_true_1 _). vm_compute. reflexivity. Qed.

Example whitelist_ufw_witness :
  let '(resp, s') := handler (cookie_of §"aa") (PutWhitelist replace_bob) (moment example_time) session_panel in
  status resp = OK ∧ (host s' : gmap bytes bytes) !! alice = Some §"snirelay:alice"
  ∧ (host s' : gmap bytes bytes) !! bob = None ∧ (host s' : gmap bytes bytes) !! §"192.168.1.1" = Some §"ssh".
Proof.
  pose proof (whitelist_ufw_sync session_panel (Firewall0 := example_firewall) (cookie_of §"aa") (moment example_time) replace_bob new_acl) as Ht.
  destruct (handler _ _ _ _) as [resp s']. destruct Ht as (Hs & _ & _ & Hr).
  - by vm_compute.
  - by vm_compute.
  - reflexivity.
  - apply session_acl_wf.
  - exact I.
  - intros i. rewrite session_entries.
    unfold new_acl. cbn [entries]. intros [[u Hu]|[u Hu]]; [right | left]; by apply lookup_singleton_Some in Hu as [<- _].
  - intros i u. rewrite session_entries.
    intros [<- <-]%lookup_singleton_Some. by vm_compute.
  - split_and!; [exact Hs | | |].
    + exact (eq_trans (Hr alice) ltac:(by vm_compute)).
    + exact (eq_trans (Hr bob) ltac:(by vm_compute)).
    + exact (eq_trans (Hr §"192.168.1.1") ltac:(by vm_compute)).
Defined.

Lemma example_finalizes : finalize example_config = Ok the_config.
Proof.
  assert (match finalize example_config with Ok _ => true | Err _ => false end = true) as Hf by (vm_compute; reflexivity).
  unfold the_config. by destruct (finalize example_config).
Qed.
Lemma session_agrees : agrees example_from_str session_panel.
Proof.
  split; [|apply session_acl_wf|].
  - change (upstream_registry session_panel) with (from_config the_config).
    apply from_config_wf, wf_routing, (finalize_config_wf _ _ example_finalizes).
  - unfold described.
    assert (read_to_string (config_file session_panel) (files session_panel) = Some §"first") as -> by (vm_compute; reflexivity).
    assert (example_from_str §"first" = Val (Some example_config)) as E by reflexivity.
    unfold mbind, option_bind. rewrite E. cbn [returned]. rewrite example_finalizes. reflexivity.
Qed.

(** The answer as a test that evaluates. *)
Definition is_saved (j : Json) : bool :=
  match j with JObj (_ :: (k, JStr v) :: _) => bool_decide (k = §"persist") && bool_decide (v = §"saved") | _ => false end.
Lemma is_saved_ok resp : is_saved (body resp) = true → saved resp.
Proof.
  unfold saved, is_saved. destruct (body resp) as [| | | | |[|[k0 v0] [|[k v] l]]]; try done.
  destruct v; try done. intros [->%bool_decide_eq_true_1 ->%bool_decide_eq_true_1]%andb_prop. right. left.
Qed.

Definition edited : Response * PanelState := handler (cookie_of §"aa") (PutWhitelist replace_bob) (moment example_time) session_panel.
Lemma edited_saved : is_saved (body edited.1) = true.
Proof. vm_compute. reflexivity. Qed.
Lemma edited_entries : entries (client_acl edited.2) = entries new_acl.
Proof. apply (bool_decide_eq_true_1 _). vm_compute. reflexivity. Qed.

Example shown_upstreams_witness :
  let r := from_config the_config in
  let '(resp, s') := handler (cookie_of §"aa") (PutUpstreams {|
    p_upstreams := without_secrets <$> profiles r; p_default := UpstreamRegistry.default r;
    p_clients := by_ip r; p_failover := failover r |}) (moment example_time) session_panel in
  status resp = OK ∧ upstream_registry s' = r.
Proof.
  apply (shown_upstreams_roundtrip session_panel (cookie_of §"aa") (moment example_time)).
  - by vm_compute.
  - exact (ag_registry _ _ session_agrees).
  - intros k p Hk. change (by_ip (upstream_registry session_panel)) with (client_upstreams the_config) in Hk.
    apply elem_of_map_to_list in Hk. revert k p Hk.
    assert (Forall (λ e, normalize_client_ip e.1 = Some e.1) (map_to_list (client_upstreams the_config))) as Hf.
    { apply (bool_decide_eq_true_1 _). by vm_compute. }
    rewrite list.Forall_forall in Hf. intros k p Hk. exact (Hf (k, p) Hk).
Defined.

(** An address that is none, and a rule that has no file to go to. *)
Example refused_witness :
  let m := moment (example_time + HOUR)%Z in
  let refused r := handler (cookie_of §"aa") r m session_panel in
  status (refused (AddWhitelistIp §"10.0.0.300" §"carol")).1 = BAD_REQUEST
  ∧ (refused (AddWhitelistIp §"10.0.0.300" §"carol")).2 = session_panel
  ∧ (refused (ReplaceDomains [])).2 = session_panel.
Proof.
  cbv zeta. set (m := moment _).
  assert (∀ r, status (handler (cookie_of §"aa") r m session_panel).1 = BAD_REQUEST →
    touches_dnsmasq r = false ∨ dnsmasq_paths session_panel = None →
    (handler (cookie_of §"aa") r m session_panel).2 = session_panel) as Hr.
  { intros r Hs Hd. refine (proj2 (refused_changes_nothing session_panel _ _ r m _ (surjective_pairing _) _) Hd). by rewrite Hs. }
  assert (status (handler (cookie_of §"aa") (AddWhitelistIp §"10.0.0.300" §"carol") m session_panel).1 = BAD_REQUEST) as E1.
  { vm_compute. reflexivity. }
  assert (status (handler (cookie_of §"aa") (ReplaceDomains []) m session_panel).1 = BAD_REQUEST) as E2.
  { vm_compute. reflexivity. }
  split_and!; [exact E1 | apply (Hr _ E1); by left | apply (Hr _ E2); right; vm_compute; reflexivity].
Defined.

(** * Requests that overlap *)

(** A request that removes bob, and one that adds alice and has read the list before: both are
    answered with success, and bob is still admitted. *)
Lemma removal_lost :
  let m := moment (example_time + HOUR)%Z in
  let c := cookie_of §"aa" in
  let removal := DeleteWhitelistIp bob in
  let addition := AddWhitelistIp alice §"alice" in
  let after_both := commit_acl c addition m session_panel (commit_acl c removal m session_panel session_panel) in
  status (handler c removal m session_panel).1 = OK ∧ status (handler c addition m session_panel).1 = OK
  ∧ is_allowed (client_acl after_both) bob = true
  ∧ is_allowed (client_acl (handler c removal m (handler c addition m session_panel).2).2) bob = false
  ∧ is_allowed (client_acl (handler c addition m (handler c removal m session_panel).2).2) bob = false.
Proof. cbv zeta. split_and!; vm_compute; reflexivity. Qed.
