(* ===== verification/Stream.v ===== *)
(** Timed input and output on TCP streams, as the relay's asynchronous code uses them.

    The network is the environment: a stream carries the script of what its peer will do,
    and the theorems quantify over scripts.  A read takes what has arrived, or waits; each
    chunk of the script is delivered by one read or split over several, so that every
    segmentation of the peer's bytes is some script.  A computation may never return (a
    peer that stays silent), which [timeout] turns into an error.  Time is in
    milliseconds. *)

From S2P Require Import Prelude.

(** * Streams *)

(** What the peer does: bytes that arrive, the end of its stream, a connection error.  After
    the last event of the script it stays silent. *)
Inductive RxEvent := Data (b : bytes) | Fin | RxErr.
(** What becomes of a write: it completes after a delay, fails, or blocks for ever; in both
    last cases after [sent] bytes of the chunk have gone out, or all but its last byte
    ([write_all] is a loop of writes, and returns once all is written). *)
Inductive WrEvent := WrOk (delay : N) | WrErr (sent : nat) | WrBlock (sent : nat).

Record Stream := {
  rx : list (N * RxEvent);      (** with their times of arrival *)
  wr : list WrEvent;            (** of the writes to come; then writes are immediate *)
  tx : bytes;                   (** what has been written *)
  nodelay_ok : bool;            (** whether [set_nodelay] succeeds *)
}.

Inductive IoErr := ConnReset | UnexpectedEof | WriteFailed | NodelayFailed | DialFailed.

(** What a name leads to, when dialled. *)
Inductive Dial := DialOk (delay : N) (s : Stream) | DialErr (delay : N) | DialBlock.

Inductive Side := Client | Upstream.

Record World := { now : N; client : Stream; upstream : Stream }.

Definition stream (sd : Side) (w : World) : Stream :=
  match sd with Client => client w | Upstream => upstream w end.
Definition set_stream (sd : Side) (s : Stream) (w : World) : World :=
  match sd with
  | Client => {| now := now w; client := s; upstream := upstream w |}
  | Upstream => {| now := now w; client := client w; upstream := s |}
  end.
Definition set_now (t : N) (w : World) : World :=
  {| now := t; client := client w; upstream := upstream w |}.

(** * The monad: [None] is a computation that never returns *)

Definition IO (E A : Type) := World → option (result E A * World).

#[global] Instance io_ret {E} : MRet (IO E) := λ A a w, Some (Ok a, w).
#[global] Instance io_bind {E} : MBind (IO E) := λ A B f m w,
  match m w with
  | Some (Ok a, w) => f a w
  | Some (Err e, w) => Some (Err e, w)
  | None => None
  end.

Definition throw {E A} (e : E) : IO E A := λ w, Some (Err e, w).
Definition lift {E A} (r : result E A) : IO E A := λ w, Some (r, w).
(** [.map_err(f)], [.context(..)] *)
Definition map_err {E E' A} (f : E → E') (m : IO E A) : IO E' A := λ w,
  match m w with
  | Some (Ok a, w) => Some (Ok a, w)
  | Some (Err e, w) => Some (Err (f e), w)
  | None => None
  end.
(** The outcome as a value. *)
Definition attempt {E E' A} (m : IO E A) : IO E' (result E A) := λ w,
  match m w with Some (r, w) => Some (Ok r, w) | None => None end.

Definition get_now {E} : IO E N := λ w, Some (Ok (now w), w).
Definition sleep {E} (d : N) : IO E unit := λ w, Some (Ok tt, set_now (now w + d) w).

(** [timeout(d, m).await.context(e)?]: the result of [m] if it comes within [d], otherwise
    the error [e] at the deadline.  The streams of a computation that has been cut short are
    not used again by the relay, and are left as they were. *)
Definition timeout {E A} (d : N) (e : E) (m : IO E A) : IO E A := λ w,
  match m w with
  | Some (r, w') => if (now w' <=? now w + d)%N then Some (r, w')
                    else Some (Err e, set_now (now w + d) w)
  | None => Some (Err e, set_now (now w + d) w)
  end.

(** * Operations on a stream *)

(** One read of at most [n] bytes: the empty sequence is the end of the stream. *)
Fixpoint read_rx (n : nat) (now : N) (l : list (N * RxEvent))
    : option (result IoErr bytes * N * list (N * RxEvent)) :=
  match l with
  | [] => None
  | (t, Data b) :: r =>
      if decide (b = []) then read_rx n now r
      else Some (Ok (take n b), N.max now t,
                 if length b <=? n then r else (t, Data (drop n b)) :: r)
  | (t, Fin) :: r => Some (Ok [], N.max now t, (t, Fin) :: r)
  | (t, RxErr) :: r => Some (Err ConnReset, N.max now t, (t, RxErr) :: r)
  end.

(** Reads until [n] bytes have come. *)
Fixpoint read_exact_rx (n : nat) (acc : bytes) (now : N) (l : list (N * RxEvent))
    : option (result IoErr bytes * N * list (N * RxEvent)) :=
  if n =? 0 then Some (Ok acc, now, l) else
  match l with
  | [] => None
  | (t, Data b) :: r =>
      if length b <=? n then read_exact_rx (n - length b) (acc ++ b)
                               (if decide (b = []) then now else N.max now t) r
      else Some (Ok (acc ++ take n b), N.max now t, (t, Data (drop n b)) :: r)
  | (t, Fin) :: r => Some (Err UnexpectedEof, N.max now t, (t, Fin) :: r)
  | (t, RxErr) :: r => Some (Err ConnReset, N.max now t, (t, RxErr) :: r)
  end.

Definition with_rx (l : list (N * RxEvent)) (s : Stream) : Stream :=
  {| rx := l; wr := wr s; tx := tx s; nodelay_ok := nodelay_ok s |}.

Definition on_rx {A} (sd : Side)
    (f : N → list (N * RxEvent) → option (result IoErr A * N * list (N * RxEvent))) : IO IoErr A :=
  λ w,
    match f (now w) (rx (stream sd w)) with
    | Some (r, t, l) => Some (r, set_now t (set_stream sd (with_rx l (stream sd w)) w))
    | None => None
    end.
Definition read (sd : Side) (n : nat) : IO IoErr bytes := on_rx sd (read_rx n).
Definition read_exact (sd : Side) (n : nat) : IO IoErr bytes := on_rx sd (read_exact_rx n []).

(** [peek]: what the next read would return, left in place. *)
Definition peek (sd : Side) (n : nat) : IO IoErr bytes :=
  on_rx sd (λ t l, match read_rx n t l with Some (r, t, _) => Some (r, t, l) | None => None end).

Definition part_of (n : nat) (b : bytes) : bytes := take (n `min` pred (length b)) b.

(** [write_all]: the outcome, [None] when it never returns, and the world that it leaves
    behind: the peer also gets what was written before an error, or before the write
    blocked. *)
Definition write_effect (sd : Side) (b : bytes) (w : World) : option (result IoErr unit) * World :=
  let s := stream sd w in
  let wrote c q := {| rx := rx s; wr := q; tx := tx s ++ c; nodelay_ok := nodelay_ok s |} in
  match wr s with
  | [] => (Some (Ok tt), set_stream sd (wrote b []) w)
  | WrOk d :: q => (Some (Ok tt), set_now (now w + d) (set_stream sd (wrote b q) w))
  | WrErr n :: q => (Some (Err WriteFailed), set_stream sd (wrote (part_of n b) q) w)
  | WrBlock n :: q => (None, set_stream sd (wrote (part_of n b) (WrBlock 0 :: q)) w)
  end.
Definition write_all (sd : Side) (b : bytes) : IO IoErr unit := λ w,
  match write_effect sd b w with (Some r, w) => Some (r, w) | (None, _) => None end.

Definition set_nodelay (sd : Side) : IO IoErr unit := λ w,
  if nodelay_ok (stream sd w) then Some (Ok tt, w) else Some (Err NodelayFailed, w).

(** [TcpStream::connect(name)]: the new stream becomes the upstream one. *)
Definition dial (net : N → bytes → Dial) (name : bytes) : IO IoErr unit := λ w,
  match net (now w) name with
  | DialOk d s => Some (Ok tt, set_now (now w + d) (set_stream Upstream s w))
  | DialErr d => Some (Err DialFailed, set_now (now w + d) w)
  | DialBlock => None
  end.

(** * What the peer sends *)

(** The bytes of a script, and the part of it after some bytes have been read. *)
Fixpoint incoming (l : list (N * RxEvent)) : bytes :=
  match l with
  | (_, Data b) :: r => b ++ incoming r
  | _ => []
  end.

Definition arrives (sd : Side) (w : World) : bytes := incoming (rx (stream sd w)).

Lemma read_exact_rx_ok n acc t l :
  n ≤ length (incoming l) →
  ∃ t' l', read_exact_rx n acc t l = Some (Ok (acc ++ take n (incoming l)), t', l')
  ∧ incoming l' = drop n (incoming l) ∧ (t ≤ t')%N.
Proof.
  revert n acc t. induction l as [|[t0 [b| |]] l IH]; intros n acc t Hn; cbn [read_exact_rx];
    (destruct (Nat.eqb_spec n 0) as [->|Hn0];
      [exists t; eexists; rewrite take_0, app_nil_r, drop_0; by split_and!|]);
    cbn [incoming length] in *; try lia.
  rewrite length_app in Hn. destruct (Nat.leb_spec (length b) n).
  - destruct (IH (n - length b) (acc ++ b) (if decide (b = []) then t else N.max t t0))
      as (t' & l' & -> & Hl & Ht); [lia|].
    exists t', l'. rewrite take_app, drop_app, (take_ge b), (drop_ge b) by lia.
    rewrite <- app_assoc. cbn [app]. split_and!; [done | done |]. case_decide; lia.
  - exists (N.max t t0). eexists. split; [|split; [|lia]].
    + rewrite take_app_le by lia. done.
    + cbn [incoming]. by rewrite drop_app_le by lia.
Qed.

(** A success of [read_exact] says what had arrived. *)
Lemma read_exact_rx_inv n acc t l b t' l' :
  read_exact_rx n acc t l = Some (Ok b, t', l') →
  ∃ c, b = acc ++ c ∧ length c = n ∧ incoming l = c ++ incoming l' ∧ (t ≤ t')%N.
Proof.
  revert n acc t. induction l as [|[t0 [d| |]] l IH]; intros n acc t; cbn [read_exact_rx];
    (destruct (Nat.eqb_spec n 0) as [->|Hn0];
      [intros [= <- <- <-]; exists []; rewrite app_nil_r; by split_and!|]); try done.
  destruct (Nat.leb_spec (length d) n).
  - intros (c & -> & Hl & Hc & Ht)%IH. exists (d ++ c).
    rewrite <- app_assoc, length_app. cbn [incoming]. rewrite Hc, app_assoc.
    split_and!; [done | lia | by rewrite <- app_assoc |]. revert Ht. case_decide; lia.
  - intros [= <- <- <-]. exists (take n d). cbn [incoming].
    rewrite length_take, app_assoc, take_drop. split_and!; [done | lia | done | lia].
Qed.

(** A read returns some of the bytes to come, at least one. *)
Lemma read_rx_ok n t l :
  0 < n → incoming l ≠ [] →
  ∃ b t' l', read_rx n t l = Some (Ok b, t', l')
  ∧ b ≠ [] ∧ length b ≤ n ∧ incoming l = b ++ incoming l' ∧ (t ≤ t')%N.
Proof.
  intros Hn. induction l as [|[t0 [b| |]] l IH]; intros Hl; [done| |done..].
  cbn [read_rx incoming] in *. case_decide as Hb; [subst b; by apply IH|].
  exists (take n b), (N.max t t0). eexists. split; [done|]. split_and!.
  - destruct b; [done|]. by destruct n; [lia|].
  - rewrite length_take. lia.
  - destruct (Nat.leb_spec (length b) n); [by rewrite take_ge by lia|].
    cbn [incoming]. by rewrite app_assoc, take_drop.
  - lia.
Qed.

Lemma read_rx_inv n t l r t' l' :
  read_rx n t l = Some (r, t', l') →
  (t ≤ t')%N ∧ match r with
               | Ok b => length b ≤ n ∧ incoming l = b ++ incoming l'
               | Err _ => incoming l' = incoming l
               end.
Proof.
  induction l as [|[t0 [d| |]] l IH]; cbn [read_rx incoming]; [done| | |].
  - case_decide as Hd; [subst d; exact IH|]. intros [= <- <- <-]. split; [lia|].
    split; [rewrite length_take; lia|].
    destruct (Nat.leb_spec (length d) n); [by rewrite take_ge by lia|].
    cbn [incoming]. by rewrite app_assoc, take_drop.
  - intros [= <- <- <-]. split; [lia|]. split; [cbn; lia | done].
  - intros [= <- <- <-]. by split; [lia|].
Qed.

(** The peer eventually ends its stream, or resets the connection. *)
Definition ends (l : list (N * RxEvent)) : Prop :=
  Exists (λ e, match e.2 with Data _ => False | _ => True end) l.

Lemma read_rx_ends n t l : ends l → ∃ r t' l', read_rx n t l = Some (r, t', l') ∧ ends l'.
Proof.
  induction l as [|[t0 [d| |]] l IH]; cbn [read_rx].
  - by intros ?%Exists_nil.
  - intros [[]|Hl]%Exists_cons. case_decide; [by apply IH|]. eexists _, _, _. split; [done|].
    case_match; [done|]. by right.
  - intros Hl. by eexists _, _, _.
  - intros Hl. by eexists _, _, _.
Qed.

(** Whether a read returns, and what it leaves. *)
Lemma read_rx_returns n t l :
  0 < n →
  match read_rx n t l with
  | None => ¬ ends l ∧ incoming l = []
  | Some (Ok b, _, l') => (b = [] → ends l) ∧ (ends l' ↔ ends l)
  | Some (Err _, _, _) => ends l
  end.
Proof.
  intros Hn. induction l as [|[t0 [d| |]] l IH]; cbn [read_rx incoming].
  - by split; [intros ?%Exists_nil|].
  - unfold ends in *. case_decide as Hd.
    + subst d. cbn [app]. destruct (read_rx n t l) as [[[[b|e] t'] l']|]; rewrite Exists_cons; naive_solver.
    + split; [intros Ht; destruct d, n; [done | done | lia | done]|].
      destruct (length d <=? n); rewrite ?Exists_cons; cbn; naive_solver.
  - split; [by left | done].
  - by left.
Qed.

(** What arrives in time is read in time. *)
Lemma read_exact_rx_time n acc t l b t' l' deadline :
  Forall (λ e, (e.1 ≤ deadline)%N) l → (t ≤ deadline)%N →
  read_exact_rx n acc t l = Some (Ok b, t', l') →
  (t' ≤ deadline)%N ∧ Forall (λ e, (e.1 ≤ deadline)%N) l'.
Proof.
  intros Hl. revert n acc t. induction Hl as [|[t0 ev] l Ht0 Hl IH]; intros n acc t Ht; cbn [read_exact_rx];
    (destruct (Nat.eqb_spec n 0); [intros [= <- <- <-]; by split; [|repeat constructor]|]); [done|].
  cbn in Ht0. destruct ev as [d| |]; [|done..]. destruct (Nat.leb_spec (length d) n).
  - apply IH. case_decide; lia.
  - intros [= <- <- <-]. split; [lia|]. by constructor.
Qed.

(** ** Runs *)

(** [m] returns [a], in a world that satisfies [P]. *)
Definition runs {E A} (m : IO E A) (w : World) (a : A) (P : World → Prop) : Prop :=
  ∃ w', m w = Some (Ok a, w') ∧ P w'.

Lemma runs_bind {E A B} (m : IO E A) (k : A → IO E B) w a b (P Q : World → Prop) :
  runs m w a P → (∀ w', P w' → runs (k a) w' b Q) → runs (m ≫= k) w b Q.
Proof.
  intros (w' & Hm & HP) Hk. destruct (Hk w' HP) as (w'' & Hk' & HQ).
  exists w''. split; [|done]. unfold mbind, io_bind. by rewrite Hm.
Qed.

Lemma bind_ok_inv {E A B} (m : IO E A) (k : A → IO E B) w b w'' :
  (m ≫= k) w = Some (Ok b, w'') → ∃ a w', m w = Some (Ok a, w') ∧ k a w' = Some (Ok b, w'').
Proof.
  unfold mbind, io_bind. destruct (m w) as [[[a|e] w']|]; [|done..]. eauto.
Qed.

Lemma map_err_ok_inv {E E' A} (f : E → E') (m : IO E A) w a w' :
  map_err f m w = Some (Ok a, w') → m w = Some (Ok a, w').
Proof. unfold map_err. destruct (m w) as [[[?|?] ?]|]; [|done..]. by intros [= -> ->]. Qed.

Lemma timeout_ok_inv {E A} d (e : E) (m : IO E A) w a w' :
  timeout d e m w = Some (Ok a, w') → m w = Some (Ok a, w') ∧ (now w' ≤ now w + d)%N.
Proof.
  unfold timeout. destruct (m w) as [[r w1]|]; [|done].
  destruct (N.leb_spec (now w1) (now w + d)); [|done]. by intros [= -> ->].
Qed.

(** [timeout] always returns, by its deadline. *)
Lemma timeout_returns {E A} d (e : E) (m : IO E A) w :
  ∃ r w', timeout d e m w = Some (r, w') ∧ (now w' ≤ now w + d)%N.
Proof.
  unfold timeout. destruct (m w) as [[r w1]|].
  - destruct (N.leb_spec (now w1) (now w + d)); [by eauto|]. eexists _, _. split; [done|]. cbn. lia.
  - eexists _, _. split; [done|]. cbn. lia.
Qed.

(** ** Time only advances *)

Definition advances {E A} (m : IO E A) : Prop :=
  ∀ w r w', m w = Some (r, w') → (now w ≤ now w')%N.

Lemma advances_ret {E A} (r : result E A) : advances (lift r).
Proof. by intros w r' w' [= _ <-]. Qed.
Lemma advances_mret {E A} (a : A) : advances (mret a : IO E A).
Proof. by intros w r' w' [= _ <-]. Qed.
Lemma advances_throw {E A} (e : E) : advances (throw e : IO E A).
Proof. by intros w r' w' [= _ <-]. Qed.

Lemma advances_bind {E A B} (m : IO E A) (k : A → IO E B) :
  advances m → (∀ a, advances (k a)) → advances (m ≫= k).
Proof.
  intros Hm Hk w r w'. unfold mbind, io_bind. destruct (m w) as [[[a|e] w1]|] eqn:E1; [| |done].
  - intros H2. apply Hm in E1. apply Hk in H2. lia.
  - intros [= <- <-]. by apply Hm in E1.
Qed.

Lemma advances_map_err {E E' A} (f : E → E') (m : IO E A) : advances m → advances (map_err f m).
Proof.
  intros Hm w r w'. unfold map_err. destruct (m w) as [[[a|e] w1]|] eqn:E1; [| |done];
    intros [= <- <-]; by apply Hm in E1.
Qed.

Lemma advances_timeout {E A} d (e : E) (m : IO E A) : advances m → advances (timeout d e m).
Proof.
  intros Hm w r w'. unfold timeout. destruct (m w) as [[r1 w1]|] eqn:E1.
  - case_match; intros [= <- <-]; [by apply Hm in E1 | cbn; lia].
  - intros [= <- <-]. cbn. lia.
Qed.

Lemma advances_dial net name : advances (dial net name).
Proof. intros w r w'. unfold dial. case_match; [| |done]; intros [= <- <-]; cbn; lia. Qed.

Lemma advances_write_all b : advances (write_all Upstream b).
Proof.
  intros w r w'. unfold write_all, write_effect. destruct (wr _) as [|[d|n|n] q]; [..|done];
    intros [= <- <-]; cbn; lia.
Qed.

Lemma read_exact_rx_advances n acc t l r t' l' :
  read_exact_rx n acc t l = Some (r, t', l') → (t ≤ t')%N.
Proof.
  revert n acc t. induction l as [|[t0 [d| |]] l IH]; intros n acc t; cbn [read_exact_rx];
    (destruct (n =? 0); [by intros [= _ <- _]|]); [done| |intros [= _ <- _]; lia..].
  destruct (Nat.leb_spec (length d) n).
  - intros H1%IH. revert H1. case_decide; lia.
  - intros [= _ <- _]. lia.
Qed.

Lemma advances_read_exact n : advances (read_exact Upstream n).
Proof.
  intros w r w'. unfold read_exact, on_rx.
  destruct (read_exact_rx _ _ _ _) as [[[r1 t] l]|] eqn:E1; [|done].
  intros [= <- <-]. by apply read_exact_rx_advances in E1.
Qed.

Lemma read_rx_advances n t l r t' l' : read_rx n t l = Some (r, t', l') → (t ≤ t')%N.
Proof.
  induction l as [|[t0 [d| |]] l IH]; cbn [read_rx]; [done| |intros [= _ <- _]; lia..].
  case_decide; [exact IH|]. intros [= _ <- _]. lia.
Qed.

Lemma advances_read n : advances (read Upstream n).
Proof.
  intros w r w'. unfold read, on_rx. destruct (read_rx _ _ _) as [[[r1 t] l]|] eqn:E1; [|done].
  intros [= <- <-]. by apply read_rx_advances in E1.
Qed.

Lemma advances_attempt {E E' A} (m : IO E A) : advances m → advances (attempt (E' := E') m).
Proof.
  intros Hm w r w'. unfold attempt. destruct (m w) as [[r1 w1]|] eqn:E1; [|done].
  intros [= <- <-]. by apply Hm in E1.
Qed.

Lemma advances_get_now {E} : advances (get_now (E := E)).
Proof. by intros w r w' [= _ <-]. Qed.
Lemma advances_sleep {E} d : advances (sleep (E := E) d).
Proof. intros w r w' [= _ <-]. cbn. lia. Qed.
Lemma advances_set_nodelay sd : advances (set_nodelay sd).
Proof. intros w r w'. unfold set_nodelay. by case_match; intros [= _ <-]. Qed.

#[export] Hint Resolve advances_ret advances_mret advances_throw advances_bind advances_map_err
  advances_timeout advances_dial advances_write_all advances_read_exact
  advances_read advances_attempt advances_get_now advances_sleep advances_set_nodelay : snirelay.

(** The parts of a computation one after the other. *)
Ltac advances_tac :=
  repeat first
    [ solve [auto with snirelay]
    | apply advances_bind; [|intros ?]
    | progress cbv zeta
    | case_match ].
