(* ===== verification/ProxyConnector.v ===== *)
(** src/proxy_connector.rs: reaching a target through an upstream proxy (SOCKS5, HTTP
    CONNECT or directly), and the probes of the proxies. *)

From S2P Require Import Prelude RustStr Collections Net Hosts Config Stream.

(** One constructor per failure site. *)
Inductive ConnError :=
| Io (e : IoErr)                          (** a bare [?] *)
| ConnectTimeout | ConnectFailed (e : IoErr)
| GreetingResponse (e : IoErr) | UnexpectedVersion (v : Byte.byte)
| NoAcceptableMethod | UnsupportedMethod (m : Byte.byte)
| AuthResponse (e : IoErr) | AuthFailed (status : Byte.byte)
| HostnameTooLong
| ReplyHeader (e : IoErr) | ReplyVersion | ConnectRefused (status : Byte.byte)
| UnknownAddressType (atyp : Byte.byte)
| ProxyClosed | HttpConnectFailed (first_line : bytes) | ResponseTooLarge
| ProbeTimeout | ProbeClosed (e : IoErr) | ProbeVersion (v : Byte.byte) | ProbeRejected
| NoProbeTargets | CheckTimeout
| WriteTimeout | WriteHello (e : IoErr) | HeaderTimeout | TunnelClosed (e : IoErr)
| ContentType (b : Byte.byte) | RecordLength (n : N) | BodyTimeout | TunnelClosedMid (e : IoErr)
| HttpReplyTimeout | HttpReplyClosed (e : IoErr) | EmptyHttpReply
| StillUnreachable
| OutOfFuel.

Abbreviation CIO := (IO ConnError).

(** * SOCKS5 requests *)

Definition be_bytes16 (n : N) : bytes := [as_u8 (n / 256); as_u8 n].
Definition ip_octets (i : IpAddr) : bytes :=
  match i with
  | V4 a b c d => as_u8 <$> [a; b; c; d]
  | V6 g => mjoin (be_bytes16 <$> g)
  end.

Definition build_socks5_connect_request (target_host : bytes) (target_port : N)
    : result ConnError bytes :=
  let port_bytes := [as_u8 (N.shiftr target_port 8); as_u8 target_port] in
  match parse_ip target_host with
  | Some ip =>
      let atyp := match ip with V4 _ _ _ _ => x01 | V6 _ => x04 end in
      Ok ([x05; x01; x00] ++ [atyp] ++ ip_octets ip ++ port_bytes)
  | None =>
      if 255 <? length target_host then Err HostnameTooLong
      else Ok ([x05; x01; x00; x03; as_u8 (N.of_nat (length target_host))]
               ++ target_host ++ port_bytes)
  end.

(** RFC 1929: lengths are cast to a byte. *)
Definition auth_request (user pass : bytes) : bytes :=
  x01 :: as_u8 (N.of_nat (length user)) :: user ++ as_u8 (N.of_nat (length pass)) :: pass.

Definition socks5_reply_text (code : Byte.byte) : bytes :=
  match code with
  | x01 => §"general SOCKS server failure"
  | x02 => §"connection not allowed by ruleset"
  | x03 => §"Network unreachable"
  | x04 => §"Host unreachable"
  | x05 => §"Connection refused"
  | x06 => §"TTL expired"
  | x07 => §"Command not supported"
  | x08 => §"Address type not supported"
  | _ => §"unknown error"
  end.

(** * Connecting *)

Section connector.
Context (net : N → bytes → Dial).

Definition nth_byte (b : bytes) (i : nat) : Byte.byte := unwrap_or (b !! i) x00.

(** [format!("{host}:{port}")] *)
Definition host_colon_port (host : bytes) (port : N) : bytes := host ++ x3a :: show port.

Definition dial_timeout (d : N) (host : bytes) (port : N) : CIO unit :=
  timeout d ConnectTimeout (map_err ConnectFailed (dial net (host_colon_port host port))).

Definition skip_socks5_addr (atyp : Byte.byte) : CIO unit :=
  match atyp with
  | x01 => _ ← map_err Io (read_exact Upstream 6); mret tt
  | x03 =>
      len ← map_err Io (read_exact Upstream 1);
      _ ← map_err Io (read_exact Upstream (N.to_nat (bn (nth_byte len 0)) + 2)); mret tt
  | x04 => _ ← map_err Io (read_exact Upstream 18); mret tt
  | _ => throw (UnknownAddressType atyp)
  end.

(** The handshake on the connected stream. *)
Definition socks5_auth (username password : option bytes) (meth : Byte.byte) : CIO unit :=
  match meth with
  | x00 => mret tt
  | x02 =>
      _ ← map_err Io (write_all Upstream
            (auth_request (unwrap_or username []) (unwrap_or password [])));
      auth_resp ← map_err AuthResponse (read_exact Upstream 2);
      if negb (bn (nth_byte auth_resp 1) =? 0)%N then throw (AuthFailed (nth_byte auth_resp 1))
      else mret tt
  | xff => throw NoAcceptableMethod
  | m => throw (UnsupportedMethod m)
  end.

Definition socks5_handshake (target_host : bytes) (target_port : N)
    (username password : option bytes) : CIO unit :=
  let auth_method := match username with Some _ => x02 | None => x00 end in
  _ ← map_err Io (write_all Upstream [x05; x01; auth_method]);
  resp ← map_err GreetingResponse (read_exact Upstream 2);
  if negb (bn (nth_byte resp 0) =? 5)%N then throw (UnexpectedVersion (nth_byte resp 0)) else
  _ ← socks5_auth username password (nth_byte resp 1);
  req ← lift (build_socks5_connect_request target_host target_port);
  _ ← map_err Io (write_all Upstream req);
  hdr ← map_err ReplyHeader (read_exact Upstream 4);
  if negb (bn (nth_byte hdr 0) =? 5)%N then throw ReplyVersion else
  if negb (bn (nth_byte hdr 1) =? 0)%N then throw (ConnectRefused (nth_byte hdr 1)) else
  skip_socks5_addr (nth_byte hdr 3).

Definition socks5_connect (proxy_host : bytes) (proxy_port : N) (target_host : bytes)
    (target_port : N) (username password : option bytes) (connect_timeout : N) : CIO unit :=
  _ ← dial_timeout connect_timeout proxy_host proxy_port;
  _ ← map_err Io (set_nodelay Upstream);
  socks5_handshake target_host target_port username password.

(** ** HTTP CONNECT *)

Definition CRLF : bytes := [CR; LF].

Definition connect_request (target_host : bytes) (target_port : N) (auth : option bytes) : bytes :=
  let authority := host_colon_port target_host target_port in
  §"CONNECT " ++ authority ++ §" HTTP/1.1" ++ CRLF ++ §"Host: " ++ authority ++ CRLF
  ++ match auth with
     | Some a => §"Proxy-Authorization: Basic " ++ a ++ CRLF
     | None => []
     end
  ++ §"Proxy-Connection: keep-alive" ++ CRLF ++ CRLF.

Definition find_crlfcrlf (buf : bytes) : option nat := find_sub (CRLF ++ CRLF) buf.

Definition RESPONSE_BUF : nat := 4096.

(** The first line of the response headers. *)
Definition first_line (headers : bytes) : bytes :=
  let headers := unwrap_or (from_utf8 headers) §"<invalid utf8>" in
  unwrap_or (head (lines headers)) [].

(** The read loop: [buf] is what has been read so far. *)
Fixpoint read_response (fuel : nat) (buf : bytes) : CIO unit :=
  match fuel with
  | 0 => throw OutOfFuel
  | S fuel =>
      b ← map_err Io (read Upstream (RESPONSE_BUF - length buf));
      if decide (b = []) then throw ProxyClosed else
      let buf := buf ++ b in
      match find_crlfcrlf buf with
      | Some idx =>
          let line := first_line (take idx buf) in
          if negb (contains_sub §"200" line) then throw (HttpConnectFailed line) else mret tt
      | None =>
          if RESPONSE_BUF <=? length buf then throw ResponseTooLarge else read_response fuel buf
      end
  end.

Definition http_connect (proxy_host : bytes) (proxy_port : N) (target_host : bytes)
    (target_port : N) (auth : option bytes) (connect_timeout : N) : CIO unit :=
  _ ← dial_timeout connect_timeout proxy_host proxy_port;
  _ ← map_err Io (set_nodelay Upstream);
  _ ← map_err Io (write_all Upstream (connect_request target_host target_port auth));
  read_response (S RESPONSE_BUF) [].

(** ** All proxies *)

Definition connect (proxy : UpstreamProxy) (target_host : bytes) (target_port connect_timeout : N)
    : CIO unit :=
  match proxy with
  | Direct =>
      _ ← dial_timeout connect_timeout target_host target_port;
      map_err Io (set_nodelay Upstream)
  | Socks5 host port username password =>
      socks5_connect host port target_host target_port username password connect_timeout
  | Http host port auth => http_connect host port target_host target_port auth connect_timeout
  end.

(** * Probes *)

Definition probe_upstream_inner (proxy : UpstreamProxy) (connect_timeout : N) : CIO unit :=
  match proxy with
  | Direct => mret tt
  | Socks5 host port username _ =>
      _ ← dial_timeout connect_timeout host port;
      let auth_method := match username with Some _ => x02 | None => x00 end in
      _ ← map_err Io (write_all Upstream [x05; x01; auth_method]);
      resp ← map_err ProbeClosed (read_exact Upstream 2);
      if negb (bn (nth_byte resp 0) =? 5)%N then throw (ProbeVersion (nth_byte resp 0)) else
      if (bn (nth_byte resp 1) =? 255)%N then throw ProbeRejected else mret tt
  | Http host port _ => dial_timeout connect_timeout host port
  end.

Definition probe_upstream (proxy : UpstreamProxy) (connect_timeout : N) : CIO unit :=
  timeout connect_timeout ProbeTimeout (probe_upstream_inner proxy connect_timeout).

(** [TLS 1.2] ClientHello with a server name. *)
Definition build_minimal_tls_client_hello (sni_host : bytes) : bytes :=
  let u16 (n : nat) := be_bytes16 (wrap 16 (N.of_nat n)) in
  let len := length sni_host in
  let extensions := [x00; x00] ++ u16 (5 + len) ++ u16 (3 + len) ++ [x00] ++ u16 len ++ sni_host in
  let ciphers := [x13; x01; xc0; x2f; x00; x2f] in
  let body := [x03; x03] ++ replicate 32 x00 ++ [x00] ++ u16 (length ciphers) ++ ciphers
              ++ [x01; x00] ++ u16 (length extensions) ++ extensions in
  let hs_len := wrap 32 (N.of_nat (length body)) in
  let handshake := [x01; as_u8 (N.land (N.shiftr hs_len 16) 255);
                    as_u8 (N.land (N.shiftr hs_len 8) 255); as_u8 (N.land hs_len 255)] ++ body in
  [x16; x03; x01] ++ u16 (length handshake) ++ handshake.

Definition probe_request (probe_host : bytes) : bytes :=
  §"HEAD / HTTP/1.0" ++ CRLF ++ §"Host: " ++ probe_host ++ CRLF ++ §"Connection: close"
  ++ CRLF ++ CRLF.

Definition verify_tunnel_alive (probe_host : bytes) (probe_port budget : N) : CIO unit :=
  start ← get_now;
  let deadline := (start + budget)%N in
  let with_deadline {A} (e : ConnError) (m : CIO A) : CIO A :=
    t ← get_now; timeout (deadline - t)%N e m in
  if ((probe_port =? 443) || (probe_port =? 8443) || (probe_port =? 2053))%N then
    _ ← with_deadline WriteTimeout
          (map_err WriteHello (write_all Upstream (build_minimal_tls_client_hello probe_host)));
    hdr ← with_deadline HeaderTimeout (map_err TunnelClosed (read_exact Upstream 5));
    if negb (bn (nth_byte hdr 0) =? 22)%N && negb (bn (nth_byte hdr 0) =? 21)%N
    then throw (ContentType (nth_byte hdr 0)) else
    let rec_len := (bn (nth_byte hdr 3) * 256 + bn (nth_byte hdr 4))%N in
    if ((rec_len =? 0) || (16384 <? rec_len))%N then throw (RecordLength rec_len) else
    _ ← with_deadline BodyTimeout (map_err TunnelClosedMid (read_exact Upstream (N.to_nat rec_len)));
    mret tt
  else
    _ ← with_deadline WriteTimeout
          (map_err WriteHello (write_all Upstream (probe_request probe_host)));
    b ← with_deadline HttpReplyTimeout (map_err HttpReplyClosed (read Upstream 16));
    if decide (b = []) then throw EmptyHttpReply else mret tt.

Definition check_upstream_one (proxy : UpstreamProxy) (connect_timeout : N) (probe_host : bytes)
    (probe_port : N) : CIO unit :=
  started ← get_now;
  _ ← connect proxy probe_host probe_port connect_timeout;
  t ← get_now;
  let remaining := (connect_timeout - (t - started))%N in
  if (remaining =? 0)%N then throw CheckTimeout
  else verify_tunnel_alive probe_host probe_port remaining.

Fixpoint check_all (proxy : UpstreamProxy) (connect_timeout : N) (probes : list (bytes * N)) : CIO unit :=
  match probes with
  | [] => mret tt
  | (host, port) :: probes =>
      _ ← check_upstream_one proxy connect_timeout host port;
      check_all proxy connect_timeout probes
  end.
Definition check_upstream (proxy : UpstreamProxy) (connect_timeout : N) (probes : list (bytes * N))
    : CIO unit :=
  if decide (probes = []) then throw NoProbeTargets else check_all proxy connect_timeout probes.

(** The loop of [ensure_upstream_ready]: whether an attempt succeeded. *)
Fixpoint probe_until (fuel : nat) (proxy : UpstreamProxy) (connect_timeout deadline interval : N)
    : CIO bool :=
  match fuel with
  | 0 => throw OutOfFuel
  | S fuel =>
      r ← attempt (probe_upstream proxy connect_timeout);
      match r with
      | Ok _ => mret true
      | Err _ =>
          t ← get_now;
          let remaining := (deadline - t)%N in
          if (remaining =? 0)%N then mret false else
          _ ← sleep (N.min interval remaining);
          probe_until fuel proxy connect_timeout deadline interval
      end
  end.

Definition ensure_upstream_ready (fuel : nat) (proxy : UpstreamProxy)
    (connect_timeout wait interval : N) (required : bool) : CIO bool :=
  match proxy with
  | Direct => _ ← probe_upstream proxy connect_timeout; mret true
  | _ =>
      start ← get_now;
      ok ← probe_until fuel proxy connect_timeout (start + wait)%N interval;
      if ok : bool then mret true
      else if required then throw StillUnreachable else mret false
  end.

End connector.

(** * The SOCKS5 request on the wire *)

(** A reference decoder of a CONNECT request (RFC 1928, section 4). *)
Inductive SocksAddr := SocksIp (ip : IpAddr) | SocksDomain (d : bytes).

Definition be_value (b : bytes) : N := foldl (λ acc x, (acc * 256 + bn x)%N) 0%N b.
Fixpoint be_groups (b : bytes) : list N :=
  match b with
  | h :: l :: r => (bn h * 256 + bn l)%N :: be_groups r
  | _ => []
  end.

Definition decode_request (req : bytes) : option (SocksAddr * N) :=
  match req with
  | x05 :: x01 :: x00 :: x01 :: a :: b :: c :: d :: [p; q] =>
      Some (SocksIp (V4 (bn a) (bn b) (bn c) (bn d)), be_value [p; q])
  | x05 :: x01 :: x00 :: x04 :: r =>
      if length r =? 18 then Some (SocksIp (V6 (be_groups (take 16 r))), be_value (drop 16 r))
      else None
  | x05 :: x01 :: x00 :: x03 :: n :: r =>
      let n := N.to_nat (bn n) in
      if length r =? n + 2 then Some (SocksDomain (take n r), be_value (drop n r)) else None
  | _ => None
  end.

Lemma be_bytes16_value n : (n < 65536)%N → be_value (be_bytes16 n) = n.
Proof.
  intros Hn. unfold be_bytes16, be_value. cbn [foldl]. rewrite !bn_as_u8.
  rewrite (N.mod_small (n / 256)) by (apply N.Div0.div_lt_upper_bound; lia).
  pose proof (N.div_mod n 256 ltac:(lia)). lia.
Qed.

Lemma port_bytes_value p :
  (p < 65536)%N → be_value [as_u8 (N.shiftr p 8); as_u8 p] = p.
Proof.
  intros Hp. rewrite N.shiftr_div_pow2. change (2 ^ 8)%N with 256%N. by apply be_bytes16_value.
Qed.

Lemma be_groups_bytes g :
  Forall (λ x, (x < 65536)%N) g → be_groups (mjoin (be_bytes16 <$> g)) = g.
Proof.
  induction 1 as [|x g Hx _ IH]; [done|]. cbn.
  f_equal; [|exact IH]. rewrite !bn_as_u8.
  rewrite (N.mod_small (x / 256)) by (apply N.Div0.div_lt_upper_bound; lia).
  pose proof (N.div_mod x 256 ltac:(lia)). lia.
Qed.

Lemma ip_octets_v6_length g : length g = 8 → length (ip_octets (V6 g)) = 16.
Proof. intros Hg. do 9 (destruct g as [|? g]; try done). Qed.

(** The SOCKS5 request names the target that was asked for: decoded by the book, it is
    the address of an IP literal, otherwise the host name itself, with the port; it fails
    exactly for a name of more than 255 bytes, which the protocol cannot carry. *)
Theorem socks5_request_roundtrip target port :
  (port < 65536)%N →
  match build_socks5_connect_request target port with
  | Ok req => decode_request req
      = Some (match parse_ip target with Some ip => SocksIp ip | None => SocksDomain target end, port)
  | Err e => e = HostnameTooLong ∧ parse_ip target = None ∧ 255 < length target
  end.
Proof.
  intros Hp. unfold build_socks5_connect_request. cbv zeta.
  pose proof (port_bytes_value port Hp) as Hport.
  set (pb := [as_u8 (N.shiftr port 8); as_u8 port]) in *.
  destruct (parse_ip target) as [[a b c d|g]|] eqn:E.
  - apply parse_ip_wf in E as (Ha & Hb & Hc & Hd). cbn [app ip_octets fmap list_fmap decode_request].
    unfold pb in *. rewrite !bn_as_u8, !N.mod_small by done. cbn [app]. by rewrite Hport.
  - apply parse_ip_wf in E as [Hl Hg]. pose proof (ip_octets_v6_length g Hl) as H16.
    set (oc := ip_octets (V6 g)) in *. cbn [app decode_request].
    rewrite length_app, H16. cbn [length Nat.add Nat.eqb].
    rewrite take_app_length' by done. rewrite drop_app_length' by done. rewrite Hport.
    unfold oc, ip_octets. by rewrite be_groups_bytes.
  - destruct (Nat.ltb_spec 255 (length target)); [done|]. cbn [app decode_request]. cbv zeta.
    assert (N.to_nat (bn (as_u8 (N.of_nat (length target)))) = length target) as Hn.
    { rewrite bn_as_u8, N.mod_small by lia. lia. }
    rewrite Hn, length_app. cbn [length]. rewrite Nat.eqb_refl.
    rewrite take_app_length, drop_app_length. by rewrite Hport.
Qed.

Lemma socks5_request_roundtrip_witness :
  match build_socks5_connect_request §"example.com" 443 with
  | Ok req => decode_request req = Some (SocksDomain §"example.com", 443%N)
  | Err _ => False
  end.
Proof. apply (socks5_request_roundtrip §"example.com" 443). done. Defined.

(** * The SOCKS5 handshake *)

(** The state of the upstream stream: the bytes to come, the bytes sent, and that writes
    complete at once. *)
Definition st (rest out : bytes) (w : World) : Prop :=
  arrives Upstream w = rest ∧ tx (upstream w) = out ∧ wr (upstream w) = [].

Lemma runs_read {E} (f : IoErr → E) n a rest out w :
  length a = n → st (a ++ rest) out w →
  runs (map_err f (read_exact Upstream n)) w a (st rest out).
Proof.
  intros Hn (Ha & Ht & Hw). unfold arrives, stream in Ha.
  destruct (read_exact_rx_ok n [] (now w) (rx (upstream w))) as (t & l & Hr & Hl & _).
  { rewrite Ha, length_app. lia. }
  unfold runs, map_err, read_exact, on_rx, stream. rewrite Hr. eexists. split.
  - cbn [app]. rewrite Ha, take_app_length' by done. done.
  - unfold st, arrives, stream. cbn. rewrite Hl, Ha, drop_app_length' by done. done.
Qed.

Lemma runs_write {E} (f : IoErr → E) b rest out w :
  st rest out w → runs (map_err f (write_all Upstream b)) w tt (st rest (out ++ b)).
Proof.
  intros (Ha & Ht & Hw). unfold runs, map_err, write_all, write_effect, stream. rewrite Hw. eexists.
  split; [done|]. unfold st. cbn. by rewrite Ht.
Qed.

(** What a read or a write that succeeded did. *)
Lemma read_ok_inv {E} (f : IoErr → E) n w a w' :
  map_err f (read_exact Upstream n) w = Some (Ok a, w') →
  length a = n ∧ arrives Upstream w = a ++ arrives Upstream w'
  ∧ tx (upstream w') = tx (upstream w) ∧ (now w ≤ now w')%N.
Proof.
  intros Hm%map_err_ok_inv. revert Hm. unfold read_exact, on_rx, arrives, stream.
  destruct (read_exact_rx n [] (now w) (rx (upstream w))) as [[[[r|e] t] l]|] eqn:Er; [|done..].
  intros [= <- <-]. apply read_exact_rx_inv in Er as (c & -> & Hl & Hc & Ht). cbn. done.
Qed.

Lemma write_ok_inv {E} (f : IoErr → E) b w u w' :
  map_err f (write_all Upstream b) w = Some (Ok u, w') →
  tx (upstream w') = tx (upstream w) ++ b ∧ arrives Upstream w' = arrives Upstream w.
Proof.
  intros Hm%map_err_ok_inv. revert Hm. unfold write_all, write_effect, arrives, stream.
  destruct (wr (upstream w)) as [|[d|n|n] q]; [|  | done | done]; by intros [= _ <-].
Qed.

Definition accepted_method (m : Byte.byte) : Prop := m = x00 ∨ m = x02.

(** The bound address that ends the reply. *)
Definition bound_addr (atyp : Byte.byte) (b : bytes) : Prop :=
  (atyp = x01 ∧ length b = 6) ∨ (atyp = x04 ∧ length b = 18)
  ∨ (atyp = x03 ∧ ∃ n r, b = n :: r ∧ length r = N.to_nat (bn n) + 2).

Lemma runs_skip atyp b rest out w :
  bound_addr atyp b → st (b ++ rest) out w → runs (skip_socks5_addr atyp) w tt (st rest out).
Proof.
  intros [[-> Hl]|[[-> Hl]|(-> & n & r & -> & Hl)]] Hst; cbn [skip_socks5_addr].
  - eapply runs_bind; [by apply runs_read|]. intros w' Hw'. by exists w'.
  - eapply runs_bind; [by apply runs_read|]. intros w' Hw'. by exists w'.
  - eapply runs_bind; [by apply (runs_read _ 1 [n] (r ++ rest))|]. intros w1 H1.
    eapply runs_bind; [by apply (runs_read _ _ r)|]. intros w' Hw'. by exists w'.
Qed.

Lemma length_1 {A} (l : list A) : length l = 1 → ∃ a, l = [a].
Proof. destruct l as [|a [|]]; try done. eauto. Qed.
Lemma length_2 {A} (l : list A) : length l = 2 → ∃ a b, l = [a; b].
Proof. destruct l as [|a [|b [|]]]; try done. eauto. Qed.
Lemma length_4 {A} (l : list A) : length l = 4 → ∃ a b c d, l = [a; b; c; d].
Proof. destruct l as [|a [|b [|c [|d [|]]]]]; try done. eauto 10. Qed.

Lemma skip_ok_inv atyp w u w' :
  skip_socks5_addr atyp w = Some (Ok u, w') →
  ∃ b, bound_addr atyp b ∧ arrives Upstream w = b ++ arrives Upstream w'
  ∧ tx (upstream w') = tx (upstream w).
Proof.
  unfold skip_socks5_addr. destruct atyp; try (intros; done).
  - intros (b & w1 & Hr & Hk)%bind_ok_inv. injection Hk as _ <-.
    apply read_ok_inv in Hr as (Hl & Ha & Ht & _). exists b. split; [by left | done].
  - intros (b & w1 & Hr & Hk)%bind_ok_inv. apply read_ok_inv in Hr as ([n ->]%length_1 & Ha & Ht & _).
    apply bind_ok_inv in Hk as (r & w2 & Hr & Hk). injection Hk as _ <-.
    apply read_ok_inv in Hr as (Hl & Ha2 & Ht2 & _). exists (n :: r). split_and!; [|by rewrite Ha, Ha2|congruence].
    right; right. split; [done|]. by exists n, r.
  - intros (b & w1 & Hr & Hk)%bind_ok_inv. injection Hk as _ <-.
    apply read_ok_inv in Hr as (Hl & Ha & Ht & _). exists b. split; [by right; left | done].
Qed.

(** *** The client's messages, read by the book *)

Definition take_exact (n : nat) (b : bytes) : option (bytes * bytes) :=
  if n <=? length b then Some (take n b, drop n b) else None.

(** The greeting (RFC 1928, section 3): the methods offered. *)
Definition decode_greeting (b : bytes) : option (bytes * bytes) :=
  match b with x05 :: n :: r => take_exact (N.to_nat (bn n)) r | _ => None end.

(** The user/password message (RFC 1929, section 2). *)
Definition decode_userpass (b : bytes) : option (bytes * bytes * bytes) :=
  match b with
  | x01 :: n :: r =>
      '(user, r) ← take_exact (N.to_nat (bn n)) r;
      match r with
      | m :: r => '(pass, r) ← take_exact (N.to_nat (bn m)) r; Some (user, pass, r)
      | [] => None
      end
  | _ => None
  end.

(** What a proxy that chooses [meth] understands of all that a client sends: the methods
    offered, the user and the password, the target and its port. *)
Definition decode_client (meth : Byte.byte) (b : bytes)
    : option (bytes * option (bytes * bytes) * (SocksAddr * N)) :=
  '(offered, r) ← decode_greeting b;
  if decide (meth = x02) then
    '(user, pass, r) ← decode_userpass r;
    target ← decode_request r;
    Some (offered, Some (user, pass), target)
  else
    target ← decode_request r;
    Some (offered, None, target).

Lemma take_exact_app a b : take_exact (length a) (a ++ b) = Some (a, b).
Proof.
  unfold take_exact. rewrite length_app, (proj2 (Nat.leb_le _ _)) by lia.
  by rewrite take_app_length, drop_app_length.
Qed.

Lemma decode_auth_request user pass r :
  length user ≤ 255 → length pass ≤ 255 →
  decode_userpass (auth_request user pass ++ r) = Some (user, pass, r).
Proof.
  intros Hu Hp.
  assert (∀ l : bytes, length l ≤ 255 → N.to_nat (bn (as_u8 (N.of_nat (length l)))) = length l) as Hlen.
  { intros l Hl. rewrite bn_as_u8, N.mod_small by lia. lia. }
  unfold auth_request. cbn [app decode_userpass]. rewrite <- app_assoc, Hlen, take_exact_app by done.
  cbn [mbind option_bind app]. by rewrite Hlen, take_exact_app.
Qed.

(** The target that the caller means. *)
Definition socks_target (host : bytes) (port : N) : SocksAddr * N :=
  (match parse_ip host with Some ip => SocksIp ip | None => SocksDomain host end, port).
(** The method that the relay has to offer: user/password if and only if a user is configured. *)
Definition configured_methods (username : option bytes) : bytes :=
  [match username with Some _ => x02 | None => x00 end].

(** *** The proxy's messages *)

(** By the book: one of the methods offered; version 1 and success when the user and the
    password are asked for; success, a zero byte and a well-formed bound address. *)
Definition rfc_answers (offered : bytes) (meth : Byte.byte) (auth reply : bytes) : Prop :=
  meth ∈ offered ∧ accepted_method meth
  ∧ auth = (if decide (meth = x02) then [x01; x00] else [])
  ∧ ∃ atyp b, reply = [x05; x00; x00; atyp] ++ b ∧ bound_addr atyp b.

(** What the relay accepts: it does not compare the method with the one it offered, and does
    not look at the version of the reply to the user and password, nor at the zero byte. *)
Definition proxy_answers (meth : Byte.byte) (auth reply : bytes) : Prop :=
  accepted_method meth
  ∧ (meth = x00 → auth = []) ∧ (meth = x02 → ∃ v, auth = [v; x00])
  ∧ ∃ rsv atyp b, reply = [x05; x00; rsv; atyp] ++ b ∧ bound_addr atyp b.

Lemma rfc_answers_accepted offered meth auth reply :
  rfc_answers offered meth auth reply → proxy_answers meth auth reply.
Proof.
  intros (_ & Hm & -> & atyp & b & -> & Hb). split; [done|]. split; [by intros ->|].
  split; [intros ->; by exists x01 | by exists x00, atyp, b].
Qed.

Definition relay_sends (username password : option bytes) (meth : Byte.byte) (req : bytes) : bytes :=
  [x05; x01; match username with Some _ => x02 | None => x00 end]
  ++ (if decide (meth = x02) then auth_request (unwrap_or username []) (unwrap_or password []) else [])
  ++ req.

Lemma bn_eqb a b : (bn a =? bn b)%N = bool_decide (a = b).
Proof.
  destruct (N.eqb_spec (bn a) (bn b)) as [E|E].
  - apply bn_inj in E as ->. by rewrite bool_decide_true.
  - rewrite bool_decide_false; [done|]. by intros ->.
Qed.

Lemma socks5_handshake_complete target port username password meth auth reply req rest out w :
  proxy_answers meth auth reply → build_socks5_connect_request target port = Ok req →
  st ([x05; meth] ++ auth ++ reply ++ rest) out w →
  runs (socks5_handshake target port username password) w tt
    (st rest (out ++ relay_sends username password meth req)).
Proof.
  intros (Hm & H0 & H2 & rsv & atyp & b & -> & Hb) Hreq Hst. unfold socks5_handshake.
  eapply runs_bind; [by apply runs_write|]. intros w1 H1.
  eapply runs_bind; [by apply (runs_read _ 2 [x05; meth])|]. intros w2 Hw2.
  cbn [nth_byte lookup list_lookup unwrap_or]. change (nth_byte [x05; meth] 0) with x05.
  change (nth_byte [x05; meth] 1) with meth.
  replace (negb (bn x05 =? 5)%N) with false by done.
  eapply (runs_bind _ _ _ tt _ (st (([x05; x00; rsv; atyp] ++ b) ++ rest)
    (out ++ [x05; x01; match username with Some _ => x02 | None => x00 end]
     ++ (if decide (meth = x02) then auth_request (unwrap_or username []) (unwrap_or password []) else [])))).
  { destruct Hm as [-> | ->].
    - rewrite (H0 eq_refl) in Hw2. cbn [decide socks5_auth]. rewrite decide_False by done.
      exists w2. split; [done|]. by rewrite app_nil_r.
    - destruct (H2 eq_refl) as [v ->]. rewrite decide_True by done. cbn [socks5_auth].
      eapply runs_bind; [by apply runs_write|]. intros w3 Hw3.
      eapply runs_bind; [by apply (runs_read _ 2 [v; x00])|]. intros w4 Hw4.
      change (nth_byte [v; x00] 1) with x00. replace (negb (bn x00 =? 0)%N) with false by done.
      exists w4. split; [done|]. rewrite (app_assoc out). exact Hw4. }
  intros w3 Hw3. eapply (runs_bind _ _ _ req); [by exists w3; unfold lift; rewrite Hreq|].
  cbv beta. intros w4 Hw4. eapply runs_bind; [by apply runs_write|]. intros w5 Hw5.
  eapply runs_bind; [apply (runs_read _ 4 [x05; x00; rsv; atyp] (b ++ rest)); [done | exact Hw5]|]. intros w6 Hw6.
  change (nth_byte [x05; x00; rsv; atyp] 0) with x05.
  change (nth_byte [x05; x00; rsv; atyp] 1) with x00.
  change (nth_byte [x05; x00; rsv; atyp] 3) with atyp.
  replace (negb (bn x05 =? 5)%N) with false by done. replace (negb (bn x00 =? 0)%N) with false by done.
  destruct (runs_skip _ _ _ _ _ Hb Hw6) as (w7 & Hr & Hst7). exists w7. split; [done|].
  unfold relay_sends. by rewrite <- !app_assoc in Hst7.
Qed.

Lemma auth_ok_inv username password meth w u w' :
  socks5_auth username password meth w = Some (Ok u, w') →
  ∃ auth, accepted_method meth ∧ (meth = x00 → auth = []) ∧ (meth = x02 → ∃ v, auth = [v; x00])
  ∧ arrives Upstream w = auth ++ arrives Upstream w'
  ∧ tx (upstream w') = tx (upstream w) ++
      (if decide (meth = x02) then auth_request (unwrap_or username []) (unwrap_or password []) else []).
Proof.
  unfold socks5_auth. destruct meth; try (intros; done).
  - intros [= _ <-]. exists []. rewrite decide_False by done. rewrite app_nil_r.
    split_and!; [by left | done | done | done | done].
  - intros (v & w1 & Hw & Hk)%bind_ok_inv. apply write_ok_inv in Hw as [Ht Ha].
    apply bind_ok_inv in Hk as (resp & w2 & Hr & Hk).
    apply read_ok_inv in Hr as ((a & b & ->)%length_2 & Ha2 & Ht2 & _).
    change (nth_byte [a; b] 1) with b in Hk. change 0%N with (bn x00) in Hk. rewrite bn_eqb in Hk.
    case_bool_decide as Hb; cbn [negb] in Hk; [|done]. subst b. injection Hk as _ <-.
    exists [a; x00]. rewrite decide_True by done.
    split_and!; [by right | done | by eexists | by rewrite <- Ha, Ha2 | by rewrite Ht2, Ht].
Qed.

Lemma socks5_handshake_sound target port username password w u w' :
  socks5_handshake target port username password w = Some (Ok u, w') →
  ∃ meth auth reply req, proxy_answers meth auth reply
  ∧ build_socks5_connect_request target port = Ok req
  ∧ arrives Upstream w = [x05; meth] ++ auth ++ reply ++ arrives Upstream w'
  ∧ tx (upstream w') = tx (upstream w) ++ relay_sends username password meth req.
Proof.
  unfold socks5_handshake.
  intros (v1 & w1 & Hw & Hk)%bind_ok_inv. apply write_ok_inv in Hw as [Ht1 Ha1].
  apply bind_ok_inv in Hk as (resp & w2 & Hr & Hk).
  apply read_ok_inv in Hr as ((v & meth & ->)%length_2 & Ha2 & Ht2 & _).
  change (nth_byte [v; meth] 0) with v in Hk. change (nth_byte [v; meth] 1) with meth in Hk.
  change 5%N with (bn x05) in Hk. rewrite (bn_eqb v) in Hk.
  case_bool_decide as Hv; cbn [negb] in Hk; [subst v|done].
  apply bind_ok_inv in Hk as (v2 & w3 & Hauth & Hk).
  apply auth_ok_inv in Hauth as (auth & Hm & H0 & H2 & Ha3 & Ht3).
  apply bind_ok_inv in Hk as (req & w4 & Hreq & Hk).
  unfold lift in Hreq. injection Hreq as Hreq <-.
  apply bind_ok_inv in Hk as (v3 & w5 & Hw & Hk). apply write_ok_inv in Hw as [Ht5 Ha5].
  apply bind_ok_inv in Hk as (hdr & w6 & Hr & Hk).
  apply read_ok_inv in Hr as ((h0 & h1 & rsv & atyp & ->)%length_4 & Ha6 & Ht6 & _).
  change (nth_byte [h0; h1; rsv; atyp] 0) with h0 in Hk.
  change (nth_byte [h0; h1; rsv; atyp] 1) with h1 in Hk.
  change (nth_byte [h0; h1; rsv; atyp] 3) with atyp in Hk.
  rewrite (bn_eqb h0) in Hk. case_bool_decide as Hv; cbn [negb] in Hk; [subst h0|done].
  change 0%N with (bn x00) in Hk. rewrite (bn_eqb h1) in Hk.
  case_bool_decide as Hv; cbn [negb] in Hk; [subst h1|done].
  apply skip_ok_inv in Hk as (b & Hb & Ha7 & Ht7).
  exists meth, auth, ([x05; x00; rsv; atyp] ++ b), req. split; [|split; [done|split]].
  - split_and!; [done | done | done |]. by exists rsv, atyp, b.
  - rewrite <- Ha1, Ha2, Ha3, <- Ha5, Ha6, Ha7. by rewrite <- app_assoc.
  - unfold relay_sends. rewrite Ht7, Ht6, Ht5, Ht3, Ht2, Ht1. by rewrite <- !app_assoc.
Qed.

(** A proxy reads in the messages of the relay what the relay is configured with. *)
Lemma decode_relay_sends host port username password meth req :
  (port < 65536)%N → build_socks5_connect_request host port = Ok req →
  length (unwrap_or username []) ≤ 255 → length (unwrap_or password []) ≤ 255 →
  decode_client meth (relay_sends username password meth req)
  = Some (configured_methods username,
          if decide (meth = x02) then Some (unwrap_or username [], unwrap_or password []) else None,
          socks_target host port).
Proof.
  intros Hp Hreq Hu Hpw. pose proof (socks5_request_roundtrip host port Hp) as Hr. rewrite Hreq in Hr.
  assert (∀ m r, decode_greeting ([x05; x01; m] ++ r) = Some ([m], r)) as Hg by (intros m r; apply (take_exact_app [m])).
  unfold decode_client, relay_sends. rewrite Hg. cbn [mbind option_bind]. case_decide.
  - rewrite decode_auth_request by done. cbn [mbind option_bind]. by rewrite Hr.
  - cbn [app]. rewrite Hr. done.
Qed.

(** C31: The SOCKS5 handshake, against RFC 1928 and RFC 1929, however the proxy's bytes are
    segmented and timed.  When it succeeds, the proxy has chosen no authentication or
    user/password, accepted them, and replied with success and a well-formed bound address;
    exactly these answers have been consumed, so that the bytes that follow belong to the
    tunnel; and the bytes sent, decoded by the book, are an offer of the one method that the
    configuration asks for, the configured user and password if the proxy chose that
    method, and a request for the target host and port (for a user and a password of at
    most 255 bytes each).  It succeeds on every proxy that answers by the book, for a target
    that the protocol can carry and writes that complete; and not only on those: on any
    [proxy_answers], which also takes a method that was not offered, and any version and
    reserved bytes. *)
Theorem socks5_handshake_spec host port username password w :
  let user := unwrap_or username [] in
  let pass := unwrap_or password [] in
  let run := socks5_handshake host port username password w in
  (port < 65536)%N →
  (∀ w', run = Some (Ok tt, w') →
     ∃ meth auth reply sent, proxy_answers meth auth reply
     ∧ arrives Upstream w = [x05; meth] ++ auth ++ reply ++ arrives Upstream w'
     ∧ tx (upstream w') = tx (upstream w) ++ sent
     ∧ (length user ≤ 255 → length pass ≤ 255 →
        decode_client meth sent = Some (configured_methods username,
          if decide (meth = x02) then Some (user, pass) else None, socks_target host port)))
  ∧ (∀ meth auth reply tunnel,
     rfc_answers (configured_methods username) meth auth reply ∨ proxy_answers meth auth reply →
     is_Some (parse_ip host) ∨ length host ≤ 255 → wr (upstream w) = [] →
     arrives Upstream w = [x05; meth] ++ auth ++ reply ++ tunnel →
     ∃ w', run = Some (Ok tt, w') ∧ arrives Upstream w' = tunnel).
Proof.
  intros user pass run Hport. split.
  - intros w' (meth & auth & reply & req & Hp & Hreq & Ha & Ht)%socks5_handshake_sound.
    exists meth, auth, reply, (relay_sends username password meth req). split_and!; [done..|].
    intros Hu Hpw. by apply decode_relay_sends.
  - intros meth auth reply tunnel Hp Hhost Hw Ha.
    assert (proxy_answers meth auth reply) as Hpa by (destruct Hp; [by eapply rfc_answers_accepted | done]).
    pose proof (socks5_request_roundtrip host port Hport) as Hreq.
    destruct (build_socks5_connect_request host port) as [req|e] eqn:Eq.
    2:{ destruct Hreq as (_ & Hn & Hl). rewrite Hn in Hhost. destruct Hhost as [[? [=]]|]; lia. }
    destruct (socks5_handshake_complete host port username password meth auth reply req tunnel
      (tx (upstream w)) w) as (w' & Hrun & Ha' & _); [done | done | by split_and! |].
    by exists w'.
Qed.

(** A proxy that asks for the credentials, its answers cut in the middle. *)
Definition example_stream : Stream := {|
  rx := [(10, Data [x05]); (20, Data [x02; x01]); (30, Data [x00; x05; x00]);
         (45, Data ([x00; x03; x02] ++ §"ab" ++ [x00; x50] ++ §"SSH-2.0"))]%N;
  wr := []; tx := []; nodelay_ok := true |}.
Definition example_world : World := {| now := 0; client := example_stream; upstream := example_stream |}.

Definition example_handshake : option (result ConnError unit * World) :=
  socks5_handshake §"10.0.0.1" 443 (Some §"user") (Some §"pw") example_world.

Lemma socks5_handshake_spec_witness :
  (∃ w', example_handshake = Some (Ok tt, w') ∧ arrives Upstream w' = §"SSH-2.0")
  ∧ ∀ w', example_handshake = Some (Ok tt, w') →
      ∃ meth sent, tx (upstream w') = sent ∧ decode_client meth sent
        = Some ([x02], if decide (meth = x02) then Some (§"user", §"pw") else None, (SocksIp (V4 10 0 0 1), 443%N)).
Proof.
  destruct (socks5_handshake_spec §"10.0.0.1" 443 (Some §"user") (Some §"pw") example_world) as [Hs Hc]; [done|].
  split.
  - apply (Hc x02 [x01; x00] ([x05; x00; x00; x03] ++ [x02; x61; x62; x00; x50]) §"SSH-2.0").
    + left. split_and!; [by left | by right | by vm_compute|]. exists x03, [x02; x61; x62; x00; x50].
      split; [done|]. right; right. split; [done|]. by eexists _, _.
    + left. vm_compute. by eexists.
    + done.
    + by vm_compute.
  - intros w' Hw. destruct (Hs w' Hw) as (meth & auth & reply & sent & _ & _ & Ht & Hd).
    exists meth, sent. split; [exact Ht|]. apply Hd; cbn; lia.
Defined.
