(* ===== verification/ProxyProofs.v ===== *)
(** The facts about src/proxy_connector.rs beyond the SOCKS5 exchange: the HTTP CONNECT
    reply, the deadlines of the probes, and the ClientHello of the probe against the SNI
    parser of src/sni.rs. *)

From S2P Require Import Prelude RustStr Collections Net Hosts Config Sni Stream ProxyConnector.

(** * Reading the HTTP CONNECT reply *)

Lemma read_world n w :
  0 < n → arrives Upstream w ≠ [] →
  ∃ b w', read Upstream n w = Some (Ok b, w') ∧ b ≠ [] ∧ length b ≤ n
  ∧ arrives Upstream w = b ++ arrives Upstream w' ∧ tx (upstream w') = tx (upstream w).
Proof.
  intros Hn Ha. unfold read, on_rx, arrives, stream in *.
  destruct (read_rx_ok n (now w) (rx (upstream w)) Hn Ha) as (b & t & l & -> & Hb & Hl & Hin & _).
  eexists b, _. split; [done|]. by split_and!.
Qed.

Lemma read_world_inv n w b w' :
  read Upstream n w = Some (Ok b, w') →
  length b ≤ n ∧ arrives Upstream w = b ++ arrives Upstream w' ∧ tx (upstream w') = tx (upstream w).
Proof.
  unfold read, on_rx, arrives, stream.
  destruct (read_rx n (now w) (rx (upstream w))) as [[[[r|e] t] l]|] eqn:E; [|done..].
  intros [= <- <-]. by apply read_rx_inv in E as (_ & Hl & Hin).
Qed.

Definition status_200 (head : bytes) : bool := contains_sub §"200" (first_line head).

(** What the loop does once the whole reply has arrived: [buf] has been read. *)
Lemma read_response_complete fuel buf w all idx :
  RESPONSE_BUF < length buf + fuel → length buf < idx + 4 → idx + 4 ≤ RESPONSE_BUF →
  all = buf ++ arrives Upstream w → find_crlfcrlf all = Some idx →
  ∃ c w', read_response fuel buf w
    = Some (if status_200 (take idx all) then Ok tt
            else Err (HttpConnectFailed (first_line (take idx all))), w')
  ∧ all = c ++ arrives Upstream w' ∧ idx + 4 ≤ length c ≤ RESPONSE_BUF
  ∧ tx (upstream w') = tx (upstream w).
Proof.
  revert buf w. induction fuel as [|fuel IH]; intros buf w Hf Hb Hi Hall Hidx; [lia|].
  assert (idx + 4 ≤ length all) as Hlen.
  { unfold find_crlfcrlf in Hidx. apply find_sub_bound in Hidx. exact Hidx. }
  assert (arrives Upstream w ≠ []) as Hne.
  { intros E. rewrite E, app_nil_r in Hall. subst all. lia. }
  destruct (read_world (RESPONSE_BUF - length buf) w ltac:(lia) Hne)
    as (b & w' & Hr & Hbne & Hbl & Hin & Htx).
  cbn [read_response]. unfold mbind, io_bind, map_err at 1. rewrite Hr.
  rewrite decide_False by done. cbv zeta.
  rewrite Hin, app_assoc in Hall.
  pose proof (find_sub_prefix (CRLF ++ CRLF) (buf ++ b) (arrives Upstream w') idx ltac:(done)) as Hp.
  rewrite <- Hall in Hp. specialize (Hp Hidx). unfold find_crlfcrlf at 1. rewrite Hp.
  change (length (CRLF ++ CRLF)) with 4.
  rewrite length_app. destruct (Nat.leb_spec (idx + 4) (length buf + length b)) as [Hle|Hgt].
  - exists (buf ++ b), w'. rewrite Hall at 1 2.
    rewrite (take_app_le (buf ++ b)) by (rewrite length_app; lia). split.
    + unfold status_200. rewrite Hall, (take_app_le (buf ++ b)) by (rewrite length_app; lia).
      by destruct (contains_sub §"200" _).
    + rewrite length_app. split_and!; [done | lia.. | done].
  - rewrite (proj2 (Nat.leb_gt _ _)) by lia.
    destruct (IH (buf ++ b) w') as (c & w'' & Hrr & Hc & Hcl & Htx2);
      [rewrite length_app; destruct b; cbn in *; [done|lia] | rewrite length_app; lia | done | done | done |].
    exists c, w''. rewrite Hrr. split_and!; [done | done | lia.. | congruence].
Qed.

Lemma read_response_sound fuel buf w w' :
  find_crlfcrlf buf = None → length buf ≤ RESPONSE_BUF →
  read_response fuel buf w = Some (Ok tt, w') →
  ∃ idx c, buf ++ arrives Upstream w = c ++ arrives Upstream w'
  ∧ find_crlfcrlf (buf ++ arrives Upstream w) = Some idx ∧ idx + 4 ≤ length c ≤ RESPONSE_BUF
  ∧ status_200 (take idx (buf ++ arrives Upstream w)) = true
  ∧ tx (upstream w') = tx (upstream w).
Proof.
  revert buf w. induction fuel as [|fuel IH]; intros buf w Hn Hl; [done|].
  cbn [read_response]. intros (b & w1 & Hr & Hk)%bind_ok_inv. apply map_err_ok_inv in Hr.
  case_decide as Hb; [done|]. apply read_world_inv in Hr as (Hbl & Hin & Htx).
  cbv zeta in Hk. destruct (find_crlfcrlf (buf ++ b)) as [idx|] eqn:E.
  - destruct (negb _) eqn:E2 in Hk; [done|]. injection Hk as <-. exists idx, (buf ++ b).
    rewrite Hin, app_assoc. pose proof (find_sub_bound _ _ _ E) as Hbd.
    change (length (CRLF ++ CRLF)) with 4 in Hbd.
    split_and!; [done | by apply find_sub_app_l | done | rewrite length_app in *; lia | | done].
    rewrite take_app_le by lia. unfold status_200. by apply negb_false_iff.
  - destruct (Nat.leb_spec RESPONSE_BUF (length (buf ++ b))) as [|Hlt]; [done|].
    apply IH in Hk as (idx & c & H1 & H2 & H3 & H4 & H5); [|done|lia].
    rewrite <- app_assoc, <- Hin in *. exists idx, c. split_and!; [done | done | lia.. | done | congruence].
Qed.

Lemma read_response_fuel fuel buf w w' :
  RESPONSE_BUF < length buf + fuel → length buf ≤ RESPONSE_BUF →
  read_response fuel buf w ≠ Some (Err OutOfFuel, w').
Proof.
  revert buf w. induction fuel as [|fuel IH]; intros buf w Hf Hl; [lia|].
  cbn [read_response]. unfold mbind, io_bind, map_err.
  destruct (read _ _ w) as [[[b|e] w1]|]; [|done..].
  case_decide as Hb; [done|]. cbv zeta.
  destruct (find_crlfcrlf (buf ++ b)); [by destruct (negb _)|].
  destruct (Nat.leb_spec RESPONSE_BUF (length (buf ++ b))) as [|Hlt]; [done|].
  apply IH; [|lia]. rewrite length_app. destruct b; [done|cbn; lia].
Qed.

(** The peer sends less than a head that ends, fewer bytes than the buffer holds, and neither
    closes nor resets. *)
Definition stalls (s : Stream) : Prop :=
  ¬ ends (rx s) ∧ find_crlfcrlf (incoming (rx s)) = None ∧ length (incoming (rx s)) < RESPONSE_BUF.

Lemma read_response_none fuel buf w :
  find_crlfcrlf buf = None → RESPONSE_BUF < length buf + fuel → length buf < RESPONSE_BUF →
  read_response fuel buf w = None
  ↔ ¬ ends (rx (upstream w)) ∧ find_crlfcrlf (buf ++ arrives Upstream w) = None
    ∧ length (buf ++ arrives Upstream w) < RESPONSE_BUF.
Proof.
  revert buf w. induction fuel as [|fuel IH]; intros buf w Hbuf Hf Hl; [lia|].
  cbn [read_response]. unfold mbind, io_bind, map_err, read, on_rx, arrives. cbn [stream].
  pose proof (read_rx_returns (RESPONSE_BUF - length buf) (now w) (rx (upstream w)) ltac:(lia)) as Hret.
  destruct (read_rx _ (now w) (rx (upstream w))) as [[[[b|e] t] l]|] eqn:Er; [|naive_solver|].
  2:{ destruct Hret as [Hne ->]. by rewrite app_nil_r. }
  case_decide as Hb; [naive_solver|]. apply read_rx_inv in Er as (_ & Hbl & ->). cbv zeta.
  destruct (find_crlfcrlf (buf ++ b)) as [idx|] eqn:E.
  { split; [by destruct (negb _)|]. intros (_ & Hn & _). rewrite app_assoc in Hn.
    unfold find_crlfcrlf in *. by rewrite (find_sub_app_l _ _ _ _ E) in Hn. }
  destruct (Nat.leb_spec RESPONSE_BUF (length (buf ++ b))) as [|Hlt].
  { split; [done|]. rewrite app_assoc, length_app. lia. }
  rewrite IH; [|done|rewrite length_app; destruct b; [done | cbn; lia] | done].
  unfold arrives. cbn. rewrite app_assoc. naive_solver.
Qed.

(** ** The whole HTTP CONNECT *)

Section http_connect.
Context (net : N → bytes → Dial).

Lemma dial_timeout_inv d host port w w' :
  dial_timeout net d host port w = Some (Ok tt, w') →
  ∃ dl s, net (now w) (host_colon_port host port) = DialOk dl s ∧ (dl ≤ d)%N
  ∧ w' = set_now (now w + dl) (set_stream Upstream s w).
Proof.
  unfold dial_timeout. intros (Hm & Ht)%timeout_ok_inv. apply map_err_ok_inv in Hm. revert Hm.
  unfold dial. destruct (net (now w) (host_colon_port host port)) as [dl s|dl|] eqn:E; [|done..].
  intros [= <-]. exists dl, s. cbn in Ht. split_and!; [done | lia | done].
Qed.

Lemma dial_timeout_ok d host port w dl s :
  net (now w) (host_colon_port host port) = DialOk dl s → (dl ≤ d)%N →
  dial_timeout net d host port w = Some (Ok tt, set_now (now w + dl) (set_stream Upstream s w)).
Proof.
  intros Hn Hd. unfold dial_timeout, timeout, map_err, dial. rewrite Hn. cbn [now set_now].
  by rewrite (proj2 (N.leb_le _ _)) by lia.
Qed.

Lemma http_connect_none proxy_host proxy_port target port auth connect_timeout w :
  http_connect net proxy_host proxy_port target port auth connect_timeout w = None
  ↔ ∃ d s, net (now w) (host_colon_port proxy_host proxy_port) = DialOk d s
    ∧ (d ≤ connect_timeout)%N ∧ nodelay_ok s = true
    ∧ match wr s with WrBlock _ :: _ => True | WrErr _ :: _ => False | _ => stalls s end.
Proof.
  unfold http_connect. pose proof (λ w, read_response_none (S RESPONSE_BUF) [] w eq_refl
    (Nat.lt_succ_diag_r _) (Nat.lt_0_succ _)) as Hrr.
  revert Hrr. generalize (read_response (S RESPONSE_BUF) []) as rr. intros rr Hrr.
  unfold dial_timeout, timeout, mbind, io_bind, map_err, dial.
  destruct (net (now w) _) as [d s|d|];
    [|cbn [now set_now]; destruct (_ <=? _)%N; (split; [done | by intros (? & ? & ? & _)]) | split; [done | by intros (? & ? & ? & _)]].
  cbn [now set_now]. destruct (N.leb_spec (now w + d) (now w + connect_timeout)) as [Hd|Hd].
  2:{ split; [done|]. intros (d' & s' & [= <- <-] & ? & _). lia. }
  unfold set_nodelay. cbn [stream set_now set_stream upstream].
  destruct (nodelay_ok s) eqn:Hnd; [|split; [done|]; intros (d' & s' & [= <- <-] & _ & ? & _); congruence].
  unfold write_all, write_effect. cbn [stream set_now set_stream upstream].
  assert (∀ P, (∃ d' s', DialOk d s = DialOk d' s' ∧ (d' ≤ connect_timeout)%N ∧ nodelay_ok s' = true ∧ P s') ↔ P s)
    as Heq.
  { intros P; split; [by intros (d' & s' & [= <- <-] & _ & _ & ?)|]. exists d, s. split_and!; (done || lia). }
  etransitivity; [|symmetry; exact (Heq (λ s,
    match wr s with WrBlock _ :: _ => True | WrErr _ :: _ => False | _ => stalls s end))].
  destruct (wr s) as [|[dl|n|n] q]; [exact (Hrr _) | exact (Hrr _) | done | done].
Qed.

(** C32: HTTP CONNECT, for every segmentation and timing of the proxy's answer: it succeeds
    only on a reply whose head ends within 4096 bytes and whose first line contains "200",
    having sent exactly the CONNECT request; such a reply is always accepted, from a proxy
    that is reached in time.  It does not always return: it never does exactly when a proxy
    that has been reached in time does not take the request, or stalls after it, that is,
    sends neither a whole head nor 4096 bytes and stays connected, for the exchange after the
    dial has no timeout. *)
Theorem http_connect_spec proxy_host proxy_port target port auth connect_timeout w :
  let run := http_connect net proxy_host proxy_port target port auth connect_timeout w in
  let dialled := net (now w) (host_colon_port proxy_host proxy_port) in
  (∀ w', run = Some (Ok tt, w') →
     ∃ d s idx c, dialled = DialOk d s ∧ (d ≤ connect_timeout)%N
     ∧ tx (upstream w') = tx s ++ connect_request target port auth
     ∧ incoming (rx s) = c ++ arrives Upstream w'
     ∧ find_crlfcrlf (incoming (rx s)) = Some idx ∧ idx + 4 ≤ length c ≤ RESPONSE_BUF
     ∧ contains_sub §"200" (first_line (take idx (incoming (rx s)))) = true)
  ∧ (∀ d s idx, dialled = DialOk d s → (d ≤ connect_timeout)%N → nodelay_ok s = true → wr s = [] →
     find_crlfcrlf (incoming (rx s)) = Some idx → idx + 4 ≤ RESPONSE_BUF →
     contains_sub §"200" (first_line (take idx (incoming (rx s)))) = true →
     ∃ w', run = Some (Ok tt, w'))
  ∧ (run = None ↔ ∃ d s, dialled = DialOk d s ∧ (d ≤ connect_timeout)%N ∧ nodelay_ok s = true
      ∧ match wr s with WrBlock _ :: _ => True | WrErr _ :: _ => False | _ => stalls s end)
  ∧ (∀ w', run ≠ Some (Err OutOfFuel, w')).
Proof.
  cbv zeta. split_and!.
  - intros w' H. unfold http_connect in H.
    apply bind_ok_inv in H as ([] & w1 & (d & s & Hn & Hd & ->)%dial_timeout_inv & H).
    apply bind_ok_inv in H as ([] & w2 & Hnd%map_err_ok_inv & H).
    unfold set_nodelay in Hnd. destruct (nodelay_ok _) in Hnd; [injection Hnd as <-|done].
    apply bind_ok_inv in H as ([] & w3 & Hw & H). apply write_ok_inv in Hw as [Ht Ha].
    apply read_response_sound in H as (idx & c & H1 & H2 & H3 & H4 & H5); [|done|cbn; lia].
    cbn [app] in *. change (arrives Upstream _) with (incoming (rx s)) in Ha at 2.
    rewrite Ha in *. exists d, s, idx, c. split_and!; try done; try lia. rewrite H5, Ht. done.
  - intros d s idx Hn Hd Hnd Hwr Hidx Hi H200. unfold http_connect.
    unfold mbind at 1, io_bind at 1. rewrite (dial_timeout_ok _ _ _ _ _ _ Hn Hd).
    unfold mbind at 1, io_bind at 1, map_err at 1, set_nodelay. cbn [stream set_now set_stream upstream].
    rewrite Hnd. unfold mbind at 1, io_bind at 1, map_err at 1, write_all, write_effect.
    cbn [stream set_now set_stream upstream]. rewrite Hwr.
    match goal with |- ∃ w', read_response _ _ ?w1 = _ =>
      destruct (read_response_complete (S RESPONSE_BUF) [] w1 (incoming (rx s)) idx)
        as (c & w' & Hr & _) end; [cbn; lia.. | done | done |].
    exists w'. rewrite Hr. unfold status_200. by rewrite H200.
  - apply http_connect_none.
  - intros w' H. unfold http_connect in H. revert H.
    unfold mbind, io_bind. unfold dial_timeout, timeout, map_err.
    repeat case_match_goal; intros; simplify_eq;
    try (eapply read_response_fuel; [| |eassumption]; cbn; lia).
    all: try done.
Qed.
End http_connect.

(** A proxy that answers with these segments, in order. *)
Definition proxy_stream (segments : list bytes) : Stream :=
  {| rx := (λ b, (5%N, Data b)) <$> segments; wr := []; tx := []; nodelay_ok := true |}.
Definition proxy_net (segments : list bytes) (_ : N) (_ : bytes) : Dial :=
  DialOk 3 (proxy_stream segments).
Definition idle : Stream := {| rx := []; wr := []; tx := []; nodelay_ok := true |}.
Definition start_world : World := {| now := 0; client := idle; upstream := idle |}.

Definition ok_head : bytes := §"HTTP/1.1 200 OK" ++ CRLF ++ CRLF.

Lemma http_connect_spec_witness :
  ∃ w', http_connect (proxy_net [take 7 ok_head; drop 7 ok_head]) §"10.0.0.1" 3128 §"example.com"
          443 None 10000 start_world = Some (Ok tt, w').
Proof.
  apply (proj1 (proj2 (http_connect_spec (proxy_net [take 7 ok_head; drop 7 ok_head]) §"10.0.0.1" 3128
    §"example.com" 443 None 10000 start_world)) 3%N (proxy_stream [take 7 ok_head; drop 7 ok_head]) 15);
    try done; vm_compute; lia.
Defined.

(** Two defects of the HTTP CONNECT reply.  A refusal whose first line merely contains
    the digits "200" opens the tunnel; and the bytes that come in the same segment as the
    head of the reply, the first ones of the tunnel, are lost: of an SSH banner that follows
    the head, nothing is left for the client, although it is all left when the banner comes
    in a segment of its own. *)
Theorem http_connect_flaws :
  let connect segments :=
    match http_connect (proxy_net segments) §"10.0.0.1" 3128 §"example.com" 22 None 10000 start_world with
    | Some (Ok _, w) => Some (arrives Upstream w)
    | _ => None
    end in
  connect [§"HTTP/1.1 502 Upstream error 32001" ++ CRLF ++ CRLF] = Some []
  ∧ connect [ok_head ++ §"SSH-2.0"] = Some []
  ∧ connect [ok_head; §"SSH-2.0"] = Some §"SSH-2.0".
Proof. split_and!; by vm_compute. Qed.

(** * Probes *)

Section probes.
Context (net : N → bytes → Dial).

(** The start-up probe is bounded as a whole, the health check is not.  Whatever the
    proxy does, [probe_upstream] returns within the connect timeout; but [check_upstream] of
    a SOCKS5 or HTTP proxy that accepts the connection and then stays silent never returns,
    for any timeout and any probe targets, since the handshake inside [connect] has no
    deadline. *)
Theorem probes_bounded_or_not proxy connect_timeout w :
  (∃ r w', probe_upstream net proxy connect_timeout w = Some (r, w')
   ∧ (now w' ≤ now w + connect_timeout)%N)
  ∧ ∀ host port target probes d,
      net (now w) (host_colon_port host port) = DialOk d idle → (d ≤ connect_timeout)%N →
      (∀ user pass, check_upstream net (Socks5 host port user pass) connect_timeout (target :: probes) w = None)
      ∧ (∀ auth, check_upstream net (Http host port auth) connect_timeout (target :: probes) w = None).
Proof.
  split; [apply timeout_returns|]. intros host port [th tp] probes d Hn Hd. split.
  - intros user pass. unfold check_upstream. rewrite decide_False by done. cbn [check_all].
    unfold check_upstream_one, connect, socks5_connect. unfold mbind, io_bind at 1.
    unfold io_bind at 1, get_now. unfold io_bind at 1. unfold io_bind at 1.
    by rewrite (dial_timeout_ok _ _ _ _ _ _ _ Hn Hd).
  - intros auth. unfold check_upstream. rewrite decide_False by done. cbn [check_all].
    unfold check_upstream_one, connect, http_connect. unfold mbind, io_bind at 1.
    unfold io_bind at 1, get_now. unfold io_bind at 1. unfold io_bind at 1.
    by rewrite (dial_timeout_ok _ _ _ _ _ _ _ Hn Hd).
Qed.

End probes.

(** ** The deadline of [verify_tunnel_alive] *)

(** [m] returns by the deadline, when it starts before it. *)
Definition by_deadline {E A} (deadline : N) (m : IO E A) : Prop :=
  ∀ w, (now w ≤ deadline)%N → ∃ r w', m w = Some (r, w') ∧ (now w' ≤ deadline)%N.

Lemma by_deadline_bind {E A B} deadline (m : IO E A) (k : A → IO E B) :
  by_deadline deadline m → (∀ a, by_deadline deadline (k a)) → by_deadline deadline (m ≫= k).
Proof.
  intros Hm Hk w Hw. unfold mbind, io_bind. destruct (Hm w Hw) as ([a|e] & w1 & -> & H1).
  - by apply Hk.
  - eauto.
Qed.

Lemma by_deadline_with {E A} deadline (e : E) (m : IO E A) :
  by_deadline deadline (t ← get_now; timeout (deadline - t)%N e m).
Proof.
  intros w Hw. unfold mbind, io_bind, get_now.
  destruct (timeout_returns (deadline - now w) e m w) as (r & w' & -> & Ht).
  eexists r, w'. split; [done|lia].
Qed.

Lemma by_deadline_ret {E A} deadline (r : result E A) : by_deadline deadline (lift r).
Proof. intros w Hw. by eexists r, w. Qed.

Definition tls_probe_port (port : N) : Prop := port = 443%N ∨ port = 8443%N ∨ port = 2053%N.

(** A first TLS record, whole: a handshake or an alert. *)
Definition tls_record (b : bytes) : Prop :=
  ∃ ty v1 v2 l1 l2 body, b = [ty; v1; v2; l1; l2] ++ body ∧ (ty = x16 ∨ ty = x15)
  ∧ N.of_nat (length body) = (bn l1 * 256 + bn l2)%N
  ∧ 0 < length body ∧ (N.of_nat (length body) ≤ 16384)%N.

(** Bytes that all arrive by the deadline. *)
Definition in_time (deadline : N) (w : World) : Prop :=
  Forall (λ e, (e.1 ≤ deadline)%N) (rx (upstream w)).

Lemma read_exact_by_deadline {E} (f : IoErr → E) (e : E) deadline n a rest w :
  in_time deadline w → (now w ≤ deadline)%N → arrives Upstream w = a ++ rest → length a = n →
  ∃ w', (t ← get_now; timeout (deadline - t)%N e (map_err f (read_exact Upstream n))) w = Some (Ok a, w')
  ∧ in_time deadline w' ∧ (now w' ≤ deadline)%N ∧ arrives Upstream w' = rest.
Proof.
  intros Hin Hw Ha Hn. unfold arrives, stream in Ha.
  destruct (read_exact_rx_ok n [] (now w) (rx (upstream w))) as (t & l & Hr & Hl & _).
  { rewrite Ha, length_app. lia. }
  destruct (read_exact_rx_time _ _ _ _ _ _ _ deadline Hin Hw Hr) as [Ht Hl'].
  eexists. split.
  - unfold mbind, io_bind, get_now, timeout, map_err, read_exact, on_rx. cbn [stream].
    rewrite Hr. cbn [now set_now]. rewrite (proj2 (N.leb_le _ _)) by lia.
    cbn [app]. rewrite Ha, take_app_length' by done. done.
  - unfold in_time, arrives. cbn. rewrite Hl, Ha, drop_app_length' by done. done.
Qed.

Lemma is_tls_port port :
  ((port =? 443) || (port =? 8443) || (port =? 2053))%N = bool_decide (tls_probe_port port).
Proof.
  unfold tls_probe_port. destruct (N.eqb_spec port 443), (N.eqb_spec port 8443), (N.eqb_spec port 2053);
    cbn [orb]; symmetry; try (apply bool_decide_eq_true; tauto); apply bool_decide_eq_false; tauto.
Qed.

Lemma with_deadline_inv {E A} deadline (e : E) (m : IO E A) w a w' :
  (t ← get_now; timeout (deadline - t)%N e m) w = Some (Ok a, w') → m w = Some (Ok a, w').
Proof. intros (t & w1 & [= <- <-] & (Hm & _)%timeout_ok_inv)%bind_ok_inv. done. Qed.

Lemma verify_tunnel_sound host port budget w w' :
  verify_tunnel_alive host port budget w = Some (Ok tt, w') →
  ∃ b, arrives Upstream w = b ++ arrives Upstream w'
  ∧ if bool_decide (tls_probe_port port)
    then tls_record b ∧ tx (upstream w') = tx (upstream w) ++ build_minimal_tls_client_hello host
    else b ≠ [] ∧ tx (upstream w') = tx (upstream w) ++ probe_request host.
Proof.
  unfold verify_tunnel_alive. rewrite is_tls_port. intros (t0 & w0 & [= <- <-] & H)%bind_ok_inv.
  cbv zeta in H. case_bool_decide.
  - apply bind_ok_inv in H as ([] & w1 & (Ht1 & Ha1)%with_deadline_inv%write_ok_inv & H).
    apply bind_ok_inv in H as (hdr & w2 & (Hl & Ha2 & Ht2 & _)%with_deadline_inv%read_ok_inv & H).
    destruct hdr as [|ty [|v1 [|v2 [|l1 [|l2 [|]]]]]]; try done.
    change (nth_byte _ 0) with ty in H. change (nth_byte _ 3) with l1 in H.
    change (nth_byte _ 4) with l2 in H.
    destruct (negb (bn ty =? 22)%N && negb (bn ty =? 21)%N) eqn:Ety; [done|].
    destruct ((bn l1 * 256 + bn l2 =? 0) || (16384 <? bn l1 * 256 + bn l2))%N eqn:El; [done|].
    apply bind_ok_inv in H as (body & w3 & (Hl3 & Ha3 & Ht3 & _)%with_deadline_inv%read_ok_inv & [= <-]).
    apply orb_false_elim in El as [E1%N.eqb_neq E2%N.ltb_ge].
    exists ([ty; v1; v2; l1; l2] ++ body). split; [by rewrite <- Ha1, Ha2, Ha3, <- app_assoc|]. split; [|congruence].
    exists ty, v1, v2, l1, l2, body. split_and!; [done | | lia.. ].
    change 22%N with (bn x16) in Ety. change 21%N with (bn x15) in Ety. rewrite !bn_eqb in Ety.
    revert Ety. repeat case_bool_decide; cbn; intros; try done; tauto.
  - apply bind_ok_inv in H as ([] & w1 & (Ht1 & Ha1)%with_deadline_inv%write_ok_inv & H).
    apply bind_ok_inv in H as (b & w2 & Hr%with_deadline_inv%map_err_ok_inv & H).
    case_decide as Hb; [done|]. injection H as <-.
    apply read_world_inv in Hr as (_ & Ha2 & Ht2). exists b. rewrite <- Ha1.
    split_and!; [done | done | congruence].
Qed.

Lemma verify_tunnel_complete host port budget w b rest :
  tls_probe_port port → wr (upstream w) = [] → in_time (now w + budget) w →
  tls_record b → arrives Upstream w = b ++ rest →
  ∃ w', verify_tunnel_alive host port budget w = Some (Ok tt, w').
Proof.
  intros Hport Hwr Hin (ty & v1 & v2 & l1 & l2 & body & -> & Hty & Hlen & Hpos & Hmax) Ha.
  unfold verify_tunnel_alive. rewrite is_tls_port, bool_decide_true by done.
  unfold mbind at 1, io_bind at 1, get_now at 1. cbv zeta.
  set (deadline := (now w + budget)%N) in *.
  set (w1 := set_stream Upstream {| rx := rx (upstream w); wr := [];
    tx := tx (upstream w) ++ build_minimal_tls_client_hello host;
    nodelay_ok := nodelay_ok (upstream w) |} w).
  assert ((t ← get_now; timeout (deadline - t)%N WriteTimeout
    (map_err WriteHello (write_all Upstream (build_minimal_tls_client_hello host)))) w
    = Some (Ok tt, w1)) as Hw.
  { unfold mbind, io_bind, get_now, timeout, map_err, write_all, write_effect. cbn [stream]. rewrite Hwr.
    cbn [now set_stream]. by rewrite (proj2 (N.leb_le _ _)) by lia. }
  unfold mbind at 1, io_bind at 1. rewrite Hw.
  destruct (read_exact_by_deadline TunnelClosed HeaderTimeout deadline 5 [ty; v1; v2; l1; l2]
    (body ++ rest) w1 Hin) as (w2 & Hr2 & Hin2 & Hn2 & Ha2); [cbn; lia | done | done |].
  unfold mbind at 1, io_bind at 1. rewrite Hr2.
  change (nth_byte _ 0) with ty. change (nth_byte _ 3) with l1. change (nth_byte _ 4) with l2.
  replace (negb (bn ty =? 22)%N && negb (bn ty =? 21)%N) with false by (by destruct Hty as [-> | ->]).
  rewrite (proj2 (N.eqb_neq _ _)) by lia. rewrite (proj2 (N.ltb_ge _ _)) by lia. cbn [orb].
  destruct (read_exact_by_deadline TunnelClosedMid BodyTimeout deadline
    (N.to_nat (bn l1 * 256 + bn l2)) body rest w2 Hin2 Hn2 Ha2) as (w3 & Hr3 & _); [lia|].
  unfold mbind at 1, io_bind at 1. rewrite Hr3. by eexists.
Qed.

(** The liveness check of a tunnel always returns within its budget, whatever the peer
    does.  On a TLS port it succeeds exactly when a whole first record, handshake or alert
    and of 1 to 16384 bytes, comes in time (however it is cut); on another port it succeeds
    only when at least one byte comes. *)
Theorem verify_tunnel_alive_spec host port budget w :
  (∃ r w', verify_tunnel_alive host port budget w = Some (r, w') ∧ (now w' ≤ now w + budget)%N)
  ∧ (∀ w', verify_tunnel_alive host port budget w = Some (Ok tt, w') →
     ∃ b, arrives Upstream w = b ++ arrives Upstream w'
     ∧ if bool_decide (tls_probe_port port)
       then tls_record b ∧ tx (upstream w') = tx (upstream w) ++ build_minimal_tls_client_hello host
       else b ≠ [] ∧ tx (upstream w') = tx (upstream w) ++ probe_request host)
  ∧ (∀ b rest, tls_probe_port port → wr (upstream w) = [] → in_time (now w + budget) w →
     tls_record b → arrives Upstream w = b ++ rest →
     ∃ w', verify_tunnel_alive host port budget w = Some (Ok tt, w')).
Proof.
  split_and!; [|apply verify_tunnel_sound | intros b rest; apply verify_tunnel_complete].
  unfold verify_tunnel_alive. unfold mbind at 1, io_bind at 1, get_now at 1. cbv zeta.
  set (deadline := (now w + budget)%N).
  match goal with |- ∃ r w', ?m w = _ ∧ _ => assert (by_deadline deadline m) as Hm end.
  { case_match.
    - apply by_deadline_bind; [apply by_deadline_with|]. intros _.
      apply by_deadline_bind; [apply by_deadline_with|]. intros hdr.
      case_match; [apply (by_deadline_ret _ (Err _))|].
      case_match; [apply (by_deadline_ret _ (Err _))|].
      apply by_deadline_bind; [apply by_deadline_with|]. intros _. apply (by_deadline_ret _ (Ok _)).
    - apply by_deadline_bind; [apply by_deadline_with|]. intros _.
      apply by_deadline_bind; [apply by_deadline_with|]. intros b.
      case_decide; [apply (by_deadline_ret _ (Err _)) | apply (by_deadline_ret _ (Ok _))]. }
  apply Hm. lia.
Qed.

(** ** Waiting for the proxy at start-up *)

Section ensure.
Context (net : N → bytes → Dial).

Lemma probe_upstream_advances proxy ct : advances (probe_upstream net proxy ct).
Proof.
  unfold probe_upstream. apply advances_timeout. destruct proxy as [host port user pass|host port auth|];
    cbn [probe_upstream_inner]; [|by apply advances_timeout, advances_map_err, advances_dial | apply advances_mret].
  unfold dial_timeout. repeat (apply advances_bind; [auto 6 with snirelay|intros ?]).
  do 2 (case_match; auto with snirelay).
Qed.

(** The retry loop: it ends within one probe of the deadline, and gives up only after it. *)
Lemma probe_until_spec fuel proxy ct deadline interval w :
  (0 < interval)%N → N.to_nat (deadline - now w) < fuel →
  ∃ ok w', probe_until net fuel proxy ct deadline interval w = Some (Ok ok, w')
  ∧ (now w' ≤ N.max (now w) deadline + ct)%N ∧ (now w ≤ now w')%N
  ∧ (if ok : bool then ∃ w1, probe_upstream net proxy ct w1 = Some (Ok tt, w')
     else (deadline ≤ now w')%N).
Proof.
  intros Hint. revert w. induction fuel as [|fuel IH]; intros w Hf; [lia|].
  cbn [probe_until]. unfold mbind at 1, io_bind at 1, attempt.
  destruct (timeout_returns ct ProbeTimeout (probe_upstream_inner net proxy ct) w)
    as (r & w1 & Hp & Ht1).
  change (timeout ct ProbeTimeout (probe_upstream_inner net proxy ct)) with (probe_upstream net proxy ct) in Hp.
  rewrite Hp. pose proof (probe_upstream_advances proxy ct w r w1 Hp) as Ht0.
  destruct r as [[]|e].
  - exists true, w1. split; [done|]. split; [lia|]. split; [lia|]. by exists w.
  - unfold mbind at 1, io_bind at 1, get_now at 1. cbv zeta.
    destruct (N.eqb_spec (deadline - now w1) 0) as [H0|H0].
    + exists false, w1. split; [done|]. split_and!; lia.
    + unfold mbind at 1, io_bind at 1, sleep at 1.
      set (w2 := set_now (now w1 + N.min interval (deadline - now w1)) w1).
      assert (now w2 = now w1 + N.min interval (deadline - now w1))%N as Hw2 by done.
      destruct (IH w2) as (ok & w' & Hr & Hb & Hadv & Hok); [lia|].
      exists ok, w'. split; [done|]. split_and!; [lia | lia | done].
Qed.

Lemma ensure_upstream_ready_returns fuel proxy connect_timeout wait interval required w :
  (0 < interval)%N → N.to_nat wait < fuel →
  ∃ r w', ensure_upstream_ready net fuel proxy connect_timeout wait interval required w = Some (r, w')
  ∧ (now w' ≤ now w + wait + connect_timeout)%N
  ∧ ((r = Ok true ∧ ∃ w1, probe_upstream net proxy connect_timeout w1 = Some (Ok tt, w'))
     ∨ (r = (if required then Err StillUnreachable else Ok false)
        ∧ proxy ≠ Direct ∧ (now w + wait ≤ now w')%N)).
Proof.
  intros Hint Hf.
  destruct (decide (proxy = Direct)) as [->|Hp].
  - eexists (Ok true), _. split; [|split].
    + cbn. unfold mbind, io_bind, probe_upstream, timeout. cbn.
      rewrite (proj2 (N.leb_le _ _)) by lia. done.
    + lia.
    + left. split; [done|]. exists w. unfold probe_upstream, timeout. cbn.
      by rewrite (proj2 (N.leb_le _ _)) by lia.
  - destruct (probe_until_spec fuel proxy connect_timeout (now w + wait) interval w Hint)
      as (ok & w' & Hr & Hb & _ & Hok); [lia|].
    assert (ensure_upstream_ready net fuel proxy connect_timeout wait interval required w
      = Some (if ok then Ok true else if required then Err StillUnreachable else Ok false, w')) as ->.
    { destruct proxy as [??? ?|???|]; [..|done]; cbn [ensure_upstream_ready];
        unfold mbind at 1, io_bind at 1, get_now at 1; unfold mbind, io_bind; rewrite Hr;
        by destruct ok, required. }
    eexists _, w'. split; [done|]. split; [lia|]. destruct ok; [left | right]; by split_and?.
Qed.

(** Start-up always gets an answer about its upstream proxy: with any positive interval
    between the attempts it returns at most one connect timeout after the waiting window.
    It reports success only on a probe that succeeded, and gives up only once the window is
    over, with an error exactly when the upstream is required. *)
Theorem ensure_upstream_ready_spec fuel proxy connect_timeout wait interval required w :
  (0 < interval)%N → N.to_nat wait < fuel →
  ∃ r w', ensure_upstream_ready net fuel proxy connect_timeout wait interval required w = Some (r, w')
  ∧ (now w' ≤ now w + wait + connect_timeout)%N
  ∧ ((r = Ok true ∧ ∃ w1, probe_upstream net proxy connect_timeout w1 = Some (Ok tt, w'))
     ∨ (r = (if required then Err StillUnreachable else Ok false)
        ∧ proxy ≠ Direct ∧ (now w + wait ≤ now w')%N)).
Proof. apply ensure_upstream_ready_returns. Qed.

Lemma dial_timeout_advances d host port : advances (dial_timeout net d host port).
Proof. unfold dial_timeout. auto with snirelay. Qed.

Lemma skip_socks5_addr_advances atyp : advances (skip_socks5_addr atyp).
Proof. unfold skip_socks5_addr. advances_tac. Qed.

Lemma socks5_auth_advances user pass meth : advances (socks5_auth user pass meth).
Proof. unfold socks5_auth. advances_tac. Qed.

Lemma read_response_advances fuel buf : advances (read_response fuel buf).
Proof. revert buf. induction fuel; intros buf; cbn [read_response]; advances_tac. Qed.

Hint Resolve dial_timeout_advances skip_socks5_addr_advances socks5_auth_advances
  read_response_advances : snirelay.

Lemma connect_advances proxy host port ct : advances (connect net proxy host port ct).
Proof.
  destruct proxy; cbn [connect]; unfold socks5_connect, socks5_handshake, http_connect; advances_tac.
Qed.

Lemma verify_tunnel_alive_advances host port budget : advances (verify_tunnel_alive host port budget).
Proof. unfold verify_tunnel_alive. cbv zeta. advances_tac. Qed.

Hint Resolve connect_advances verify_tunnel_alive_advances : snirelay.

Lemma check_all_advances proxy ct probes : advances (check_all net proxy ct probes).
Proof.
  induction probes as [|[h p] probes IH]; cbn [check_all]; [apply advances_mret|].
  unfold check_upstream_one. advances_tac.
Qed.

Lemma check_upstream_advances proxy ct probes : advances (check_upstream net proxy ct probes).
Proof.
  unfold check_upstream. case_decide; [apply advances_throw | apply check_all_advances].
Qed.
End ensure.

(** * The probe's ClientHello, read by the SNI parser *)

Section hello.
Context `{Unicode}.

Definition probe_hello (host : bytes) : ClientHello :=
  let body_len := N.of_nat (56 + length host) in
  {| hs_len := [as_u8 (N.land (N.shiftr body_len 16) 255); as_u8 (N.land (N.shiftr body_len 8) 255);
                as_u8 (N.land body_len 255)];
     version := [x03; x03]; random := replicate 32 x00; session_id := [];
     cipher_suites := [x13; x01; xc0; x2f; x00; x2f]; compression := [x00];
     extensions := [(0, enc_sni [(x00, host)])] |}.

Lemma u16_be16 n : (N.of_nat n < 65536)%N → be_bytes16 (wrap 16 (N.of_nat n)) = be16 n.
Proof. intros Hn. unfold wrap. change (2 ^ 16)%N with 65536%N. by rewrite N.mod_small. Qed.

Lemma enc_names_1 e : enc_names [e] = enc_name e.
Proof. apply app_nil_r. Qed.
Lemma enc_exts_1 e : enc_exts [e] = enc_ext e.
Proof. apply app_nil_r. Qed.
Lemma length_enc_sni_1 host : length (enc_sni [(x00, host)]) = 5 + length host.
Proof. unfold enc_sni. rewrite enc_names_1. unfold enc_name. cbn [length be16 app fst snd]. lia. Qed.

Lemma build_hello_enc host :
  (N.of_nat (60 + length host) < 65536)%N →
  build_minimal_tls_client_hello host = enc_record x16 x03 x01 (enc_hello (probe_hello host)).
Proof.
  intros Hl. unfold build_minimal_tls_client_hello. cbv zeta.
  assert (enc_exts (extensions (probe_hello host))
    = [x00; x00] ++ be16 (5 + length host) ++ be16 (3 + length host) ++ [x00] ++ be16 (length host) ++ host) as Hx.
  { cbn [probe_hello extensions]. rewrite enc_exts_1. unfold enc_ext. cbn [fst snd].
    rewrite length_enc_sni_1. unfold enc_sni. rewrite enc_names_1. done. }
  rewrite (u16_be16 (5 + length host)), (u16_be16 (3 + length host)), (u16_be16 (length host)) by lia.
  set (ext := [x00; x00] ++ be16 (5 + length host) ++ _) in *.
  assert (length ext = 9 + length host) as Hext.
  { unfold ext. rewrite !length_app. cbn [length be16]. lia. }
  rewrite (u16_be16 (length ext)) by lia.
  set (body := [x03; x03] ++ replicate 32 x00 ++ _).
  assert (length body = 56 + length host) as Hb.
  { unfold body. rewrite !length_app, length_replicate, Hext. cbn [length be16 be_bytes16]. lia. }
  rewrite Hb.
  assert (wrap 32 (N.of_nat (56 + length host)) = N.of_nat (56 + length host)) as ->.
  { unfold wrap. change (2 ^ 32)%N with 4294967296%N. apply N.mod_small. lia. }
  match goal with |- context [be_bytes16 (wrap 16 (N.of_nat (length ?hs)))] =>
    assert (length hs = 60 + length host) as Hhs by (rewrite length_app, Hb; cbn [length]; lia);
    rewrite (u16_be16 (length hs)) by lia; set (handshake := hs) in * end.
  assert (handshake = enc_hello (probe_hello host)) as <-.
  { unfold handshake, enc_hello. rewrite Hx. unfold body. done. }
  done.
Qed.

(** The ClientHello of the health probe is one that the relay's own SNI parser reads:
    it finds the probe host, in lower case, and the exact length of the hello, whatever
    follows; for every host name that fits in a record. *)
Theorem probe_hello_parses host trailing :
  utf8_valid host = true → (N.of_nat (60 + length host) < 65536)%N →
  parse_sni_with_replay (build_minimal_tls_client_hello host ++ trailing)
  = Val (Tls (to_lowercase host), length (build_minimal_tls_client_hello host)).
Proof.
  intros Hu Hl. rewrite build_hello_enc by done.
  assert (length (enc_hello (probe_hello host)) = 60 + length host) as Hh.
  { unfold enc_hello. cbn [probe_hello extensions hs_len version random session_id cipher_suites
      compression]. rewrite enc_exts_1. unfold enc_ext. cbn [fst snd].
    repeat first [rewrite length_app | rewrite length_cons]. rewrite length_enc_sni_1, length_replicate. cbn [length be16 app]. lia. }
  pose proof (length_enc_sni_1 host) as Hs.
  apply (parse_sni_flight [] x01 (probe_hello host) [] [] host [] [] trailing);
    [constructor | done | | lia | done | constructor | cbn [app]; lia | constructor | done].
  split; cbn [probe_hello extensions hs_len version random session_id cipher_suites compression];
    rewrite ?length_replicate; cbn [length]; try done; try lia.
  rewrite enc_exts_1. unfold enc_ext. cbn [fst snd]. rewrite !length_app, Hs. cbn [length be16]. lia.
Qed.
End hello.

Lemma probe_hello_parses_witness :
  @parse_sni_with_replay ascii_unicode (build_minimal_tls_client_hello §"Cloudflare.com" ++ §"x")
  = Val (Tls §"cloudflare.com", 79).
Proof. apply (@probe_hello_parses ascii_unicode §"Cloudflare.com" §"x"); by vm_compute. Defined.

(** * Concrete probes *)

(** Dials to nowhere take 40 ms to fail; a silent peer is reached in 40 ms. *)
Definition silent_net (_ : N) (_ : bytes) : Dial := DialOk 40 idle.
Definition closed_net (_ : N) (_ : bytes) : Dial := DialErr 40.

Lemma probes_bounded_or_not_witness :
  check_upstream silent_net (Socks5 §"10.0.0.1" 1080 None None) 20000 [(§"ifconfig.io", 443%N)] start_world
  = None.
Proof.
  apply (proj1 (proj2 (probes_bounded_or_not silent_net (Socks5 §"10.0.0.1" 1080 None None) 20000
    start_world) §"10.0.0.1" 1080%N (§"ifconfig.io", 443%N) [] 40%N eq_refl ltac:(done))).
Defined.

(** An alert that comes in two parts. *)
Definition alert_stream : Stream :=
  {| rx := [(30, Data [x15; x03]); (60, Data [x03; x00; x02; x02; x28; x00])]%N;
     wr := []; tx := []; nodelay_ok := true |}.

Lemma verify_tunnel_alive_spec_witness :
  ∃ w', verify_tunnel_alive §"ifconfig.io" 443 100
          {| now := 0; client := idle; upstream := alert_stream |} = Some (Ok tt, w').
Proof.
  apply (proj2 (proj2 (verify_tunnel_alive_spec §"ifconfig.io" 443 100
    {| now := 0; client := idle; upstream := alert_stream |})) ([x15; x03; x03; x00; x02] ++ [x02; x28])
    [x00]).
  - by left.
  - done.
  - repeat constructor; cbn; lia.
  - exists x15, x03, x03, x00, x02, [x02; x28]. split; [done|]. split; [by right|].
    split_and!; cbn; lia.
  - done.
Defined.

Lemma ensure_upstream_ready_spec_witness :
  ∃ r w', ensure_upstream_ready closed_net 31 (Http §"10.0.0.1" 3128 None) 5 30 10 true start_world
    = Some (r, w') ∧ (now w' ≤ 35)%N.
Proof.
  destruct (ensure_upstream_ready_spec closed_net 31 (Http §"10.0.0.1" 3128 None) 5 30 10 true
    start_world) as (r & w' & Hr & Ht & _); [lia | vm_compute; lia |]. by exists r, w'.
Defined.
