(* ===== verification/Telegram.v ===== *)
(** src/telegram.rs: messages to the Telegram Bot API, sent by running curl.

    The program [curl], the file system it is looked up in and the JSON decoder are the
    environment. *)

From S2P Require Import Prelude RustStr Collections Net Hosts Config Stream.

(** * Escaping *)

Definition escape_char (c : Byte.byte) : bytes :=
  match c with
  | x26 => §"&amp;"
  | x3c => §"&lt;"
  | x3e => §"&gt;"
  | c => [c]
  end.
(** By [char] in the code: the three escaped ones are single bytes. *)
Definition escape_html (s : bytes) : bytes := mjoin (escape_char <$> s).

(** * Sending *)

(** How a run of curl ends: with its exit status and its outputs, or not started. *)
Inductive CurlOutcome :=
| Exited (delay : N) (success : bool) (stdout stderr : bytes)
| NotStarted (delay : N).

(** What a JSON text says under "ok" and "description". *)
Record ApiReply := { reply_ok : option bool; reply_description : option bytes }.

Class CurlEnv := {
  path_exists : bytes → bool;
  run_curl : N → bytes → list bytes → CurlOutcome;
  json_reply : bytes → option ApiReply;
}.

Inductive TelegramError :=
| NoToken | NoChat | ExecCurl | CurlFailed (text : bytes) | ApiError (description : bytes).

Section telegram.
Context `{CurlEnv}.

Definition curl_bin : bytes :=
  if path_exists §"/usr/bin/curl" then §"/usr/bin/curl" else
  if path_exists §"/bin/curl" then §"/bin/curl" else §"curl".

(** [Command::output] *)
Definition curl (args : list bytes) : IO TelegramError (bool * bytes * bytes) := λ w,
  match run_curl (now w) curl_bin args with
  | Exited d ok out err => Some (Ok (ok, out, err), set_now (now w + d) w)
  | NotStarted d => Some (Err ExecCurl, set_now (now w + d) w)
  end.

Definition curl_args (base token chat_id text : bytes) : list bytes :=
  [§"-sS"; §"--max-time"; §"8"; §"-X"; §"POST";
   base ++ §"/bot" ++ token ++ §"/sendMessage";
   §"-d"; §"chat_id=" ++ chat_id;
   §"--data-urlencode"; §"text=" ++ text;
   §"-d"; §"parse_mode=HTML"; §"-d"; §"disable_web_page_preview=true"].

(** What the outputs of curl mean. *)
Definition curl_verdict (out : bool * bytes * bytes) : result TelegramError unit :=
  let '(success, stdout, stderr) := out in
  let stdout := utf8_lossy stdout in
  let stderr := utf8_lossy stderr in
  if negb success then
    Err (CurlFailed (if decide (stderr = []) then trim stdout else trim stderr))
  else
    match json_reply (trim stdout) with
    | Some v =>
        if decide (reply_ok v = Some false)
        then Err (ApiError (unwrap_or (reply_description v) §"unknown")) else Ok tt
    | None => Ok tt
    end.

Definition send_message (cfg : TelegramConfig) (text : bytes) : IO TelegramError unit :=
  token ← lift (ok_or (nonempty (bot_token cfg)) NoToken);
  chat_id ← lift (ok_or (nonempty (chat_id cfg)) NoChat);
  output ← curl (curl_args (api_base_url cfg) token chat_id text);
  lift (curl_verdict output).

(** Failures are logged and forgotten. *)
Definition notify {E} (cfg : TelegramConfig) (text : bytes) : IO E unit :=
  if negb (is_configured cfg) then mret tt else
  _ ← attempt (send_message cfg text); mret tt.

Lemma notify_returns {E} cfg text w :
  ∃ w', notify (E := E) cfg text w = Some (Ok tt, w') ∧ (now w ≤ now w')%N.
Proof.
  unfold notify. destruct (negb (is_configured cfg)); [by exists w|].
  unfold mbind, io_bind, attempt, send_message, lift, mbind, io_bind, curl.
  repeat case_match_goal; simplify_eq; (eexists; split; [done|cbn; lia]).
Qed.

End telegram.

(** * Escaped text carries no markup *)

Definition count_byte (c : Byte.byte) (s : bytes) : nat := length (filter (λ b, b = c) s).

Lemma count_byte_app c s t : count_byte c (s ++ t) = count_byte c s + count_byte c t.
Proof. unfold count_byte. by rewrite filter_app, length_app. Qed.

Lemma escape_html_cons b s : escape_html (b :: s) = escape_char b ++ escape_html s.
Proof. done. Qed.

Lemma escape_html_app s t : escape_html (s ++ t) = escape_html s ++ escape_html t.
Proof. induction s as [|b s IH]; [done|]. by rewrite <- app_comm_cons, !escape_html_cons, IH, app_assoc. Qed.

Lemma escape_html_no_markup s : count_byte x3c (escape_html s) = 0 ∧ count_byte x3e (escape_html s) = 0.
Proof.
  induction s as [|b s [IH1 IH2]]; [done|]. rewrite escape_html_cons, !count_byte_app, IH1, IH2.
  assert (forallb (λ b, (count_byte x3c (escape_char b) =? 0) && (count_byte x3e (escape_char b) =? 0))
    all_bytes = true) as Hall by (by vm_compute).
  pose proof (byte_forall _ Hall b) as Hb. cbn beta in Hb. bool_to_prop. lia.
Qed.

(** The reading of the text by an HTML parser: the three entities are replaced. *)
Fixpoint unescape_html (fuel : nat) (s : bytes) : bytes :=
  match fuel, s with
  | 0, _ | _, [] => []
  | S fuel, x26 :: r =>
      if starts_with §"amp;" r then x26 :: unescape_html fuel (drop 4 r) else
      if starts_with §"lt;" r then x3c :: unescape_html fuel (drop 3 r) else
      if starts_with §"gt;" r then x3e :: unescape_html fuel (drop 3 r) else
      x26 :: unescape_html fuel r
  | S fuel, b :: r => b :: unescape_html fuel r
  end.

Lemma unescape_escape s fuel : length s < fuel → unescape_html fuel (escape_html s) = s.
Proof.
  revert fuel. induction s as [|b s IH]; intros [|fuel] Hf; cbn in Hf; try lia; [done|].
  rewrite escape_html_cons. pose proof (IH fuel ltac:(lia)) as Hr.
  destruct b; cbn [escape_char app lit String.list_byte_of_string]; 
    try (cbn [unescape_html]; by rewrite Hr); cbn; by rewrite ?drop_0, Hr.
Qed.

(** Escaped text survives Telegram's HTML parsing as it was, and can neither open nor
    close a tag: no profile name, host or error text changes the layout of an alert. *)
Theorem escape_html_spec s :
  unescape_html (S (length s)) (escape_html s) = s
  ∧ count_byte x3c (escape_html s) = 0 ∧ count_byte x3e (escape_html s) = 0.
Proof. split; [apply unescape_escape; lia | apply escape_html_no_markup]. Qed.
