(* ===== verification/UpstreamMonitor.v ===== *)
(** src/upstream_monitor.rs: the periodic health check of the upstream proxies, and its
    alerts.

    Time is in milliseconds.  The text of an error chain, which the code takes from
    [anyhow], is a parameter. *)

From S2P Require Import Prelude RustStr Collections Net Hosts Config Stream ProxyConnector ProxyProofs UpstreamRegistry Telegram.

Inductive Health := Up | Down.
#[global] Instance Health_eq_dec : EqDecision Health.
Proof. solve_decision. Defined.

Record ProfileState := {
  health : Health;
  consecutive_fails : N;
  consecutive_oks : N;
  last_error : option bytes;
  last_notify : option N;
  down_since : option N;
}.

Definition ProfileState_default : ProfileState :=
  {| health := Up; consecutive_fails := 0; consecutive_oks := 0; last_error := None;
     last_notify := None; down_since := None |}.

Inductive Transition := WentDown (error : bytes) | Recovered (downtime : N) | NoTransition.

Record MonitorTarget := { key : bytes; proxy : UpstreamProxy; profiles : list bytes }.

(** * The state machine of one endpoint *)

Definition apply_probe_result (state : ProfileState) (ok : bool) (error : option bytes)
    (fail_threshold recover_threshold now : N) : ProfileState * Transition :=
  if ok then
    let oks := sat_add u32_max (consecutive_oks state) 1 in
    if bool_decide (health state = Down) && (N.max recover_threshold 1 <=? oks)%N then
      let downtime := match down_since state with Some t => now - t | None => 0 end%N in
      ({| health := Up; consecutive_fails := 0; consecutive_oks := 0; last_error := None;
          last_notify := last_notify state; down_since := None |}, Recovered downtime)
    else
      ({| health := health state; consecutive_fails := 0; consecutive_oks := oks; last_error := None;
          last_notify := last_notify state; down_since := down_since state |}, NoTransition)
  else
    let fails := sat_add u32_max (consecutive_fails state) 1 in
    let err := match error with Some e => Some e | None => last_error state end in
    if bool_decide (health state = Up) && (N.max fail_threshold 1 <=? fails)%N then
      ({| health := Down; consecutive_fails := 0; consecutive_oks := 0; last_error := err;
          last_notify := last_notify state; down_since := Some now |},
       WentDown (unwrap_or err §"unknown error"))
    else
      ({| health := health state; consecutive_fails := fails; consecutive_oks := 0; last_error := err;
          last_notify := last_notify state; down_since := down_since state |}, NoTransition).

Definition cooldown_ok (state : ProfileState) (cooldown now : N) : bool :=
  match last_notify state with
  | None => true
  | Some t => (cooldown <=? now - t)%N
  end.

(** * Messages *)

Definition format_duration (d : N) : bytes :=
  let secs := (d / 1000)%N in
  if (secs <? 60)%N then show secs ++ §"s" else
  if (secs <? 3600)%N then show (secs / 60) ++ §"m " ++ show (secs mod 60) ++ §"s" else
  show (secs / 3600) ++ §"h " ++ show (secs mod 3600 / 60) ++ §"m".

Definition endpoint_key (proxy : UpstreamProxy) : bytes :=
  match proxy with
  | Socks5 host port _ _ => §"socks5|" ++ host ++ §"|" ++ show port
  | Http host port _ => §"http|" ++ host ++ §"|" ++ show port
  | Direct => §"direct"
  end.

Definition profiles_label (names : list bytes) : bytes := join §", " names.

Definition MAX_ERROR_CHARS : nat := 280.
Definition short_error (error : bytes) : bytes :=
  let line := trim (unwrap_or (head (lines error)) error) in
  if chars_count line <=? MAX_ERROR_CHARS then line else take_chars MAX_ERROR_CHARS line ++ §"…".

Definition down_message (profiles : list bytes) (proxy : UpstreamProxy) (probe_label error : bytes) : bytes :=
  §"🔴 <b>Upstream DOWN</b>" ++ [LF; LF]
  ++ §"📍 <b>Profiles</b>" ++ [LF] ++ §"<code>" ++ escape_html (profiles_label profiles) ++ §"</code>" ++ [LF; LF]
  ++ §"🔌 <b>Endpoint</b>" ++ [LF] ++ §"<code>" ++ escape_html (show_proxy proxy) ++ §"</code>" ++ [LF; LF]
  ++ §"🎯 <b>Probe</b>" ++ [LF] ++ §"<code>" ++ escape_html probe_label ++ §"</code>" ++ [LF; LF]
  ++ §"⚠️ <b>Error</b>" ++ [LF] ++ §"<pre>" ++ escape_html (short_error error) ++ §"</pre>".

Definition up_message (profiles : list bytes) (proxy : UpstreamProxy) (downtime : N) : bytes :=
  §"🟢 <b>Upstream RECOVERED</b>" ++ [LF; LF]
  ++ §"📍 <b>Profiles</b>" ++ [LF] ++ §"<code>" ++ escape_html (profiles_label profiles) ++ §"</code>" ++ [LF; LF]
  ++ §"🔌 <b>Endpoint</b>" ++ [LF] ++ §"<code>" ++ escape_html (show_proxy proxy) ++ §"</code>" ++ [LF; LF]
  ++ §"⏱ <b>Downtime</b>" ++ [LF] ++ §"<code>" ++ escape_html (format_duration downtime) ++ §"</code>".

Definition startup_message (mon : UpstreamMonitorConfig) (telegram : TelegramConfig) : bytes :=
  §"✅ <b>SNIrelay monitor online</b>" ++ [LF; LF]
  ++ §"⏱ interval <code>" ++ show (N.max (interval_secs mon) 15) ++ §"s</code> · timeout <code>"
  ++ show (N.max (timeout_secs mon) 1) ++ §"s</code>" ++ [LF]
  ++ §"📉 fail after <code>" ++ show (N.max (fail_threshold mon) 1) ++ §"</code> · recover after <code>"
  ++ show (N.max (recover_threshold mon) 1) ++ §"</code>" ++ [LF]
  ++ §"🎯 probe <code>" ++ escape_html (probe_targets_label mon) ++ §"</code>" ++ [LF]
  ++ §"🌐 api <code>" ++ escape_html (api_base_url telegram) ++ §"</code>".

(** * The endpoints to check *)

Definition wanted `{HashOrder} (reg : UpstreamRegistry) (mon : UpstreamMonitorConfig)
    : list (bytes * UpstreamProxy) :=
  if decide (mon_profiles mon = []) then
    filter (λ p, p.2 ≠ Direct) (hash_iter (UpstreamRegistry.profiles reg))
  else
    omap (λ name, proxy ← UpstreamRegistry.profiles reg !! name;
                  if decide (proxy = Direct) then None else Some (name, proxy)) (mon_profiles mon).

(** The loop over the wanted profiles. *)
Definition add_target (by_endpoint : gmap bytes MonitorTarget) (p : bytes * UpstreamProxy)
    : gmap bytes MonitorTarget :=
  let k := endpoint_key p.2 in
  match by_endpoint !! k with
  | Some t =>
      if decide (p.1 ∈ profiles t) then by_endpoint
      else <[k := {| key := key t; proxy := proxy t; profiles := profiles t ++ [p.1] |}]> by_endpoint
  | None => <[k := {| key := k; proxy := p.2; profiles := [p.1] |}]> by_endpoint
  end.

Definition sort_profiles (t : MonitorTarget) : MonitorTarget :=
  {| key := key t; proxy := proxy t; profiles := merge_sort bytes_le (profiles t) |}.

(** [a.profiles[0]]; a target has at least one profile (below). *)
Definition first_profile (t : MonitorTarget) : bytes := unwrap_or (profiles t !! 0) [].
Definition target_le (a b : MonitorTarget) : Prop := bytes_le (first_profile a) (first_profile b).
#[global] Instance target_le_dec : RelDecision target_le.
Proof. intros a b. unfold target_le. apply _. Defined.

Definition targets_to_check `{HashOrder} (reg : UpstreamRegistry) (mon : UpstreamMonitorConfig)
    : list MonitorTarget :=
  let by_endpoint := foldl add_target ∅ (wanted reg mon) in
  merge_sort target_le (sort_profiles <$> (hash_iter by_endpoint).*2).

(** * The loop *)

Section monitor.
Context `{HashOrder} `{CurlEnv}.
Context (net : N → bytes → Dial).
(** The registry is edited by the panel while the monitor runs. *)
Context (registry : N → UpstreamRegistry).
(** [format!("{e:#}")] of an error of the probe. *)
Context (error_text : ConnError → bytes).

(** An alert handed to [telegram::notify]. *)
Record Alert := { alert_key : bytes; alert_time : N; alert_text : bytes }.

Record MonitorState := { states : gmap bytes ProfileState; alerts : list Alert }.

Definition notified (state : ProfileState) (now : N) : ProfileState :=
  {| health := health state; consecutive_fails := consecutive_fails state;
     consecutive_oks := consecutive_oks state; last_error := last_error state;
     last_notify := Some now; down_since := down_since state |}.

(** What a transition has to say: the alert, when one is due. *)
Definition alert_for (mon : UpstreamMonitorConfig) (target : MonitorTarget) (transition : Transition)
    : option bytes :=
  match transition with
  | WentDown error => Some (down_message (profiles target) (proxy target) (probe_targets_label mon) error)
  | Recovered downtime =>
      if notify_recovery mon then Some (up_message (profiles target) (proxy target) downtime) else None
  | NoTransition => None
  end.

(** The part of the body after the probe: the state of the endpoint, and the alert to send. *)
Definition on_result (mon : UpstreamMonitorConfig) (target : MonitorTarget) (state : ProfileState)
    (result : result ConnError unit) (now : N) : ProfileState * option bytes :=
  let '(ok, err) := match result with Ok _ => (true, None) | Err e => (false, Some (error_text e)) end in
  let '(state, transition) :=
    apply_probe_result state ok err (fail_threshold mon) (recover_threshold mon) now in
  match alert_for mon target transition with
  | Some msg =>
      if cooldown_ok state (notify_cooldown_secs mon * 1000) now then (notified state now, Some msg)
      else (state, None)
  | None => (state, None)
  end.

Definition check_target {E} (mon : UpstreamMonitorConfig) (telegram : TelegramConfig) (timeout : N)
    (target : MonitorTarget) (s : MonitorState) : IO E MonitorState :=
  result ← attempt (check_upstream net (proxy target) timeout (probe_targets mon));
  now ← get_now;
  let state := unwrap_or (states s !! key target) ProfileState_default in
  let '(state, alert) := on_result mon target state result now in
  let s := {| states := <[key target := state]> (states s);
              alerts := alerts s ++ match alert with
                                    | Some msg => [{| alert_key := key target; alert_time := now;
                                                      alert_text := msg |}]
                                    | None => []
                                    end |} in
  _ ← match alert with Some msg => notify telegram msg | None => mret tt end;
  _ ← sleep 250;
  mret s.

Fixpoint check_targets {E} (mon : UpstreamMonitorConfig) (telegram : TelegramConfig) (timeout : N)
    (targets : list MonitorTarget) (s : MonitorState) : IO E MonitorState :=
  match targets with
  | [] => mret s
  | target :: targets =>
      s ← check_target mon telegram timeout target s;
      check_targets mon telegram timeout targets s
  end.

(** The endless loop, cut after [rounds] rounds. *)
Fixpoint rounds_from {E} (rounds : nat) (mon : UpstreamMonitorConfig) (telegram : TelegramConfig)
    (interval timeout : N) (s : MonitorState) : IO E MonitorState :=
  match rounds with
  | 0 => mret s
  | S rounds =>
      t ← get_now;
      s ← check_targets mon telegram timeout (targets_to_check (registry t) mon) s;
      _ ← sleep interval;
      rounds_from rounds mon telegram interval timeout s
  end.

Definition run_loop {E} (rounds : nat) (mon : UpstreamMonitorConfig) (telegram : TelegramConfig)
    (interval timeout : N) : IO E MonitorState :=
  _ ← sleep 5000;
  rounds_from rounds mon telegram interval timeout {| states := ∅; alerts := [] |}.

(** [start], and the task it spawns; [None] when the monitor is disabled. *)
Definition start {E} (rounds : nat) (mon : UpstreamMonitorConfig) (telegram : TelegramConfig)
    : IO E (option MonitorState) :=
  if negb (mon_enabled mon) then mret None else
  let interval := (N.max (interval_secs mon) 15 * 1000)%N in
  let timeout := (N.max (timeout_secs mon) 1 * 1000)%N in
  _ ← (if is_configured telegram then notify telegram (startup_message mon telegram) else mret tt);
  s ← run_loop rounds mon telegram interval timeout;
  mret (Some s).

End monitor.

(** * The hysteresis *)

(** A probe as the monitor sees it. *)
Record Probe := { probe_ok : bool; probe_error : bytes; probe_time : N }.

(** A reference definition of the health of an endpoint, from its history (the latest probe
    first): it goes down on the [F]-th failure in a row, and up again on the [R]-th success
    in a row. *)
Fixpoint streak (b : bool) (history : list Probe) : N :=
  match history with
  | p :: h => if Bool.eqb (probe_ok p) b then (1 + streak b h)%N else 0%N
  | [] => 0
  end.

Section spec.
Context (F R : N).

Fixpoint spec_health (history : list Probe) : Health :=
  match history with
  | [] => Up
  | p :: h =>
      match spec_health h with
      | Up => if (N.max F 1 <=? streak false history)%N then Down else Up
      | Down => if (N.max R 1 <=? streak true history)%N then Up else Down
      end
  end.

(** Since when it has been down. *)
Fixpoint spec_down_since (history : list Probe) : option N :=
  match history with
  | [] => None
  | p :: h =>
      match spec_health h, spec_health history with
      | Up, Down => Some (probe_time p)
      | Down, Up => None
      | _, _ => spec_down_since h
      end
  end.

Definition spec_transition (p : Probe) (history : list Probe) : Transition :=
  match spec_health history, spec_health (p :: history) with
  | Up, Down => WentDown (probe_error p)
  | Down, Up => Recovered (probe_time p - unwrap_or (spec_down_since history) 0%N)
  | _, _ => NoTransition
  end.

(** The monitor's own state over a history. *)
Definition observe (state : ProfileState) (p : Probe) : ProfileState * Transition :=
  apply_probe_result state (probe_ok p) (if probe_ok p then None else Some (probe_error p))
    F R (probe_time p).
Definition observe_all (history : list Probe) : ProfileState :=
  foldr (λ p s, (observe s p).1) ProfileState_default history.

Record tracks (state : ProfileState) (history : list Probe) : Prop := {
  tracks_health : health state = spec_health history;
  tracks_since : down_since state = spec_down_since history;
  tracks_down : health state = Down → is_Some (down_since state);
  tracks_fails : health state = Up → consecutive_fails state = N.min u32_max (streak false history);
  tracks_oks : health state = Down → consecutive_oks state = N.min u32_max (streak true history);
}.

Lemma streak_other b p h : probe_ok p ≠ b → streak b (p :: h) = 0%N.
Proof. cbn [streak]. by destruct (probe_ok p), b. Qed.

Lemma threshold_0 T : (N.max T 1 <=? 0)%N = false.
Proof. apply N.leb_gt. lia. Qed.

(** The counters saturate above any threshold. *)
Lemma threshold_sat T n :
  (T ≤ u32_max)%N → (N.max T 1 <=? sat_add u32_max (N.min u32_max n) 1)%N = (N.max T 1 <=? 1 + n)%N.
Proof.
  unfold sat_add, u32_max. intros HT.
  destruct (N.leb_spec (N.max T 1) (1 + n)); [apply N.leb_le | apply N.leb_gt]; lia.
Qed.
Lemma sat_add_min n : sat_add u32_max (N.min u32_max n) 1 = N.min u32_max (1 + n).
Proof. unfold sat_add. lia. Qed.

Lemma observe_tracks state history p :
  (F ≤ u32_max)%N → (R ≤ u32_max)%N → tracks state history →
  tracks (observe state p).1 (p :: history) ∧ (observe state p).2 = spec_transition p history.
Proof.
  intros HF HR [Hh Hs Hd Hf Ho]. unfold observe, apply_probe_result, spec_transition.
  destruct p as [ok err t], state as [hl fails oks lerr lnot since].
  cbn [health down_since consecutive_fails consecutive_oks last_notify last_error] in *.
  cbn [probe_ok probe_error probe_time].
  destruct ok, hl; [ | rewrite Ho by done | rewrite Hf by done | ];
    rewrite ?bool_decide_true, ?bool_decide_false by done; cbn [andb];
    rewrite ?threshold_sat by done; cbn [spec_health streak probe_ok Bool.eqb];
    rewrite <- Hh, ?threshold_0.
  - split; [|done]. split; cbn; rewrite <- ?Hh, <- ?Hs, ?threshold_0; by try lia.
  - destruct (N.leb_spec (N.max R 1) (1 + streak true history)) as [Hle|Hgt].
    + split; [|cbn; rewrite <- Hs; by destruct (Hd eq_refl) as [ds ->]].
      split; cbn; rewrite <- ?Hh, ?(proj2 (N.leb_le _ _) Hle); by try lia.
    + split; [|done]. split; cbn; rewrite <- ?Hh, <- ?Hs, ?(proj2 (N.leb_gt _ _) Hgt), ?sat_add_min; auto; done.
  - destruct (N.leb_spec (N.max F 1) (1 + streak false history)) as [Hle|Hgt].
    + split; [|done]. split; cbn; rewrite <- ?Hh, ?(proj2 (N.leb_le _ _) Hle); by try lia.
    + split; [|done]. split; cbn; rewrite <- ?Hh, <- ?Hs, ?(proj2 (N.leb_gt _ _) Hgt), ?sat_add_min; auto; done.
  - split; [|done]. split; cbn; rewrite <- ?Hh, <- ?Hs, ?threshold_0; by try (auto; lia).
Qed.

Lemma observe_all_tracks history :
  (F ≤ u32_max)%N → (R ≤ u32_max)%N → tracks (observe_all history) history.
Proof.
  intros HF HR. induction history as [|p h IH]; [by split|].
  cbn [observe_all foldr]. by apply observe_tracks.
Qed.
End spec.

(** C34: The health of an endpoint is the hysteresis it is meant to be, for any history of
    probes: it goes down exactly on the [fail_threshold]-th failure in a row, with the error
    of that probe, and up again exactly on the [recover_threshold]-th success in a row, with
    the time since it went down; a threshold of 0 counts as 1, and no alert is raised
    otherwise, so the two kinds of transition alternate. *)
Theorem monitor_hysteresis F R history p :
  (F ≤ u32_max)%N → (R ≤ u32_max)%N →
  health (observe F R (observe_all F R history) p).1 = spec_health F R (p :: history)
  ∧ (observe F R (observe_all F R history) p).2 = spec_transition F R p history.
Proof.
  intros HF HR. destruct (observe_tracks F R (observe_all F R history) history p HF HR) as [Ht Hs];
    [by apply observe_all_tracks|]. split; [apply Ht | done].
Qed.

Definition example_history : list Probe :=
  [{| probe_ok := true; probe_error := []; probe_time := 240000 |};
   {| probe_ok := false; probe_error := §"timeout"; probe_time := 180000 |};
   {| probe_ok := false; probe_error := §"timeout"; probe_time := 120000 |};
   {| probe_ok := true; probe_error := []; probe_time := 60000 |}].
Definition example_probe : Probe := {| probe_ok := true; probe_error := []; probe_time := 300000 |}.

Lemma monitor_hysteresis_witness :
  (observe 2 2 (observe_all 2 2 example_history) example_probe).2 = Recovered 120000.
Proof. apply (monitor_hysteresis 2 2 example_history example_probe); vm_compute; done. Defined.

(** * The endpoints that are checked *)

(** The profiles to watch, and where they lead. *)
Definition watched (reg : UpstreamRegistry) (mon : UpstreamMonitorConfig) (name : bytes)
    (p : UpstreamProxy) : Prop :=
  UpstreamRegistry.profiles reg !! name = Some p ∧ p ≠ Direct
  ∧ (mon_profiles mon = [] ∨ name ∈ mon_profiles mon).

Lemma elem_of_wanted `{HashOrder} reg mon name p :
  (name, p) ∈ wanted reg mon ↔ watched reg mon name p.
Proof.
  unfold wanted, watched. case_decide as Hm.
  - rewrite list_elem_of_filter, elem_of_hash_iter. cbn. tauto.
  - rewrite list_elem_of_omap. split.
    + intros (n & Hn & Ho). destruct (UpstreamRegistry.profiles reg !! n) as [q|] eqn:E; [|done].
      cbn in Ho. case_decide; [done|]. simplify_eq. auto.
    + intros (Hn & Hd & [?|Hin]); [done|]. exists name. split; [done|]. rewrite Hn. cbn.
      by rewrite decide_False.
Qed.

(** What the map of targets holds after a list of profiles. *)
Record targets_inv (l : list (bytes * UpstreamProxy)) (m : gmap bytes MonitorTarget) : Prop := {
  inv_key k t : m !! k = Some t → key t = k ∧ endpoint_key (proxy t) = k;
  inv_nodup k t : m !! k = Some t → NoDup (profiles t);
  inv_names k t name : m !! k = Some t →
    name ∈ profiles t ↔ ∃ p, (name, p) ∈ l ∧ endpoint_key p = k;
  inv_proxy k t : m !! k = Some t → ∃ name, (name, proxy t) ∈ l;
  inv_all name p : (name, p) ∈ l → is_Some (m !! endpoint_key p);
}.

Lemma targets_inv_empty : targets_inv [] ∅.
Proof. split; intros *; rewrite ?lookup_empty; try done. by intros ?%elem_of_nil. Qed.

(** Adding a profile replaces the target of its endpoint only. *)
Lemma add_target_insert l m name p :
  targets_inv l m →
  ∃ t, add_target m (name, p) = <[endpoint_key p := t]> m
  ∧ key t = endpoint_key p ∧ endpoint_key (proxy t) = endpoint_key p ∧ NoDup (profiles t)
  ∧ (∃ nm, (nm, proxy t) ∈ l ++ [(name, p)])
  ∧ ∀ nm, nm ∈ profiles t ↔ nm = name ∨ ∃ q, (nm, q) ∈ l ∧ endpoint_key q = endpoint_key p.
Proof.
  intros [Hk Hn Hns Hp Ha]. unfold add_target. cbn [fst snd].
  destruct (m !! endpoint_key p) as [t|] eqn:E.
  - destruct (Hk _ _ E) as [Hk1 Hk2]. destruct (Hp _ _ E) as [nm0 Hnm0].
    case_decide as Hin.
    + exists t. rewrite insert_id by done. split_and!; [done | done | done | by eapply Hn | |].
      * exists nm0. set_solver.
      * intros nm. rewrite <- (Hns _ _ nm E). naive_solver.
    + eexists. split; [done|]. cbn [key proxy profiles]. split_and!; [done | done | | |].
      * apply NoDup_app. split_and!; [by eapply Hn | set_solver | apply NoDup_singleton].
      * exists nm0. set_solver.
      * intros nm. rewrite elem_of_app, list_elem_of_singleton, (Hns _ _ nm E). tauto.
  - eexists. split; [done|]. cbn [key proxy profiles]. split_and!; [done | done | apply NoDup_singleton | |].
    + exists name. set_solver.
    + intros nm. rewrite list_elem_of_singleton. split; [by left|]. intros [?|(q & Hq & Hqk)]; [done|].
      apply Ha in Hq. rewrite Hqk, E in Hq. by destruct Hq.
Qed.

Lemma elem_of_snoc {A} (l : list A) x y : x ∈ l ++ [y] ↔ x ∈ l ∨ x = y.
Proof. by rewrite elem_of_app, list_elem_of_singleton. Qed.

Lemma add_target_inv l m name p :
  targets_inv l m → targets_inv (l ++ [(name, p)]) (add_target m (name, p)).
Proof.
  intros Hinv. destruct (add_target_insert l m name p Hinv) as (t & -> & Ht1 & Ht2 & Ht3 & Ht4 & Ht5).
  destruct Hinv as [Hk Hn Hns Hp Ha]. split.
  - intros k t' [[<- <-]|[_ Ht']]%lookup_insert_Some; [done | by apply Hk].
  - intros k t' [[<- <-]|[_ Ht']]%lookup_insert_Some; [done | by eapply Hn].
  - intros k t' nm [[<- <-]|[Hne Ht']]%lookup_insert_Some.
    + rewrite Ht5. setoid_rewrite elem_of_snoc. split.
      * intros [->|(q & ? & ?)]; [exists p | exists q]; auto.
      * intros (q & [?|?] & ?); simplify_eq; eauto.
    + rewrite (Hns k t' nm Ht'). setoid_rewrite elem_of_snoc. split.
      * intros (q & ? & ?). eauto.
      * intros (q & [?|?] & ?); simplify_eq; eauto.
  - intros k t' [[<- <-]|[_ Ht']]%lookup_insert_Some; [done|].
    destruct (Hp k t' Ht') as [nm ?]. exists nm. rewrite elem_of_snoc. by left.
  - intros nm q. rewrite elem_of_snoc, lookup_insert_is_Some. intros [Hq|[= -> ->]]; [|by left].
    destruct (decide (endpoint_key p = endpoint_key q)); [by left|]. right. split; [done|by eapply Ha].
Qed.

Lemma add_targets_inv l : targets_inv l (foldl add_target ∅ l).
Proof.
  induction l as [|[name p] l IH] using rev_ind; [apply targets_inv_empty|].
  rewrite foldl_snoc. by apply add_target_inv.
Qed.

#[global] Instance target_le_trans : Transitive target_le.
Proof. intros a b c. unfold target_le. apply transitivity. Qed.
#[global] Instance target_le_total : Total target_le.
Proof. intros a b. unfold target_le. apply total, _. Qed.

Lemma elem_of_targets `{HashOrder} reg mon t :
  t ∈ targets_to_check reg mon ↔
  ∃ t0, t = sort_profiles t0 ∧ foldl add_target ∅ (wanted reg mon) !! key t0 = Some t0.
Proof.
  unfold targets_to_check. rewrite merge_sort_Permutation, list_elem_of_fmap.
  pose proof (add_targets_inv (wanted reg mon)) as Hinv.
  set (m := foldl add_target ∅ (wanted reg mon)) in *. split.
  - intros (t0 & -> & ([k t1] & -> & Hin)%list_elem_of_fmap). apply elem_of_hash_iter in Hin.
    exists t1. split; [done|]. by rewrite (proj1 (inv_key _ _ Hinv k t1 Hin)).
  - intros (t0 & -> & Ht0). exists t0. split; [done|]. apply list_elem_of_fmap.
    exists (key t0, t0). by rewrite elem_of_hash_iter.
Qed.

(** Each round checks every watched endpoint once, on behalf of all its profiles, in any
    iteration order of the hash maps: the targets have distinct endpoints; the profiles of
    a target are exactly the watched ones that lead to its endpoint, sorted, without
    repetition and at least one; every watched profile is in the target of its endpoint; a
    direct profile is never probed; and the targets come in the order of their first
    profiles. *)
Theorem targets_to_check_spec `{HashOrder} reg mon :
  let targets := targets_to_check reg mon in
  NoDup (key <$> targets) ∧ StronglySorted target_le targets
  ∧ (∀ t, t ∈ targets →
     key t = endpoint_key (proxy t) ∧ (∃ name, watched reg mon name (proxy t))
     ∧ profiles t ≠ [] ∧ NoDup (profiles t) ∧ StronglySorted bytes_le (profiles t)
     ∧ ∀ name, name ∈ profiles t ↔ ∃ p, watched reg mon name p ∧ endpoint_key p = key t)
  ∧ (∀ name p, watched reg mon name p → ∃ t, t ∈ targets ∧ key t = endpoint_key p ∧ name ∈ profiles t).
Proof.
  cbv zeta. pose proof (add_targets_inv (wanted reg mon)) as Hinv.
  split_and!.
  - unfold targets_to_check. rewrite merge_sort_Permutation, <- list_fmap_compose.
    set (m := foldl add_target ∅ (wanted reg mon)) in *.
    assert (key ∘ sort_profiles <$> (hash_iter m).*2 = (hash_iter m).*1) as ->;
      [|apply NoDup_hash_iter_keys].
    rewrite <- list_fmap_compose. apply list_fmap_ext. intros i [k t] Hi.
    apply list_elem_of_lookup_2, elem_of_hash_iter in Hi. by destruct (inv_key _ _ Hinv k t Hi).
  - apply StronglySorted_merge_sort; apply _.
  - intros t (t0 & -> & Ht0)%elem_of_targets. cbn [key proxy profiles sort_profiles].
    destruct (inv_key _ _ Hinv _ _ Ht0) as [_ Hk]. destruct (inv_proxy _ _ Hinv _ _ Ht0) as [nm Hnm].
    assert (∀ name, name ∈ profiles t0 ↔ ∃ p, watched reg mon name p ∧ endpoint_key p = key t0) as Hns.
    { intros name. rewrite (inv_names _ _ Hinv _ _ name Ht0). by setoid_rewrite elem_of_wanted. }
    split_and!.
    + done.
    + exists nm. by apply elem_of_wanted.
    + intros E. assert (nm ∈ merge_sort bytes_le (profiles t0)) as Hin.
      { rewrite merge_sort_Permutation, Hns. exists (proxy t0). by rewrite <- elem_of_wanted. }
      rewrite E in Hin. by apply elem_of_nil in Hin.
    + rewrite merge_sort_Permutation. by eapply inv_nodup.
    + apply StronglySorted_merge_sort; apply _.
    + intros name. by rewrite merge_sort_Permutation.
  - intros name p Hw. apply elem_of_wanted in Hw as Hin.
    destruct (inv_all _ _ Hinv _ _ Hin) as [t0 Ht0]. destruct (inv_key _ _ Hinv _ _ Ht0) as [Hk1 _].
    exists (sort_profiles t0). split_and!; [|done|].
    + apply elem_of_targets. exists t0. by rewrite Hk1.
    + cbn [profiles sort_profiles]. rewrite merge_sort_Permutation, (inv_names _ _ Hinv _ _ name Ht0). eauto.
Qed.

(** * Alerts and their cooldown *)

Section cooldown.
Context `{HashOrder} `{CurlEnv}.
Context (net : N → bytes → Dial) (registry : N → UpstreamRegistry) (error_text : ConnError → bytes).

Lemma apply_probe_result_notify s ok err F R t :
  last_notify (apply_probe_result s ok err F R t).1 = last_notify s.
Proof. unfold apply_probe_result. by repeat case_match. Qed.

(** An alert is recorded, and comes no sooner than the cooldown after the last one. *)
Lemma on_result_notify mon target st r t st' alert :
  on_result error_text mon target st r t = (st', alert) →
  match alert with
  | Some _ => last_notify st' = Some t
      ∧ ∀ t0, last_notify st = Some t0 → (t0 ≤ t)%N → (t0 + notify_cooldown_secs mon * 1000 ≤ t)%N
  | None => last_notify st' = last_notify st
  end.
Proof.
  unfold on_result.
  set (oe := match r with Ok _ => (true, None) | Err e => (false, Some (error_text e)) end).
  destruct oe as [ok err].
  pose proof (apply_probe_result_notify st ok err (fail_threshold mon) (recover_threshold mon) t) as Hn.
  destruct (apply_probe_result _ _ _ _ _ _) as [st1 tr]. cbn in Hn.
  destruct (alert_for mon target tr) as [msg|]; [|by intros [= <- <-]].
  unfold cooldown_ok. rewrite Hn. destruct (last_notify st) as [t0|].
  - destruct (N.leb_spec (notify_cooldown_secs mon * 1000) (t - t0)); intros [= <- <-]; [|done].
    split; [done|]. intros t1 [= <-] ?. lia.
  - intros [= <- <-]. by split.
Qed.

Record cooled (cooldown : N) (t : N) (s : MonitorState) : Prop := {
  cooled_last a : a ∈ alerts s → ∃ st t0, states s !! alert_key a = Some st
    ∧ last_notify st = Some t0 ∧ (alert_time a ≤ t0 ≤ t)%N;
  cooled_apart i j a b : alerts s !! i = Some a → alerts s !! j = Some b → i < j →
    alert_key a = alert_key b → (alert_time a + cooldown ≤ alert_time b)%N;
  cooled_states k st t0 : states s !! k = Some st → last_notify st = Some t0 → (t0 ≤ t)%N;
}.

Lemma cooled_later cooldown t t' s : (t ≤ t')%N → cooled cooldown t s → cooled cooldown t' s.
Proof.
  intros Ht [H1 H2 H3]. split; [|done|].
  - intros a (st & t0 & ? & ? & ?)%H1. exists st, t0. split_and!; auto; lia.
  - intros k st t0 Hk Hl. specialize (H3 _ _ _ Hk Hl). lia.
Qed.

Lemma cooled_empty cooldown t : cooled cooldown t {| states := ∅; alerts := [] |}.
Proof. split; cbn; [by intros a ?%elem_of_nil | done | done]. Qed.

(** The monitor's state after one result. *)
Definition after_result (s : MonitorState) (k : bytes) (t : N) (st : ProfileState)
    (alert : option bytes) : MonitorState :=
  {| states := <[k := st]> (states s);
     alerts := alerts s ++ match alert with
                           | Some msg => [{| alert_key := k; alert_time := t; alert_text := msg |}]
                           | None => []
                           end |}.

Lemma cooled_result mon target s r t t' st alert :
  let cooldown := (notify_cooldown_secs mon * 1000)%N in
  cooled cooldown t s → (t ≤ t')%N →
  on_result error_text mon target (unwrap_or (states s !! key target) ProfileState_default) r t' = (st, alert) →
  cooled cooldown t' (after_result s (key target) t' st alert).
Proof.
  cbv zeta. intros Hc Ht Hr. apply (cooled_later _ _ _ _ Ht) in Hc as [H1 H2 H3].
  apply on_result_notify in Hr. set (st0 := unwrap_or _ _) in Hr.
  assert (∀ t0, last_notify st0 = Some t0 → (t0 ≤ t')%N) as Hst0.
  { intros t0. unfold st0. destruct (states s !! key target) as [s0|] eqn:E; [apply (H3 _ _ _ E) | done]. }
  assert (∀ a, a ∈ alerts s → alert_key a = key target →
    ∃ t0, last_notify st0 = Some t0 ∧ (alert_time a ≤ t0 ≤ t')%N) as Hlast.
  { intros a (s0 & t0 & Hs0 & Hl & ?)%H1 Hk. unfold st0. rewrite <- Hk, Hs0. eauto. }
  split; unfold after_result; cbn [states alerts].
  - intros a [Ha|Ha]%elem_of_app.
    + destruct (decide (alert_key a = key target)) as [Hk|Hk].
      * destruct (Hlast a Ha Hk) as (t0 & Hl & Hle). rewrite Hk, lookup_insert_eq. exists st.
        destruct alert; [destruct Hr as [Hr _]; exists t' | exists t0; rewrite Hr]; split_and!; done || lia.
      * rewrite lookup_insert_ne by done. by apply H1.
    + destruct alert as [msg|]; [|by apply elem_of_nil in Ha]. apply list_elem_of_singleton in Ha as ->.
      cbn. rewrite lookup_insert_eq. exists st, t'. split_and!; [done | apply Hr | lia | lia].
  - intros i j a b Ha Hb Hij Hk. destruct alert as [msg|]; [|rewrite app_nil_r in *; by eapply H2].
    apply lookup_app_Some in Hb as [Hb|[Hj Hb]].
    + rewrite lookup_app_l in Ha by (apply lookup_lt_Some in Hb; lia). by eapply H2.
    + apply list_lookup_singleton_Some in Hb as [Hj0 <-]. cbn [alert_key alert_time] in *.
      rewrite lookup_app_l in Ha by lia. apply list_elem_of_lookup_2 in Ha.
      destruct (Hlast a Ha Hk) as (t0 & Hl & Hle). destruct Hr as [_ Hr]. specialize (Hr t0 Hl). lia.
  - intros k s1 t0 [[<- <-]|[_ Hk]]%lookup_insert_Some; [|by apply (H3 _ _ _ Hk)].
    destruct alert; [destruct Hr as [-> _]; intros [= <-]; lia | rewrite Hr; apply Hst0].
Qed.

Lemma notify_advances {E} cfg text : advances (notify (E := E) cfg text).
Proof.
  intros w r w' Hn. destruct (notify_returns (E := E) cfg text w) as (w1 & Hw & Ht).
  rewrite Hw in Hn. by injection Hn as _ <-.
Qed.
Hint Resolve notify_advances : snirelay.

Lemma check_target_cooled {E} mon tg timeout target s w s' w' :
  let cooldown := (notify_cooldown_secs mon * 1000)%N in
  cooled cooldown (now w) s →
  check_target (E := E) net error_text mon tg timeout target s w = Some (Ok s', w') →
  cooled cooldown (now w') s' ∧ (now w ≤ now w')%N.
Proof.
  cbv zeta. intros Hc H1. unfold check_target in H1.
  apply bind_ok_inv in H1 as (r & w1 & Hp & H1).
  apply (advances_attempt _ (check_upstream_advances net _ _ _)) in Hp.
  apply bind_ok_inv in H1 as (t & w2 & [= <- <-] & H1). cbv zeta in H1.
  destruct (on_result _ _ _ _ _ _) as [st alert] eqn:Er.
  apply (cooled_result _ _ _ _ _ _ _ _ Hc Hp) in Er. unfold after_result in Er.
  apply bind_ok_inv in H1 as ([] & w3 & Hn & H1).
  assert (now w1 ≤ now w3)%N as Ha3.
  { destruct alert; [by apply notify_advances in Hn | by injection Hn as <-]. }
  apply bind_ok_inv in H1 as ([] & w4 & Hs & [= <- <-]). apply advances_sleep in Hs.
  split; [|lia]. eapply cooled_later; [|exact Er]. lia.
Qed.

Lemma check_targets_cooled {E} mon tg timeout targets s w s' w' :
  let cooldown := (notify_cooldown_secs mon * 1000)%N in
  cooled cooldown (now w) s →
  check_targets (E := E) net error_text mon tg timeout targets s w = Some (Ok s', w') →
  cooled cooldown (now w') s' ∧ (now w ≤ now w')%N.
Proof.
  cbv zeta. revert s w. induction targets as [|target targets IH]; intros s w Hc; cbn [check_targets].
  - intros [= <- <-]. by split.
  - intros (s1 & w1 & H1 & H2)%bind_ok_inv. apply check_target_cooled in H1 as [Hc1 Ht1]; [|done].
    apply IH in H2 as [Hc2 Ht2]; [|done]. split; [done|lia].
Qed.

Lemma rounds_cooled {E} rounds mon tg interval timeout s w s' w' :
  let cooldown := (notify_cooldown_secs mon * 1000)%N in
  cooled cooldown (now w) s →
  rounds_from (E := E) net registry error_text rounds mon tg interval timeout s w = Some (Ok s', w') →
  cooled cooldown (now w') s'.
Proof.
  cbv zeta. revert s w. induction rounds as [|rounds IH]; intros s w Hc; cbn [rounds_from].
  - by intros [= <- <-].
  - intros (t & w1 & [= <- <-] & H1)%bind_ok_inv. apply bind_ok_inv in H1 as (s1 & w2 & H1 & H2).
    apply check_targets_cooled in H1 as [Hc1 _]; [|done].
    apply bind_ok_inv in H2 as ([] & w3 & Hs%advances_sleep & H2).
    eapply IH; [|exact H2]. by eapply cooled_later.
Qed.

(** C35: However long the monitor runs, and whatever the proxies, the registry and curl do
    meanwhile, two alerts about the same endpoint are never closer than the configured
    cooldown. *)
Theorem alerts_respect_cooldown {E} rounds mon telegram interval timeout w s w' :
  run_loop (E := E) net registry error_text rounds mon telegram interval timeout w = Some (Ok s, w') →
  ∀ i j a b, alerts s !! i = Some a → alerts s !! j = Some b → i < j → alert_key a = alert_key b →
  (alert_time a + notify_cooldown_secs mon * 1000 ≤ alert_time b)%N.
Proof.
  intros Hr. unfold run_loop in Hr. apply bind_ok_inv in Hr as ([] & w1 & _ & Hr).
  apply rounds_cooled in Hr; [apply Hr | apply cooled_empty].
Qed.
End cooldown.

(** * Concrete runs *)

(** The proxy is down for [from <= t < until], and answers at once otherwise. *)
Definition alive_stream : Stream :=
  {| rx := [(0, Data ok_head); (0, Data [x16; x03; x03; x00; x01; x02])]%N;
     wr := []; tx := []; nodelay_ok := true |}.
Definition outage_net (outages : list (N * N)) (t : N) (_ : bytes) : Dial :=
  if existsb (λ o, (o.1 <=? t) && (t <? o.2))%N outages then DialErr 40 else DialOk 40 alive_stream.

Definition example_curl : CurlEnv :=
  {| path_exists p := bool_decide (p = §"/usr/bin/curl"); run_curl _ _ _ := Exited 300 true §"{}" [];
     json_reply _ := Some {| reply_ok := Some true; reply_description := None |} |}.
Definition example_telegram : TelegramConfig :=
  {| bot_token := Some §"1:x"; chat_id := Some §"42"; api_base := default_telegram_api_base |}.
Definition example_registry_at (_ : N) : UpstreamRegistry :=
  {| UpstreamRegistry.profiles := {[ §"main" := Http §"10.0.0.1" 3128 None; §"home" := Direct ]};
     default := §"main"; by_ip := ∅; failover := false |}.
Definition example_error_text (_ : ConnError) : bytes := §"connect failed".

Definition example_run (outages : list (N * N)) (rounds : nat) (mon : UpstreamMonitorConfig)
    : option MonitorState :=
  match @run_loop sorted_order example_curl (outage_net outages) example_registry_at example_error_text
          Empty_set rounds mon example_telegram 60000 10000 start_world with
  | Some (Ok s, _) => Some s
  | _ => None
  end.

(** With the default thresholds and cooldown, an outage of two minutes is announced, but
    its end never is: the alert of the recovery falls in the cooldown started by the alert of
    the outage, and is dropped, not delayed.  Ten minutes of healthy probes later the last
    word of the monitor is still that the upstream is down. *)
Theorem recovery_alert_lost :
  let s := example_run [(0, 150000)]%N 16 UpstreamMonitorConfig_default in
  (λ s, alert_text <$> alerts s) <$> s
    = Some [down_message [§"main"] (Http §"10.0.0.1" 3128 None) §"ifconfig.io:443" §"connect failed"]
  ∧ (λ s, health <$> states s !! §"http|10.0.0.1|3128") <$> s = Some (Some Up)
  ∧ notify_recovery UpstreamMonitorConfig_default = true.
Proof. split_and!; by vm_compute. Qed.

Definition example_monitor : UpstreamMonitorConfig :=
  {| mon_enabled := true; interval_secs := 60; timeout_secs := 10; fail_threshold := 1;
     recover_threshold := 1; notify_recovery := true; notify_cooldown_secs := 60; mon_profiles := [];
     probe_host := §"ifconfig.io"; probe_port := 443; probe_hosts := [] |}.

Lemma alerts_respect_cooldown_witness :
  ∃ s w' a b, @run_loop sorted_order example_curl (outage_net [(0, 70000)]%N) example_registry_at
    example_error_text Empty_set 4 example_monitor example_telegram 60000 10000 start_world
    = Some (Ok s, w')
  ∧ alerts s = [a; b] ∧ (alert_time a + 60 * 1000 ≤ alert_time b)%N.
Proof.
  assert (∃ sts w' a b, @run_loop sorted_order example_curl (outage_net [(0, 70000)]%N)
    example_registry_at example_error_text Empty_set 4 example_monitor example_telegram 60000 10000
    start_world = Some (Ok {| states := sts; alerts := [a; b] |}, w') ∧ alert_key a = alert_key b)
    as (sts & w' & a & b & E & Hk).
  { do 4 eexists. split; [vm_compute; reflexivity | reflexivity]. }
  eexists _, w', a, b. split; [exact E|]. split; [reflexivity|].
  exact (@alerts_respect_cooldown _ _ _ _ _ _ _ example_monitor _ _ _ _ _ _ E 0 1 a b
    eq_refl eq_refl ltac:(lia) Hk).
Defined.

Definition shared_endpoint_registry : UpstreamRegistry :=
  {| UpstreamRegistry.profiles :=
       {[ §"alice" := Socks5 §"10.0.0.1" 1080 (Some §"alice") (Some §"old");
          §"bob" := Socks5 §"10.0.0.1" 1080 (Some §"bob") (Some §"new") ]};
     default := §"alice"; by_ip := ∅; failover := false |}.

(** Two profiles with different credentials on one endpoint are probed once, with the
    credentials of one of them; which one depends on the iteration order of the hash map, so
    the health reported for both may change from one process to the next. *)
Theorem probed_credentials_depend_on_hash_order :
  proxy <$> @targets_to_check sorted_order shared_endpoint_registry UpstreamMonitorConfig_default
    = [Socks5 §"10.0.0.1" 1080 (Some §"alice") (Some §"old")]
  ∧ proxy <$> @targets_to_check reverse_order shared_endpoint_registry UpstreamMonitorConfig_default
    = [Socks5 §"10.0.0.1" 1080 (Some §"bob") (Some §"new")].
Proof. split; by vm_compute. Qed.
