(* ===== verification/Splice.v ===== *)
(** src/service.rs, [copy_counting] and [splice]: the two directions of a tunnel, copied by
    two concurrent tasks.

    A step is one turn of the loop of a task: a read, a write to the other side, and the
    accounting of the chunk.  The tasks share the clock and the limiter, and touch disjoint
    halves of the streams, so an execution is a sequence of steps of either task, in any
    order; the theorems quantify over the schedules. *)

From S2P Require Import Prelude RustStr Collections Net Hosts Config DomainLimiter Stream.

Definition SPLICE_BUF_SIZE : nat := 64 * 1024.

#[global] Instance Side_eq_dec : EqDecision Side.
Proof. solve_decision. Defined.

Definition other (sd : Side) : Side := match sd with Client => Upstream | Upstream => Client end.

(** [Blocked]: in a read or a write that never completes. *)
Inductive TaskState := Running | Finished | Blocked.
#[global] Instance TaskState_eq_dec : EqDecision TaskState.
Proof. solve_decision. Defined.

(** The state of both tasks, each named after the side it reads. *)
Record Splice := {
  sp_world : World;
  sp_limiter : option DomainLimiter;
  sp_task : Side → TaskState;
  sp_total : Side → N;
}.

Definition upd {A} (f : Side → A) (sd : Side) (a : A) : Side → A :=
  λ s, if decide (s = sd) then a else f s.

Section splice.
Context `{Unicode} `{HashOrder}.
(** The system clock in seconds, and what other connections do to the limiter up to then. *)
Context (wall : N → N) (others : N → DomainLimiter → DomainLimiter).
Context (domain : bytes).

Definition account (t : N) (n : nat) (limiter : option DomainLimiter)
    : result LimitReason unit * option DomainLimiter :=
  match limiter with
  | None => (Ok tt, None)
  | Some l => let '(r, l) := account_bytes (wall t) domain (N.of_nat n) (others t l) in (r, Some l)
  end.

(** One turn of the loop of [copy_counting]. *)
Definition copy_step (s : Splice) (sd : Side) : Splice :=
  match sp_task s sd with
  | Running =>
      let stop state w :=
        {| sp_world := w; sp_limiter := sp_limiter s; sp_task := upd (sp_task s) sd state;
           sp_total := sp_total s |} in
      match read sd SPLICE_BUF_SIZE (sp_world s) with
      | None => stop Blocked (sp_world s)
      | Some (Err _, w) => stop Finished w
      | Some (Ok b, w) =>
          if decide (b = []) then stop Finished w else
          match write_effect (other sd) b w with
          | (None, w) => stop Blocked w
          | (Some (Err _), w) => stop Finished w
          | (Some (Ok _), w) =>
              let total := wrap 64 (sp_total s sd + N.of_nat (length b)) in
              let '(r, limiter) := account (now w) (length b) (sp_limiter s) in
              {| sp_world := w; sp_limiter := limiter;
                 sp_task := if is_ok r then sp_task s else upd (sp_task s) sd Finished;
                 sp_total := upd (sp_total s) sd total |}
          end
      end
  | _ => s
  end.

Definition splice_start (limiter : option DomainLimiter) (w : World) : Splice :=
  {| sp_world := w; sp_limiter := limiter; sp_task _ := Running; sp_total _ := 0%N |}.

(** The execution along a schedule; a result when both tasks have ended within it. *)
Definition run_splice (schedule : list Side) (s : Splice) : Splice := foldl copy_step s schedule.
Definition splice_result (s : Splice) : option (N * N) :=
  if decide (sp_task s Client = Finished ∧ sp_task s Upstream = Finished)
  then Some (sp_total s Client, sp_total s Upstream) else None.

(** * What is relayed *)

Lemma other_ne sd : other sd ≠ sd.
Proof. by destruct sd. Qed.
Lemma other_other sd : other (other sd) = sd.
Proof. by destruct sd. Qed.
Lemma side_cases sd sd' : sd' = sd ∨ sd' = other sd.
Proof. destruct sd, sd'; auto. Qed.
Lemma upd_eq {A} (f : Side → A) sd a : upd f sd a sd = a.
Proof. unfold upd. by rewrite decide_True. Qed.
Lemma upd_ne {A} (f : Side → A) sd sd' a : sd' ≠ sd → upd f sd a sd' = f sd'.
Proof. intros. unfold upd. by rewrite decide_False. Qed.

(** Reads and writes, for either side. *)
Lemma stream_set_stream sd s w : stream sd (set_stream sd s w) = s.
Proof. by destruct sd. Qed.
Lemma stream_set_stream_ne sd sd' s w : sd' ≠ sd → stream sd' (set_stream sd s w) = stream sd' w.
Proof. by destruct sd, sd'. Qed.
Lemma stream_set_now sd t w : stream sd (set_now t w) = stream sd w.
Proof. by destruct sd. Qed.
Lemma now_set_stream sd s w : now (set_stream sd s w) = now w.
Proof. by destruct sd. Qed.

Lemma read_side sd n w r w' :
  read sd n w = Some (r, w') →
  tx (stream sd w') = tx (stream sd w) ∧ wr (stream sd w') = wr (stream sd w)
  ∧ stream (other sd) w' = stream (other sd) w
  ∧ match r with
    | Ok b => length b ≤ n ∧ arrives sd w = b ++ arrives sd w'
    | Err _ => arrives sd w' = arrives sd w
    end.
Proof.
  unfold read, on_rx, arrives. destruct (read_rx n (now w) (rx (stream sd w))) as [[[r0 t] l]|] eqn:E; [|done].
  intros [= <- <-]. rewrite !stream_set_now, stream_set_stream.
  rewrite stream_set_stream_ne by apply other_ne. split_and!; [done..|].
  by apply read_rx_inv in E as [_ E].
Qed.

(** The part of a chunk that reaches the other side when its write does not complete. *)
Lemma part_of_split n b : b ≠ [] → ∃ rest, b = part_of n b ++ rest ∧ rest ≠ [].
Proof.
  intros Hb. exists (drop (n `min` pred (length b)) b). unfold part_of. rewrite take_drop.
  split; [done|]. intros Hd. apply (f_equal length) in Hd. rewrite length_drop in Hd.
  destruct b; [done|]. cbn in Hd. lia.
Qed.

Definition completes (e : WrEvent) : bool := match e with WrOk _ => true | _ => false end.
Abbreviation all_complete := (Forall (λ e, completes e = true)).

Lemma write_effect_side sd b w o w' :
  b ≠ [] → write_effect sd b w = (o, w') →
  rx (stream sd w') = rx (stream sd w) ∧ stream (other sd) w' = stream (other sd) w
  ∧ (all_complete (wr (stream sd w)) → all_complete (wr (stream sd w')))
  ∧ match o with
    | Some (Ok _) => tx (stream sd w') = tx (stream sd w) ++ b
    | _ => ¬ all_complete (wr (stream sd w))
           ∧ ∃ part rest, b = part ++ rest ∧ rest ≠ [] ∧ tx (stream sd w') = tx (stream sd w) ++ part
    end.
Proof.
  intros Hb. unfold write_effect. destruct (wr (stream sd w)) as [|[d|n|n] q];
    intros [= <- <-]; rewrite ?stream_set_now, ?stream_set_stream;
    rewrite ?stream_set_stream_ne by apply other_ne; cbn; split_and!; try done.
  all: try by (intros Hx; inversion Hx).
  all: destruct (part_of_split n b Hb) as (rest & ? & ?); by exists (part_of n b), rest.
Qed.

Lemma write_side sd b w r w' :
  write_all sd b w = Some (r, w') →
  rx (stream sd w') = rx (stream sd w) ∧ stream (other sd) w' = stream (other sd) w
  ∧ (is_ok r = true → tx (stream sd w') = tx (stream sd w) ++ b).
Proof.
  unfold write_all, write_effect. destruct (wr (stream sd w)) as [|[d|n|n] q]; [| | |done];
    intros [= <- <-]; rewrite ?stream_set_now, ?stream_set_stream;
    rewrite ?stream_set_stream_ne by apply other_ne; by split_and!.
Qed.

(** What one step does: it relays a chunk, or stops the task (of a chunk that was read, some
    bytes may have gone out and the rest is lost); the other direction is left alone. *)
Record step_relays (s s' : Splice) (sd : Side) (b : bytes) : Prop := {
  relays_some : b ≠ [] ∧ length b ≤ SPLICE_BUF_SIZE;
  relays_in : arrives sd (sp_world s) = b ++ arrives sd (sp_world s');
  relays_out : tx (stream (other sd) (sp_world s')) = tx (stream (other sd) (sp_world s)) ++ b;
  relays_total : sp_total s' = upd (sp_total s) sd (wrap 64 (sp_total s sd + N.of_nat (length b)));
  relays_limiter : ∃ t r, account t (length b) (sp_limiter s) = (r, sp_limiter s')
    ∧ sp_task s' = if is_ok r then sp_task s else upd (sp_task s) sd Finished;
}.
Record step_stops (s s' : Splice) (sd : Side) (part rest : bytes) : Prop := {
  stops_in : arrives sd (sp_world s) = part ++ rest ++ arrives sd (sp_world s');
  stops_out : tx (stream (other sd) (sp_world s')) = tx (stream (other sd) (sp_world s)) ++ part;
  stops_lost : part = [] ∧ rest = []
    ∨ length (part ++ rest) ≤ SPLICE_BUF_SIZE ∧ rest ≠ [] ∧ ¬ all_complete (wr (stream (other sd) (sp_world s)));
  stops_total : sp_total s' = sp_total s;
  stops_limiter : sp_limiter s' = sp_limiter s;
  stops_task : ∃ state, state ≠ Running ∧ sp_task s' = upd (sp_task s) sd state;
}.

Lemma stop_nothing s s' sd :
  arrives sd (sp_world s) = arrives sd (sp_world s') →
  tx (stream (other sd) (sp_world s')) = tx (stream (other sd) (sp_world s)) →
  sp_total s' = sp_total s → sp_limiter s' = sp_limiter s →
  (∃ state, state ≠ Running ∧ sp_task s' = upd (sp_task s) sd state) → step_stops s s' sd [] [].
Proof. intros Hi Ho Ht Hl Hk. split; [done | by rewrite app_nil_r | by left | done..]. Qed.

Lemma copy_step_cases s sd :
  let s' := copy_step s sd in
  sp_task s sd = Running →
  ((∃ b, step_relays s s' sd b) ∨ ∃ part rest, step_stops s s' sd part rest)
  ∧ arrives (other sd) (sp_world s') = arrives (other sd) (sp_world s)
  ∧ tx (stream sd (sp_world s')) = tx (stream sd (sp_world s))
  ∧ wr (stream sd (sp_world s')) = wr (stream sd (sp_world s))
  ∧ (all_complete (wr (stream (other sd) (sp_world s))) → all_complete (wr (stream (other sd) (sp_world s')))).
Proof.
  intros s' Hrun. unfold s', copy_step. rewrite Hrun. cbv zeta. clear s'. unfold arrives.
  assert (∀ state, state ≠ Running → ∃ state', state' ≠ Running
    ∧ upd (sp_task s) sd state = upd (sp_task s) sd state') as Hstop by eauto.
  destruct (read sd SPLICE_BUF_SIZE (sp_world s)) as [[r w1]|] eqn:Er.
  2:{ split; [|done]. right. exists [], []. apply stop_nothing; try done. by apply Hstop. }
  apply read_side in Er as (Htx & Hwr & Hoth & Hr). destruct r as [b|e].
  2:{ cbn [sp_world]. rewrite Hoth. split; [|done]. right. exists [], [].
      apply stop_nothing; cbn [sp_world]; [done | by rewrite Hoth | done | done | by apply Hstop]. }
  destruct Hr as [Hlen Hin]. case_decide as Hb.
  { cbn [sp_world]. rewrite Hoth. split; [|done]. right. exists [], []. rewrite Hb in Hin.
    apply stop_nothing; cbn [sp_world]; [done | by rewrite Hoth | done | done | by apply Hstop]. }
  destruct (write_effect (other sd) b w1) as [o w2] eqn:Ew.
  apply write_effect_side in Ew as (Hrx2 & Hoth2 & Hall & Ho); [|done]. rewrite other_other in Hoth2.
  rewrite Hoth in Hall, Ho.
  assert (arrives sd w2 = arrives sd w1) as Hin2 by (unfold arrives; by rewrite Hoth2).
  assert (∀ state, state ≠ Running →
    (¬ all_complete (wr (stream (other sd) (sp_world s)))
     ∧ ∃ part rest, b = part ++ rest ∧ rest ≠ []
       ∧ tx (stream (other sd) w2) = tx (stream (other sd) (sp_world s)) ++ part) →
    ∃ part rest, step_stops s {| sp_world := w2; sp_limiter := sp_limiter s;
      sp_task := upd (sp_task s) sd state; sp_total := sp_total s |} sd part rest) as Hlost.
  { intros state Hst (Hbad & part & rest & -> & Hrest & Ht). exists part, rest.
    split; cbn [sp_world]; [by rewrite Hin2, app_assoc | done | by right | done | done | by apply Hstop]. }
  destruct o as [[u|e]|].
  2-3: cbn [sp_world]; rewrite Hrx2, Hoth, Hoth2; split; [right; by apply Hlost | done].
  destruct (account (now w2) (length b) (sp_limiter s)) as [r limiter] eqn:Ea. cbn [sp_world].
  rewrite Hrx2, Hoth, Hoth2. split; [|done]. left. exists b.
  split; cbn [sp_world sp_total sp_limiter sp_task]; [done | by rewrite Hin2 | done | done |].
  by exists (now w2), r.
Qed.

(** ** Exactly the peer's bytes, in order *)

(** Of the bytes a direction has read: those it has counted, those that went out with a write
    that did not complete, and the rest of that chunk. *)
Record relayed (w0 : World) (s : Splice) (sd : Side) (counted part lost : bytes) : Prop := {
  relayed_in : arrives sd w0 = counted ++ part ++ lost ++ arrives sd (sp_world s);
  relayed_out : tx (stream (other sd) (sp_world s)) = tx (stream (other sd) w0) ++ counted ++ part;
  relayed_total : sp_total s sd = wrap 64 (N.of_nat (length counted));
  relayed_chunk : length (part ++ lost) ≤ SPLICE_BUF_SIZE ∧ (lost = [] → part = []);
  relayed_whole : sp_task s sd = Running ∨ all_complete (wr (stream (other sd) w0)) → lost = [];
  relayed_writes : all_complete (wr (stream (other sd) w0)) →
    all_complete (wr (stream (other sd) (sp_world s)));
}.

Lemma wrap_add a b : wrap 64 (wrap 64 a + b) = wrap 64 (a + b).
Proof. unfold wrap. by rewrite N.Div0.add_mod_idemp_l. Qed.

(** A step of a direction, for that direction. *)
Lemma copy_step_self w0 s sd counted part lost :
  sp_task s sd = Running → relayed w0 s sd counted part lost →
  ∃ counted part lost, relayed w0 (copy_step s sd) sd counted part lost.
Proof.
  intros Hrun [Hi Ho Ht [_ Hp] Hw Hall].
  rewrite (Hw (or_introl Hrun)) in *. rewrite (Hp eq_refl) in *. cbn [app] in *. rewrite app_nil_r in Ho.
  destruct (copy_step_cases s sd Hrun) as (Hstep & _ & _ & _ & Hall').
  destruct Hstep as [(b & [_ Hi' Ho' Ht' _])|(part' & rest & [Hi' Ho' Hl Ht' _ (state & Hne & Hk)])].
  - exists (counted ++ b), [], []. split; try done; [| | | |by auto].
    + by rewrite Hi, Hi', <- app_assoc.
    + by rewrite Ho', Ho, app_nil_r, <- app_assoc.
    + by rewrite Ht', upd_eq, Ht, wrap_add, length_app, Nat2N.inj_add.
    + split; [apply Nat.le_0_l | done].
  - exists counted, part', rest. split.
    + by rewrite Hi, Hi'.
    + by rewrite Ho', Ho, <- app_assoc.
    + by rewrite Ht'.
    + destruct Hl as [[-> ->]|(? & ? & _)]; [split; [apply Nat.le_0_l | done] | by split].
    + rewrite Hk, upd_eq. intros [?|Hc]; [done|]. destruct Hl as [[_ ->]|(_ & _ & Hbad)]; [done|].
      destruct Hbad. by apply Hall.
    + by auto.
Qed.

(** A step of a direction, for the other one. *)
Lemma copy_step_other w0 s sd counted part lost :
  sp_task s sd = Running → relayed w0 s (other sd) counted part lost →
  relayed w0 (copy_step s sd) (other sd) counted part lost.
Proof.
  intros Hrun [Hi Ho Ht Hc Hw Hall]. rewrite other_other in *.
  destruct (copy_step_cases s sd Hrun) as (Hstep & Hin & Hout & Hwr & _).
  assert (sp_total (copy_step s sd) (other sd) = sp_total s (other sd)
    ∧ sp_task (copy_step s sd) (other sd) = sp_task s (other sd)) as [Ht' Hk'].
  { destruct Hstep as [(b & [_ _ _ -> (t & r & _ & ->)])|(part' & rest & [_ _ _ -> _ (state & _ & ->)])].
    - rewrite upd_ne by apply other_ne. split; [done|]. destruct (is_ok r); [done|].
      by rewrite upd_ne by apply other_ne.
    - by rewrite upd_ne by apply other_ne. }
  split; rewrite ?other_other, ?Hin, ?Hout, ?Ht', ?Hk', ?Hwr; done.
Qed.

Lemma run_splice_parts limiter w0 schedule sd :
  ∃ counted part lost, relayed w0 (run_splice schedule (splice_start limiter w0)) sd counted part lost.
Proof.
  set (s0 := splice_start limiter w0).
  assert (∀ sd, ∃ counted part lost, relayed w0 s0 sd counted part lost) as Hinv.
  { intros sd'. exists [], [], []. split; rewrite ?app_nil_r; try done. split; [apply Nat.le_0_l | done]. }
  clearbody s0. revert s0 Hinv. induction schedule as [|x schedule IH]; intros s0 Hinv; [apply Hinv|].
  apply IH. intros sd'. destruct (decide (sp_task s0 x = Running)) as [Hrun|Hrun].
  2:{ assert (copy_step s0 x = s0) as -> by (unfold copy_step; by destruct (sp_task s0 x)). apply Hinv. }
  destruct (Hinv sd') as (counted & part & lost & Hr).
  destruct (side_cases x sd') as [-> | ->]; [by eapply copy_step_self|].
  exists counted, part, lost. by apply copy_step_other.
Qed.

Lemma run_splice_relayed limiter w0 schedule sd :
  let s := run_splice schedule (splice_start limiter w0) in
  ∃ sent lost,
    arrives sd w0 = sent ++ lost ++ arrives sd (sp_world s)
    ∧ tx (stream (other sd) (sp_world s)) = tx (stream (other sd) w0) ++ sent
    ∧ (sp_task s sd = Running → lost = []).
Proof.
  cbv zeta. destruct (run_splice_parts limiter w0 schedule sd) as (counted & part & lost & [Hi Ho _ _ Hw _]).
  exists (counted ++ part), lost. rewrite <- !app_assoc. split_and!; [done | done | auto].
Qed.

(** C4: A tunnel is transparent in both directions, for every schedule of its two tasks and
    whatever becomes of the writes: each side has been sent exactly a prefix of what the
    other side sends, in order, nothing added and nothing left out in the middle.  As long as
    the task of a direction runs, and for good if no write of it fails or blocks, all it has
    read has been delivered and counted.  A write that does not complete ends the direction:
    it may deliver the first part of its chunk, which is not counted, so that the total
    reported falls short of what was delivered by less than one chunk (64 KiB), and never
    exceeds it. *)
Theorem splice_transparent limiter w0 schedule sd :
  let s := run_splice schedule (splice_start limiter w0) in
  ∃ counted part lost,
    arrives sd w0 = counted ++ part ++ lost ++ arrives sd (sp_world s)
    ∧ tx (stream (other sd) (sp_world s)) = tx (stream (other sd) w0) ++ counted ++ part
    ∧ sp_total s sd = wrap 64 (N.of_nat (length counted))
    ∧ length part < SPLICE_BUF_SIZE ∧ length (part ++ lost) ≤ SPLICE_BUF_SIZE
    ∧ (sp_task s sd = Running ∨ all_complete (wr (stream (other sd) w0)) → part = [] ∧ lost = []).
Proof.
  cbv zeta. destruct (run_splice_parts limiter w0 schedule sd) as (counted & part & lost & [Hi Ho Ht [Hl Hp] Hw _]).
  exists counted, part, lost. split_and!; [done..| | done | intros Hc; pose proof (Hw Hc); auto].
  assert (0 < SPLICE_BUF_SIZE) as Hpos by apply Nat.lt_0_succ. rewrite length_app in Hl.
  destruct (decide (lost = [])) as [E|E]; [by rewrite Hp|]. assert (length lost ≠ 0) as El by (by destruct lost).
  revert Hl Hpos El. generalize SPLICE_BUF_SIZE. lia.
Qed.

(** ** Every byte is accounted for *)

Definition CHUNK : N := 65536.
Lemma chunk_le n : n ≤ SPLICE_BUF_SIZE → (N.of_nat n ≤ CHUNK)%N.
Proof.
  assert (N.of_nat SPLICE_BUF_SIZE = CHUNK) as <- by (by vm_compute).
  generalize SPLICE_BUF_SIZE. lia.
Qed.

(** What the other connections do to the counter of the domain while the tunnel lasts: they
    change no limit, and only add to the count, which they do not bring beyond [roof] (the
    limit stops them as well). *)
Definition others_only_add (key : bytes) (lim : DomainLimitConfig) (roof : N) : Prop :=
  ∀ t l c, counters_for l domain = Some (key, lim, c) →
  let used c := c_bytes (refresh_if_new_day (wall t) c) in
  ∃ c', counters_for (others t l) domain = Some (key, lim, c')
  ∧ (used c ≤ used c')%N ∧ (used c' ≤ N.max (used c) roof)%N.

Definition stopped (s : Splice) (sd : Side) : Prop := sp_task s sd ≠ Running.
(** At most [n], and a chunk more for each direction that has stopped. *)
Definition within (n : N) (s : Splice) (x : N) : Prop :=
  (x ≤ n)%N
  ∨ (x ≤ n + CHUNK)%N ∧ (stopped s Client ∨ stopped s Upstream)
  ∨ (x ≤ n + 2 * CHUNK)%N ∧ stopped s Client ∧ stopped s Upstream.

Lemma within_le n s x : within n s x → (x ≤ n + 2 * CHUNK)%N.
Proof. intros [?|[[? _]|[? _]]]; lia. Qed.

Section bandwidth.
Context (today : N) (same_day : ∀ t, epoch_day_utc (wall t) = today).
Context (key : bytes) (lim : DomainLimitConfig) (mx roof used0 : N).
Context (Hothers : others_only_add key lim roof).
Context (Hmx : daily_bandwidth lim = Some mx) (Hroof : (mx ≤ roof)%N) (Hroom : (roof + 2 * CHUNK < 2 ^ 64)%N).

Definition own (s : Splice) : N := (used0 + sp_total s Client + sp_total s Upstream)%N.
Record metered (s : Splice) : Prop := {
  metered_limiter : ∃ l c n, sp_limiter s = Some l ∧ counters_for l domain = Some (key, lim, c)
    ∧ (∀ t, c_bytes (refresh_if_new_day (wall t) c) = n)
    ∧ (own s ≤ n)%N ∧ ((∀ t l, others t l = l) → n = own s) ∧ within roof s n;
  metered_own : within mx s (own s);
}.

Lemma sp_total_upd s s' sd n :
  sp_total s' = upd (sp_total s) sd (sp_total s sd + n)%N → own s' = (own s + n)%N.
Proof. intros Ht. unfold own. rewrite Ht. destruct sd; rewrite upd_eq, upd_ne by done; lia. Qed.

Lemma refresh_today t t' c :
  c_bytes (refresh_if_new_day (wall t) c) = c_bytes (refresh_if_new_day (wall t') c).
Proof. unfold refresh_if_new_day. by rewrite !same_day. Qed.

Lemma within_stops n s s' sd x state :
  within n s x → sp_task s' = upd (sp_task s) sd state → state ≠ Running → within n s' x.
Proof. unfold within, stopped. intros Hb -> Hne. destruct sd; rewrite upd_eq, upd_ne by done; naive_solver. Qed.

Lemma within_running n s sd x : within n s x → sp_task s sd = Running → (x ≤ n + CHUNK)%N.
Proof. unfold within, stopped. intros Hb Hr. destruct Hb as [?|[[? _]|(? & ? & ?)]]; [lia | lia | by destruct sd]. Qed.

(** A chunk more, after which the direction stops. *)
Lemma within_more n s s' sd x d :
  within n s x → sp_task s sd = Running → (d ≤ CHUNK)%N → sp_task s' = upd (sp_task s) sd Finished →
  within n s' (x + d).
Proof.
  unfold within, stopped. intros Hb Hr Hd ->. right. destruct Hb as [?|[[? Hst]|(? & ? & ?)]]; [left | right | by destruct sd].
  - split; [lia|]. destruct sd; [left | right]; by rewrite upd_eq.
  - split; [lia|]. destruct sd; rewrite upd_eq, upd_ne by done; naive_solver.
Qed.

Lemma within_others s x y : within roof s x → (y ≤ N.max x roof)%N → within roof s y.
Proof. unfold within. intros Hx Hy. destruct Hx as [?|[[? ?]|(? & ? & ?)]]; [left | right; left | right; right]; split_and?; (done || lia). Qed.

(** Accounting a chunk, after what the others have done. *)
Lemma account_others t d l c n r l' :
  counters_for l domain = Some (key, lim, c) → (∀ t, c_bytes (refresh_if_new_day (wall t) c) = n) →
  (N.max n roof + N.of_nat d < 2 ^ 64)%N → N.of_nat d ≠ 0%N →
  account t d (Some l) = (r, l') →
  ∃ l1 c1 m, l' = Some l1 ∧ counters_for l1 domain = Some (key, lim, c1)
  ∧ (∀ t, c_bytes (refresh_if_new_day (wall t) c1) = (m + N.of_nat d)%N)
  ∧ (n ≤ m ≤ N.max n roof)%N ∧ ((∀ t l, others t l = l) → m = n)
  ∧ is_ok r = (m + N.of_nat d <=? mx)%N.
Proof.
  intros Hf Hn Hfit Hd. cbn [account]. destruct (Hothers t l c Hf) as (c1 & Hf1 & Hle & Hmax).
  rewrite Hn in Hle, Hmax. set (m := c_bytes (refresh_if_new_day (wall t) c1)) in *.
  destruct (account_bytes_step (wall t) domain (N.of_nat d) (others t l) key lim c1 mx Hf1 Hmx Hd)
    as (l1 & c2 & -> & Hlim & Hcs & Hcb & Hday); [fold m; lia|].
  intros [= <- <-]. exists l1, c2, m. split_and!; try done.
  - by eapply counters_for_set.
  - intros t'. unfold refresh_if_new_day. by rewrite Hday, !same_day, N.eqb_refl.
  - intros Hal. rewrite Hal, Hf in Hf1. injection Hf1 as <-. apply Hn.
  - fold m. destruct (N.ltb_spec mx (m + N.of_nat d)), (N.leb_spec (m + N.of_nat d) mx); (done || lia).
Qed.

Lemma copy_step_metered s sd : metered s → metered (copy_step s sd).
Proof.
  intros [(l & c & n & Hl & Hf & Hu & Hown & Hexact & Hcount) Hb].
  destruct (decide (sp_task s sd = Running)) as [Hrun|Hrun].
  2:{ assert (copy_step s sd = s) as -> by (unfold copy_step; by destruct (sp_task s sd)).
      split; [by exists l, c, n | done]. }
  destruct (copy_step_cases s sd Hrun) as (Hstep & _).
  destruct Hstep as [(b & [(Hne & Hlen) _ _ Ht (t & r & Ha & Hk)])|(part & rest & [_ _ _ Ht Hlim (state & Hns & Hk)])].
  2:{ assert (own (copy_step s sd) = own s) as Heq by (unfold own; by rewrite Ht). split.
      - exists l, c, n. rewrite Hlim, Heq. split_and!; try done. by eapply within_stops.
      - rewrite Heq. by eapply within_stops. }
  pose proof (chunk_le _ Hlen) as Hd. pose proof (within_running _ _ _ _ Hcount Hrun) as Hc1.
  pose proof (within_running _ _ _ _ Hb Hrun) as Ho1. rewrite Hl in Ha.
  eapply account_others in Ha as (l1 & c1 & m & Hl1 & Hf1 & Hu1 & Hm & Hal & Hr);
    [ | exact Hf | exact Hu | lia | destruct b; [done|cbn; lia]].
  assert (own (copy_step s sd) = own s + N.of_nat (length b))%N as Hown'.
  { apply (sp_total_upd _ _ sd). rewrite Ht. f_equal. apply N.mod_small.
    unfold own in Ho1. destruct sd; lia. }
  assert (within roof s m) as Hcm by (eapply within_others; [exact Hcount | apply Hm]).
  rewrite Hr in Hk. destruct (N.leb_spec (m + N.of_nat (length b)) mx) as [Hin|Hover].
  - split; rewrite Hown'; [exists l1, c1, (m + N.of_nat (length b))%N | left; lia].
    split_and!; try done; [lia | intros Hx; rewrite (Hal Hx), (Hexact Hx); lia | left; lia].
  - split; rewrite Hown'; [exists l1, c1, (m + N.of_nat (length b))%N | by eapply within_more].
    split_and!; try done; [lia | intros Hx; rewrite (Hal Hx), (Hexact Hx); lia | by eapply within_more].
Qed.

Lemma run_splice_metered schedule s : metered s → metered (run_splice schedule s).
Proof. revert s. induction schedule as [|sd schedule IH]; intros s Hs; [done|]. by apply IH, copy_step_metered. Qed.
End bandwidth.

(** C11: A tunnel is metered, for every schedule, also while other connections use the same
    domain.  Conditions: the tunnel lasts within one day (UTC); meanwhile the other
    connections change no limit and only add to the count of the domain, up to [roof] at
    most; the limit [mx] is at most [roof], and [roof] is two chunks away from 2^64.  Then
    every chunk whose write has completed, in either direction, is in the count of the
    domain, which is exact when there are no other connections, and never wraps; and the
    limit ends the tunnel: when the domain was within its limit at the start, the tunnel
    itself relays at most one chunk per direction (64 KiB each) beyond it, whatever the
    others add.  (What a write that fails or blocks has delivered is not counted: less than
    one more chunk per direction.) *)
Theorem splice_metered today key lim mx roof l0 c0 w0 schedule :
  (∀ t, epoch_day_utc (wall t) = today) →
  others_only_add key lim roof →
  daily_bandwidth lim = Some mx → (mx ≤ roof)%N → (roof + 2 * CHUNK < 2 ^ 64)%N →
  counters_for l0 domain = Some (key, lim, c0) →
  let used0 := c_bytes (refresh_if_new_day (wall (now w0)) c0) in
  (used0 ≤ mx)%N →
  let s := run_splice schedule (splice_start (Some l0) w0) in
  let own := (used0 + sp_total s Client + sp_total s Upstream)%N in
  ∃ l c, sp_limiter s = Some l ∧ counters_for l domain = Some (key, lim, c)
  ∧ let used := c_bytes (refresh_if_new_day (wall (now (sp_world s))) c) in
    (own ≤ used ≤ roof + 2 * CHUNK)%N
    ∧ ((∀ t l, others t l = l) → used = own)
    ∧ (own ≤ mx + 2 * CHUNK)%N.
Proof.
  intros Hday Hothers Hmx Hroof Hroom Hf used0 Hle s own'.
  assert (metered key lim mx roof used0 s) as [(l & c & n & Hl & Hc & Hu & Hown & Hexact & Hcount) Hb].
  { apply (run_splice_metered today Hday key lim mx roof used0 Hothers Hmx Hroof Hroom). split.
    - exists l0, c0, used0. unfold own. cbn [splice_start sp_total]. rewrite !N.add_0_r.
      split_and!; [done | done | | done | done | left; lia].
      intros t. unfold used0, refresh_if_new_day. by rewrite !Hday.
    - left. unfold own. cbn [splice_start sp_total]. lia. }
  exists l, c. split; [done|]. split; [done|]. intros used. unfold used. rewrite Hu.
  split; [split; [exact Hown | exact (within_le _ _ _ Hcount)]|]. split; [exact Hexact | by eapply within_le].
Qed.

(** ** When a tunnel ends *)

(** No write of the script blocks for ever. *)
Definition never_blocks (l : list WrEvent) : Prop := ∀ n, WrBlock n ∉ l.

Record live (s : Splice) (sd : Side) : Prop := {
  live_ends : ends (rx (stream sd (sp_world s)));
  live_writes : never_blocks (wr (stream sd (sp_world s)));
  live_task : sp_task s sd ≠ Blocked;
}.

Lemma read_live sd n w :
  ends (rx (stream sd w)) → ∃ r w', read sd n w = Some (r, w') ∧ ends (rx (stream sd w')).
Proof.
  intros Hl. destruct (read_rx_ends n (now w) _ Hl) as (r & t & l & Hr & Hl').
  unfold read, on_rx. rewrite Hr. eexists r, _. split; [done|].
  by rewrite stream_set_now, stream_set_stream.
Qed.

Lemma write_live sd b w :
  never_blocks (wr (stream sd w)) →
  ∃ r w', write_effect sd b w = (Some r, w') ∧ never_blocks (wr (stream sd w')).
Proof.
  unfold write_effect, never_blocks. intros Hw. destruct (wr (stream sd w)) as [|[d|n|n] q] eqn:E.
  1-3: eexists _, _; split; [done|]; rewrite ?stream_set_now, stream_set_stream; cbn;
    intros m Hm; apply (Hw m); [done || by right].
  destruct (Hw n). by left.
Qed.

Lemma copy_step_live s sd :
  (∀ sd', live s sd') → ∀ sd', live (copy_step s sd) sd'.
Proof.
  intros Hl. unfold copy_step. destruct (sp_task s sd) eqn:Hrun; [|exact Hl..]. cbv zeta.
  destruct (Hl sd) as [He Hw _], (Hl (other sd)) as [Heo Hwo Hto].
  destruct (read_live sd SPLICE_BUF_SIZE (sp_world s) He) as (r & w1 & Hr & He1). rewrite Hr.
  apply read_side in Hr as (_ & Hwr1 & Hoth1 & _).
  assert (∀ w lim tot, ends (rx (stream sd w)) → never_blocks (wr (stream sd w)) →
    rx (stream (other sd) w) = rx (stream (other sd) (sp_world s)) →
    never_blocks (wr (stream (other sd) w)) → ∀ sd',
    live {| sp_world := w; sp_limiter := lim; sp_task := upd (sp_task s) sd Finished; sp_total := tot |} sd')
    as Hfin.
  { intros w lim tot H1 H2 H3 H4 sd'. destruct (side_cases sd sd') as [-> | ->]; split; cbn [sp_world sp_task];
      rewrite ?H3, ?upd_eq, ?upd_ne by apply other_ne; done. }
  destruct r as [b|e]; [|apply Hfin; by rewrite ?Hwr1, ?Hoth1].
  case_decide; [apply Hfin; by rewrite ?Hwr1, ?Hoth1|].
  destruct (write_live (other sd) b w1) as (r2 & w2 & Hw2 & Hwl); [by rewrite Hoth1|]. rewrite Hw2.
  apply write_effect_side in Hw2 as (Hrx2 & Hoth2 & _); [|done]. rewrite other_other in Hoth2.
  destruct r2 as [u|e]; [|apply Hfin; by rewrite ?Hoth2, ?Hwr1, ?Hrx2, ?Hoth1].
  destruct (account (now w2) (length b) (sp_limiter s)) as [[?|?] limiter]; cbn [is_ok];
    [|apply Hfin; by rewrite ?Hoth2, ?Hwr1, ?Hrx2, ?Hoth1].
  intros sd'. destruct (side_cases sd sd') as [-> | ->]; split; cbn [sp_world sp_task];
    rewrite ?Hoth2, ?Hwr1, ?Hrx2, ?Hoth1, ?Hrun; done.
Qed.

(** The turns a task still needs. *)
Definition turns_left (s : Splice) (sd : Side) : nat :=
  match sp_task s sd with Running => S (length (arrives sd (sp_world s))) | _ => 0 end.

Definition turns (sd : Side) (schedule : list Side) : nat := length (filter (λ x, x = sd) schedule).

Lemma copy_step_turns s sd :
  turns_left (copy_step s sd) sd ≤ pred (turns_left s sd)
  ∧ turns_left (copy_step s sd) (other sd) = turns_left s (other sd).
Proof.
  destruct (decide (sp_task s sd = Running)) as [Hrun|Hrun].
  2:{ assert (copy_step s sd = s) as -> by (unfold copy_step; by destruct (sp_task s sd)).
      unfold turns_left. split; [by destruct (sp_task s sd)|done]. }
  destruct (copy_step_cases s sd Hrun) as (Hstep & Hin & _).
  unfold turns_left. rewrite Hin, Hrun. cbn [pred].
  destruct Hstep as [(b & [(Hne & _) Hi _ _ (t & r & _ & Hk)])|(part & rest & [_ _ _ _ _ (state & Hns & Hk)])]; rewrite Hk.
  - rewrite Hi, length_app. destruct r; cbn [is_ok].
    + rewrite Hrun. split; [destruct b; [done|cbn; lia] | done].
    + rewrite upd_eq, upd_ne by apply other_ne. by split; [lia|].
  - rewrite upd_eq, upd_ne by apply other_ne. destruct state; [done | split; [lia|done] ..].
Qed.

Lemma run_splice_turns schedule s sd :
  turns_left (run_splice schedule s) sd ≤ turns_left s sd - turns sd schedule.
Proof.
  revert s. induction schedule as [|x schedule IH]; intros s; [cbn; lia|].
  change (run_splice (x :: schedule) s) with (run_splice schedule (copy_step s x)).
  specialize (IH (copy_step s x)). destruct (copy_step_turns s x) as [H1 H2].
  unfold turns in *. rewrite filter_cons. destruct (side_cases x sd) as [-> | ->].
  - rewrite decide_True by done. cbn [length]. lia.
  - rewrite decide_False by (intros E; by apply (other_ne x)). lia.
Qed.

Lemma silent_not_finished schedule s sd :
  rx (stream sd (sp_world s)) = [] → sp_task s sd ≠ Finished →
  sp_task (run_splice schedule s) sd ≠ Finished.
Proof.
  revert s. induction schedule as [|x schedule IH]; intros s Hrx Ht; [done|].
  apply (IH (copy_step s x)).
  - unfold copy_step. destruct (sp_task s x); [|done..]. cbv zeta.
    destruct (read x SPLICE_BUF_SIZE (sp_world s)) as [[r w1]|] eqn:Er; [|done].
    destruct (side_cases x sd) as [-> | ->].
    + revert Er. unfold read, on_rx. rewrite Hrx. done.
    + apply read_side in Er as (_ & _ & Hoth & _). rewrite <- Hoth in Hrx.
      destruct r as [b|e]; [|done]. case_decide; [done|].
      destruct (write_effect (other x) b w1) as [o w2] eqn:Ew.
      apply write_effect_side in Ew as (Hr2 & _); [|done].
      destruct o as [[u|e]|]; [destruct (account _ _ _)|..]; cbn; by rewrite Hr2.
  - destruct (decide (sp_task s x = Running)) as [Hrun|Hrun];
      [|assert (copy_step s x = s) as -> by (unfold copy_step; by destruct (sp_task s x)); done].
    destruct (side_cases x sd) as [-> | ->].
    + unfold copy_step. rewrite Hrun. unfold read, on_rx. rewrite Hrx. cbn. by rewrite upd_eq.
    + destruct (copy_step_cases s x Hrun) as (Hstep & _).
      destruct Hstep as [(b & [_ _ _ _ (t & r & _ & ->)])|(part & rest & [_ _ _ _ _ (state & _ & ->)])].
      * destruct (is_ok r); [done|]. by rewrite upd_ne by apply other_ne.
      * by rewrite upd_ne by apply other_ne.
Qed.

(** C13: When a tunnel ends, and when it does not.  If both peers close or reset their
    connections sometime and keep accepting writes, the tunnel ends under every schedule
    that gives each direction one turn per byte and one more.  But nothing else ends it: one
    side that stays silent keeps the tunnel, and its connection slot, for ever, since the
    configured read/write timeout is not used. *)
Theorem splice_ends_or_not limiter w0 schedule :
  let s := run_splice schedule (splice_start limiter w0) in
  ((∀ sd, ends (rx (stream sd w0)) ∧ never_blocks (wr (stream sd w0))
          ∧ (length (arrives sd w0) < turns sd schedule)%nat) →
   splice_result s = Some (sp_total s Client, sp_total s Upstream))
  ∧ (∀ sd, rx (stream sd w0) = [] → splice_result s = None).
Proof.
  cbv zeta. split.
  - intros Hall.
    assert (∀ sd, live (run_splice schedule (splice_start limiter w0)) sd) as Hlive.
    { assert (∀ sd, live (splice_start limiter w0) sd) as Hl0 by (intros sd; split; [apply Hall | apply Hall | done]).
      revert Hl0. generalize (splice_start limiter w0). clear.
      induction schedule as [|x schedule IH]; intros s Hs; [done|]. apply IH. by apply copy_step_live. }
    assert (∀ sd, sp_task (run_splice schedule (splice_start limiter w0)) sd = Finished) as Hfin.
    { intros sd. destruct (Hall sd) as (_ & _ & Ht).
      pose proof (run_splice_turns schedule (splice_start limiter w0) sd) as Hturns.
      unfold turns_left in Hturns at 2. cbn [splice_start sp_task sp_world] in Hturns.
      destruct (Hlive sd) as [_ _ Hnb]. unfold turns_left in Hturns.
      destruct (sp_task (run_splice schedule (splice_start limiter w0)) sd); [lia | done | done]. }
    unfold splice_result. by rewrite decide_True.
  - intros sd Hrx. unfold splice_result. rewrite decide_False; [done|]. intros [Hc Hu].
    apply (silent_not_finished schedule (splice_start limiter w0) sd Hrx); [done|]. by destruct sd.
Qed.
End splice.

(** * A concrete tunnel *)

Definition peer_stream (chunks : list bytes) : Stream :=
  {| rx := ((λ b, (0%N, Data b)) <$> chunks) ++ [(5%N, Fin)]; wr := [WrOk 1]; tx := [];
     nodelay_ok := true |}.
Definition example_tunnel : World :=
  {| now := 0; client := peer_stream [§"GET /"; replicate 600 x61]; upstream := peer_stream [replicate 500 x62; §"bye"] |}.
Definition example_schedule : list Side :=
  [Client; Upstream; Client; Upstream; Upstream; Client; Client; Upstream].

(** Another connection of the same domain, which downloads 200 bytes in between. *)
Definition example_others (t : N) (l : DomainLimiter) : DomainLimiter :=
  match @counters_for ascii_unicode sorted_order l §"cdn.example.com" with
  | Some (key, _, c) =>
      if (c_bytes (refresh_if_new_day (example_day 0) c) <? 700)%N
      then set_counters key {| c_bytes := c_bytes (refresh_if_new_day (example_day 0) c) + 200;
                               connections := connections c; day := 20000 |} l
      else l
  | None => l
  end.
Definition example_limit : DomainLimitConfig :=
  {| daily_bandwidth := Some 1000%N; daily_connections := Some 2%N |}.

Lemma example_others_only_add :
  @others_only_add ascii_unicode sorted_order (λ _, example_day 0) example_others §"cdn.example.com"
    §"example.com" example_limit 2000.
Proof.
  intros t l c Hf used. unfold example_others. rewrite Hf. fold (used c).
  destruct (N.ltb_spec (used c) 700); [|by exists c; split_and!; [done|lia..]].
  eexists. split; [by eapply counters_for_set|]. unfold used at 2 4, refresh_if_new_day. cbn [day c_bytes].
  change (20000 =? epoch_day_utc (example_day 0))%N with true. cbn [c_bytes]. fold (used c). lia.
Qed.

Lemma splice_metered_witness :
  let s := @run_splice ascii_unicode sorted_order (λ _, example_day 0) example_others §"cdn.example.com"
             example_schedule (splice_start (Some example_limiter) example_tunnel) in
  (10 + sp_total s Client + sp_total s Upstream ≤ 1000 + 2 * CHUNK)%N.
Proof.
  destruct (@splice_metered ascii_unicode sorted_order (λ _, example_day 0) example_others §"cdn.example.com"
    20000%N §"example.com" example_limit 1000%N 2000%N example_limiter
    {| c_bytes := 10; connections := 1; day := 20000 |} example_tunnel example_schedule
    ltac:(intros; by vm_compute) example_others_only_add eq_refl ltac:(done) ltac:(by vm_compute))
    as (l & c & _ & _ & _ & _ & Hle); [by vm_compute | by vm_compute | exact Hle].
Defined.

Lemma splice_ends_or_not_witness :
  let s := @run_splice ascii_unicode sorted_order (λ _, example_day 0) (λ _ l, l) §"x"
             (mjoin (replicate 700 [Client; Upstream])) (splice_start None example_tunnel) in
  splice_result s = Some (sp_total s Client, sp_total s Upstream).
Proof.
  apply (proj1 (@splice_ends_or_not ascii_unicode sorted_order (λ _, example_day 0) (λ _ l, l) §"x" None
    example_tunnel (mjoin (replicate 700 [Client; Upstream])))).
  intros sd. split; [|split].
  - unfold ends. destruct sd; cbn [example_tunnel stream client upstream peer_stream rx];
      apply Exists_app; right; by left.
  - intros n. destruct sd; cbn; by intros [?|?%elem_of_nil]%elem_of_cons.
  - apply Nat.ltb_lt. by destruct sd; vm_compute.
Defined.
