(* ===== verification/Service.v ===== *)
(** src/service.rs: the handling of one client connection, from the first bytes to the
    tunnel.

    A listener's connection is a pair of timed streams ([Stream]); what other tasks may
    change meanwhile (white list, hosts table, registry) is read at the time the code reads
    it.  The copying of the two directions is in Splice, the accepting loop in Listeners. *)

From S2P Require Import Prelude RustStr Collections Net Config Sni SelfLoop UpstreamRegistry ClientAcl Metrics DomainLimiter Stream ProxyConnector ProxyProofs Splice Hosts.

(** * Text of requests *)

Section text.
Context `{Unicode}.

(** The first line of the headers that starts with [host:], in any case; slicing it may
    panic in principle, when the lower-cased line is shorter than the line. *)
Fixpoint host_line (l : list bytes) : eval (option bytes) :=
  match l with
  | [] => Val None
  | line :: l =>
      if starts_with §"host:" (to_lowercase line) then
        v ← str_from 5 line; Val (Some (trim v))
      else host_line l
  end.
Definition extract_host_header (headers : bytes) : eval (option bytes) := host_line (lines headers).

(** [s.get(i..)] *)
Definition get_from (i : nat) (s : bytes) : option bytes :=
  if char_boundary s i then Some (drop i s) else None.

Definition parse_host_port (s : bytes) (default_port : N) : bytes * N :=
  let by_colon :=
    match rfind_byte x3a s with
    | Some idx => (take idx s, unwrap_or (parse_u16 (drop (S idx) s)) default_port)
    | None => (s, default_port)
    end in
  if starts_with §"[" s then
    match find_byte x5d s with
    | Some e => (take (e - 1) (drop 1 s), unwrap_or (p ← get_from (e + 2) s; parse_u16 p) default_port)
    | None => by_colon
    end
  else by_colon.

End text.

(** * Where a host name leads *)

Inductive DestinationOutcome := DestOk (host : bytes) (port : N) (mapped_from_hosts : bool) | Unlisted.

Section destination.
Context `{Unicode} `{RegexLib}.

Definition apply_host_resolve (sni_hostname : bytes) (port listen_port : N) (resolved : HostResolve)
    : bytes * N :=
  match resolved with
  | Passthrough => (sni_hostname, port)
  | Ip ip => (show_ip ip, port)
  | Hostname backend =>
      if contains_byte x3a backend then parse_host_port backend listen_port else (backend, port)
  end.

Definition resolve_destination (hostname : bytes) (port listen_port : N) (hosts : option HostsTable)
    : DestinationOutcome :=
  match hosts with
  | None => DestOk hostname port false
  | Some table =>
      let allowed := has_open_catchall table || bool_decide (is_Some (Hosts.resolve table hostname)) in
      if negb allowed then Unlisted else
      match Hosts.resolve table hostname with
      | Some resolved =>
          let '(host, dest_port) := apply_host_resolve hostname port listen_port resolved in
          DestOk host dest_port true
      | None => DestOk hostname port false
      end
  end.

End destination.

(** * The first bytes of the client *)

Inductive HandleError :=
| PeekTimeout | TlsRead (e : IoErr) | TlsClosed | HelloTooLarge | NoSni | NotTls
| HttpTimeout | HttpRead (e : IoErr) | HttpEof | NoHost | HeadersTooLarge | ReplyFailed (e : IoErr)
| PeekFailed (e : IoErr)
| NoProfile (e : RegistryError) | ConnectFailedVia (name : bytes) (e : ConnError) | NoCandidates
| ReplayFailed (e : IoErr) | OverflowFailed (e : IoErr)
| Panicked | LoopFuel.

(** A computation that may panic, which ends the task of the connection. *)
Definition or_panic {A} (m : eval A) : IO HandleError A :=
  match m with Val a => mret a | Panic => throw Panicked end.

Definition TLS_BUF : nat := 16 * 1024.
Definition HTTP_BUF : nat := 8 * 1024.

Section extract.
Context `{Unicode}.
(** [Duration::from_secs(cfg.connect_timeout_secs)] *)
Context (connect_timeout : N).

(** The loop of [extract_tls_info]: [buf] has been read.  The host, its port, the flight
    of the ClientHello and the bytes that came after it. *)
Fixpoint tls_loop (fuel : nat) (listen_port : N) (buf : bytes)
    : IO HandleError (bytes * N * bytes * bytes) :=
  match fuel with
  | 0 => throw LoopFuel
  | S fuel =>
      b ← timeout connect_timeout PeekTimeout (map_err TlsRead (read Client (TLS_BUF - length buf)));
      if decide (b = []) then throw TlsClosed else
      let buf := buf ++ b in
      '(result, replay_len) ← or_panic (parse_sni_with_replay buf);
      match result with
      | Tls host =>
          flight ← or_panic (slice buf 0 replay_len);
          overflow ← (if replay_len <? length buf then or_panic (slice_from buf replay_len) else mret []);
          mret (host, listen_port, flight, overflow)
      | NeedMore =>
          if TLS_BUF <=? length buf then throw HelloTooLarge else tls_loop fuel listen_port buf
      | TlsNoSni => throw NoSni
      | PlainHttp | Unknown => throw NotTls
      end
  end.

Definition extract_tls_info (listen_port : N) : IO HandleError (bytes * N * bytes * bytes) :=
  tls_loop (S TLS_BUF) listen_port [].

Definition ESTABLISHED : bytes := §"HTTP/1.1 200 Connection Established" ++ CRLF ++ CRLF.

(** The target of a CONNECT line: its second word. *)
Definition connect_target (headers : bytes) (listen_port : N) : bytes * N :=
  let line := unwrap_or (head (lines headers)) [] in
  let target := unwrap_or (split_whitespace line !! 1) [] in
  parse_host_port target listen_port.

Definition headers_end (headers : bytes) : bool :=
  contains_sub (CRLF ++ CRLF) headers || contains_sub [LF; LF] headers.

(** The loop of [extract_http_info]: the host, its port and the bytes to replay. *)
Fixpoint http_loop (fuel : nat) (listen_port : N) (buf : bytes) : IO HandleError (bytes * N * bytes) :=
  match fuel with
  | 0 => throw LoopFuel
  | S fuel =>
      b ← timeout connect_timeout HttpTimeout (map_err HttpRead (read Client (HTTP_BUF - length buf)));
      if decide (b = []) then throw HttpEof else
      let buf := buf ++ b in
      let headers := unwrap_or (from_utf8 buf) [] in
      if starts_with §"CONNECT " headers then
        let '(host, port) := connect_target headers listen_port in
        _ ← map_err ReplyFailed (write_all Client ESTABLISHED);
        mret (host, port, [])
      else if headers_end headers then
        host ← or_panic (extract_host_header headers);
        match host with
        | Some host => let '(h, p) := parse_host_port host listen_port in mret (h, p, buf)
        | None => throw NoHost
        end
      else if HTTP_BUF <=? length buf then throw HeadersTooLarge
      else http_loop fuel listen_port buf
  end.

Definition extract_http_info (listen_port : N) : IO HandleError (bytes * N * bytes) :=
  http_loop (S HTTP_BUF) listen_port [].

Definition extract_auto (listen_port : N) : IO HandleError (bytes * N * bytes * bytes) :=
  p ← map_err PeekFailed (peek Client 8);
  if (3 <=? length p) && bool_decide (p !! 0 = Some x16) && bool_decide (p !! 1 = Some x03)
  then extract_tls_info listen_port
  else
    '(h, p, b) ← extract_http_info listen_port;
    mret (h, p, b, []).

Definition extract (proto : bytes) (listen_port : N) : IO HandleError (bytes * N * bytes * bytes) :=
  if decide (proto = §"tls") then extract_tls_info listen_port
  else if decide (proto = §"http") then
    '(h, p, b) ← extract_http_info listen_port;
    mret (h, p, b, [])
  else extract_auto listen_port.

End extract.

(** * The handler *)

(** What the handler changes: its labels, the limiter it shares with the other connections,
    the metrics and the traffic records it emits. *)
Record Traffic := { tr_client_ip : bytes; tr_domain : bytes; tr_c2u : N; tr_u2c : N }.
Record Session := {
  labels : TargetLabels;
  limiter : option DomainLimiter;
  metrics : list MetricOp;
  traffic : list Traffic;
  opened : bool;
}.

(** [return Ok(())] out of the body, or an error. *)
Inductive Stop := Return | Failed (e : HandleError).

(** A computation on the session and the streams; the session survives an error. *)
Definition SIO (A : Type) := Session → World → option (result Stop A * Session * World).
#[global] Instance sio_ret : MRet SIO := λ A a s w, Some (Ok a, s, w).
#[global] Instance sio_bind : MBind SIO := λ A B f m s w,
  match m s w with
  | Some (Ok a, s, w) => f a s w
  | Some (Err e, s, w) => Some (Err e, s, w)
  | None => None
  end.

Definition io {A} (m : IO HandleError A) : SIO A := λ s w,
  match m w with
  | Some (Ok a, w) => Some (Ok a, s, w)
  | Some (Err e, w) => Some (Err (Failed e), s, w)
  | None => None
  end.
Definition stop {A} (e : Stop) : SIO A := λ s w, Some (Err e, s, w).
Definition get_labels : SIO TargetLabels := λ s w, Some (Ok (labels s), s, w).
Definition set_labels (f : TargetLabels → TargetLabels) : SIO unit := λ s w,
  Some (Ok tt, {| labels := f (labels s); limiter := limiter s; metrics := metrics s;
                  traffic := traffic s; opened := opened s |}, w).
Definition emit (f : TargetLabels → list MetricOp) : SIO unit := λ s w,
  Some (Ok tt, {| labels := labels s; limiter := limiter s; metrics := metrics s ++ f (labels s);
                  traffic := traffic s; opened := opened s |}, w).
Definition set_opened (b : bool) : SIO unit := λ s w,
  Some (Ok tt, {| labels := labels s; limiter := limiter s; metrics := metrics s;
                  traffic := traffic s; opened := b |}, w).
Definition record_traffic (c2u u2c : N) : SIO unit := λ s w,
  Some (Ok tt, {| labels := labels s; limiter := limiter s; metrics := metrics s;
                  traffic := traffic s ++ [{| tr_client_ip := client_ip (labels s);
                    tr_domain := domain (labels s); tr_c2u := c2u; tr_u2c := u2c |}];
                  opened := opened s |}, w).

(** [connection_rejected(..); return Ok(())] *)
Definition reject {A} (reason : bytes) : SIO A :=
  _ ← emit (λ l, connection_rejected l reason); stop Return.

(** The state shared with the panel and with the other connections, as a function of the
    time at which it is read; and the rest of the environment. *)
Record Shared `{RegexLib} := {
  acl_at : N → ClientAcl;
  hosts_at : N → option HostsTable;
  registry_at : N → UpstreamRegistry;
  self_loop : SelfLoopGuard;
  has_traffic : bool;                            (** whether the panel collects traffic *)
  lookup_at : N → bytes → N → N * Lookup;        (** delay and answer of a DNS lookup *)
  net : N → bytes → Dial;
  wall : N → N;                                  (** the system clock in seconds *)
  others : N → DomainLimiter → DomainLimiter;    (** the other connections, on the limiter *)
  schedule : list Side;                          (** of the two tasks of the tunnel *)
}.

Section handler.
Context `{Unicode} `{HashOrder} `{RegexLib}.
Context (sh : Shared) (connect_timeout : N).

(** The test of the limiter, when there is one. *)
Definition check_limits (hostname : bytes) : SIO unit := λ s w,
  match limiter s with
  | None => Some (Ok tt, s, w)
  | Some l =>
      let '(r, l) := check_connection (wall sh (now w)) hostname (others sh (now w) l) in
      let s := {| labels := labels s; limiter := Some l; metrics := metrics s; traffic := traffic s;
                  opened := opened s |} in
      match r with
      | Ok _ => Some (Ok tt, s, w)
      | Err reason => reject (show_reason reason) s w
      end
  end.

(** [would_loop(..).await]: only a name on a listen port is looked up. *)
Definition check_loop (host : bytes) (port : N) : IO HandleError bool :=
  t ← get_now;
  _ ← (if bool_decide (port ∈ listen_ports (self_loop sh)) && negb (bool_decide (is_Some (parse_ip host)))
       then sleep (lookup_at sh t host port).1 else mret tt);
  mret (would_loop (λ h p, (lookup_at sh t h p).2) (self_loop sh) host port).

(** The loop over the candidates: the profile that answered. *)
Fixpoint connect_first (candidates : list (bytes * UpstreamProxy)) (host : bytes) (port : N)
    (last_err : option (bytes * ConnError)) : IO HandleError (bytes * UpstreamProxy) :=
  match candidates with
  | [] => throw (match last_err with Some (name, e) => ConnectFailedVia name e | None => NoCandidates end)
  | (name, proxy) :: candidates =>
      r ← attempt (connect (net sh) proxy host port connect_timeout);
      match r with
      | Ok _ => mret (name, proxy)
      | Err e => connect_first candidates host port (Some (name, e))
      end
  end.

(** The tunnel, along the schedule: [None] while it is not over. *)
Definition splice (hostname : bytes) : SIO (N * N) := λ s w,
  let sp := run_splice (wall sh) (others sh) hostname (schedule sh) (splice_start (limiter s) w) in
  let s := {| labels := labels s; limiter := sp_limiter sp; metrics := metrics s; traffic := traffic s;
              opened := opened s |} in
  match splice_result sp with
  | Some totals => Some (Ok totals, s, sp_world sp)
  | None => None
  end.

(** The bytes read from the client before the tunnel. *)
Definition replay (peeked overflow : bytes) : IO HandleError unit :=
  _ ← (if decide (peeked = []) then mret tt else map_err ReplayFailed (write_all Upstream peeked));
  if decide (overflow = []) then mret tt else map_err OverflowFailed (write_all Upstream overflow).

(** From the candidates to the end of the tunnel. *)
Definition relay (client_ip hostname host : bytes) (port : N) (peeked overflow : bytes) : SIO unit :=
  t ← io get_now;
  candidates ← io (lift (match connect_candidates (registry_at sh t) client_ip with
                         | Ok c => Ok c | Err e => Err (NoProfile e) end));
  _ ← io (connect_first candidates host port None);
  _ ← emit connection_opened;
  _ ← set_opened true;
  _ ← io (replay peeked overflow);
  '(c2u, u2c) ← splice hostname;
  _ ← emit (λ l, connection_closed l c2u u2c);
  _ ← (if has_traffic sh then record_traffic c2u u2c else mret tt);
  set_opened false.

(** From the hosts table to the relay. *)
Definition route (client_ip hostname : bytes) (port listen_port : N) (peeked overflow : bytes) : SIO unit :=
  t ← io get_now;
  match resolve_destination hostname port listen_port (hosts_at sh t) with
  | Unlisted => reject §"unlisted_host"
  | DestOk host dest_port _ =>
      loops ← io (check_loop host dest_port);
      if loops : bool then reject §"self_loop" else
      _ ← set_labels (λ l, set_upstream l host);
      relay client_ip hostname host dest_port peeked overflow
  end.

(** The [async] block of [handle_connection]. *)
Definition handle_body (proto : bytes) (listen_port : N) : SIO unit :=
  l ← get_labels;
  let client_ip := client_ip l in
  t ← io get_now;
  if negb (is_allowed (acl_at sh t) client_ip) then reject §"acl_deny" else
  '(hostname, port, peeked, overflow) ← io (extract connect_timeout proto listen_port);
  _ ← set_labels (λ l, set_domain l hostname);
  _ ← check_limits hostname;
  route client_ip hostname port listen_port peeked overflow.

Definition start_session (peer : bytes) (limiter : option DomainLimiter) : Session :=
  {| labels := set_client_ip_from_peer unknown_labels peer; limiter := limiter; metrics := [];
     traffic := []; opened := false |}.

Definition handle_connection (peer proto : bytes) (listen_port : N) (limiter : option DomainLimiter)
    (w : World) : option (result HandleError unit * Session * World) :=
  match handle_body proto listen_port (start_session peer limiter) w with
  | Some (Ok _, s, w) | Some (Err Return, s, w) => Some (Ok tt, s, w)
  | Some (Err (Failed e), s, w) =>
      match emit (λ l, connection_failed l (opened s)) s w with
      | Some (_, s, w) => Some (Err e, s, w)
      | None => None
      end
  | None => None
  end.

End handler.
