(* ===== verification/ServiceProofs.v ===== *)
(** The correctness of src/service.rs: what is extracted from the first bytes of a client,
    which destinations are reached, and what the handler guarantees about the tunnel and the
    metrics. *)

From S2P Require Import Prelude RustStr Collections Net Config Sni SelfLoop UpstreamRegistry ClientAcl Metrics DomainLimiter Stream ProxyConnector ProxyProofs Splice Hosts Service.

(** * The ClientHello *)

(** What a read of the client did. *)
Lemma client_read {E} d (e : E) f n w b w' :
  timeout d e (map_err f (read Client n)) w = Some (Ok b, w') →
  length b ≤ n ∧ arrives Client w = b ++ arrives Client w'
  ∧ tx (client w') = tx (client w) ∧ upstream w' = upstream w.
Proof.
  intros (Hr & _)%timeout_ok_inv. apply map_err_ok_inv in Hr.
  by apply read_side in Hr as (Htx & _ & Hoth & Hlen & Hin).
Qed.

Lemma client_read_wr {E} d (e : E) f n w b w' :
  timeout d e (map_err f (read Client n)) w = Some (Ok b, w') →
  arrives Client w = b ++ arrives Client w' ∧ wr (client w') = wr (client w).
Proof.
  intros (Hr & _)%timeout_ok_inv. apply map_err_ok_inv in Hr.
  by apply read_side in Hr as (_ & Hwr & _ & _ & Hin).
Qed.

(** The bytes to come arrive by the deadline. *)
Definition client_in_time (deadline : N) (w : World) : Prop :=
  Forall (λ e, (e.1 ≤ deadline)%N) (rx (client w)).

Lemma client_read_ok {E} d (e : E) f n w deadline :
  0 < n → arrives Client w ≠ [] → client_in_time deadline w → (deadline ≤ now w + d)%N →
  ∃ b w', timeout d e (map_err f (read Client n)) w = Some (Ok b, w') ∧ b ≠ []
  ∧ client_in_time deadline w' ∧ (now w ≤ now w')%N.
Proof.
  intros Hn Ha Hin Hd. unfold arrives, client_in_time, stream in *.
  assert (∀ l t, incoming l ≠ [] → Forall (λ e, (e.1 ≤ deadline)%N) l →
    ∃ b t' l', read_rx n t l = Some (Ok b, t', l') ∧ b ≠ [] ∧ (t ≤ t' ≤ N.max t deadline)%N
    ∧ Forall (λ e, (e.1 ≤ deadline)%N) l') as Hread.
  { clear -Hn. intros l t. induction l as [|[t0 [x| |]] l IH]; intros Hne Hf; try done.
    apply Forall_cons in Hf as [Ht0 Hf]. cbn [read_rx incoming fst] in *.
    case_decide as Hx; [subst x; by apply IH|]. eexists _, _, _. split; [done|]. split_and!.
    - destruct x; [done|]. by destruct n; [lia|].
    - lia.
    - lia.
    - case_match; [done|]. by constructor. }
  destruct (Hread _ (now w) Ha Hin) as (b & t & l & Hr & Hb & Ht & Hl).
  exists b. eexists. split.
  - unfold timeout, map_err, read, on_rx, stream. rewrite Hr. cbn [now set_now].
    by rewrite (proj2 (N.leb_le _ _)) by lia.
  - split; [done|]. split; [done|]. cbn. lia.
Qed.

Section tls.
Context `{Unicode} (connect_timeout : N).

Lemma slice_0 buf n v : slice buf 0 n = Val v → n ≤ length buf ∧ v = take n buf.
Proof. unfold slice. case_decide as Hd; [|done]. intros [= <-]. rewrite Nat.sub_0_r, drop_0. split; [lia|done]. Qed.

Lemma slice_from_val buf n : n ≤ length buf → slice_from buf n = Val (drop n buf).
Proof.
  intros Hn. unfold slice_from, slice. rewrite decide_True by lia. f_equal. apply take_ge.
  rewrite length_drop. lia.
Qed.

(** The end of a round that has decided. *)
Lemma tls_decided buf n (listen_port : N) (host : bytes) w :
  n ≤ length buf →
  (flight ← or_panic (slice buf 0 n);
   overflow ← (if n <? length buf then or_panic (slice_from buf n) else mret []);
   mret (host, listen_port, flight, overflow)) w
  = Some (Ok (host, listen_port, take n buf, drop n buf), w).
Proof.
  intros Hn. unfold slice at 1. rewrite decide_True by lia. rewrite Nat.sub_0_r, drop_0.
  unfold mbind, io_bind, or_panic, mret, io_ret. destruct (Nat.ltb_spec n (length buf)).
  - by rewrite slice_from_val by lia.
  - by rewrite (drop_ge buf) by lia.
Qed.

Lemma tls_loop_sound fuel listen_port buf w r w' :
  tls_loop connect_timeout fuel listen_port buf w = Some (Ok r, w') →
  ∃ host flight overflow, r = (host, listen_port, flight, overflow)
  ∧ buf ++ arrives Client w = (flight ++ overflow) ++ arrives Client w'
  ∧ parse_sni_with_replay (flight ++ overflow) = Val (Tls host, length flight)
  ∧ tx (client w') = tx (client w) ∧ upstream w' = upstream w.
Proof.
  revert buf w. induction fuel as [|fuel IH]; intros buf w; [done|].
  cbn [tls_loop]. intros (b & w1 & (_ & Hin & Htx & Hup)%client_read & H1)%bind_ok_inv.
  case_decide as Hb; [done|]. cbv zeta in H1. rewrite Hin, app_assoc.
  apply bind_ok_inv in H1 as ([res n] & w2 & Hp & H1).
  destruct (parse_sni_returns (buf ++ b)) as (res' & n' & Hpar & Hn). rewrite Hpar in Hp.
  injection Hp as <- <- <-. destruct res'; try done.
  - rewrite tls_decided in H1 by done. injection H1 as <- <-.
    eexists _, _, _. split; [done|]. rewrite take_drop. split; [done|].
    rewrite Hpar, length_take. split; [do 3 f_equal; lia | done].
  - destruct (TLS_BUF <=? length (buf ++ b)); [done|].
    apply IH in H1 as (host & fl & ov & ? & ? & ? & ? & ?). exists host, fl, ov.
    split_and!; [done | done | done | congruence | congruence].
Qed.

Lemma tls_loop_complete fuel listen_port buf w deadline flight rest host :
  TLS_BUF < length buf + fuel → length buf < length flight → length flight ≤ TLS_BUF →
  buf ++ arrives Client w = flight ++ rest →
  parse_sni_with_replay flight = Val (Tls host, length flight) →
  client_in_time deadline w → (deadline ≤ now w + connect_timeout)%N →
  ∃ overflow w', tls_loop connect_timeout fuel listen_port buf w
    = Some (Ok (host, listen_port, flight, overflow), w').
Proof.
  revert buf w. induction fuel as [|fuel IH]; intros buf w Hf Hb Hfl Hall Hpar Hin Hd; [lia|].
  assert (arrives Client w ≠ []) as Hne.
  { intros E. rewrite E, app_nil_r in Hall. subst buf. rewrite length_app in Hb. lia. }
  destruct (client_read_ok connect_timeout PeekTimeout TlsRead (TLS_BUF - length buf) w deadline)
    as (b & w1 & Hr & Hbne & Hin1 & Hnow); [lia | done | done | done|].
  cbn [tls_loop]. unfold mbind at 1, io_bind at 1. rewrite Hr. rewrite decide_False by done. cbv zeta.
  apply client_read in Hr as (Hlen & Ha & _). rewrite Ha, app_assoc in Hall.
  destruct (parse_sni_returns (buf ++ b)) as (res & n & Hpb & Hn). rewrite Hpb.
  cbn [or_panic]. unfold mbind at 1, io_bind at 1, mret at 1, io_ret at 1.
  destruct (Nat.ltb_spec (length (buf ++ b)) (length flight)) as [Hlt|Hge].
  - assert (∃ more, flight = (buf ++ b) ++ more) as [more ->].
    { exists (drop (length (buf ++ b)) flight). rewrite <- (take_drop (length (buf ++ b)) flight) at 1.
      f_equal. by rewrite <- (take_app_le _ rest _ (Nat.lt_le_incl _ _ Hlt)), <- Hall, take_app_length. }
    assert (res = NeedMore) as ->.
    { destruct (decide (res = NeedMore)) as [|Hnm]; [done|]. exfalso.
      rewrite (parse_sni_decided _ more _ _ Hpb Hnm) in Hpar. injection Hpar as _ ->. lia. }
    rewrite (proj2 (Nat.leb_gt _ _)) by lia.
    assert (0 < length b) as Hb0 by (destruct b; [done | apply Nat.lt_0_succ]).
    apply (IH (buf ++ b) w1); [rewrite length_app; lia | done.. | lia].
  - assert (∃ more, buf ++ b = flight ++ more) as [more Hm].
    { exists (drop (length flight) (buf ++ b)). rewrite <- (take_drop (length flight) (buf ++ b)) at 1.
      f_equal. by rewrite <- (take_app_le _ (arrives Client w1) _ Hge), Hall, take_app_length. }
    rewrite Hm in *. rewrite (parse_sni_decided _ more _ _ Hpar) in Hpb by done. injection Hpb as <- <-.
    rewrite tls_decided by lia. rewrite take_app_length. eauto.
Qed.

Lemma tls_loop_safe fuel listen_port buf w w' e :
  TLS_BUF < length buf + fuel → length buf ≤ TLS_BUF →
  tls_loop connect_timeout fuel listen_port buf w = Some (Err e, w') → e ≠ Panicked ∧ e ≠ LoopFuel.
Proof.
  revert buf w. induction fuel as [|fuel IH]; intros buf w Hf Hl; [lia|].
  cbn [tls_loop]. unfold mbind at 1, io_bind at 1.
  destruct (timeout _ _ _ w) as [[[b|e1] w1]|] eqn:Er; [| |done].
  - case_decide as Hb; [by intros [= <- <-]|]. cbv zeta.
    destruct (parse_sni_returns (buf ++ b)) as (res & n & Hpb & Hn). rewrite Hpb.
    cbn [or_panic]. unfold mbind at 1, io_bind at 1, mret at 1, io_ret at 1.
    destruct res; try (by intros [= <- <-]).
    + by rewrite tls_decided.
    + destruct (Nat.leb_spec TLS_BUF (length (buf ++ b))); [by intros [= <- <-]|].
      assert (0 < length b) as Hb0 by (destruct b; [done | apply Nat.lt_0_succ]).
      apply IH; [rewrite length_app in *; lia | lia].
  - intros [= <- <-]. revert Er. unfold timeout, map_err.
    destruct (read _ _ _) as [[[?|?] ?]|]; [case_match| |]; try (intros [= <- <-]); try done.
    case_match; by intros [= <- <-].
Qed.

(** Every round returns within its timeout. *)
Lemma tls_loop_returns fuel listen_port buf w :
  ∃ r w', tls_loop connect_timeout fuel listen_port buf w = Some (r, w')
  ∧ (now w' ≤ now w + N.of_nat fuel * connect_timeout)%N.
Proof.
  revert buf w. induction fuel as [|fuel IH]; intros buf w; [by eexists _, _; split; [done|lia]|].
  cbn [tls_loop]. unfold mbind at 1, io_bind at 1.
  destruct (timeout_returns connect_timeout PeekTimeout (map_err TlsRead (read Client (TLS_BUF - length buf))) w)
    as (r & w1 & -> & Hw1).
  assert (∀ r : result HandleError (bytes * N * bytes * bytes), ∃ r' w', Some (r, w1) = Some (r', w')
    ∧ (now w' ≤ now w + N.of_nat (S fuel) * connect_timeout)%N) as Hnow by (intros r0; eexists _, _; split; [done|lia]).
  destruct r as [b|e]; [|apply Hnow]. case_decide; [apply Hnow|].
  destruct (parse_sni_returns (buf ++ b)) as (res & n & -> & Hn).
  cbn [or_panic]. unfold mbind at 1, io_bind at 1, mret at 1, io_ret at 1.
  destruct res; try apply Hnow.
  - rewrite tls_decided by done. apply Hnow.
  - case_match; [apply Hnow|]. destruct (IH (buf ++ b) w1) as (r' & w2 & -> & Hw2).
    eexists _, _. split; [done|]. lia.
Qed.

(** C3: What the relay takes from a TLS client is a function of the client's bytes alone, not of
    how they are cut or timed.  On success the flight and the overflow are the bytes read,
    in order, none of them answered or lost, and the host is the one the parser finds in
    the whole stream, with exactly that flight; a stream that starts with such a flight of
    at most 16 KiB, in time, is always accepted; and the extraction always returns, whatever
    the client does or leaves undone, within a read timeout per byte of its buffer, and never
    by a panic. *)
Theorem extract_tls_spec listen_port w :
  let run := extract_tls_info connect_timeout listen_port w in
  (∀ r w', run = Some (Ok r, w') →
     ∃ host flight overflow, r = (host, listen_port, flight, overflow)
     ∧ arrives Client w = (flight ++ overflow) ++ arrives Client w'
     ∧ parse_sni_with_replay (arrives Client w) = Val (Tls host, length flight)
     ∧ tx (client w') = tx (client w) ∧ upstream w' = upstream w)
  ∧ (∀ flight rest host, arrives Client w = flight ++ rest →
     parse_sni_with_replay flight = Val (Tls host, length flight) → 0 < length flight ≤ TLS_BUF →
     client_in_time (now w + connect_timeout) w →
     ∃ overflow w', run = Some (Ok (host, listen_port, flight, overflow), w'))
  ∧ (∃ r w', run = Some (r, w') ∧ (now w' ≤ now w + N.of_nat (S TLS_BUF) * connect_timeout)%N)
  ∧ (∀ e w', run = Some (Err e, w') → e ≠ Panicked ∧ e ≠ LoopFuel).
Proof.
  cbv zeta. unfold extract_tls_info. split_and!.
  - intros r w' (host & fl & ov & -> & Ha & Hp & Htx & Hup)%tls_loop_sound. cbn [app] in Ha.
    exists host, fl, ov. split_and!; try done. rewrite Ha. by apply parse_sni_decided.
  - intros flight rest host Ha Hp Hl Hin.
    apply (tls_loop_complete _ _ _ _ (now w + connect_timeout) flight rest); [| apply Hl | apply Hl | done.. |].
    + change (length []) with 0. generalize TLS_BUF. lia.
    + apply N.le_refl.
  - apply tls_loop_returns.
  - intros e w'. apply tls_loop_safe; change (length []) with 0; generalize TLS_BUF; lia.
Qed.
End tls.

(** A client whose hello comes in three parts. *)
Definition cut_client : World :=
  {| now := 0; upstream := idle;
     client := {| rx := [(10, Data (take 3 example_flight)); (20, Data (take 40 (drop 3 example_flight)));
                         (30, Data (drop 43 example_flight ++ §"early data"))]%N;
                  wr := []; tx := []; nodelay_ok := true |} |}.

Lemma extract_tls_spec_witness :
  ∃ overflow w', @extract_tls_info ascii_unicode 10000 443 cut_client
    = Some (Ok (§"example.com", 443%N, example_flight, overflow), w').
Proof.
  apply (proj1 (proj2 (@extract_tls_spec ascii_unicode 10000 443 cut_client)) example_flight §"early data").
  - by vm_compute.
  - by vm_compute.
  - split; apply Nat.leb_le; by vm_compute.
  - repeat constructor; cbn; lia.
Defined.

(** * HTTP requests *)

Section http.
Context `{Unicode} (connect_timeout : N).

(** Slicing the header line never panics: the five bytes are ASCII, so that the sixth
    starts a character. *)
Lemma host_line_total `{!UnicodeLaws} s l :
  utf8_valid s = true → (∀ line, line ∈ l → ∃ p q, s = p ++ line ++ q) →
  ∃ o, host_line l = Val o.
Proof.
  intros Hv. induction l as [|line l IH]; intros Hl; cbn [host_line]; [by eexists|].
  destruct (starts_with §"host:" (to_lowercase line)) eqn:E; [|apply IH; set_solver].
  apply lower_host, starts_with_spec in E as [r Hr].
  destruct (Hl line) as (p & q & Hs); [by left|].
  assert (char_boundary line 5 = true) as Hb.
  { unfold char_boundary. case_decide as H5; [done|].
    assert (length line = 5 + length r) as Hlen.
    { apply (f_equal length) in Hr. unfold to_ascii_lowercase in Hr.
      rewrite length_fmap, length_app in Hr. exact Hr. }
    destruct (lookup_lt_is_Some_2 line 5 ltac:(lia)) as [c Hc].
    destruct (lookup_lt_is_Some_2 line 4 ltac:(lia)) as [a Ha]. rewrite Hc.
    assert (is_ascii a = true) as Haa.
    { rewrite <- is_ascii_lower. apply (f_equal (.!! 4)) in Hr. unfold to_ascii_lowercase in Hr.
      rewrite list_lookup_fmap, Ha in Hr. cbn in Hr. by injection Hr as ->. }
    apply negb_true_iff, (utf8_after_ascii s (length p + 4) a c Hv); [|done|].
    - rewrite Hs, lookup_app_r by lia. replace (length p + 4 - length p) with 4 by lia.
      by apply lookup_app_l_Some.
    - rewrite Hs, lookup_app_r by lia. replace (S (length p + 4) - length p) with 5 by lia.
      by apply lookup_app_l_Some. }
  unfold str_from. rewrite Hb. by eexists.
Qed.

Lemma extract_host_header_total `{!UnicodeLaws} s :
  utf8_valid s = true → ∃ o, extract_host_header s = Val o.
Proof. intros Hv. apply (host_line_total s); [done | apply lines_part]. Qed.

Lemma from_utf8_valid b : utf8_valid (unwrap_or (from_utf8 b) []) = true.
Proof. unfold from_utf8. by destruct (utf8_valid b) eqn:E. Qed.

(** The request, when it is not a CONNECT: as it came, with its host. *)
Definition forwarded (b : bytes) (h : bytes) (p listen_port : N) : Prop :=
  utf8_valid b = true ∧ starts_with §"CONNECT " b = false ∧ headers_end b = true
  ∧ ∃ host, extract_host_header b = Val (Some host) ∧ (h, p) = parse_host_port host listen_port.

Lemma http_loop_sound fuel listen_port buf w h p b w' :
  http_loop connect_timeout fuel listen_port buf w = Some (Ok (h, p, b), w') →
  upstream w' = upstream w
  ∧ ((∃ c, b = [] ∧ buf ++ arrives Client w = c ++ arrives Client w'
       ∧ tx (client w') = tx (client w) ++ ESTABLISHED
       ∧ starts_with §"CONNECT " c = true ∧ (h, p) = connect_target c listen_port)
     ∨ (buf ++ arrives Client w = b ++ arrives Client w' ∧ tx (client w') = tx (client w)
        ∧ forwarded b h p listen_port)).
Proof.
  revert buf w. induction fuel as [|fuel IH]; intros buf w; [done|].
  cbn [http_loop]. intros (x & w1 & (_ & Hin & Htx & Hup)%client_read & H1)%bind_ok_inv.
  case_decide as Hb; [done|]. cbv zeta in H1. rewrite Hin, app_assoc.
  set (headers := unwrap_or (from_utf8 (buf ++ x)) []) in *.
  assert (headers ≠ [] → utf8_valid (buf ++ x) = true ∧ headers = buf ++ x) as Hh.
  { unfold headers, from_utf8. by destruct (utf8_valid (buf ++ x)). }
  destruct (starts_with §"CONNECT " headers) eqn:Ec.
  - destruct Hh as [_ Hh]; [by intros E; rewrite E in Ec|]. rewrite Hh in *.
    destruct (connect_target (buf ++ x) listen_port) as [h' p'] eqn:Et.
    apply bind_ok_inv in H1 as ([] & w2 & Hw%map_err_ok_inv & H1). injection H1 as <- <- <- <-.
    apply write_side in Hw as (Hrx & Hoth & Ht). specialize (Ht eq_refl).
    split; [cbn in Hoth; congruence|]. left. exists (buf ++ x).
    split_and!; [done | unfold arrives; by rewrite Hrx | rewrite <- Htx; exact Ht | done | done].
  - destruct (headers_end headers) eqn:Ee.
    + destruct Hh as [Hv Hh]; [by intros E; rewrite E in Ee|]. rewrite Hh in *.
      apply bind_ok_inv in H1 as (o & w2 & Hp & H1). destruct (extract_host_header (buf ++ x)) as [o'|] eqn:Eo; [|done].
      injection Hp as <- <-. destruct o' as [host|]; [|done].
      destruct (parse_host_port host listen_port) as [h' p'] eqn:Et. injection H1 as <- <- <- <-.
      split; [done|]. right. split_and!; [done | done |]. split_and!; [done..|]. by exists host.
    + destruct (HTTP_BUF <=? length (buf ++ x)); [done|]. apply IH in H1 as (Hup2 & Hor).
      rewrite Hup2, Hup. split; [done|].
      rewrite <- Htx. destruct Hor as [(c & Hor)|Hor]; [left; by exists c | by right].
Qed.

Lemma http_loop_safe `{!UnicodeLaws} fuel listen_port buf w w' e :
  HTTP_BUF < length buf + fuel → length buf ≤ HTTP_BUF →
  http_loop connect_timeout fuel listen_port buf w = Some (Err e, w') → e ≠ Panicked ∧ e ≠ LoopFuel.
Proof.
  revert buf w. induction fuel as [|fuel IH]; intros buf w Hf Hl; [lia|].
  cbn [http_loop]. unfold mbind at 1, io_bind at 1.
  destruct (timeout _ _ _ w) as [[[b|e1] w1]|] eqn:Er; [| |done].
  - case_decide as Hb; [by intros [= <- <-]|]. cbv zeta.
    destruct (starts_with §"CONNECT " _).
    { destruct (connect_target _ _) as [h p]. unfold mbind, io_bind, map_err.
      destruct (write_all _ _ _) as [[[?|?] ?]|]; by try intros [= <- <-]. }
    destruct (headers_end _).
    { destruct (extract_host_header_total _ (from_utf8_valid (buf ++ b))) as [o ->].
      unfold or_panic, mbind, io_bind, mret, io_ret.
      destruct o; [destruct (parse_host_port _ _)|]; by try intros [= <- <-]. }
    destruct (Nat.leb_spec HTTP_BUF (length (buf ++ b))); [by intros [= <- <-]|].
    assert (0 < length b) as Hb0 by (destruct b; [done | apply Nat.lt_0_succ]).
    apply IH; [rewrite length_app in *; lia | lia].
  - intros [= <- <-]. revert Er. unfold timeout, map_err.
    destruct (read _ _ _) as [[[?|?] ?]|]; [case_match| |]; try (intros [= <- <-]); try done.
    case_match; by intros [= <- <-].
Qed.

(** How long the client's socket takes for the next write; nothing when it blocks. *)
Definition reply_delay (w : World) : option N :=
  match wr (client w) with WrBlock _ :: _ => None | WrOk d :: _ => Some d | _ => Some 0%N end.

(** A round returns within its timeout, but for the reply to a CONNECT. *)
Lemma http_loop_returns fuel listen_port buf w :
  (∃ r w', http_loop connect_timeout fuel listen_port buf w = Some (r, w')
    ∧ (now w' ≤ now w + N.of_nat fuel * connect_timeout + unwrap_or (reply_delay w) 0)%N)
  ∨ (http_loop connect_timeout fuel listen_port buf w = None ∧ reply_delay w = None
     ∧ ∃ c, c `prefix_of` buf ++ arrives Client w ∧ starts_with §"CONNECT " c = true).
Proof.
  revert buf w. induction fuel as [|fuel IH]; intros buf w; [left; by eexists _, _; split; [done|lia]|].
  cbn [http_loop]. unfold mbind at 1 4, io_bind at 1 4.
  destruct (timeout_returns connect_timeout HttpTimeout (map_err HttpRead (read Client (HTTP_BUF - length buf))) w)
    as (r & w1 & Hr & Hw1). rewrite Hr.
  assert (∀ r : result HandleError (bytes * N * bytes), ∃ r' w', Some (r, w1) = Some (r', w')
    ∧ (now w' ≤ now w + N.of_nat (S fuel) * connect_timeout + unwrap_or (reply_delay w) 0)%N) as Hnow
    by (intros r0; eexists _, _; split; [done|lia]).
  destruct r as [b|e]; [|left; apply Hnow]. case_decide as Hb; [left; apply Hnow|]. cbv zeta.
  apply client_read_wr in Hr as (Hin & Hwr). rewrite Hin, app_assoc. unfold reply_delay in *. rewrite <- Hwr in *.
  set (headers := unwrap_or (from_utf8 (buf ++ b)) []).
  assert (starts_with §"CONNECT " headers = true → headers = buf ++ b) as Hh.
  { unfold headers, from_utf8. by destruct (utf8_valid (buf ++ b)). }
  destruct (starts_with §"CONNECT " headers) eqn:Ec.
  { destruct (connect_target _ _) as [h p]. unfold mbind, io_bind, map_err, write_all, write_effect. cbn [stream].
    destruct (wr (client w1)) as [|[d|n|n] q]; [left; eexists _, _; split; [done|cbn; lia] ..|].
    right. split_and!; [done..|]. exists (buf ++ b). split; [by apply prefix_app_r | by rewrite <- Hh]. }
  destruct (headers_end headers).
  { left. unfold or_panic, mbind, io_bind, mret, io_ret.
    destruct (extract_host_header headers) as [[host|]|]; [destruct (parse_host_port host listen_port)|..]; apply Hnow. }
  destruct (HTTP_BUF <=? length (buf ++ b)); [left; apply Hnow|].
  destruct (IH (buf ++ b) w1) as [(r' & w2 & -> & Hw2)|Hnone]; [left|by right].
  eexists _, _. split; [done|]. lia.
Qed.

(** C9: What the relay takes from an HTTP client.  A request that is not a CONNECT is kept whole
    and in order for the backend, up to at least the end of its headers, and leads to the
    host and port of its first Host header; for a CONNECT the relay answers success and
    leads to the target of the line; nothing else is accepted, and a client that is accepted
    is sent nothing else.  The extraction never panics, on any bytes.  It
    always returns, within a read timeout per byte of its buffer and the time of the reply,
    with one exception: the reply to a CONNECT is written without a timeout, and a client
    that does not take it holds the extraction for ever. *)
Theorem extract_http_spec `{!UnicodeLaws} listen_port w :
  let run := extract_http_info connect_timeout listen_port w in
  (∀ h p b w', run = Some (Ok (h, p, b), w') →
     upstream w' = upstream w
     ∧ ((∃ c, b = [] ∧ arrives Client w = c ++ arrives Client w'
          ∧ tx (client w') = tx (client w) ++ ESTABLISHED
          ∧ starts_with §"CONNECT " c = true ∧ (h, p) = connect_target c listen_port)
        ∨ (arrives Client w = b ++ arrives Client w' ∧ tx (client w') = tx (client w)
           ∧ utf8_valid b = true ∧ starts_with §"CONNECT " b = false ∧ headers_end b = true
           ∧ ∃ host, extract_host_header b = Val (Some host) ∧ (h, p) = parse_host_port host listen_port)))
  ∧ (∀ d, reply_delay w = Some d →
     ∃ r w', run = Some (r, w') ∧ (now w' ≤ now w + N.of_nat (S HTTP_BUF) * connect_timeout + d)%N)
  ∧ (run = None → reply_delay w = None
     ∧ ∃ c, c `prefix_of` arrives Client w ∧ starts_with §"CONNECT " c = true)
  ∧ (∀ e w', run = Some (Err e, w') → e ≠ Panicked ∧ e ≠ LoopFuel).
Proof.
  cbv zeta. unfold extract_http_info.
  pose proof (http_loop_returns (S HTTP_BUF) listen_port [] w) as Hret. split_and!.
  - intros h p b w' Hr%http_loop_sound. exact Hr.
  - intros d Hd. rewrite Hd in Hret. by destruct Hret as [Hret|(_ & ? & _)].
  - intros Hn. destruct Hret as [(r & w' & Hr & _)|(_ & ? & ?)]; [by rewrite Hr in Hn | done].
  - intros e w'. apply http_loop_safe; change (length []) with 0; generalize HTTP_BUF; lia.
Qed.
End http.

(** A client that sends these segments, in order. *)
Definition client_of (segments : list bytes) : World :=
  {| now := 0; upstream := idle;
     client := {| rx := (λ b, (5%N, Data b)) <$> segments; wr := []; tx := []; nodelay_ok := true |} |}.

Definition http_request : bytes :=
  §"GET / HTTP/1.1" ++ CRLF ++ §"HOST:  Example.com:8080 " ++ CRLF ++ CRLF ++ §"body".

Lemma extract_http_spec_witness :
  match @extract_http_info ascii_unicode 10000 80 (client_of [http_request]) with
  | Some (Ok (h, p, b), w') => upstream w' = idle ∧ h = §"Example.com" ∧ p = 8080%N ∧ b = http_request
  | _ => False
  end.
Proof.
  destruct (@extract_http_info ascii_unicode 10000 80 (client_of [http_request]))
    as [[[[[h p] b]|e] w']|] eqn:E.
  - split; [by apply (proj1 (@extract_http_spec ascii_unicode 10000 ascii_unicode_laws 80 _) h p b w' E)|].
    assert (match @extract_http_info ascii_unicode 10000 80 (client_of [http_request]) with
      | Some (Ok r, _) => r = (§"Example.com", 8080%N, http_request) | _ => False end) as Hr by (by vm_compute).
    rewrite E in Hr. by injection Hr as -> -> ->.
  - assert (match @extract_http_info ascii_unicode 10000 80 (client_of [http_request]) with
      | Some (Ok _, _) => True | _ => False end) as Hr by (by vm_compute). by rewrite E in Hr.
  - assert (match @extract_http_info ascii_unicode 10000 80 (client_of [http_request]) with
      | Some (Ok _, _) => True | _ => False end) as Hr by (by vm_compute). by rewrite E in Hr.
Defined.

(** Three defects of the HTTP side.  A CONNECT line that comes in two segments is answered
    before it is complete, and leads to a truncated name; what a CONNECT client sends in the
    segment of its request is lost, here a TLS hello; and a POST whose body is not UTF-8 is
    not recognized as HTTP when head and body come together, but is when they come apart. *)
Theorem extract_http_flaws :
  let run segments :=
    match @extract_http_info ascii_unicode 10000 3128 (client_of segments) with
    | Some (Ok (h, p, b), w) => Some (h, p, arrives Client w)
    | _ => None
    end in
  let connect_line := §"CONNECT example.com:443 HTTP/1.1" ++ CRLF ++ CRLF in
  let post := §"POST / HTTP/1.1" ++ CRLF ++ §"Host: example.com" ++ CRLF ++ CRLF in
  run [connect_line] = Some (§"example.com", 443%N, [])
  ∧ run [take 12 connect_line; drop 12 connect_line] = Some (§"exam", 3128%N, drop 12 connect_line)
  ∧ run [connect_line ++ §"hello"] = Some (§"example.com", 443%N, [])
  ∧ run [post; [xff]] = Some (§"example.com", 3128%N, [xff])
  ∧ run [post ++ [xff]] = None.
Proof. split_and!; by vm_compute. Qed.

(** * Destinations *)

Section destination.
Context `{Unicode} `{RegexLib}.

(** The entry that lets a name through. *)
Definition lists (e : HostsEntry) (hostname : bytes) : Prop :=
  if exact_rule e then rule_key e = to_lowercase hostname
  else pattern_matches (to_lowercase hostname) e = true.
Definition catches_all (e : HostsEntry) : Prop := trim (pattern e) = §".*" ∧ trim (address e) = §"*".

Lemma filter_head_Some {A} (P : A → Prop) `{∀ x, Decision (P x)} (l : list A) x :
  head (filter P l) = Some x → x ∈ l ∧ P x.
Proof.
  intros Hx. assert (x ∈ filter P l) as Hin.
  { destruct (filter P l); [done|]. injection Hx as ->. by left. }
  by apply list_elem_of_filter in Hin as [? ?].
Qed.

Lemma filter_last_Some {A} (P : A → Prop) `{∀ x, Decision (P x)} (l : list A) x :
  last (filter P l) = Some x → x ∈ l ∧ P x.
Proof.
  intros Hx%last_Some_elem_of. by apply list_elem_of_filter in Hx as [? ?].
Qed.

Lemma compiled_resolve_lists entries table hostname r :
  compile entries = Ok table → Hosts.resolve table hostname = Some r →
  ∃ e, e ∈ entries ∧ lists e hostname ∧ rule_resolve e = r.
Proof.
  unfold compile. cbv zeta. destruct (compile_from 0 entries ∅ []) as [[ex ps]|] eqn:E; [|done].
  intros [= <-]. destruct (compile_from_ok _ _ _ _ _ _ (to_lowercase hostname) E) as [Hx Hp].
  unfold Hosts.resolve. cbn [exact patterns]. rewrite Hx. rewrite lookup_empty.
  unfold last_exact, first_pattern in *. unfold lists.
  destruct (last (filter _ entries)) as [e|] eqn:El; cbn.
  - intros [= <-]. apply filter_last_Some in El as (Hin & He & Hk). exists e. by rewrite He.
  - rewrite Hp. cbn. destruct (head (filter _ entries)) as [e|] eqn:Eh; cbn; [|done].
    intros [= <-]. apply filter_head_Some in Eh as (Hin & He & Hk). exists e. by rewrite He.
Qed.

Lemma compiled_resolve_none entries table hostname e :
  compile entries = Ok table → Hosts.resolve table hostname = None → e ∈ entries → ¬ lists e hostname.
Proof.
  unfold compile. cbv zeta. destruct (compile_from 0 entries ∅ []) as [[ex ps]|] eqn:E; [|done].
  intros [= <-]. destruct (compile_from_ok _ _ _ _ _ _ (to_lowercase hostname) E) as [Hx Hp].
  unfold Hosts.resolve. cbn [exact patterns]. rewrite Hx, lookup_empty, Hp. cbn [first_match].
  unfold last_exact, first_pattern, lists. intros Hn Hin Hl.
  destruct (exact_rule e) eqn:Ee.
  - destruct (last (filter _ entries)) eqn:El; [done|]. apply last_None in El.
    assert (e ∈ filter (λ e, exact_rule e = true ∧ rule_key e = to_lowercase hostname) entries) as Hf
      by (by apply list_elem_of_filter). rewrite El in Hf. by apply elem_of_nil in Hf.
  - destruct (last (filter _ entries)); [done|]. cbn in Hn.
    destruct (head (filter _ entries)) eqn:Eh; [done|]. apply head_None in Eh.
    assert (e ∈ filter (λ e, exact_rule e = false ∧ pattern_matches (to_lowercase hostname) e = true)
      entries) as Hf by (by apply list_elem_of_filter). rewrite Eh in Hf. by apply elem_of_nil in Hf.
Qed.

Lemma compiled_catchall entries table :
  compile entries = Ok table → open_catchall table = true ↔ ∃ e, e ∈ entries ∧ catches_all e.
Proof.
  unfold compile. cbv zeta. destruct (compile_from 0 entries ∅ []) as [[ex ps]|]; [|done].
  intros [= <-]. cbn [open_catchall]. rewrite existsb_exists. unfold catches_all.
  split; intros (e & Hin & He); exists e.
  - apply list_elem_of_In in Hin. apply andb_prop in He as [H1 H2]. unfold beqb in *.
    split; [done|]. split; by eapply bool_decide_eq_true_1.
  - split; [by apply list_elem_of_In|]. destruct He as [-> ->]. done.
Qed.

(** C8: The hosts table is an allow-list.  When it is configured, a name is relayed exactly if
    an entry lists it or an open catch-all entry exists; a listed name goes where the address of
    such an entry says (itself, an address on the same port, or a backend with its own
    port or the requested one), an unlisted one to itself; without a table every name goes
    to itself. *)
Theorem destination_allowlisted entries table hostname port listen_port :
  compile entries = Ok table →
  resolve_destination hostname port listen_port None = DestOk hostname port false
  ∧ match resolve_destination hostname port listen_port (Some table) with
    | Unlisted => ∀ e, e ∈ entries → ¬ lists e hostname ∧ ¬ catches_all e
    | DestOk host p true => ∃ e, e ∈ entries ∧ lists e hostname
        ∧ match rule_resolve e with
          | Passthrough => host = hostname ∧ p = port
          | Ip ip => host = show_ip ip ∧ p = port
          | Hostname backend =>
              if contains_byte x3a backend then (host, p) = parse_host_port backend listen_port
              else host = backend ∧ p = port
          end
    | DestOk host p false => host = hostname ∧ p = port ∧ ∃ e, e ∈ entries ∧ catches_all e
    end.
Proof.
  intros Hc. split; [done|]. unfold resolve_destination. cbv zeta.
  destruct (Hosts.resolve table hostname) as [r|] eqn:Er.
  - rewrite (bool_decide_true (is_Some (Some r))) by by eexists. rewrite orb_true_r. cbn [negb].
    destruct (compiled_resolve_lists _ _ _ _ Hc Er) as (e & Hin & Hl & <-).
    unfold apply_host_resolve. destruct (rule_resolve e) as [|ip|backend] eqn:Ee.
    + exists e. rewrite Ee. done.
    + exists e. rewrite Ee. done.
    + destruct (contains_byte x3a backend) eqn:Eb.
      * destruct (parse_host_port backend listen_port) as [h p] eqn:Ep. exists e. rewrite Ee, Eb. done.
      * exists e. rewrite Ee, Eb. done.
  - rewrite bool_decide_false by (by intros []). rewrite orb_false_r.
    destruct (has_open_catchall table) eqn:Eo; cbn [negb].
    + split_and!; [done | done |]. by apply (compiled_catchall _ _ Hc).
    + intros e Hin. split; [by eapply compiled_resolve_none|]. intros Hca.
      assert (open_catchall table = true) as Ht by (apply (compiled_catchall _ _ Hc); eauto).
      unfold has_open_catchall in Eo. congruence.
Qed.
End destination.

(** * Hosts and ports *)

(** Host and port survive their textual form, as clients send them in a Host header, a
    CONNECT line or a hosts entry: a name or an IPv4 address with a port, an IPv6 address in
    brackets with a port; and without a port the default one is taken. *)
Theorem parse_host_port_roundtrip host port default_port :
  (port ≤ u16_max)%N →
  (x3a ∉ host → starts_with §"[" host = false →
     parse_host_port (host ++ §":" ++ show port) default_port = (host, port)
     ∧ parse_host_port host default_port = (host, default_port))
  ∧ (x5d ∉ host →
     parse_host_port (§"[" ++ host ++ §"]:" ++ show port) default_port = (host, port)
     ∧ parse_host_port (§"[" ++ host ++ §"]") default_port = (host, default_port)).
Proof.
  intros Hp. split.
  - intros Hc Hb. split.
    + unfold parse_host_port. cbv zeta.
      assert (starts_with §"[" (host ++ §":" ++ show port) = false) as ->.
      { destruct host as [|a host]; [done|]. cbn in *. by case_decide. }
      change (§":" ++ show port) with (x3a :: show port).
      rewrite rfind_byte_app by by apply show_not_elem. rewrite take_app_length.
      rewrite drop_S_app. unfold parse_u16. by rewrite parse_uint_show.
    + unfold parse_host_port. cbv zeta. by rewrite Hb, rfind_byte_none.
  - intros Hc. 
    assert (∀ t, find_byte x5d (§"[" ++ host ++ §"]" ++ t) = Some (S (length host))) as Hfind.
    { intros t. apply (find_byte_app x5d (x5b :: host) t). by apply not_elem_of_cons. }
    assert (∀ t, take (S (length host) - 1) (drop 1 (§"[" ++ host ++ §"]" ++ t)) = host) as Htake.
    { intros t. cbn [drop app lit String.list_byte_of_string]. cbn. rewrite Nat.sub_0_r, drop_0.
      apply take_app_length. }
    assert (∀ t, drop (S (length host) + 2) (§"[" ++ host ++ §"]:" ++ t) = t) as Hdrop.
    { intros t. change (§"[" ++ host ++ §"]:" ++ t) with (x5b :: (host ++ [x5d; x3a] ++ t)).
      cbn [Nat.add drop]. rewrite drop_app_ge by lia.
      by replace (length host + 2 - length host) with 2 by lia. }
    split; unfold parse_host_port; cbv zeta.
    + change (§"]:" ++ show port) with (§"]" ++ §":" ++ show port).
      rewrite (proj2 (starts_with_spec §"[" _)) by eauto.
      rewrite Hfind, Htake. change (§"]" ++ §":" ++ show port) with (§"]:" ++ show port).
      unfold get_from, char_boundary. case_decide as Hl.
      * apply (f_equal (λ n, drop n (§"[" ++ host ++ §"]:" ++ show port))) in Hl.
        rewrite Hdrop, drop_ge in Hl by lia. destruct (show_writes port) as (Hne & _). done.
      * rewrite <- (Nat.add_0_r (S (length host) + 2)), <- lookup_drop, Hdrop, Nat.add_0_r.
        destruct (show port) as [|d ds] eqn:E; [by destruct (show_writes port) as (Hne & _)|].
        cbn [lookup list_lookup].
        assert (is_cont d = false) as ->.
        { pose proof (show_graphic port) as Hg. rewrite E in Hg. cbn [forallb] in Hg. bool_to_prop.
          by apply graphic_not_cont. }
        cbn [negb]. rewrite Hdrop. cbn [mbind option_bind]. unfold parse_u16. rewrite <- E.
        by rewrite parse_uint_show.
    + rewrite (proj2 (starts_with_spec §"[" _)) by eauto.
      pose proof (Hfind []) as Hf. pose proof (Htake []) as Ht. rewrite app_nil_r in Hf, Ht.
      rewrite Hf, Ht. unfold get_from, char_boundary. rewrite decide_False.
      * rewrite lookup_ge_None_2; [done|]. rewrite !length_app. cbn. lia.
      * rewrite !length_app. cbn. lia.
Qed.

(** * The handler *)

(** ** Nothing reaches upstream before the tests *)

(** A computation that leaves the stream of a side alone. *)
Definition keeps {E A} (sd : Side) (m : IO E A) : Prop :=
  ∀ w r w', m w = Some (r, w') → stream sd w' = stream sd w.

Section keeps.
Context (sd : Side).

Lemma keeps_mret {E A} (a : A) : keeps sd (mret a : IO E A).
Proof. by intros w r w' [= _ <-]. Qed.
Lemma keeps_throw {E A} (e : E) : keeps sd (throw e : IO E A).
Proof. by intros w r w' [= _ <-]. Qed.
Lemma keeps_lift {E A} (r : result E A) : keeps sd (lift r).
Proof. by intros w r' w' [= _ <-]. Qed.
Lemma keeps_get_now {E} : keeps sd (get_now (E := E)).
Proof. by intros w r w' [= _ <-]. Qed.
Lemma keeps_sleep {E} d : keeps sd (sleep (E := E) d).
Proof. intros w r w' [= _ <-]. apply stream_set_now. Qed.
Lemma keeps_or_panic {A} (m : eval A) : keeps sd (or_panic m).
Proof. destruct m; [apply keeps_mret | apply keeps_throw]. Qed.
Lemma keeps_bind {E A B} (m : IO E A) (k : A → IO E B) :
  keeps sd m → (∀ a, keeps sd (k a)) → keeps sd (m ≫= k).
Proof.
  intros Hm Hk w r w'. unfold mbind, io_bind. destruct (m w) as [[[a|e] w1]|] eqn:E1; [| |done].
  - intros E2. apply Hm in E1. apply Hk in E2. congruence.
  - intros [= <- <-]. by apply Hm in E1.
Qed.
Lemma keeps_map_err {E E' A} (f : E → E') (m : IO E A) : keeps sd m → keeps sd (map_err f m).
Proof.
  intros Hm w r w'. unfold map_err. destruct (m w) as [[[a|e] w1]|] eqn:E1; [| |done];
    intros [= <- <-]; by apply Hm in E1.
Qed.
Lemma keeps_attempt {E E' A} (m : IO E A) : keeps sd m → keeps sd (attempt (E' := E') m).
Proof.
  intros Hm w r w'. unfold attempt. destruct (m w) as [[r1 w1]|] eqn:E1; [|done].
  intros [= <- <-]. by apply Hm in E1.
Qed.
Lemma keeps_timeout {E A} d (e : E) (m : IO E A) : keeps sd m → keeps sd (timeout d e m).
Proof.
  intros Hm w r w'. unfold timeout. destruct (m w) as [[r1 w1]|] eqn:E1.
  - case_match; intros [= <- <-]; [by apply Hm in E1 | apply stream_set_now].
  - intros [= <- <-]. apply stream_set_now.
Qed.
Lemma keeps_set_nodelay sd' : keeps sd (set_nodelay sd').
Proof. intros w r w'. unfold set_nodelay. by case_match; intros [= _ <-]. Qed.
End keeps.

Lemma keeps_on_rx {A} (f : N → list (N * RxEvent) → option (result IoErr A * N * list (N * RxEvent))) sd :
  keeps (other sd) (on_rx sd f).
Proof.
  intros w r w'. unfold on_rx. destruct (f _ _) as [[[r0 t] l]|]; [|done].
  intros [= _ <-]. rewrite stream_set_now. apply stream_set_stream_ne, other_ne.
Qed.
Lemma keeps_read n : keeps Upstream (read Client n).
Proof. apply (keeps_on_rx _ Client). Qed.
Lemma keeps_peek n : keeps Upstream (peek Client n).
Proof. apply (keeps_on_rx _ Client). Qed.
Lemma keeps_read' n : keeps Client (read Upstream n).
Proof. apply (keeps_on_rx _ Upstream). Qed.
Lemma keeps_read_exact n : keeps Client (read_exact Upstream n).
Proof. apply (keeps_on_rx _ Upstream). Qed.
Lemma keeps_write b : keeps Upstream (write_all Client b).
Proof. intros w r w' Hr. by apply write_side in Hr as (_ & Hoth & _). Qed.
Lemma keeps_write' b : keeps Client (write_all Upstream b).
Proof. intros w r w' Hr. by apply write_side in Hr as (_ & Hoth & _). Qed.
Lemma keeps_dial net name : keeps Client (dial net name).
Proof. intros w r w'. unfold dial. case_match; [| |done]; by intros [= _ <-]. Qed.

#[export] Hint Resolve keeps_mret keeps_throw keeps_lift keeps_get_now keeps_sleep keeps_or_panic keeps_bind
  keeps_map_err keeps_attempt keeps_timeout keeps_set_nodelay keeps_read keeps_peek keeps_read'
  keeps_read_exact keeps_write keeps_write' keeps_dial : snirelay.
Ltac keeps_tac :=
  repeat first [ solve [auto with snirelay] | apply keeps_bind; [|intros ?] | progress cbv zeta | case_match ].

Lemma extract_keeps `{Unicode} ct proto listen_port : keeps Upstream (extract ct proto listen_port).
Proof.
  assert (∀ fuel buf, keeps Upstream (tls_loop ct fuel listen_port buf)) as Htls.
  { induction fuel; intros buf; cbn [tls_loop]; keeps_tac. }
  assert (∀ fuel buf, keeps Upstream (http_loop ct fuel listen_port buf)) as Hhttp.
  { induction fuel; intros buf; cbn [http_loop]; keeps_tac. }
  unfold extract, extract_auto, extract_http_info, extract_tls_info.
  repeat first [ apply Htls | apply Hhttp | solve [auto with snirelay] | apply keeps_bind; [|intros ?] | case_match ].
Qed.

(** Reaching a target through a proxy does not touch the client. *)
Lemma connect_keeps net proxy host port ct : keeps Client (connect net proxy host port ct).
Proof.
  assert (∀ d h p, keeps Client (dial_timeout net d h p)) as Hd.
  { intros d h p. unfold dial_timeout. auto with snirelay. }
  assert (∀ atyp, keeps Client (skip_socks5_addr atyp)) as Hs.
  { intros atyp. unfold skip_socks5_addr. keeps_tac. }
  assert (∀ u p m, keeps Client (socks5_auth u p m)) as Ha.
  { intros u p m. unfold socks5_auth. keeps_tac. }
  assert (∀ fuel buf, keeps Client (read_response fuel buf)) as Hr.
  { induction fuel; intros buf; cbn [read_response]; keeps_tac. }
  destruct proxy; cbn [connect]; unfold socks5_connect, socks5_handshake, http_connect;
    repeat first [ apply Hd | apply Hs | apply Ha | apply Hr | solve [auto with snirelay]
                 | apply keeps_bind; [|intros ?] | case_match ].
Qed.

Section handler.
Context `{Unicode} `{HashOrder} `{RegexLib}.
Context (sh : Shared) (connect_timeout : N).

(** The tests that a connection passes before a proxy is dialled, in the order of the code:
    [w1] is the state after the extraction, [w2] the one before the dial. *)
Record passes (client_ip proto : bytes) (listen_port : N) (limiter : option DomainLimiter)
    (w w1 w2 : World) (hostname peeked overflow host : bytes) (port : N) : Prop := {
  passes_acl : is_allowed (acl_at sh (now w)) client_ip = true;
  passes_extract : ∃ p, extract connect_timeout proto listen_port w
      = Some (Ok (hostname, p, peeked, overflow), w1)
    ∧ ∃ mapped, resolve_destination hostname p listen_port (hosts_at sh (now w1)) = DestOk host port mapped;
  passes_limits : match limiter with
    | None => True
    | Some l => (check_connection (wall sh (now w1)) hostname (others sh (now w1) l)).1 = Ok tt
    end;
  passes_loop : would_loop (λ h p, (lookup_at sh (now w1) h p).2) (self_loop sh) host port = false;
  passes_wait : client w2 = client w1 ∧ upstream w2 = upstream w;
}.

(** The session when the relay starts. *)
Record ready (s s2 : Session) (hostname host : bytes) (w1 : World) : Prop := {
  ready_labels : labels s2 = set_upstream (set_domain (labels s) hostname) host;
  ready_limiter : limiter s2 = match limiter s with
    | None => None
    | Some l => Some (check_connection (wall sh (now w1)) hostname (others sh (now w1) l)).2
    end;
  ready_rest : metrics s2 = metrics s ∧ traffic s2 = traffic s ∧ opened s2 = opened s;
}.

(** The ends of the body before the relay: a refusal, or an error. *)
Definition refused (s s' : Session) (r : result Stop unit) : Prop :=
  opened s' = opened s ∧ traffic s' = traffic s
  ∧ ((∃ e, r = Err (Failed e) ∧ metrics s' = metrics s)
     ∨ (∃ l reason, r = Err Return ∧ metrics s' = metrics s ++ connection_rejected l reason)).

Lemma check_limits_inv hostname s w r s' w' :
  check_limits sh hostname s w = Some (r, s', w') →
  w' = w
  ∧ ((r = Ok tt ∧ labels s' = labels s ∧ metrics s' = metrics s ∧ traffic s' = traffic s ∧ opened s' = opened s
      ∧ match limiter s with
        | None => limiter s' = None
        | Some l => check_connection (wall sh (now w)) hostname (others sh (now w) l)
                    = (Ok tt, unwrap_or (limiter s') l) ∧ is_Some (limiter s')
        end)
     ∨ ∃ e, r = Err e ∧ refused s s' (Err e)).
Proof.
  unfold check_limits. destruct (limiter s) as [l|] eqn:El.
  - destruct (check_connection _ _ _) as [[[]|reason] l'] eqn:Ec.
    + intros [= <- <- <-]. split; [done|]. left. cbn. by split_and!.
    + unfold reject, emit, stop, mbind, sio_bind. intros [= <- <- <-]. split; [done|]. right.
      exists Return. split; [done|]. split; [done|]. split; [done|]. right. by eexists _, _.
  - intros [= <- <- <-]. split; [done|]. left. by rewrite El.
Qed.

Lemma check_loop_inv host port w (b : bool) w' :
  check_loop sh host port w = Some (Ok b, w') →
  b = would_loop (λ h p, (lookup_at sh (now w) h p).2) (self_loop sh) host port
  ∧ client w' = client w ∧ upstream w' = upstream w.
Proof.
  unfold check_loop. unfold mbind, io_bind, get_now.
  destruct (_ && _); cbn; by intros [= <- <-].
Qed.

Lemma sio_bind_inv {A B} (m : SIO A) (k : A → SIO B) s w r s' w' :
  (m ≫= k) s w = Some (r, s', w') →
  (∃ a s1 w1, m s w = Some (Ok a, s1, w1) ∧ k a s1 w1 = Some (r, s', w'))
  ∨ (∃ e, m s w = Some (Err e, s', w') ∧ r = Err e).
Proof.
  unfold mbind, sio_bind. destruct (m s w) as [[[[a|e] s1] w1]|]; [| |done].
  - intros Hk. left. by exists a, s1, w1.
  - intros [= <- <- <-]. right. by exists e.
Qed.

Lemma io_inv {A} (m : IO HandleError A) s w r s' w' :
  io m s w = Some (r, s', w') →
  s' = s ∧ ((∃ a, r = Ok a ∧ m w = Some (Ok a, w')) ∨ (∃ e, r = Err (Failed e) ∧ m w = Some (Err e, w'))).
Proof.
  unfold io. destruct (m w) as [[[a|e] w1]|]; [| |done]; intros [= <- <- <-]; split; eauto.
Qed.

Lemma reject_inv {A} reason s w (r : result Stop A) s' w' :
  reject reason s w = Some (r, s', w') →
  w' = w ∧ r = Err Return ∧ opened s' = opened s ∧ traffic s' = traffic s
  ∧ metrics s' = metrics s ++ connection_rejected (labels s) reason.
Proof. unfold reject, emit, stop, mbind, sio_bind. by intros [= <- <- <-]. Qed.

Lemma refused_trans s s1 s' r :
  metrics s1 = metrics s → opened s1 = opened s → traffic s1 = traffic s →
  refused s1 s' r → refused s s' r.
Proof. intros Hm Ho Ht Hr. revert Hr. unfold refused. by rewrite Hm, Ho, Ht. Qed.

Lemma route_inv client_ip hostname p listen_port peeked overflow s w r s' w' :
  route sh connect_timeout client_ip hostname p listen_port peeked overflow s w = Some (r, s', w') →
  (upstream w' = upstream w ∧ refused s s' r)
  ∨ ∃ host port mapped w2,
      resolve_destination hostname p listen_port (hosts_at sh (now w)) = DestOk host port mapped
      ∧ would_loop (λ h p, (lookup_at sh (now w) h p).2) (self_loop sh) host port = false
      ∧ client w2 = client w ∧ upstream w2 = upstream w
      ∧ ∃ s2, labels s2 = set_upstream (labels s) host ∧ limiter s2 = limiter s ∧ metrics s2 = metrics s
        ∧ traffic s2 = traffic s ∧ opened s2 = opened s
        ∧ relay sh connect_timeout client_ip hostname host port peeked overflow s2 w2 = Some (r, s', w').
Proof.
  unfold route. intros [(t & s1 & w1 & [= <- <- <-] & Hk)|(e & [=] & _)]%sio_bind_inv.
  destruct (resolve_destination hostname p listen_port (hosts_at sh (now w))) as [host port mapped|] eqn:Ed.
  2:{ apply reject_inv in Hk as (-> & -> & Ho & Ht & Hm). left. split; [done|].
      split; [done|]. split; [done|]. right. by eexists _, _. }
  apply sio_bind_inv in Hk as [(loops & s1 & w1 & Hx & Hk)|(e & Hx & ->)].
  2:{ apply io_inv in Hx as (-> & [(a & [=] & _)|(e' & [= ->] & Hx)]). left. split.
      - unfold check_loop in Hx. revert Hx. unfold mbind, io_bind, get_now. by destruct (_ && _).
      - split; [done|]. split; [done|]. left. by exists e'. }
  apply io_inv in Hx as (-> & [(a & [= <-] & Hx)|(e' & [=] & _)]).
  apply check_loop_inv in Hx as (-> & Hc & Hu).
  destruct (would_loop _ _ _ _) eqn:El.
  { apply reject_inv in Hk as (-> & -> & Ho & Ht & Hm). left. split; [done|].
    split; [done|]. split; [done|]. right. by eexists _, _. }
  apply sio_bind_inv in Hk as [([] & s2 & w2 & [= <- <-] & Hk)|(e & [=] & _)].
  right. exists host, port, mapped, w1. split_and!; try done. eexists. split_and!; [..|exact Hk]; done.
Qed.

(** The body refuses, fails, or passes all the tests and relays. *)
Lemma handle_body_inv proto listen_port s w r s' w' :
  handle_body sh connect_timeout proto listen_port s w = Some (r, s', w') →
  (upstream w' = upstream w ∧ refused s s' r)
  ∨ ∃ w1 w2 s2 hostname peeked overflow host port,
      passes (client_ip (labels s)) proto listen_port (limiter s) w w1 w2 hostname peeked overflow host port
      ∧ ready s s2 hostname host w1
      ∧ relay sh connect_timeout (client_ip (labels s)) hostname host port peeked overflow s2 w2
        = Some (r, s', w').
Proof.
  unfold handle_body. intros [(l & s1 & w1 & [= <- <- <-] & Hk)|(e & [=] & _)]%sio_bind_inv.
  apply sio_bind_inv in Hk as [(t & s1 & w1 & [= <- <- <-] & Hk)|(e & [=] & _)].
  destruct (is_allowed _ _) eqn:Eacl; cbn [negb] in Hk.
  2:{ apply reject_inv in Hk as (-> & -> & Ho & Ht & Hm). left. split; [done|].
      split; [done|]. split; [done|]. right. by eexists _, _. }
  apply sio_bind_inv in Hk as [(x & s1 & w1 & Hx & Hk)|(e & Hx & ->)].
  2:{ apply io_inv in Hx as (-> & [(a & [=] & _)|(e' & [= ->] & Hx)]). left.
      split; [by eapply extract_keeps|]. split; [done|]. split; [done|]. left. by exists e'. }
  apply io_inv in Hx as (-> & [(a & [= <-] & Hx)|(e' & [=] & _)]).
  destruct x as [[[hostname p] peeked] overflow].
  apply sio_bind_inv in Hk as [([] & s2 & w2 & [= <- <-] & Hk)|(e & [=] & _)].
  apply sio_bind_inv in Hk as [([] & s3 & w3 & Hlim & Hk)|(e & Hlim & ->)].
  2:{ apply check_limits_inv in Hlim as (-> & [([=] & _)|(e' & [= ->] & Hr)]). left.
      split; [by eapply extract_keeps|exact Hr]. }
  apply check_limits_inv in Hlim as (-> & [(_ & Hl3 & Hm3 & Ht3 & Ho3 & Hlim3)|(e & [=] & _)]).
  apply route_inv in Hk as [(Hu & Hr)|(host & port & mapped & w2 & Hd & Hl & Hc & Hu & s2 & Hs1 & Hs2 & Hs3 & Hs4 & Hs5 & Hrel)].
  - left. split; [by rewrite Hu; eapply extract_keeps|]. eapply refused_trans; [..|exact Hr]; done.
  - right. exists w1, w2, s2, hostname, peeked, overflow, host, port. cbn [limiter labels] in *. split_and!; [|  |exact Hrel].
    + split; [done | by exists p; split; [|exists mapped] | | done | split; [done|]].
      * destruct (limiter s) as [l|]; [|done]. destruct Hlim3 as [-> _]. done.
      * rewrite Hu. by eapply extract_keeps.
    + split; [by rewrite Hs1, Hl3 | | cbn in *; split_and!; congruence].
      rewrite Hs2. destruct (limiter s) as [l|]; [|done]. destruct Hlim3 as [-> [l' ->]]. done.
Qed.

(** ** The relay *)

Lemma connect_first_inv candidates host port last_err w name proxy w' :
  connect_first sh connect_timeout candidates host port last_err w = Some (Ok (name, proxy), w') →
  (name, proxy) ∈ candidates ∧ client w' = client w
  ∧ ∃ w1, connect (net sh) proxy host port connect_timeout w1 = Some (Ok tt, w').
Proof.
  revert last_err w. induction candidates as [|[n p] candidates IH]; intros last_err w; [by destruct last_err as [[]|]|].
  cbn [connect_first]. intros (r & w1 & Ha & Hk)%bind_ok_inv.
  pose proof (keeps_attempt _ _ (connect_keeps (net sh) p host port connect_timeout) _ _ _ Ha) as Hc.
  revert Ha. unfold attempt. destruct (connect _ _ _ _ _ w) as [[r0 w0]|] eqn:E; [|done].
  intros [= -> ->]. destruct r as [[]|e].
  - injection Hk as -> -> ->. split; [by left|]. split; [exact Hc|]. by exists w.
  - apply IH in Hk as (Hin & Hc' & Hw). split; [by right|]. split; [|done]. rewrite Hc'. exact Hc.
Qed.

(** A tunnel that was opened, and how it ended. *)
Record tunnel (s s' : Session) (client_ip hostname host : bytes) (port : N) (peeked overflow : bytes)
    (w w' : World) (name : bytes) (proxy : UpstreamProxy) (w3 w4 : World) (sp : Splice) (c2u u2c : N) : Prop := {
  tunnel_candidate : ∃ candidates, connect_candidates (registry_at sh (now w)) client_ip = Ok candidates
    ∧ (name, proxy) ∈ candidates;
  tunnel_connected : ∃ w1, connect (net sh) proxy host port connect_timeout w1 = Some (Ok tt, w3);
  tunnel_client : client w3 = client w;
  tunnel_replay : replay peeked overflow w3 = Some (Ok tt, w4);
  tunnel_splice : sp = run_splice (wall sh) (others sh) hostname (schedule sh) (splice_start (limiter s) w4);
  tunnel_end : splice_result sp = Some (c2u, u2c) ∧ w' = sp_world sp;
  tunnel_metrics : metrics s' = metrics s ++ connection_opened (labels s) ++ connection_closed (labels s) c2u u2c;
  tunnel_traffic : traffic s' = traffic s ++ (if has_traffic sh then
      [{| tr_client_ip := Metrics.client_ip (labels s); tr_domain := domain (labels s);
          tr_c2u := c2u; tr_u2c := u2c |}] else []);
}.

Lemma relay_inv client_ip hostname host port peeked overflow s w r s' w' :
  opened s = false →
  relay sh connect_timeout client_ip hostname host port peeked overflow s w = Some (r, s', w') →
  labels s' = labels s
  ∧ ((∃ e, r = Err (Failed e) ∧ traffic s' = traffic s
        ∧ ((opened s' = false ∧ metrics s' = metrics s)
           ∨ (opened s' = true ∧ metrics s' = metrics s ++ connection_opened (labels s))))
     ∨ (r = Ok tt ∧ opened s' = false ∧ ∃ name proxy w3 w4 sp c2u u2c,
          tunnel s s' client_ip hostname host port peeked overflow w w' name proxy w3 w4 sp c2u u2c)).
Proof.
  intros Ho. unfold relay.
  intros [(t & s1 & w1 & [= <- <- <-] & Hk)|(e & [=] & _)]%sio_bind_inv.
  apply sio_bind_inv in Hk as [(candidates & s1 & w1 & Hx & Hk)|(e & Hx & ->)].
  2:{ apply io_inv in Hx as (-> & [(a & [=] & _)|(e' & [= ->] & _)]). split; [done|]. left. eauto 10. }
  apply io_inv in Hx as (-> & [(a & [= <-] & Hx)|(e' & [=] & _)]).
  unfold lift in Hx. destruct (connect_candidates _ _) as [cs|] eqn:Ec; [|done]. injection Hx as <- <-.
  apply sio_bind_inv in Hk as [([name proxy] & s1 & w1 & Hx & Hk)|(e & Hx & ->)].
  2:{ apply io_inv in Hx as (-> & [(a & [=] & _)|(e' & [= ->] & _)]). split; [done|]. left. eauto 10. }
  apply io_inv in Hx as (-> & [(a & [= <-] & Hx)|(e' & [=] & _)]).
  apply connect_first_inv in Hx as (Hin & Hcl & Hconn).
  apply sio_bind_inv in Hk as [([] & s2 & w2 & [= <- <-] & Hk)|(e & [=] & _)].
  apply sio_bind_inv in Hk as [([] & s3 & w3 & [= <- <-] & Hk)|(e & [=] & _)]. cbn [labels limiter metrics traffic] in Hk.
  apply sio_bind_inv in Hk as [([] & s4 & w4 & Hx & Hk)|(e & Hx & ->)].
  2:{ apply io_inv in Hx as (-> & [(a & [=] & _)|(e' & [= ->] & _)]). split; [done|]. left.
      exists e'. cbn. eauto 10. }
  apply io_inv in Hx as (-> & [(a & [= <-] & Hx)|(e' & [=] & _)]).
  apply sio_bind_inv in Hk as [([c2u u2c] & s5 & w5 & Hsp & Hk)|(e & Hsp & ->)];
    revert Hsp; unfold splice; cbn [labels limiter metrics traffic];
    set (sp := run_splice _ _ _ _ _); (destruct (splice_result sp) as [totals|] eqn:Er; [|done]); [|done].
  intros [= -> <- <-]. unfold emit, record_traffic, set_opened in Hk.
  split; [|right; split; [|split; [|exists name, proxy, w1, w4, sp, c2u, u2c; split]]].
  all: revert Hk; destruct (has_traffic sh) eqn:Et; unfold mbind, sio_bind, mret, sio_ret; cbn [labels metrics traffic];
    intros [= <- <- <-]; cbn [labels metrics traffic opened]; rewrite <- ?app_assoc, ?app_nil_r; eauto.
Qed.

Lemma handle_connection_inv peer proto listen_port limiter w r s w' :
  handle_connection sh connect_timeout peer proto listen_port limiter w = Some (r, s, w') →
  ∃ r0 s0, handle_body sh connect_timeout proto listen_port (start_session peer limiter) w = Some (r0, s0, w')
  ∧ match r0 with
    | Err (Failed e) => r = Err e ∧ metrics s = metrics s0 ++ connection_failed (labels s0) (opened s0)
    | _ => r = Ok tt ∧ s = s0
    end.
Proof.
  unfold handle_connection.
  destruct (handle_body _ _ _ _ _ _) as [[[[[]|[|e]] s0] w0]|]; [..|done]; intros [= <- <- <-];
    eexists _, _; done.
Qed.

(** C1: No connection bypasses the tests.  A stream to a proxy or a backend is only ever opened
    for a client whose address the white list admits, after a host name was extracted from
    its first bytes, for which the daily limits of the domain admitted one more connection,
    towards the destination that the hosts table allows for that name, which does not lead
    back to the relay; each test against the state shared at the moment it is made, whatever
    the panel and the other connections do meanwhile. *)
Theorem handler_gatekeeping peer proto listen_port limiter w r s w' :
  handle_connection sh connect_timeout peer proto listen_port limiter w = Some (r, s, w') →
  upstream w' ≠ upstream w →
  ∃ w1 p mapped hostname peeked overflow host port,
    is_allowed (acl_at sh (now w)) (client_ip_from_peer peer) = true
    ∧ extract connect_timeout proto listen_port w = Some (Ok (hostname, p, peeked, overflow), w1)
    ∧ match limiter with
      | None => True
      | Some l => (check_connection (wall sh (now w1)) hostname (others sh (now w1) l)).1 = Ok tt
      end
    ∧ resolve_destination hostname p listen_port (hosts_at sh (now w1)) = DestOk host port mapped
    ∧ would_loop (λ h p, (lookup_at sh (now w1) h p).2) (self_loop sh) host port = false.
Proof.
  intros (r0 & s0 & Hb & _)%handle_connection_inv Hup.
  apply handle_body_inv in Hb as [[Hu _]|(w1 & w2 & s2 & hostname & pk & ov & host & port & [Ha Hx Hl Hlo _] & _)];
    [done|].
  destruct Hx as (p & Hx & mapped & Hd). by exists w1, p, mapped, hostname, pk, ov, host, port.
Qed.

Lemma arity_opened l : Forall labels_arity_ok (connection_opened l).
Proof. pose proof (operations_arity [] l [] 0 0 false) as Ha. rewrite !Forall_app in Ha. tauto. Qed.
Lemma arity_closed l c u : Forall labels_arity_ok (connection_closed l c u).
Proof. pose proof (operations_arity [] l [] c u false) as Ha. rewrite !Forall_app in Ha. tauto. Qed.
Lemma arity_rejected l x : Forall labels_arity_ok (connection_rejected l x).
Proof. pose proof (operations_arity [] l x 0 0 false) as Ha. rewrite !Forall_app in Ha. tauto. Qed.
Lemma arity_failed l b : Forall labels_arity_ok (connection_failed l b).
Proof. pose proof (operations_arity [] l [] 0 0 b) as Ha. rewrite !Forall_app in Ha. tauto. Qed.

(** C10: However a connection ends, the gauges of active connections return to where they were,
    in total and for every client, domain and backend; and every metric is given as many
    labels as it was registered with, so that recording never panics. *)
Theorem handler_metrics_balanced peer proto listen_port limiter w r s w' :
  handle_connection sh connect_timeout peer proto listen_port limiter w = Some (r, s, w') →
  gauge_balanced (metrics s) ∧ Forall labels_arity_ok (metrics s).
Proof.
  intros (r0 & s0 & Hb & Hr)%handle_connection_inv.
  apply handle_body_inv in Hb as [(_ & Ho & _ & Hm)|(w1 & w2 & s2 & hn & pk & ov & host & port & _ & [_ _ (Hm2 & _ & Ho2)] & Hrel)].
  - cbn in Ho, Hm. destruct Hm as [(e & -> & Hm)|(l & x & -> & Hm)]; destruct Hr as [-> Hs].
    + rewrite Hs, Hm, Ho. split; [apply balanced_failed | apply arity_failed].
    + rewrite Hs, Hm. split; [apply balanced_rejected | apply arity_rejected].
  - cbn in Hm2, Ho2. apply relay_inv in Hrel as [Hl [(e & -> & _ & Hm)|(-> & _ & name & px & w3 & w4 & sp & c & u & [])]]; [| |done].
    + destruct Hr as [-> Hs]. destruct Hm as [[Ho Hm]|[Ho Hm]]; rewrite Hs, Ho, Hm, Hm2, ?Hl.
      * split; [apply balanced_failed | apply arity_failed].
      * split; [by apply (balanced_opened_failed _ []) |].
        apply Forall_app. split; [apply arity_opened | apply arity_failed].
    + destruct Hr as [_ ->]. rewrite tunnel_metrics0, Hm2, app_nil_l. split; [by apply (balanced_opened_closed _ [])|].
      apply Forall_app. split; [apply arity_opened | apply arity_closed].
Qed.

Lemma replay_inv peeked overflow w w' :
  replay peeked overflow w = Some (Ok tt, w') →
  tx (upstream w') = tx (upstream w) ++ peeked ++ overflow
  ∧ arrives Upstream w' = arrives Upstream w ∧ client w' = client w.
Proof.
  assert (∀ (f : IoErr → HandleError) b w w', (if decide (b = []) then mret tt else map_err f (write_all Upstream b)) w
    = Some (Ok tt, w') → tx (upstream w') = tx (upstream w) ++ b
    ∧ arrives Upstream w' = arrives Upstream w ∧ client w' = client w) as Hw.
  { intros f b v v'. case_decide as Hb; [intros [= <-]; by rewrite Hb, app_nil_r|].
    intros Hw%map_err_ok_inv. apply write_side in Hw as (Hrx & Hoth & Ht). unfold arrives. specialize (Ht eq_refl). cbn in Ht. by rewrite Hrx. }
  unfold replay. intros ([] & w1 & (Ht1 & Ha1 & Hc1)%Hw & (Ht2 & Ha2 & Hc2)%Hw)%bind_ok_inv.
  rewrite Ht2, Ht1, <- app_assoc. split_and!; congruence.
Qed.

Lemma prefix_app_l {A} (l k r : list A) : l = k ++ r → k `prefix_of` l.
Proof. intros ->. by apply prefix_app_r. Qed.

(** C2: A TLS connection is relayed transparently from its first byte, under every segmentation,
    timing and schedule: once the tunnel is over, the upstream has received, after the proxy
    handshake, exactly a prefix of what the client sent, starting with its ClientHello; the
    client has received exactly a prefix of what came back; the proxy was the one of a profile
    among the candidates for that client, asked for a destination of the name that the parser
    reads in the client's bytes.  A connection that ends without an error in any other way was
    refused, and touched no upstream. *)
Theorem tls_tunnel_transparent peer listen_port limiter w s w' :
  handle_connection sh connect_timeout peer §"tls" listen_port limiter w = Some (Ok tt, s, w') →
  upstream w' = upstream w
  ∨ ∃ hostname n host port mapped name proxy t candidates wa w3,
      parse_sni_with_replay (arrives Client w) = Val (Tls hostname, n)
      ∧ resolve_destination hostname listen_port listen_port (hosts_at sh t) = DestOk host port mapped
      ∧ connect_candidates (registry_at sh (now wa)) (client_ip_from_peer peer) = Ok candidates
      ∧ (name, proxy) ∈ candidates
      ∧ (∃ wb, connect (net sh) proxy host port connect_timeout wb = Some (Ok tt, w3))
      ∧ (∃ sent, take n (arrives Client w) `prefix_of` sent ∧ sent `prefix_of` arrives Client w
           ∧ tx (upstream w') = tx (upstream w3) ++ sent)
      ∧ (∃ back, back `prefix_of` arrives Upstream w3 ∧ tx (client w') = tx (client w) ++ back).
Proof.
  intros (r0 & s0 & Hb & Hr)%handle_connection_inv.
  apply handle_body_inv in Hb as [[Hu _]|(w1 & w2 & s2 & hostname & pk & ov & host & port & Hpass & Hready & Hrel)];
    [by left|right].
  destruct Hpass as [_ (p & Hx & mapped & Hd) _ _ [Hc2 _]].
  apply relay_inv in Hrel as [_ [(e & -> & _)|(-> & _ & name & proxy & w3 & w4 & sp & c2u & u2c & Ht)]];
    [by destruct Hr as [? _] | | by destruct Hready as [_ _ (_ & _ & ->)]].
  destruct Ht as [(cs & Hcs & Hin) Hconn Hcl Hrep Hsp [_ ->] _ _].
  unfold extract in Hx. rewrite decide_True in Hx by done. unfold extract_tls_info in Hx.
  apply tls_loop_sound in Hx as (hn & fl & ovf & [= <- -> <- <-] & Ha & Hp & Htx & Hup). cbn [app] in Ha.
  apply replay_inv in Hrep as (Hrt & Hra & Hrc).
  assert (arrives Client w4 = arrives Client w1) as Hcl4.
  { unfold arrives, stream. by rewrite Hrc, Hcl, Hc2. }
  destruct (run_splice_relayed (wall sh) (others sh) hostname (Service.limiter s2) w4 (schedule sh) Client)
    as (sent & lost & Hs1 & Hs2 & _). rewrite <- Hsp in Hs1, Hs2. cbn [other stream] in Hs2.
  destruct (run_splice_relayed (wall sh) (others sh) hostname (Service.limiter s2) w4 (schedule sh) Upstream)
    as (back & lost' & Hb1 & Hb2 & _). rewrite <- Hsp in Hb1, Hb2. cbn [other stream] in Hb2.
  exists hostname, (length pk), host, port, mapped, name, proxy, (now w1), cs, w2, w3.
  split_and!; [ | done | done | done | done | | ].
  - rewrite Ha. by apply parse_sni_decided.
  - exists ((pk ++ ov) ++ sent). split_and!.
    + rewrite Ha, <- !app_assoc, take_app_length. by apply prefix_app_r.
    + rewrite Ha, <- Hcl4, Hs1. eexists. by rewrite (app_assoc _ sent).
    + by rewrite Hs2, Hrt, <- !app_assoc.
  - exists back. split; [rewrite <- Hra; by eapply prefix_app_l|]. rewrite Hb2, Hrc, Hcl, Hc2, Htx. done.
Qed.
End handler.

(** * A concrete connection *)

Definition example_backend : Stream :=
  {| rx := [(20, Data ok_head); (30, Data §"server hello"); (40, Fin)]%N; wr := []; tx := [];
     nodelay_ok := true |}.
Definition example_client : World :=
  {| now := 0; upstream := idle;
     client := {| rx := [(10, Data (take 3 example_flight)); (20, Data (drop 3 example_flight ++ §"early"));
                         (30, Data §" and more"); (40, Fin)]%N;
                  wr := []; tx := []; nodelay_ok := true |} |}.

Definition example_shared : @Shared example_regex := {|
  acl_at _ := {| entries := ∅; ufw_sync := false |};
  hosts_at _ := None;
  registry_at _ := {| UpstreamRegistry.profiles := {[ §"main" := Http §"10.0.0.1" 3128 None ]};
                      default := §"main"; by_ip := ∅; failover := false |};
  self_loop := {| local_ips := ∅; listen_ports := ∅ |};
  has_traffic := true;
  lookup_at _ _ _ := (0%N, LookupFailed);
  net _ _ := DialOk 3 example_backend;
  wall _ := example_day 0;
  others _ l := l;
  schedule := [Client; Upstream; Client; Upstream; Client; Upstream];
|}.

Definition example_handle : option (result HandleError unit * Session * World) :=
  @handle_connection ascii_unicode sorted_order example_regex example_shared 10000
    §"192.168.1.7:50123" §"tls" 443 (Some example_limiter) example_client.

Lemma relayed_some {A B} (o : option (result HandleError A * B * World)) :
  match o with Some (Ok _, _, w') => tx (upstream w') ≠ [] | _ => False end →
  ∃ a s w', o = Some (Ok a, s, w') ∧ tx (upstream w') ≠ [].
Proof. destruct o as [[[[a|e] s] w']|]; [|done..]. intros Ht. by exists a, s, w'. Qed.

Lemma example_handle_ok : ∃ s w', example_handle = Some (Ok tt, s, w')
  ∧ upstream w' ≠ upstream example_client.
Proof.
  destruct (relayed_some example_handle) as ([] & s & w' & E & Ht); [by vm_compute|].
  exists s, w'. split; [exact E|]. intros Hu. rewrite Hu in Ht. exact (Ht eq_refl).
Qed.

Lemma handler_gatekeeping_witness :
  ∃ w1 p hostname peeked overflow,
    @extract ascii_unicode 10000 §"tls" 443 example_client = Some (Ok (hostname, p, peeked, overflow), w1)
    ∧ (@check_connection ascii_unicode sorted_order (example_day 0) hostname example_limiter).1 = Ok tt.
Proof.
  destruct example_handle_ok as (s & w' & E & Hne).
  destruct (@handler_gatekeeping ascii_unicode sorted_order example_regex example_shared 10000
    §"192.168.1.7:50123" §"tls" 443 (Some example_limiter) example_client (Ok tt) s w' E Hne)
    as (w1 & p & mapped & hostname & peeked & overflow & host & port & _ & Hx & Hl & _).
  exists w1, p, hostname, peeked, overflow. split; [exact Hx | exact Hl].
Defined.

Lemma handler_metrics_balanced_witness :
  ∃ s w', example_handle = Some (Ok tt, s, w') ∧ gauge_balanced (metrics s).
Proof.
  destruct example_handle_ok as (s & w' & E & _). exists s, w'. split; [exact E|].
  apply (@handler_metrics_balanced ascii_unicode sorted_order example_regex example_shared 10000
    §"192.168.1.7:50123" §"tls" 443 (Some example_limiter) example_client (Ok tt) s w' E).
Defined.

Lemma tls_tunnel_transparent_witness :
  ∃ s w' w3 sent, example_handle = Some (Ok tt, s, w')
  ∧ sent `prefix_of` arrives Client example_client ∧ tx (upstream w') = tx (upstream w3) ++ sent.
Proof.
  destruct example_handle_ok as (s & w' & E & Hne).
  destruct (@tls_tunnel_transparent ascii_unicode sorted_order example_regex example_shared 10000
    §"192.168.1.7:50123" 443 (Some example_limiter) example_client s w' E)
    as [Hu|(hostname & n & host & port & mapped & name & proxy & t & cs & wa & w3 & _ & _ & _ & _ & _ & (sent & _ & Hp & Ht) & _)].
  - destruct (Hne Hu).
  - exists s, w', w3, sent. split; [exact E | split; [exact Hp | exact Ht]].
Defined.

Lemma parse_host_port_roundtrip_witness :
  parse_host_port (§"[" ++ §"::1" ++ §"]:" ++ show 8443) 443 = (§"::1", 8443%N).
Proof.
  apply (proj2 (parse_host_port_roundtrip §"::1" 8443 443 ltac:(done))).
  intros Hin. repeat (apply elem_of_cons in Hin as [Hin|Hin]; [discriminate Hin|]). by apply elem_of_nil in Hin.
Defined.

Lemma destination_allowlisted_witness :
  ∃ table, @compile ascii_unicode example_regex example_hosts = Ok table
  ∧ @resolve_destination ascii_unicode example_regex §"anything.test" 443 443 None = DestOk §"anything.test" 443 false.
Proof.
  assert (is_ok (@compile ascii_unicode example_regex example_hosts) = true) as Hok by (by vm_compute).
  destruct (@compile ascii_unicode example_regex example_hosts) as [table|] eqn:E; [|done].
  exists table. split; [done|].
  apply (@destination_allowlisted ascii_unicode example_regex example_hosts table §"anything.test" 443 443 E).
Defined.
