(* ===== verification/Listeners.v ===== *)
(** src/service.rs, [run] and [run_listener]: the accepting loops of the listeners, the
    connection slots they share, and the shutdown.

    A state machine: each listener is a task, an event is one completed wait of a task, and
    the theorems speak of all the runs. *)

From S2P Require Import Prelude RustStr Net Hosts Config.

(** Where a listener is: at the top of its loop, in [select!], in [accept] with a permit, or
    ended. *)
Inductive LState := LTop | LSelect | LAccept | LStopped.
#[global] Instance LState_eq_dec : EqDecision LState.
Proof. solve_decision. Defined.

Record Relay := {
  permits : nat;               (** free slots of the semaphore *)
  listeners : list LState;
  sessions : nat;              (** tasks that hold a permit *)
  shutdown : bool;             (** the watched flag *)
  exited : bool;               (** [run] has returned, the limits persisted *)
}.

Inductive LEvent :=
| Check (i : nat)         (** the test of the flag at the top of the loop *)
| SeeShutdown (i : nat)   (** [shutdown_rx.changed()] completes *)
| Acquire (i : nat)       (** [acquire_owned()] completes *)
| Accept (i : nat)        (** [accept()] returns a connection, whose task takes the permit *)
| AcceptError (i : nat)   (** [accept()] fails, the permit is dropped *)
| SessionEnd
| Signal                  (** SIGINT or SIGTERM *)
| Exit.                   (** [run] has joined the listeners *)

Definition set_listener (i : nat) (s : LState) (r : Relay) : Relay :=
  {| permits := permits r; listeners := <[i := s]> (listeners r); sessions := sessions r;
     shutdown := shutdown r; exited := exited r |}.
Definition set_slots (p n : nat) (r : Relay) : Relay :=
  {| permits := p; listeners := listeners r; sessions := n; shutdown := shutdown r; exited := exited r |}.

Definition step (r : Relay) (e : LEvent) : option Relay :=
  match e with
  | Check i =>
      if decide (listeners r !! i = Some LTop)
      then Some (set_listener i (if shutdown r then LStopped else LSelect) r) else None
  | SeeShutdown i =>
      if decide (listeners r !! i = Some LSelect ∧ shutdown r = true)
      then Some (set_listener i LStopped r) else None
  | Acquire i =>
      if decide (listeners r !! i = Some LSelect) then
        match permits r with
        | 0 => None
        | S p => Some (set_listener i LAccept (set_slots p (sessions r) r))
        end
      else None
  | Accept i =>
      if decide (listeners r !! i = Some LAccept)
      then Some (set_listener i LTop (set_slots (permits r) (S (sessions r)) r)) else None
  | AcceptError i =>
      if decide (listeners r !! i = Some LAccept)
      then Some (set_listener i LTop (set_slots (S (permits r)) (sessions r) r)) else None
  | SessionEnd =>
      match sessions r with
      | 0 => None
      | S n => Some (set_slots (S (permits r)) n r)
      end
  | Signal =>
      Some {| permits := permits r; listeners := listeners r; sessions := sessions r; shutdown := true;
              exited := exited r |}
  | Exit =>
      if decide (shutdown r = true ∧ Forall (λ s, s = LStopped) (listeners r))
      then Some {| permits := permits r; listeners := listeners r; sessions := sessions r;
                   shutdown := shutdown r; exited := true |}
      else None
  end.

Fixpoint run (r : Relay) (events : list LEvent) : option Relay :=
  match events with
  | [] => Some r
  | e :: events => r ← step r e; run r events
  end.

(** The address of a listener that can be bound: [bind_listener] parses it first. *)
Definition bindable (addr : bytes) : bool := bool_decide (is_Some (parse_socket_addr addr)).

(** After [run] has spawned its listeners: those whose address is bad, or which fail to bind,
    end at once. *)
Definition start_relay (max_connections : nat) (binds : bytes → bool) (addrs : list bytes) : Relay :=
  {| permits := max_connections;
     listeners := (λ a, if bindable a && binds a then LTop else LStopped) <$> addrs;
     sessions := 0; shutdown := false; exited := false |}.

(** * The slots *)

Definition waiting (r : Relay) : nat := length (filter (λ s, s = LAccept) (listeners r)).

Lemma filter_insert_length {A} (P : A → Prop) `{∀ x, Decision (P x)} (l : list A) i x y :
  l !! i = Some x →
  length (filter P (<[i := y]> l)) + (if decide (P x) then 1 else 0)
  = length (filter P l) + (if decide (P y) then 1 else 0).
Proof.
  revert i. induction l as [|a l IH]; intros [|i]; [done | done | |].
  - cbn [lookup list_lookup insert list_insert]. intros [= <-]. rewrite !filter_cons. repeat case_decide; cbn; lia.
  - change (<[S i:=y]> (a :: l)) with (a :: <[i:=y]> l). intros Hx. rewrite !filter_cons.
    specialize (IH i Hx). repeat case_decide; cbn [length]; lia.
Qed.

Definition accepting (s : LState) : nat := match s with LAccept => 1 | _ => 0 end.

Lemma waiting_set_listener i s s' r :
  listeners r !! i = Some s →
  waiting (set_listener i s' r) + accepting s = waiting r + accepting s'.
Proof.
  intros Hl. pose proof (filter_insert_length (λ s, s = LAccept) (listeners r) i s s' Hl) as Hw.
  unfold waiting. cbn [set_listener listeners].
  assert (∀ s, accepting s = if decide (s = LAccept) then 1 else 0) as Ha
    by (intros x; by destruct x).
  by rewrite !Ha.
Qed.

Definition slots (r : Relay) : nat := permits r + sessions r + waiting r.

Lemma step_slots r e r' : step r e = Some r' → slots r' = slots r.
Proof.
  unfold step, slots. intros Hs.
  destruct e as [i|i|i|i|i| | |].
  1-5: case_decide as Hl; [|done].
  - injection Hs as <-. pose proof (waiting_set_listener i LTop (if shutdown r then LStopped else LSelect) r Hl) as Hw.
    destruct (shutdown r); cbn [accepting permits sessions set_listener] in *; lia.
  - injection Hs as <-. destruct Hl as [Hl _]. pose proof (waiting_set_listener i LSelect LStopped r Hl) as Hw.
    cbn [accepting permits sessions set_listener set_slots] in *; lia.
  - destruct (permits r) as [|p] eqn:Ep; [done|]. injection Hs as <-.
    pose proof (waiting_set_listener i LSelect LAccept (set_slots p (sessions r) r) Hl) as Hw.
    cbn [accepting permits sessions set_listener set_slots] in *; change (waiting (set_slots _ _ r)) with (waiting r) in *; lia.
  - injection Hs as <-.
    pose proof (waiting_set_listener i LAccept LTop (set_slots (permits r) (S (sessions r)) r) Hl) as Hw.
    cbn [accepting permits sessions set_listener set_slots] in *. change (waiting (set_slots _ _ r)) with (waiting r) in *. lia.
  - injection Hs as <-.
    pose proof (waiting_set_listener i LAccept LTop (set_slots (S (permits r)) (sessions r) r) Hl) as Hw.
    cbn [accepting permits sessions set_listener set_slots] in *. change (waiting (set_slots _ _ r)) with (waiting r) in *. lia.
  - destruct (sessions r) as [|n]; [done|]. injection Hs as <-. unfold waiting. cbn. lia.
  - by injection Hs as <-.
  - case_decide; [|done]. by injection Hs as <-.
Qed.

Lemma run_slots events r r' : run r events = Some r' → slots r' = slots r.
Proof.
  revert r. induction events as [|e events IH]; intros r; [by intros [= ->]|].
  cbn. destruct (step r e) as [r1|] eqn:Es; [|done]. cbn. intros Hr. apply IH in Hr.
  apply step_slots in Es. congruence.
Qed.

Lemma run_slots_start max_connections binds addrs events r :
  run (start_relay max_connections binds addrs) events = Some r → slots r = max_connections.
Proof.
  intros Hr%run_slots. rewrite Hr. unfold slots.
  assert (waiting (start_relay max_connections binds addrs) = 0) as ->; [|cbn; lia].
  unfold waiting. cbn [start_relay listeners]. clear.
  induction addrs as [|a addrs IH]; [done|]. rewrite fmap_cons, filter_cons.
  rewrite decide_False by (by case_match). apply IH.
Qed.

(** C12: The connection limit holds, in every run of the accepting loops: the connections being
    served, the free slots and the listeners that wait in accept with a slot in hand add up
    to the configured maximum, so that no more connections than the maximum are ever served
    at once; but also, no more than the maximum less the number of waiting listeners. *)
Theorem connections_bounded max_connections binds addrs events r :
  run (start_relay max_connections binds addrs) events = Some r →
  permits r + sessions r + waiting r = max_connections.
Proof.
  intros Hr. by apply run_slots_start in Hr.
Qed.

(** * Shutdown *)

Definition touches (i : nat) (e : LEvent) : bool :=
  match e with Accept j | AcceptError j => bool_decide (j = i) | _ => false end.

Lemma step_waiting r e r' i :
  listeners r !! i = Some LAccept → exited r = false → touches i e = false → step r e = Some r' →
  listeners r' !! i = Some LAccept ∧ exited r' = false.
Proof.
  unfold step. intros Hi Hx Ht Hs.
  assert (∀ j s s' r0, listeners r0 = listeners r → listeners r !! j = Some s → s ≠ LAccept →
    listeners (set_listener j s' r0) !! i = Some LAccept) as Hset.
  { intros j s s' r0 Hl Hj Hne. cbn. rewrite Hl. rewrite list_lookup_insert_ne; [done|].
    intros ->. congruence. }
  destruct e as [j|j|j|j|j| | |].
  - case_decide as Hj; [|done]. injection Hs as <-. split; [by eapply Hset | done].
  - case_decide as Hj; [|done]. injection Hs as <-. destruct Hj as [Hj _]. split; [by eapply Hset | done].
  - case_decide as Hj; [|done]. destruct (permits r); [done|]. injection Hs as <-. split; [by eapply Hset | done].
  - case_decide as Hj; [|done]. injection Hs as <-. apply bool_decide_eq_false in Ht.
    cbn. by rewrite list_lookup_insert_ne.
  - case_decide as Hj; [|done]. injection Hs as <-. apply bool_decide_eq_false in Ht.
    cbn. by rewrite list_lookup_insert_ne.
  - destruct (sessions r); [done|]. by injection Hs as <-.
  - by injection Hs as <-.
  - case_decide as Hj; [|done]. destruct Hj as [_ Hj]. rewrite Forall_lookup in Hj.
    specialize (Hj i LAccept Hi). done.
Qed.

Lemma run_waiting events r r' i :
  listeners r !! i = Some LAccept → exited r = false → forallb (λ e, negb (touches i e)) events = true →
  run r events = Some r' → listeners r' !! i = Some LAccept ∧ exited r' = false.
Proof.
  revert r. induction events as [|e events IH]; intros r Hi Hx Ht; [by intros [= ->]|].
  cbn in Ht. apply andb_prop in Ht as [He Ht]. apply negb_true_iff in He.
  cbn. destruct (step r e) as [r1|] eqn:Es; [|done]. cbn.
  destruct (step_waiting _ _ _ _ Hi Hx He Es). by apply IH.
Qed.

(** A listener that waits for a connection cannot be stopped.  Once it has taken a slot and
    waits in accept, which is what every idle listener does, no signal, and nothing else
    but a connection to that very listener (or an error of accept), makes it look at the
    shutdown flag; until then the relay does not exit and the counters of the domain
    limits are not written.  With fewer slots than listeners the same wait keeps the other
    listeners from ever accepting, although no connection is being served. *)
Theorem shutdown_waits_for_connection max_connections binds addrs before r i :
  run (start_relay max_connections binds addrs) before = Some r →
  listeners r !! i = Some LAccept → exited r = false →
  (∀ after r', forallb (λ e, negb (touches i e)) after = true → run r (Signal :: after) = Some r' →
     exited r' = false ∧ listeners r' !! i = Some LAccept)
  ∧ (waiting r = max_connections → sessions r = 0 ∧ ∀ j, step r (Acquire j) = None).
Proof.
  intros Hr Hi Hx. split.
  - intros after r' Ht Hr'.
    destruct (run_waiting (Signal :: after) r r' i Hi Hx Ht Hr') as [H1 H2]. done.
  - intros Hw. apply run_slots_start in Hr. unfold slots in Hr. split; [lia|].
    intros j. cbn. case_decide; [|done]. assert (permits r = 0) as -> by lia. done.
Qed.

(** One idle listener; and two of them with a single slot. *)
Definition idle_relay : Relay := start_relay 100 (λ _, true) [§"0.0.0.0:443"].

Lemma connections_bounded_witness :
  match run (start_relay 2 (λ _, true) [§"0.0.0.0:443"]) [Check 0; Acquire 0; Accept 0; Check 0; Acquire 0] with
  | Some r => permits r + sessions r + waiting r = 2
  | None => False
  end.
Proof.
  destruct (run (start_relay 2 (λ _, true) [§"0.0.0.0:443"]) [Check 0; Acquire 0; Accept 0; Check 0; Acquire 0])
    as [r|] eqn:E.
  - exact (connections_bounded 2 (λ _, true) [§"0.0.0.0:443"] _ r E).
  - assert (is_Some (run (start_relay 2 (λ _, true) [§"0.0.0.0:443"])
      [Check 0; Acquire 0; Accept 0; Check 0; Acquire 0])) as [r' Hr] by (eexists; by vm_compute).
    rewrite E in Hr. discriminate Hr.
Defined.

Lemma shutdown_waits_for_connection_witness :
  ∃ r, run (start_relay 1 (λ _, true) [§"0.0.0.0:443"; §"0.0.0.0:80"]) [Check 0; Check 1; Acquire 0] = Some r
  ∧ sessions r = 0 ∧ step r (Acquire 1) = None
  ∧ ∀ after r', forallb (λ e, negb (touches 0 e)) after = true → run r (Signal :: after) = Some r' →
      exited r' = false.
Proof.
  eexists. split; [vm_compute; reflexivity|].
  match goal with |- sessions ?r = 0 ∧ _ =>
    destruct (shutdown_waits_for_connection 1 (λ _, true) [§"0.0.0.0:443"; §"0.0.0.0:80"]
      [Check 0; Check 1; Acquire 0] r 0 ltac:(by vm_compute) eq_refl eq_refl) as [Hs Hw] end.
  destruct (Hw eq_refl) as [H0 H1]. split; [exact H0|]. split; [exact (H1 1)|].
  intros after r' Ht Hr. exact (proj1 (Hs after r' Ht Hr)).
Defined.
