(* ===== verification/MetricsServer.v ===== *)
(** src/metrics.rs, the server of the metrics: the snapshots of the text that are published in
    a watch channel, the loop that refreshes them, and the answer to a request.

    Gathering and encoding the metrics is the [prometheus] crate's: a parameter, with the time
    that it takes.  Times are in milliseconds; a publication is a text with the time at which
    it is sent to the channel. *)

From S2P Require Import Prelude RustStr Stream ProxyConnector ProxyProofs Splice ServiceProofs.

Abbreviation Publication := (N * bytes)%type.

Section server.
(** [encode_metrics_body] on the blocking pool, when it is started at a time: how long it takes,
    and the text, unless it fails. *)
Context (encode_metrics_body : N → N * option bytes).

(** The time at which it is done, and the publications with its own. *)
Definition publish_snapshot (t : N) (pubs : list Publication) : N * list Publication :=
  let '(d, body) := encode_metrics_body t in
  ((t + d)%N, match body with Some b => pubs ++ [((t + d)%N, b)] | None => pubs end).

(** The next [n] ticks of [metrics_refresh_loop]: one that finds the task of an earlier tick
    [busy] starts none. *)
Fixpoint metrics_refresh_loop (n : nat) (interval tick busy : N) (pubs : list Publication) : list Publication :=
  match n with
  | 0 => pubs
  | S n =>
      if (busy <=? tick)%N then
        let '(busy, pubs) := publish_snapshot tick pubs in
        metrics_refresh_loop n interval (tick + interval) busy pubs
      else metrics_refresh_loop n interval (tick + interval) busy pubs
  end.

Definition refresh_interval (refresh_secs : N) : N := (N.max refresh_secs 1 * 1000)%N.

(** [start_metrics_server] at a time: when it listens, and what is published in the course of
    [n] ticks; the address may not be free. *)
Definition start_metrics_server (n : nat) (refresh_secs : N) (can_bind : bool) (t : N)
    : option (N * list Publication) :=
  let '(t, pubs) := publish_snapshot t [] in
  if negb can_bind then None else
  Some (t, metrics_refresh_loop n (refresh_interval refresh_secs) t t pubs).

(** * Requests *)

(** [borrow()] at a time: the channel starts with the empty text. *)
Definition snapshot_at (pubs : list Publication) (t : N) : bytes :=
  match last (filter (λ p, (p.1 ≤ t)%N) pubs) with Some p => p.2 | None => [] end.

(** When [changed()] completes that is called at a time: the receiver has seen nothing yet. *)
Definition changed_at (pubs : list Publication) (t : N) : option N :=
  match head pubs with Some p => Some (N.max t p.1) | None => None end.

Definition http_head (status : bytes) (len : nat) : bytes :=
  §"HTTP/1.1 " ++ status ++ CRLF ++ §"Content-Type: text/plain; version=0.0.4; charset=utf-8" ++ CRLF
  ++ §"Connection: close" ++ CRLF ++ §"Content-Length: " ++ show (N.of_nat len) ++ CRLF ++ CRLF.

(** The results of the writes are dropped. *)
Definition write_http_response (status body : bytes) : IO unit unit :=
  _ ← (attempt (write_all Client (http_head status (length body))) : IO unit (result IoErr unit));
  if decide (body = []) then mret tt else
  _ ← (attempt (write_all Client body) : IO unit (result IoErr unit));
  mret tt.

Definition serve_metrics (pubs : list Publication) : IO unit unit :=
  r ← (attempt (timeout 5000 tt (map_err (λ _, tt) (read Client 4096))) : IO unit (result unit bytes));
  match r with
  | Err _ => mret tt
  | Ok _ =>
      t ← get_now;
      let body := snapshot_at pubs t in
      if decide (body = []) then
        match changed_at pubs t with
        | Some t' =>
            if (t' <=? t + 10000)%N then
              _ ← sleep (t' - t);
              write_http_response §"200 OK" (snapshot_at pubs t')
            else
              _ ← sleep 10000;
              write_http_response §"503 Service Unavailable" (§"metrics snapshot not ready yet" ++ [x0a])
        | None =>
            _ ← sleep 10000;
            write_http_response §"503 Service Unavailable" (§"metrics snapshot not ready yet" ++ [x0a])
        end
      else write_http_response §"200 OK" body
  end.

(** * The snapshots are fresh *)

Lemma publish_snapshot_eq t pubs :
  publish_snapshot t pubs = ((t + (encode_metrics_body t).1)%N,
    pubs ++ match (encode_metrics_body t).2 with Some b => [((t + (encode_metrics_body t).1)%N, b)] | None => [] end).
Proof. unfold publish_snapshot. destruct (encode_metrics_body t) as [d [b|]]; cbn; by rewrite ?app_nil_r. Qed.

(** Publications are only added, after those that are there. *)
Lemma refresh_extends n interval tick busy pubs :
  ∃ later, metrics_refresh_loop n interval tick busy pubs = pubs ++ later ∧ Forall (λ p, N.max tick busy ≤ p.1)%N later.
Proof.
  revert tick busy pubs. induction n as [|n IH]; intros tick busy pubs; cbn [metrics_refresh_loop].
  { exists []. by rewrite app_nil_r. }
  destruct (N.leb_spec busy tick) as [Hb|Hb].
  - rewrite publish_snapshot_eq. set (d := (encode_metrics_body tick).1). set (mine := match _ with Some b => _ | None => _ end).
    destruct (IH (tick + interval)%N (tick + d)%N (pubs ++ mine)) as (later & -> & Hl). exists (mine ++ later).
    split; [by rewrite app_assoc|]. apply Forall_app. split.
    + unfold mine. destruct (encode_metrics_body tick).2; repeat constructor. cbn. lia.
    + eapply Forall_impl; [exact Hl|]. cbn. lia.
  - destruct (IH (tick + interval)%N busy pubs) as (later & -> & Hl). exists later. split; [done|].
    eapply Forall_impl; [exact Hl|]. cbn. lia.
Qed.

Lemma snapshot_before pubs t0 b later t :
  (t0 ≤ t)%N → Forall (λ p, t < p.1)%N later →
  snapshot_at ((pubs ++ [(t0, b)]) ++ later) t = b.
Proof.
  intros Ht Hl. unfold snapshot_at. rewrite filter_app.
  assert (filter (λ p, (p.1 ≤ t)%N) later = []) as ->.
  { induction Hl as [|p l Hp Hl IH]; [done|]. rewrite filter_cons, decide_False by lia. exact IH. }
  rewrite app_nil_r, filter_app, filter_cons, decide_True by done. cbn. by rewrite last_snoc.
Qed.

(** The encoder never fails, and takes at most [D]. *)
Context (text : N → bytes) (D : N).
Hypothesis encodes : ∀ t, ∃ d, encode_metrics_body t = (d, Some (text t)) ∧ (d ≤ D)%N.

Lemma refresh_fresh n interval tick busy pubs s t :
  (s ≤ busy)%N → (busy ≤ s + D)%N → (tick ≤ busy + interval)%N →
  (busy ≤ t)%N → (t < tick + N.of_nat n * interval)%N ∨ (t < tick)%N →
  ∃ s', (s' ≤ t)%N ∧ (t ≤ s' + 2 * D + interval)%N
  ∧ snapshot_at (metrics_refresh_loop n interval tick busy (pubs ++ [(busy, text s)])) t = text s'.
Proof.
  revert tick busy pubs s. induction n as [|n IH]; intros tick busy pubs s Hs HD Htick Ht Hend.
  { exists s. split; [lia|]. split; [lia|]. cbn [metrics_refresh_loop]. rewrite <- (app_nil_r (pubs ++ _)).
    by apply snapshot_before. }
  cbn [metrics_refresh_loop]. destruct (N.leb_spec busy tick) as [Hb|Hb].
  - rewrite publish_snapshot_eq. destruct (encodes tick) as (d & He & Hd). rewrite He. cbv beta iota. cbn [fst snd].
    destruct (N.le_gt_cases (tick + d) t) as [Hle|Hgt].
    + apply (IH (tick + interval)%N (tick + d)%N (pubs ++ [(busy, text s)]) tick); lia.
    + exists s. split; [lia|]. split; [lia|].
      destruct (refresh_extends n interval (tick + interval) (tick + d) ((pubs ++ [(busy, text s)]) ++ [((tick + d)%N, text tick)]))
        as (later & -> & Hl).
      rewrite <- app_assoc. apply snapshot_before; [done|].
      constructor; [done|]. eapply Forall_impl; [exact Hl|]. cbn. lia.
  - apply IH; try done; lia.
Qed.

(** Between the start and the last tick. *)
Lemma server_fresh n refresh_secs t0 t1 pubs t :
  start_metrics_server n refresh_secs true t0 = Some (t1, pubs) → (t1 ≤ t)%N →
  (t < t1 + N.of_nat n * refresh_interval refresh_secs)%N →
  ∃ s, (s ≤ t)%N ∧ (t ≤ s + 2 * D + refresh_interval refresh_secs)%N ∧ snapshot_at pubs t = text s.
Proof.
  unfold start_metrics_server. rewrite publish_snapshot_eq. destruct (encodes t0) as (d & He & Hd). rewrite He. cbv beta iota. cbn [fst snd negb].
  intros [= <- <-] Ht Hend. apply (refresh_fresh n _ _ (t0 + d)%N [] t0); try lia; by left.
Qed.
End server.

(** * Answers *)

(** A response that is written at once. *)
Lemma write_http_response_runs status body w :
  wr (client w) = [] →
  ∃ w', write_http_response status body w = Some (Ok tt, w') ∧ now w' = now w
  ∧ tx (client w') = tx (client w) ++ http_head status (length body) ++ body.
Proof.
  intros Hw. unfold write_http_response, mbind, io_bind, attempt, write_all, write_effect. cbn [stream]. rewrite Hw.
  case_decide as Hb; cbn; (eexists; split; [done|split; [done|]]).
  - by rewrite Hb, app_nil_r.
  - by rewrite <- app_assoc.
Qed.

(** A client that does not ask in time gets nothing; as long as nothing has been published, one
    that asks is told so after ten seconds. *)
Lemma serve_metrics_silent pubs w e w1 :
  timeout 5000 tt (map_err (λ _, tt) (read Client 4096)) w = Some (Err e, w1) → serve_metrics pubs w = Some (Ok tt, w1).
Proof. intros Hr. unfold serve_metrics, mbind, io_bind, attempt. by rewrite Hr. Qed.

Lemma serve_metrics_not_ready w b w1 :
  timeout 5000 tt (map_err (λ _, tt) (read Client 4096)) w = Some (Ok b, w1) →
  serve_metrics [] w = write_http_response §"503 Service Unavailable" (§"metrics snapshot not ready yet" ++ [x0a])
                         (set_now (now w1 + 10000) w1).
Proof. intros Hr. unfold serve_metrics, mbind, io_bind, attempt. by rewrite Hr. Qed.

(** C33: A scrape gets fresh metrics.  When encoding the metrics succeeds within [D] and gives some
    text, a client that sends its request to the running server within five seconds gets a
    complete answer as soon as it has asked, whose body is the text of the metrics as they
    were gathered at most twice [D] and one refresh interval ago, with its exact length: a tick
    that finds the task of an earlier one running starts none, and none is lost by that. *)
Theorem metrics_scrape_fresh (encode_metrics_body : N → N * option bytes) (text : N → bytes) (D : N)
    n refresh_secs t0 t1 pubs w :
  (∀ t, ∃ d, encode_metrics_body t = (d, Some (text t)) ∧ (d ≤ D)%N) → (∀ t, text t ≠ []) →
  start_metrics_server encode_metrics_body n refresh_secs true t0 = Some (t1, pubs) →
  (t1 ≤ now w)%N → (now w + 5000 < t1 + N.of_nat n * refresh_interval refresh_secs)%N →
  arrives Client w ≠ [] → client_in_time (now w + 5000) w → wr (client w) = [] →
  ∃ s w', serve_metrics pubs w = Some (Ok tt, w')
  ∧ tx (client w') = tx (client w) ++ http_head §"200 OK" (length (text s)) ++ text s
  ∧ (now w ≤ now w' ≤ now w + 5000)%N
  ∧ (s ≤ now w' ≤ s + 2 * D + refresh_interval refresh_secs)%N.
Proof.
  intros Henc Htext Hstart Ht1 Hend Ha Hin Hwr.
  destruct (client_read_ok 5000 tt (λ _, tt) 4096 w (now w + 5000) ltac:(apply Nat.lt_0_succ) Ha Hin (N.le_refl _))
    as (b & w1 & Hr & _ & _ & Hnow).
  pose proof (timeout_ok_inv _ _ _ _ _ _ Hr) as (Hread & Htime).
  apply map_err_ok_inv, read_side in Hread as (Htx & Hwr1 & _).
  destruct (server_fresh _ text D Henc n refresh_secs t0 t1 pubs (now w1) Hstart) as (s & Hs1 & Hs2 & Hs); [lia..|].
  destruct (write_http_response_runs §"200 OK" (text s) w1) as (w' & Hw & Hw1 & Hw2); [cbn in Hwr1; congruence|].
  exists s, w'. split_and!; try lia.
  - unfold serve_metrics. unfold mbind at 1, io_bind at 1. unfold attempt. rewrite Hr.
    unfold mbind, io_bind, get_now. cbv zeta. rewrite Hs, decide_False by apply Htext. exact Hw.
  - rewrite Hw2. cbn in Htx. by rewrite Htx.
Qed.

(** A server that encodes for 30 ms, every 5 seconds; the client asks after a minute. *)
Definition example_text (t : N) : bytes := §"gathered_at " ++ show t ++ [x0a].
Definition scraper : World :=
  {| now := 60000; upstream := idle;
     client := {| rx := [(60010%N, Data §"GET /metrics HTTP/1.1")]; wr := []; tx := []; nodelay_ok := true |} |}.

Definition example_encode (t : N) : N * option bytes := (30%N, Some (example_text t)).
Definition example_publications : list Publication :=
  metrics_refresh_loop example_encode 20 5000 1030 1030 [(1030%N, example_text 1000)].

Example metrics_scrape_fresh_witness : ∃ s w',
  serve_metrics example_publications scraper = Some (Ok tt, w') ∧ (60000 ≤ s + 5060)%N
  ∧ tx (client w') = http_head §"200 OK" (length (example_text s)) ++ example_text s.
Proof.
  destruct (metrics_scrape_fresh example_encode example_text 30 20 5 1000 1030 example_publications scraper)
    as (s & w' & Hs & Htx & Hnow & Hfresh).
  - intros t. by exists 30%N.
  - done.
  - reflexivity.
  - by apply N.leb_le.
  - by apply N.ltb_lt.
  - done.
  - apply Forall_singleton. by apply N.leb_le.
  - done.
  - exists s, w'. split; [exact Hs|]. split; [|exact Htx].
    change (refresh_interval 5) with 5000%N in Hfresh. change (now scraper) with 60000%N in Hnow. lia.
Defined.
