(* ===== verification/Main.v ===== *)
(** src/main.rs: from the command line to a relay that serves.

    The parts are started in the order of [main]; what each needs from outside (the environment
    and the files, the network, the limits of the process, the database) is a parameter, as is
    whether the log file and the metrics address can be opened. *)

From S2P Require Import Prelude RustStr Collections Net Hosts Config Limits UpstreamRegistry ClientAcl Files Ufw Stream ProxyConnector ProxyProofs PanelDb Panel.

Record Cli := { cli_config : bytes; cli_proxy : option bytes; cli_log_file : option bytes }.

Inductive MainError :=
| LoadFailed (e : ConfigError) | LogFailed | BadProxyArgument (e : ProxyStringError)
| UpstreamDown (e : ConnError) | LimitsFailed (e : IoError) | MetricsFailed | PanelFailed (e : StartError).

(** [main] leaves the process on an error. *)
Abbreviation Main A := (result MainError A).

Section main.
Context `{Unicode} `{Yaml} `{RegexLib} `{HashOrder} `{RlimitOs} `{Host} `{Argon2}.
Implicit Types c : AppConfig.

(** What [main] finds. *)
Record Boot := {
  b_env : Env;
  b_from_str : bytes → eval (option AppConfig);
  b_log : option bytes → bool;               (** whether the log file can be opened *)
  b_net : N → bytes → Dial;
  b_metrics : bytes → bool;                  (** whether the metrics address can be bound *)
  b_salt : bytes;
  b_bind : SocketAddr → bool;                (** the address of the panel *)
  b_db : bytes → result DbError PanelDb;     (** [PanelDb::open] *)
  b_files : Tree;
  b_host : HostState;
}.

(** What the relay then runs with: the service, the monitor and the panel share the last three. *)
Record Started := {
  st_cfg : AppConfig;
  st_limits : ProcessLimits;
  st_ready : bool;
  st_panel : option PanelState;
  st_hosts : option HostsTable;
  st_registry : UpstreamRegistry;
  st_acl : ClientAcl;
}.

(** ** The configuration *)

Definition log_path (b : Boot) (cli : Cli) c : option bytes :=
  match cli_log_file cli with
  | Some p => Some p
  | None => match log_file c with Some p => Some p | None => var (b_env b) §"LOG_FILE" end
  end.

Definition with_proxy (cli : Cli) c : Main AppConfig :=
  match cli_proxy cli with
  | None => Ok c
  | Some s =>
      match parse_proxy_string s with
      | Err e => Err (BadProxyArgument e)
      | Ok proxy =>
          match normalize_upstreams (apply_default_proxy_override c proxy) with
          | Err e => Err (LoadFailed e)
          | Ok c => Ok c
          end
      end
  end.

Definition configure (b : Boot) (cli : Cli) : eval (Main AppConfig) :=
  loaded ← load (b_from_str b) (b_env b) (cli_config cli);
  match loaded with
  | Err e => Val (Err (LoadFailed e))
  | Ok c =>
      if negb (b_log b (log_path b cli c)) then Val (Err LogFailed) else
      match with_proxy cli c with
      | Err e => Val (Err e)
      | Ok c => c ← remap_docker_loopback_upstream (b_env b) c; Val (Ok c)
      end
  end.

(** ** The upstreams *)

Definition ms (secs : N) : N := (secs * 1000)%N.

(** The other profiles: a failure is only reported. *)
Fixpoint soft_probes (net : N → bytes → Dial) (connect_timeout : N) (default_name : bytes)
    (l : list (bytes * UpstreamProxy)) : CIO unit :=
  match l with
  | [] => mret tt
  | (name, proxy) :: l =>
      if decide (name = default_name) then soft_probes net connect_timeout default_name l else
      _ ← (attempt (probe_upstream net proxy connect_timeout) : CIO (result ConnError unit));
      soft_probes net connect_timeout default_name l
  end.

(** The attempts fit in the window, so that it bounds their number. *)
Definition check_upstreams (net : N → bytes → Dial) c : CIO bool :=
  let wait := ms (upstream_probe_wait_secs c) in
  ready ← ensure_upstream_ready net (S (N.to_nat wait)) (upstream_proxy c) (ms (connect_timeout_secs c)) wait
            (ms (N.max (upstream_probe_interval_secs c) 1)) (upstream_probe_required c);
  _ ← soft_probes net (ms (connect_timeout_secs c)) (default_upstream_name c) (hash_iter (upstreams c));
  mret ready.

(** ** The services *)

Definition serve (b : Boot) c (ready : bool) (limits : ProcessLimits) : Main Started :=
  let metrics := match metrics_addr c with Some a => b_metrics b a | None => true end in
  if negb metrics then Err MetricsFailed else
  let reg := from_config c in
  let acl := acl_from_config c in
  match start_panel c ready reg acl (var (b_env b) §"ADMIN_PASSWORD") (b_salt b) (b_bind b) (b_db b (db_path (panel c)))
          (b_files b) (b_host b) with
  | Err e => Err (PanelFailed e)
  | Ok p => Ok {| st_cfg := c; st_limits := limits; st_ready := ready; st_panel := p; st_hosts := hosts_table c;
                  st_registry := reg; st_acl := acl |}
  end.

Definition main (b : Boot) (cli : Cli) (w : World) (o : os) : eval (option (Main Started * World * os)) :=
  conf ← configure b cli;
  match conf with
  | Err e => Val (Some (Err e, w, o))
  | Ok c =>
      match check_upstreams (b_net b) c w with
      | None => Val None
      | Some (Err e, w) => Val (Some (Err (UpstreamDown e), w, o))
      | Some (Ok ready, w) =>
          let '(r, o) := apply (nofile_limit c) (Config.max_connections c) o in
          Val (Some (match r with Err e => Err (LimitsFailed e) | Ok limits => serve b c ready limits end, w, o))
      end
  end.

(** ** What it establishes *)

Lemma soft_probes_returns net ct d l w :
  ∃ w', soft_probes net ct d l w = Some (Ok tt, w') ∧ (now w' ≤ now w + N.of_nat (length l) * ct)%N.
Proof.
  revert w. induction l as [|[name proxy] l IH]; intros w; cbn [soft_probes length].
  { exists w. split; [done|]. lia. }
  case_decide.
  - destruct (IH w) as (w' & -> & Hw). exists w'. split; [done|]. lia.
  - destruct (timeout_returns ct ProbeTimeout (probe_upstream_inner net proxy ct) w) as (r & w1 & E & Hw1).
    destruct (IH w1) as (w' & Es & Hw). exists w'. split; [|lia].
    unfold mbind, io_bind, attempt, probe_upstream. by rewrite E.
Qed.

(** What the upstream check returns, within its window. *)
Lemma check_upstreams_returns net c w :
  ∃ r w', check_upstreams net c w = Some (r, w')
  ∧ (now w' ≤ now w + ms (upstream_probe_wait_secs c) + N.of_nat (1 + size (upstreams c)) * ms (connect_timeout_secs c))%N
  ∧ (upstream_probe_required c = true → r ≠ Ok false).
Proof.
  unfold check_upstreams. cbv zeta.
  assert (length (hash_iter (upstreams c)) = size (upstreams c)) as Hlen.
  { rewrite (Permutation_length (hash_iter_perm _)). apply length_map_to_list. }
  set (interval := ms (N.max (upstream_probe_interval_secs c) 1)).
  assert (0 < interval)%N as Hint by (unfold interval, ms; lia). clearbody interval.
  set (ct := ms (connect_timeout_secs c)). set (wait := ms (upstream_probe_wait_secs c)). clearbody ct wait.
  destruct (ensure_upstream_ready_returns net (S (N.to_nat wait)) (upstream_proxy c) ct wait interval
    (upstream_probe_required c) w Hint ltac:(lia)) as (r & w1 & E & Hw1 & Hr).
  assert (upstream_probe_required c = true → r ≠ Ok false) as Hreq.
  { intros Hq. destruct Hr as [[-> _]|[-> _]]; [done|]. by rewrite Hq. }
  unfold mbind at 1, io_bind at 1. rewrite E. destruct r as [ready|e].
  - destruct (soft_probes_returns net ct (default_upstream_name c) (hash_iter (upstreams c)) w1) as (w' & Es & Hw).
    exists (Ok ready), w'. split_and!; [|rewrite Hlen in Hw; lia | done].
    unfold mbind, io_bind. by rewrite Es.
  - exists (Err e), w1. split_and!; [done | lia | done].
Qed.

Lemma normalize_upstreams_table c c' : normalize_upstreams c = Ok c' → hosts_table c' = hosts_table c.
Proof.
  unfold normalize_upstreams. cbv zeta. set (c0 := if decide (upstreams c = ∅) then _ else c).
  assert (hosts_table c0 = hosts_table c) as <- by (unfold c0; by case_decide).
  destruct (pick_default c0) as [d|]; [|done]. cbn [mbind result_bind].
  destruct (ok_or _ _); [|done]. cbn [mbind result_bind]. by intros [= <-].
Qed.

(** The routing stays well-formed when loopback hosts are replaced. *)
Lemma remap_wf e c c' : config_wf c → remap_docker_loopback_upstream e c = Val c' → config_wf c'.
Proof.
  intros Hc. unfold remap_docker_loopback_upstream.
  assert (∀ gw, config_wf (c {{ upstreams := remap_proxy_loopback_host gw <$> upstreams c;
                                upstream_proxy := remap_proxy_loopback_host gw (upstream_proxy c) }})) as Hgw.
  { intros gw. destruct Hc as [Hl Hg [(d & Hd & Hp) Hk] Hw Hh].
    split; [exact Hl | exact Hg | | exact Hw | exact Hh]. split.
    - exists d. split; [exact Hd|]. app_fields. rewrite lookup_fmap, Hp. done.
    - intros k p Hkp. destruct (Hk k p Hkp) as [? ?]. split; [done|]. app_fields. by rewrite lookup_fmap, fmap_is_Some. }
  destruct (negb _); [by intros [= <-]|]. destruct (match var e _ with Some _ => _ | None => _ end); [by intros [= <-]|].
  destruct (negb _); [by intros [= <-]|].
  destruct (match var e _ with Some _ => _ | None => _ end) as [[gw|]|]; cbn; [|by intros [= <-] | done].
  destruct (negb _); intros [= <-]; [done | apply Hgw].
Qed.

Lemma configure_wf b cli c : configure b cli = Val (Ok c) → config_wf c.
Proof.
  unfold configure. destruct (load _ _ _) as [[c0|e]|] eqn:El; [|done..]. cbn [mbind eval_bind].
  assert (config_wf c0) as Hc0.
  { unfold load in El. match type of El with (?m ≫= _) = _ => destruct m as [[c1|]|]; [|done..] end.
    cbn [mbind eval_bind result_bind] in El. injection El as El. exact (finalize_config_wf _ _ El). }
  destruct (negb _); [done|]. destruct (with_proxy cli c0) as [c1|e] eqn:Ew; [|done].
  assert (config_wf c1) as Hc1.
  { unfold with_proxy in Ew. destruct (cli_proxy cli) as [s|]; [|by injection Ew as <-].
    destruct (parse_proxy_string s) as [proxy|]; [|done].
    destruct (normalize_upstreams _) as [c2|] eqn:En; [|done]. injection Ew as <-.
    destruct Hc0 as [Hl [Ht Hh] _ Hw Hhosts].
    destruct (normalize_upstreams_frame _ _ En) as (El1 & Et & Eh & Ew1 & Eho & _). app_fields.
    split; rewrite ?El1, ?Et, ?Eh, ?Ew1, ?Eho; try done; [by eapply normalize_upstreams_wf|].
    rewrite (normalize_upstreams_table _ _ En). exact Hhosts. }
  destruct (remap_docker_loopback_upstream _ c1) as [c2|] eqn:Er; [|done]. cbn. intros [= <-]. by eapply remap_wf.
Qed.

(** What the panel starts with. *)
Lemma start_panel_inv c ok reg acl pw salt bind opened t h p :
  start_panel c ok reg acl pw salt bind opened t h = Ok p →
  match p with
  | None => panel_enabled (panel c) = false
  | Some s => panel_enabled (panel c) = true ∧ upstream_registry s = reg ∧ client_acl s = acl ∧ hosts_live s = hosts_table c
      ∧ hosts_entries s = hosts c ∧ is_Some (settings (db s) !! PASSWORD_KEY) ∧ files s = t
      ∧ config_file s = unwrap_or (config_path c) §"/etc/sniproxy/config.yaml" ∧ cfg s = c
  end.
Proof.
  unfold start_panel. destruct opened as [d|]; [|done]. destruct (panel_enabled _) eqn:Ep; cbn [negb]; [|by intros [= <-]].
  destruct (ensure_admin_password pw salt d) as [r d'] eqn:Ea. destruct r as [[]|]; [|done]. cbn [mbind result_bind].
  destruct (ok_or _ _) as [addr|]; [|done]. cbn [mbind result_bind]. destruct (negb _); [done|]. intros [= <-].
  cbn. split_and!; try done. revert Ea. unfold ensure_admin_password, get_setting, set_setting, query, update.
  destruct (broken d) eqn:Eb; [done|]. destruct (settings d !! PASSWORD_KEY) as [old|] eqn:Es; [intros [= <-]; by exists old|].
  destruct (hash_password _ _) as [hash|]; [|done]. rewrite ?Eb. cbn. intros [= <-]. cbn. by rewrite lookup_insert_eq.
Qed.

(** What is served, when it is served. *)
Record served c (ready : bool) (limits : ProcessLimits) (st : Started) : Prop := {
  sv_cfg : st_cfg st = c;
  sv_registry : registry_wf (st_registry st);
  sv_acl : acl_wf (st_acl st);
  sv_hosts : compile_hosts_table (hosts c) = Ok (st_hosts st);
  sv_ready : st_ready st = ready;
  sv_limits : st_limits st = limits;
  sv_panel : match st_panel st with
    | None => panel_enabled (panel c) = false
    | Some p => is_Some (settings (db p) !! PASSWORD_KEY)
        ∧ (upstream_registry p, client_acl p, hosts_live p) = (st_registry st, st_acl st, st_hosts st)
    end;
}.

Lemma serve_served b c ready limits st : config_wf c → serve b c ready limits = Ok st → served c ready limits st.
Proof.
  intros Hwf. unfold serve. cbv zeta. destruct (negb _); [done|].
  destruct (start_panel _ _ _ _ _ _ _ _ _ _) as [p|e] eqn:Ep; [|done]. apply start_panel_inv in Ep. intros [= <-].
  split; cbn [st_cfg st_registry st_acl st_hosts st_ready st_limits st_panel]; try done.
  - apply from_config_wf, Hwf.
  - apply acl_from_config_wf.
  - apply Hwf.
  - destruct p as [s|]; [|done]. destruct Ep as (_ & -> & -> & -> & _ & Hpw & _). by split.
Qed.

Lemma main_served b cli w o st w' o' :
  main b cli w o = Val (Some (Ok st, w', o')) → ∃ ready limits, served (st_cfg st) ready limits st.
Proof.
  unfold main. destruct (configure b cli) as [[c|e]|] eqn:Hc; [|done..]. cbn [mbind eval_bind].
  pose proof (configure_wf b cli c Hc) as Hwf.
  destruct (check_upstreams (b_net b) c w) as [[[ready|e] w1]|]; [|done..].
  destruct (apply (nofile_limit c) (Config.max_connections c) o) as [[limits|e] o1]; [|done].
  intros Hm. injection Hm as Hs _ _. pose proof (serve_served _ _ _ _ _ Hwf Hs) as Hst. exists ready, limits.
  by rewrite (sv_cfg _ _ _ _ Hst).
Qed.

End main.

(** C21: The start-up always comes to an end, within the waiting window and one connect timeout per
    profile, and what it starts is sound: the configuration is well-formed, every client is
    routed to a profile that exists, the white list is canonical, the hosts table is the
    compilation of the configured entries, the sessions allowed fit the open files of the
    process, and a required upstream has answered.  The panel, if it is enabled, has a
    password and works on the registry, the white list and the table of the service.  When
    the configuration is refused, nothing is started. *)
Theorem main_starts `{Unicode} `{Yaml} `{RegexLib} `{HashOrder} `{RlimitOs} `{!RlimitLaws} `{Host} `{Argon2}
    (b : Boot) (cli : Cli) (w : World) (o : os) conf :
  configure b cli = Val conf →
  ∃ r w' o', main b cli w o = Val (Some (r, w', o'))
  ∧ match conf with
    | Err e => r = Err e ∧ w' = w ∧ o' = o
    | Ok c =>
        (now w' ≤ now w + ms (upstream_probe_wait_secs c) + N.of_nat (1 + size (upstreams c)) * ms (connect_timeout_secs c))%N
        ∧ match r with
          | Err e => True
          | Ok st =>
              st_cfg st = c ∧ config_wf c ∧ registry_wf (st_registry st) ∧ acl_wf (st_acl st)
              ∧ compile_hosts_table (hosts c) = Ok (st_hosts st)
              ∧ (upstream_probe_required c = true → st_ready st = true)
              ∧ (max_connections (st_limits st) ≤ Config.max_connections c)%N
              ∧ (FD_RESERVE + 2 ≤ soft_nofile (st_limits st) →
                 2 * max_connections (st_limits st) + FD_RESERVE ≤ soft_nofile (st_limits st))%N
              ∧ match st_panel st with
                | None => panel_enabled (panel c) = false
                | Some p => is_Some (settings (db p) !! PASSWORD_KEY)
                    ∧ (upstream_registry p, client_acl p, hosts_live p) = (st_registry st, st_acl st, st_hosts st)
                end
          end
    end.
Proof.
  intros Hc. unfold main. rewrite Hc. cbn [mbind eval_bind]. destruct conf as [c|e]; [|by eexists _, _, _].
  pose proof (configure_wf b cli c Hc) as Hwf.
  destruct (check_upstreams_returns (b_net b) c w) as (r & w' & -> & Hw & Hr).
  destruct r as [ready|e]; [|by eexists _, _, _].
  destruct (apply (nofile_limit c) (Config.max_connections c) o) as [r o'] eqn:Ea.
  eexists _, w', o'. split; [done|]. split; [exact Hw|]. destruct r as [limits|e]; [|done].
  apply apply_fits in Ea as (_ & Hmax & Hfd).
  destruct (serve b c ready limits) as [st|e] eqn:Es; [|done]. destruct (serve_served _ _ _ _ _ Hwf Es) as [? ? ? ? Erd -> ?].
  split_and!; try done. intros Hq. specialize (Hr Hq). rewrite Erd. by destruct ready.
Qed.
