(* ===== verification/Startup.v ===== *)
(** The relay that [main] starts, and the panel's edits: the state at the start agrees with the
    configuration file, which is where the invariant of PanelRestart begins; and a start
    after an edit loads what the edit has saved, unless the environment or the command line
    override it. *)

From S2P Require Import Prelude RustStr TextLines Collections Net Hosts Config Limits UpstreamRegistry ClientAcl Metrics Files Ufw DnsmasqStore DnsmasqProofs Stream ProxyConnector ProxyProofs PanelDb PanelDbProofs Panel PanelApi PanelEdits PanelRestart PanelExamples Main.

Section core.
Context `{Unicode} `{Yaml} `{RegexLib} `{HashOrder}.
Implicit Types c : AppConfig.

(** A configuration without what the environment overrides beside the proxy. *)
Definition core c : AppConfig := c {{
  upstream_monitor := UpstreamMonitorConfig_default; telegram := TelegramConfig_default; upstream_probe_wait_secs := 0%N;
  upstream_probe_interval_secs := 0%N; upstream_probe_required := false; ufw_bin := None; panel := PanelConfig_default;
  config_path := None }}.

(** What the relay shares does not depend on the rest. *)
Lemma core_shared c c' : core c = core c' →
  (from_config c, acl_from_config c, hosts_table c) = (from_config c', acl_from_config c', hosts_table c').
Proof.
  intros E.
  change (from_config c, acl_from_config c, hosts_table c)
    with (from_config (core c), acl_from_config (core c), hosts_table (core c)). by rewrite E.
Qed.

Lemma on_var_core e x f c : (∀ v a, core (f v a) = core a) → core (on_var e x f c) = core c.
Proof. intros Hf. unfold on_var. by destruct (var e x). Qed.
Lemma on_nonempty_core e x f c : (∀ v a, core (f v a) = core a) → core (on_nonempty e x f c) = core c.
Proof. intros Hf. apply on_var_core. intros v a. by case_decide. Qed.
Lemma on_number_core p e x f c : (∀ v a, core (f v a) = core a) → core (on_number p e x f c) = core c.
Proof. intros Hf. apply on_var_core. intros v a. by destruct (p v). Qed.

Ltac peel := cbv zeta; repeat
  (first [rewrite on_nonempty_core | rewrite on_number_core | rewrite on_var_core]; [|intros; reflexivity]).

Lemma probe_overrides_core e c : core (apply_probe_env_overrides e c) = core c.
Proof. unfold apply_probe_env_overrides. by peel. Qed.

Lemma monitor_overrides_core e c : core (apply_monitor_env_overrides e c) = core c.
Proof.
  unfold apply_monitor_env_overrides. peel. rewrite on_var_core; [by peel|]. intros v a. cbv zeta. by case_decide.
Qed.

Lemma panel_overrides_core e c :
  var e §"CLIENT_WHITELIST_UFW" = None → core (apply_panel_env_overrides e c) = core c.
Proof.
  intros Hv. unfold apply_panel_env_overrides. cbv zeta.
  assert (∀ b (x : option bytes) (f : bytes → AppConfig → AppConfig) a, (∀ v a, core (f v a) = core a) →
    core (if b : bool then match x with Some p => f p a | None => a end else a) = core a) as Hif.
  { intros b x f a Hf. destruct b, x; by rewrite ?Hf. }
  rewrite (Hif _ _ (λ p a, a {{ panel ::= λ q, q {{ dnsmasq_query_log := Some p }} }})) by (intros; reflexivity).
  rewrite (Hif _ _ (λ p a, a {{ panel ::= λ q, q {{ dnsmasq_conf_dir := Some p }} }})) by (intros; reflexivity).
  rewrite on_nonempty_core by (intros; reflexivity). unfold on_var at 1. rewrite Hv. by peel.
Qed.

(** [finalize] treats them alike. *)
Definition core_result (r : result ConfigError AppConfig) : result ConfigError AppConfig :=
  match r with Ok c => Ok (core c) | Err e => Err e end.

Lemma finalize_listeners_core c : finalize_listeners (core c) = core_result (finalize_listeners c).
Proof.
  unfold finalize_listeners. cbv zeta.
  assert (merge_listeners (core c) = core (merge_listeners c)) as ->.
  { unfold merge_listeners. cbv zeta. destruct c; cbn; repeat (case_decide; cbn); done. }
  change (listens (core (merge_listeners c))) with (listens (merge_listeners c)).
  by destruct (normalize_listeners 0 _).
Qed.

Lemma normalize_upstreams_core c : normalize_upstreams (core c) = core_result (normalize_upstreams c).
Proof.
  unfold normalize_upstreams. cbv zeta.
  set (base := λ c : AppConfig, if decide (upstreams c = ∅) then
    c {{ upstreams := <[§"default" := upstream_proxy c]> (upstreams c); default_upstream := Some §"default" }} else c).
  change (if decide (upstreams c = ∅) then _ else c) with (base c).
  change (if decide (upstreams (core c) = ∅) then _ else core c) with (base (core c)).
  assert (base (core c) = core (base c)) as -> by (unfold base; destruct c; cbn; by case_decide).
  change (pick_default (core (base c))) with (pick_default (base c)).
  destruct (pick_default (base c)) as [d|]; [|done]. cbn [mbind result_bind].
  destruct (base c); cbn. by destruct (_ !! d).
Qed.

Lemma finalize_core c : finalize (core c) = core_result (finalize c).
Proof.
  unfold finalize. rewrite finalize_listeners_core. destruct (finalize_listeners c) as [c1|]; [|done].
  cbn [mbind result_bind core_result]. rewrite normalize_upstreams_core. destruct (normalize_upstreams c1) as [c2|]; [|done].
  cbn [mbind result_bind core_result]. cbv zeta.
  change (hosts (normalize_client_whitelist (core c2))) with (hosts (normalize_client_whitelist c2)).
  by destruct (compile_hosts_table _).
Qed.

Lemma finalize_same_core c c' c1 : core c = core c' → finalize c = Ok c1 → ∃ c1', finalize c' = Ok c1' ∧ core c1 = core c1'.
Proof.
  intros E Hf. pose proof (finalize_core c) as Ec. rewrite E, finalize_core, Hf in Ec.
  destruct (finalize c') as [c1'|]; [|done]. exists c1'. split; [done|].
  exact (f_equal (λ r, match r with Ok c => c | Err _ => core c1 end) (eq_sym Ec)).
Qed.

Lemma Ok_inj {E A} (a b : A) : Ok (E := E) a = Ok b → a = b.
Proof. by intros [= ->]. Qed.

Lemma merge_listeners_path c : config_path (merge_listeners c) = config_path c.
Proof. unfold merge_listeners. cbv zeta. case_decide; case_decide; reflexivity. Qed.

Lemma finalize_path c c' : finalize c = Ok c' → config_path c' = config_path c.
Proof.
  intros (c1 & c2 & t & E1 & E2 & _ & ->)%finalize_inv. change (config_path c2 = config_path c).
  trans (config_path c1).
  - revert E2. unfold normalize_upstreams. cbv zeta. set (c0 := if decide (upstreams c1 = ∅) then _ else c1).
    assert (config_path c0 = config_path c1) as <- by (unfold c0; by case_decide).
    destruct (pick_default c0); [|done]. cbn [mbind result_bind]. destruct (ok_or _ _); [|done]. by intros <-%Ok_inj.
  - revert E1. unfold finalize_listeners. cbv zeta.
    destruct (normalize_listeners _ _); [|done]. cbn [mbind result_bind]. intros <-%Ok_inj. exact (merge_listeners_path c).
Qed.

End core.

(** C22: What the panel starts with agrees with the configuration file: the file alone, read again
    without the environment, gives the routing, the white list and the hosts table that are
    in use.  So it is the start of every history of PanelRestart: whatever was saved from the
    panel is what the next start loads.  When no proxy is given outside the file, the white
    list's firewall switch is not set by the environment and the relay is not in a
    container. *)
Theorem startup_agrees `{Unicode} `{Yaml} `{RegexLib} `{HashOrder} `{Kernel} `{RlimitOs} `{Host} `{Chrono} `{Sqlite} `{Argon2}
    `{YamlDoc} `{ErrorText} (b : Boot) (cli : Cli) w o st w' o' p :
  cli_proxy cli = None → from_env (b_env b) = None → var (b_env b) §"CLIENT_WHITELIST_UFW" = None →
  Config.path_exists (b_env b) §"/.dockerenv" = false →
  Config.path_exists (b_env b) (cli_config cli) = true →
  Config.read_to_string (b_env b) (cli_config cli) = Files.read_to_string (cli_config cli) (b_files b) →
  main b cli w o = Val (Some (Ok st, w', o')) → st_panel st = Some p →
  agrees (b_from_str b) p ∧ hosts_entries p = hosts (st_cfg st).
Proof.
  intros Hcli Henv Hufw Hdock Hex Hread Hm Hp. unfold main in Hm.
  destruct (configure b cli) as [conf|] eqn:Hc; [|done]. cbn [mbind eval_bind] in Hm. destruct conf as [c|e]; [|done].
  destruct (check_upstreams _ _ _) as [[[ready|e] w1]|]; [|done..].
  destruct (apply _ _ _) as [[limits|e] o1]; [|done]. injection Hm as Hm _ _. unfold serve in Hm. cbv zeta in Hm.
  destruct (negb _); [done|]. destruct (start_panel _ _ _ _ _ _ _ _ _ _) as [q|e] eqn:Ep; [|done].
  injection Hm as <-. cbn [st_panel st_cfg] in *. subst q. apply start_panel_inv in Ep.
  destruct Ep as (_ & Er & Ea & Eh & Eho & _ & Ef & Ec & _). split; [|exact Eho].
  assert (∃ c0 c1, load (b_from_str b) (b_env b) (cli_config cli) = Val (Ok c) ∧ b_from_str b c0 = Val (Some c1)
    ∧ Files.read_to_string (cli_config cli) (b_files b) = Some c0) as (text & c0 & Hl & Hf & Ht).
  { unfold configure in Hc. destruct (load _ _ _) as [[c2|e]|] eqn:El; [|done..]. cbn [mbind eval_bind] in Hc.
    destruct (negb _); [done|].
    unfold with_proxy in Hc. rewrite Hcli in Hc. unfold remap_docker_loopback_upstream in Hc. rewrite Hdock in Hc.
    cbn in Hc. injection Hc as <-. pose proof El as El'. unfold load in El. rewrite Hex, Hread in El.
    destruct (Files.read_to_string _ _) as [text|]; [|done]. cbn [mbind eval_bind] in El.
    destruct (b_from_str b text) as [[c0|]|] eqn:Ec0; [|done..]. by exists text, c0. }
  unfold load in Hl. rewrite Hex, Hread, Ht in Hl. cbn [mbind eval_bind] in Hl. rewrite Hf in Hl.
  cbn [ok_or mbind result_bind eval_bind] in Hl. injection Hl as Hl. rewrite Henv in Hl. cbv zeta in Hl.
  assert (config_path c = Some (cli_config cli)) as Epath.
  { apply finalize_path in Hl. exact Hl. }
  match type of Hl with finalize ?x = _ => assert (core x = core c0) as Hcore end.
  { change (core (apply_monitor_env_overrides (b_env b) (apply_panel_env_overrides (b_env b) (apply_probe_env_overrides (b_env b) c0)))
      = core c0). by rewrite monitor_overrides_core, panel_overrides_core, probe_overrides_core. }
  destruct (finalize_same_core _ _ _ Hcore Hl) as (c1 & Hc1 & E1).
  split.
  - rewrite Er. apply from_config_wf, (configure_wf b cli c Hc).
  - rewrite Ea. apply acl_from_config_wf.
  - unfold described, in_memory. rewrite Ec, Ef, Epath. change (unwrap_or (Some (cli_config cli)) _) with (cli_config cli). rewrite Ht. cbn. rewrite Hf. cbn. rewrite Hc1. cbn.
    rewrite Er, Ea, Eh. f_equal. symmetry. by apply core_shared.
Qed.

(** * A restart after an edit *)

Section restart.
Context `{Unicode} `{Yaml} `{RegexLib} `{HashOrder} `{Kernel} `{RlimitOs} `{Host} `{Chrono} `{Sqlite} `{Argon2}
  `{YamlDoc} `{ErrorText}.

(** The variables of the environment, and the files as they are. *)
Definition env_at (e : Env) (t : Tree) : Env := {|
  var := var e; Config.path_exists p := Files.path_exists p t; Config.is_dir p := Files.is_dir p t;
  is_file p := match node p t with Some (Text _) | Some Binary => true | _ => false end;
  Config.read_to_string p := Files.read_to_string p t |}.
Definition boot_at (b : Boot) (t : Tree) : Boot := {|
  b_env := env_at (b_env b) t; b_from_str := b_from_str b; b_log := b_log b; b_net := b_net b; b_metrics := b_metrics b;
  b_salt := b_salt b; b_bind := b_bind b; b_db := b_db b; b_files := t; b_host := b_host b |}.

Definition shared (c : AppConfig) : UpstreamRegistry * ClientAcl * option HostsTable :=
  (from_config c, acl_from_config c, hosts_table c).

(** The shared state of a relay that is started on the files of the state [s]. *)
Definition restart (b : Boot) (cli : Cli) (s : PanelState) : option (UpstreamRegistry * ClientAcl * option HostsTable) :=
  match configure (boot_at b (files s)) cli with Val (Ok c) => Some (shared c) | _ => None end.

(** The overrides of [load] beside the proxy keep what is shared. *)
Lemma load_core from_str e path text c0 :
  Config.path_exists e path = true → Config.read_to_string e path = Some text → from_str text = Val (Some c0) →
  var e §"CLIENT_WHITELIST_UFW" = None →
  ∃ x, load from_str e path = Val (finalize x)
  ∧ core x = core (match from_env e with Some proxy => apply_default_proxy_override c0 proxy | None => c0 end).
Proof.
  intros Hex Hr Hf Hu. unfold load. rewrite Hex, Hr. cbn [mbind eval_bind]. rewrite Hf. cbn [ok_or mbind result_bind eval_bind].
  cbv zeta. set (c1 := match from_env e with Some proxy => _ | None => c0 end). eexists. split; [reflexivity|].
  change (core (apply_monitor_env_overrides e (apply_panel_env_overrides e (apply_probe_env_overrides e c1))) = core c1).
  by rewrite monitor_overrides_core, panel_overrides_core, probe_overrides_core.
Qed.

Lemma readable_exists (p : bytes) (t : Tree) s : Files.read_to_string p t = Some s → Files.path_exists p t = true.
Proof.
  intros [_ Hs]%read_to_string_Some. unfold Files.path_exists, node. rewrite Hs. by apply bool_decide_eq_true_2.
Qed.

Lemma restart_described (b : Boot) cli s x :
  config_file s = cli_config cli → described (b_from_str b) s = Some x →
  cli_proxy cli = None → from_env (b_env b) = None → var (b_env b) §"CLIENT_WHITELIST_UFW" = None →
  Files.path_exists §"/.dockerenv" (files s) = false → (∀ p, b_log b p = true) →
  restart b cli s = Some x.
Proof.
  intros Hfile Hd Hcli Henv Hufw Hdock Hlog. unfold described in Hd.
  destruct (Files.read_to_string _ _) as [text|] eqn:Er; [|done]. cbn in Hd.
  destruct (b_from_str b text) as [[c0|]|] eqn:Ef; [|done..]. cbn in Hd.
  destruct (finalize c0) as [c|] eqn:Ec; [|done]. injection Hd as <-. rewrite Hfile in Er.
  destruct (load_core (b_from_str b) (env_at (b_env b) (files s)) (cli_config cli) text c0
    (readable_exists _ _ _ Er) Er Ef Hufw) as (y & Hl & Hcore).
  change (from_env (env_at (b_env b) (files s))) with (from_env (b_env b)) in Hcore. rewrite Henv in Hcore.
  destruct (finalize_same_core c0 y c (eq_sym Hcore) Ec) as (c1 & Ec1 & E1).
  unfold restart, configure. cbn [boot_at b_from_str b_env b_log]. rewrite Hl, Ec1. cbn [mbind eval_bind]. rewrite Hlog. cbn [negb].
  unfold with_proxy. rewrite Hcli. unfold remap_docker_loopback_upstream. cbn [env_at Config.path_exists]. rewrite Hdock.
  cbn. f_equal. symmetry. by apply core_shared.
Qed.

(** With a proxy in the environment, the default profile of a restart is that proxy, whatever
    the file says: an edit of the default profile that was saved is not in force. *)
Theorem saved_default_masked (b : Boot) cli s proxy reg acl table :
  is_Some (described (b_from_str b) s) → config_file s = cli_config cli →
  cli_proxy cli = None → from_env (b_env b) = Some proxy → var (b_env b) §"CLIENT_WHITELIST_UFW" = None →
  Files.path_exists §"/.dockerenv" (files s) = false →
  restart b cli s = Some (reg, acl, table) → default_proxy reg = Ok proxy.
Proof.
  intros [z Hd] Hfile Hcli Henv Hufw Hdock Hr. unfold described in Hd.
  destruct (Files.read_to_string _ _) as [text|] eqn:Er; [|done]. cbn in Hd.
  destruct (b_from_str b text) as [[c0|]|] eqn:Ef; [|done..]. rewrite Hfile in Er.
  destruct (load_core (b_from_str b) (env_at (b_env b) (files s)) (cli_config cli) text c0
    (readable_exists _ _ _ Er) Er Ef Hufw) as (y & Hl & Hcore).
  change (from_env (env_at (b_env b) (files s))) with (from_env (b_env b)) in Hcore. rewrite Henv in Hcore.
  unfold restart, configure in Hr. cbn [boot_at b_from_str b_env b_log] in Hr. rewrite Hl in Hr. cbn [mbind eval_bind] in Hr.
  destruct (finalize y) as [c|] eqn:Ec; [|done]. destruct (negb _); [done|].
  unfold with_proxy in Hr. rewrite Hcli in Hr. unfold remap_docker_loopback_upstream in Hr.
  cbn [env_at Config.path_exists] in Hr. rewrite Hdock in Hr. cbn in Hr. injection Hr as <- _ _.
  destruct (finalize_same_core _ _ _ Hcore Ec) as (c' & Ec' & E').
  assert (from_config c = from_config c') as -> by exact (f_equal (λ x, x.1.1) (core_shared _ _ E')).
  apply override_finalize in Ec' as (_ & Hu & _).
  unfold default_proxy, from_config. cbn. change (unwrap_or (default_upstream c') §"default") with (default_upstream_name c').
  by rewrite Hu, lookup_insert_eq.
Qed.

(** C15: A restart loads what the panel has saved.  When the shared state, the upstream registry,
    the white list and the hosts table, is the one that the configuration file describes, it
    still is after any edit request (hosts, upstreams, client routes, white list), accepted
    or refused, whose answer does not report a failure to save; and then a start of the
    relay on the files as they are ends up with exactly this state.  Conditions: requests
    are handled one after the other; the relay is started with this file, its log file can
    be opened, and nothing overrides the file: no [PROXY] in the environment and no
    [--proxy] (with [PROXY] the default profile is not the saved one,
    [saved_default_masked]), no [CLIENT_WHITELIST_UFW], and no container, in which loopback
    proxies are remapped. *)
Theorem edits_survive_restart (b : Boot) `{!YamlFile (b_from_str b)} cli (s : PanelState) cookie m r :
  agrees (b_from_str b) s → is_edit r = true → config_file s = cli_config cli →
  cli_proxy cli = None → from_env (b_env b) = None → var (b_env b) §"CLIENT_WHITELIST_UFW" = None →
  (∀ p, b_log b p = true) →
  let '(resp, s') := handler cookie r m s in
  (status resp = OK → saved resp) →
  agrees (b_from_str b) s'
  ∧ (Files.path_exists §"/.dockerenv" (files s') = false → restart b cli s' = Some (in_memory s')).
Proof.
  intros Hag Hr Hfile Hcli Henv Hufw Hlog.
  pose proof (edits_keep_agreement (b_from_str b) s cookie m r Hag Hr) as Hkeep.
  pose proof (edit_config_file cookie r m s Hr) as Hcf.
  destruct (handler cookie r m s) as [resp s']. cbn [snd] in Hcf. intros Hs. pose proof (Hkeep Hs) as Hag'. split; [done|].
  intros Hdock. apply restart_described; [congruence | apply Hag' | done..].
Qed.
End restart.

(** * A start *)

#[local] Existing Instances ascii_unicode example_yaml example_regex sorted_order open_kernel example_os example_os_laws
  example_chrono example_chrono_laws example_sqlite example_host example_argon2 example_errors example_doc example_yaml_file.

Definition example_cli : Cli := {| cli_config := §"/etc/config.yaml"; cli_proxy := None; cli_log_file := None |}.
Definition example_files : Tree := <[comps §"/etc" := Folder]> {[comps §"/etc/config.yaml" := Text §"first"]}.
Definition boot_env : Env := {|
  var _ := None; Config.path_exists p := bool_decide (p = §"/etc/config.yaml"); Config.is_dir _ := false; is_file _ := false;
  Config.read_to_string p := Files.read_to_string p example_files |}.

(** No upstream answers, none is required. *)
Definition example_boot : Boot := {|
  b_env := boot_env; b_from_str := example_from_str; b_log _ := true; b_net := silent_net; b_metrics _ := true;
  b_salt := §"salt"; b_bind _ := true; b_db _ := Ok empty_db; b_files := example_files; b_host := (∅ : gmap bytes bytes) |}.
Definition booted : eval (option (result MainError Started * World * os)) := main example_boot example_cli start_world example_process.

Definition panel_of (r : eval (option (result MainError Started * World * os))) : option (Started * PanelState) :=
  match r with Val (Some (Ok st, _, _)) => (λ p, (st, p)) <$> st_panel st | _ => None end.
Definition is_some {A} (o : option A) : bool := match o with Some _ => true | None => false end.
Lemma booted_panel : is_some (panel_of booted) = true.
Proof. vm_compute. reflexivity. Qed.
Lemma panel_of_inv r : is_some (panel_of r) = true →
  ∃ st p w o, r = Val (Some (Ok st, w, o)) ∧ st_panel st = Some p ∧ panel_of r = Some (st, p).
Proof.
  unfold panel_of. destruct r as [[[[[st|] w] o]|]|]; try done. destruct (st_panel st) as [p|] eqn:E; [|done].
  intros _. exists st, p, w, o. by rewrite E.
Qed.

Lemma main_panic (b : Boot) cli w o : configure b cli = Panic → main b cli w o = Panic.
Proof. intros Hc. unfold main. by rewrite Hc. Qed.

(** The request of PanelExamples that replaces bob by alice, and a restart. *)
Example edits_survive_restart_witness :
  entries (client_acl edited.2) = entries new_acl ∧ restart example_boot example_cli edited.2 = Some (in_memory edited.2).
Proof.
  split; [exact edited_entries|].
  pose proof (edits_survive_restart example_boot example_cli session_panel (cookie_of §"aa") (moment example_time)
    (PutWhitelist replace_bob) session_agrees eq_refl eq_refl eq_refl eq_refl eq_refl (λ _, eq_refl)) as Ht.
  pose proof edited_saved as Hs. assert (Files.path_exists §"/.dockerenv" (files edited.2) = false) as Hd by (vm_compute; reflexivity).
  fold edited in Ht. destruct edited as [resp s']. apply Ht; [intros _; exact (is_saved_ok _ Hs) | exact Hd].
Defined.

Example main_starts_witness : match panel_of booted with
  | Some (st, p) => registry_wf (st_registry st) ∧ upstream_registry p = st_registry st ∧ is_Some (settings (db p) !! PASSWORD_KEY)
  | None => False
  end.
Proof.
  pose proof booted_panel as Hp. pose proof (main_starts example_boot example_cli start_world example_process) as Ht.
  pose proof (main_panic example_boot example_cli start_world example_process) as Hn. unfold booted in *.
  revert Hp Ht Hn. generalize (main example_boot example_cli start_world example_process), (configure example_boot example_cli).
  intros m conf Hp Ht Hn. destruct conf as [conf|]; [|by rewrite (Hn eq_refl) in Hp].
  destruct (Ht conf eq_refl) as (r & w' & o' & -> & Hr). destruct (panel_of_inv _ Hp) as (st & p & w & o & [= -> -> ->] & Hpp & ->).
  destruct conf as [c|e]; [|by destruct Hr]. destruct Hr as (_ & _ & _ & Hreg & _ & _ & _ & _ & _ & Hpanel).
  rewrite Hpp in Hpanel. destruct Hpanel as [Hpw [= Er _ _]]. split_and!; [exact Hreg | exact Er | exact Hpw].
Defined.

Example startup_agrees_witness : match panel_of booted with
  | Some (st, p) => agrees example_from_str p
  | None => False
  end.
Proof.
  destruct (panel_of_inv booted booted_panel) as (st & p & w & o & Hb & Hp & ->).
  exact (proj1 (startup_agrees example_boot example_cli start_world example_process st w o p
    eq_refl eq_refl eq_refl eq_refl eq_refl eq_refl Hb Hp)).
Defined.
