(* ===== verification/Relay.v ===== *)
(** The relay as a whole: src/service.rs, [SniProxyService::new] and [run] around the accepting
    loops, and the connections of a relay that [main] has started, while the panel answers
    requests.

    The panel's history is a list of events with the time of the relay at which they happen;
    what a connection reads of the shared structures at a time is the state of the panel
    after the events until then. *)

From S2P Require Import Prelude RustStr TextLines Collections Net Hosts Config Sni SelfLoop Limits UpstreamRegistry ClientAcl Metrics DomainLimiter Files Ufw DnsmasqStore PanelDb PanelDbProofs Panel PanelApi PanelAuth PanelShared Stream ProxyConnector ProxyProofs Splice Service ServiceProofs Listeners Main.

(** * The service *)

Section service.
Context `{Unicode} `{Yaml} `{RegexLib} `{HashOrder} `{Paths} `{DomainLimiter.Json}.
(** Which operations on the file of the limits fail. *)
Context (fails : FileOp → bool).

Record SniProxyService := {
  service_cfg : AppConfig;
  connection_slots : nat;
  domain_limiter : option DomainLimiter;
  service_self_loop : SelfLoopGuard;
  service_traffic : bool;
}.

(** [SniProxyService::new], at a time, on a file system, with the interfaces of the host; the
    structures shared with the panel are in [relay_shared] below. *)
Definition service_new (now : N) (fs : DomainLimiter.Files) (e : Env) (ifs : IfAddrs) (cfg : AppConfig)
    (max_connections : N) (has_traffic : bool) : SniProxyService := {|
  service_cfg := cfg;
  connection_slots := N.to_nat max_connections;
  domain_limiter :=
    if decide (domain_limits cfg = ∅) then None else
    match load fails now fs (domain_limits cfg) (domain_limits_state_path e cfg) with
    | Ok limiter => Some limiter
    | Err _ => None
    end;
  service_self_loop := guard_from_config (listens cfg) ifs;
  service_traffic := has_traffic;
|}.

(** What a listener's task is given. *)
Record ListenerTask := { task_addr : bytes; task_proto : bytes; task_port : N }.
Fixpoint listener_tasks (l : list ListenerConfig) : result ListenerError (list ListenerTask) :=
  match l with
  | [] => Ok []
  | c :: l =>
      port ← listen_port c;
      tasks ← listener_tasks l;
      Ok ({| task_addr := addr c; task_proto := proto_str c; task_port := port |} :: tasks)
  end.

(** [run], to the start of the listeners: a listener without a port ends it with an error. *)
Definition run_start (sv : SniProxyService) (binds : bytes → bool) : result ListenerError (list ListenerTask * Relay) :=
  tasks ← listener_tasks (listens (service_cfg sv));
  Ok (tasks, start_relay (connection_slots sv) binds (task_addr <$> tasks)).

(** The rest of [run], when the listeners have stopped: the counters are written. *)
Definition run_end (now : N) (limiter : option DomainLimiter) (fs : DomainLimiter.Files) : option DomainLimiter * DomainLimiter.Files :=
  match limiter with
  | None => (None, fs)
  | Some l => let '(_, l, fs) := persist_now fails now l fs in (Some l, fs)
  end.

(** A state file that cannot be read, or is none, leaves a relay without limits. *)
Lemma unreadable_state_lifts_limits now fs e ifs cfg max traffic path raw :
  domain_limits_state_path e cfg = Some path → fs !! path = Some raw →
  fails (Read path) = true ∨ from_str raw = None →
  domain_limiter (service_new now fs e ifs cfg max traffic) = None.
Proof.
  intros Hp Hf Hr. cbn. case_decide; [done|]. unfold load, load_from_disk. rewrite Hp, Hf.
  destruct Hr as [Hr|Hr]; rewrite Hr; [done|]. by destruct (fails (Read path)).
Qed.

(** A task for every listener, with what it is configured for. *)
Lemma listener_tasks_spec l tasks :
  listener_tasks l = Ok tasks ↔
  Forall2 (λ c t, task_addr t = addr c ∧ task_proto t = proto_str c ∧ listen_port c = Ok (task_port t)) l tasks.
Proof.
  revert tasks. induction l as [|c l IH]; intros tasks; cbn [listener_tasks].
  { split; [intros [= <-]; constructor | by intros ->%Forall2_nil_inv_l]. }
  split.
  - destruct (listen_port c) as [port|] eqn:Ep; [|done]. cbn. destruct (listener_tasks l) as [ts|]; [|done]. cbn.
    intros [= <-]. constructor; [by rewrite Ep | by apply IH].
  - intros (t & ts & (Ha & Hp & ->) & Hts%IH & ->)%Forall2_cons_inv_l. cbn. rewrite Hts. cbn. rewrite <- Ha, <- Hp. by destruct t.
Qed.

(** When [run] gets to its listeners, every address can be parsed, and each listener whose
    address the system gives it starts its loop. *)
Lemma run_start_spec sv binds tasks r :
  run_start sv binds = Ok (tasks, r) →
  permits r = connection_slots sv ∧ sessions r = 0
  ∧ listeners r = (λ t, if binds (task_addr t) then LTop else LStopped) <$> tasks
  ∧ task_addr <$> tasks = addr <$> listens (service_cfg sv).
Proof.
  unfold run_start. destruct (listener_tasks _) as [ts|] eqn:E; [|done]. cbn. intros [= <- <-].
  apply listener_tasks_spec in E. split_and!; [done | done | |].
  - cbn. rewrite <- list_fmap_compose. apply list_fmap_ext. intros i t Ht. cbn.
    destruct (Forall2_lookup_r _ _ _ _ _ E Ht) as (c & _ & -> & _ & Hp).
    assert (bindable (addr c) = true) as ->; [|done].
    unfold bindable. apply bool_decide_eq_true. unfold listen_port in Hp. destruct (parse_socket_addr (addr c)); [by eexists | done].
  - induction E as [|c t l ts' (Ha & _) _ IH]; [done|]. by rewrite !fmap_cons, Ha, IH.
Qed.
End service.

(** * The relay and its panel *)

Section relay.
Context `{Unicode} `{Yaml} `{RegexLib} `{HashOrder} `{Kernel} `{Host} `{Chrono} `{Sqlite} `{Argon2} `{YamlDoc} `{ErrorText}.

(** The state of the panel after the events until a time. *)
Definition panel_at (p0 : PanelState) (events : list (N * event)) (t : N) : PanelState :=
  foldl PanelAuth.step p0 (filter (λ e, (e.1 ≤ t)%N) events).*2.

(** What the connections share: the structures of the panel at the time they are read, or the
    ones of the start when there is no panel; the rest is the environment. *)
Definition relay_shared (env : Shared) (st : Started) (sv : SniProxyService) (events : list (N * event)) : Shared :=
  let at_panel {A} (f : PanelState → A) (start : A) (t : N) : A :=
    match st_panel st with Some p => f (panel_at p events t) | None => start end in
  {| acl_at := at_panel client_acl (st_acl st);
     hosts_at := at_panel hosts_live (st_hosts st);
     registry_at := at_panel upstream_registry (st_registry st);
     self_loop := service_self_loop sv;
     has_traffic := service_traffic sv;
     lookup_at := lookup_at env; net := net env; wall := wall env; others := others env; schedule := schedule env |}.

(** A connection to a listener of the relay. *)
Definition serve_client (env : Shared) (st : Started) (sv : SniProxyService) (events : list (N * event))
    (task : ListenerTask) (peer : bytes) (limiter : option DomainLimiter) (w : World) :=
  handle_connection (relay_shared env st sv events) (ms (connect_timeout_secs (service_cfg sv))) peer
    (task_proto task) (task_port task) limiter w.

Lemma panel_at_wf p0 events t :
  registry_wf (upstream_registry p0) → acl_wf (client_acl p0) →
  registry_wf (upstream_registry (panel_at p0 events t)) ∧ acl_wf (client_acl (panel_at p0 events t)).
Proof.
  unfold panel_at. generalize (filter (λ e, (e.1 ≤ t)%N) events).*2. intros es. revert p0.
  induction es as [|e es IH]; intros p0 Hr Ha; [done|]. cbn [foldl].
  destruct (step_shared p0 e) as [_ _ _ Hr' Ha']. apply IH; auto.
Qed.
End relay.

(** * What a connection can fail of *)

(** The errors that would be the relay's own: a route to nowhere, no candidate at all, a panic
    of the task, and the bounds of the model's loops. *)
Definition own_fault (e : HandleError) : bool :=
  match e with NoProfile _ | NoCandidates | Panicked | LoopFuel => true | _ => false end.

(** The errors of a computation satisfy [P]. *)
Definition raises {E A} (P : E → Prop) (m : IO E A) : Prop := ∀ w e w', m w = Some (Err e, w') → P e.
Definition sraises {A} (P : HandleError → Prop) (m : SIO A) : Prop :=
  ∀ s w e s' w', m s w = Some (Err (Failed e), s', w') → P e.

Section raises.
Context {E : Type} (P : E → Prop).

Lemma raises_mret {A} (a : A) : raises P (mret a : IO E A).
Proof. done. Qed.
Lemma raises_throw {A} e : P e → raises P (throw e : IO E A).
Proof. by intros He w e' w' [= <- _]. Qed.
Lemma raises_bind {A B} (m : IO E A) (k : A → IO E B) : raises P m → (∀ a, raises P (k a)) → raises P (m ≫= k).
Proof.
  intros Hm Hk w e w'. unfold mbind, io_bind. destruct (m w) as [[[a|e1] w1]|] eqn:Em; [| |done].
  - apply Hk.
  - intros [= <- <-]. by eapply Hm.
Qed.
Lemma raises_map_err {E' A} (f : E' → E) (m : IO E' A) : (∀ e, P (f e)) → raises P (map_err f m).
Proof. intros Hf w e w'. unfold map_err. by destruct (m w) as [[[a|e1] w1]|]; intros [= <- _] || intros [=]. Qed.
Lemma raises_timeout {A} d e (m : IO E A) : P e → raises P m → raises P (timeout d e m).
Proof.
  intros He Hm w e' w'. unfold timeout. destruct (m w) as [[[a|e1] w1]|] eqn:Em; intros Hr; repeat case_match; simplify_eq; try done;
    by eapply Hm.
Qed.
End raises.

Lemma sraises_bind {A B} P (m : SIO A) (k : A → SIO B) : sraises P m → (∀ a, sraises P (k a)) → sraises P (m ≫= k).
Proof.
  intros Hm Hk s w e s' w' [(a & s1 & w1 & _ & Hx)|(e1 & Hx & [= <-])]%sio_bind_inv; [by eapply Hk | by eapply Hm].
Qed.
Lemma sraises_io {A} P (m : IO HandleError A) : raises P m → sraises P (io m).
Proof. intros Hm s w e s' w' (_ & [(a & [=] & _)|(e' & [= <-] & Hx)])%io_inv. by eapply Hm. Qed.
Lemma sraises_reject {A} P reason : sraises P (reject reason : SIO A).
Proof. intros s w e s' w' (_ & [=] & _)%reject_inv. Qed.

(** ** The parts of a connection *)

Section connection.
Context `{Unicode} `{!UnicodeLaws} `{HashOrder} `{RegexLib}.

Definition no_own_fault (e : HandleError) : Prop := own_fault e = false.
(** The errors of the extraction are not about routing. *)
Definition no_routing_fault (e : HandleError) : Prop := match e with NoProfile _ | NoCandidates => False | _ => True end.

Lemma raises_or_panic {A} (m : eval A) : raises no_routing_fault (or_panic m).
Proof. destruct m; [apply raises_mret | by apply raises_throw]. Qed.

Ltac raises_tac :=
  repeat first
    [ apply raises_mret | by apply raises_throw | apply raises_or_panic
    | by apply raises_map_err
    | apply raises_timeout; [done|] | apply raises_bind; [|intros ?] | progress cbv zeta | case_match ].

Lemma tls_loop_raises ct fuel port buf : raises no_routing_fault (tls_loop ct fuel port buf).
Proof. revert buf. induction fuel as [|fuel IH]; intros buf; cbn [tls_loop]; raises_tac; apply IH. Qed.
Lemma http_loop_raises ct fuel port buf : raises no_routing_fault (http_loop ct fuel port buf).
Proof. revert buf. induction fuel as [|fuel IH]; intros buf; cbn [http_loop]; raises_tac; apply IH. Qed.

Lemma no_fault_of e : no_routing_fault e → e ≠ Panicked ∧ e ≠ LoopFuel → no_own_fault e.
Proof. by destruct e as [| | | | | | | | | | | | | | | | | | | ]; intros ? [? ?]. Qed.

Lemma extract_tls_raises ct port : raises no_own_fault (extract_tls_info ct port).
Proof.
  intros w e w' Hx. apply no_fault_of; [by apply (tls_loop_raises _ _ _ _ _ _ _ Hx)|].
  apply (tls_loop_safe ct (S TLS_BUF) port [] w w' e); [change (length []) with 0; generalize TLS_BUF; lia | apply Nat.le_0_l | exact Hx].
Qed.
Lemma extract_http_raises ct port : raises no_own_fault (extract_http_info ct port).
Proof.
  intros w e w' Hx. apply no_fault_of; [by apply (http_loop_raises _ _ _ _ _ _ _ Hx)|].
  apply (http_loop_safe ct (S HTTP_BUF) port [] w w' e); [change (length []) with 0; generalize HTTP_BUF; lia | apply Nat.le_0_l | exact Hx].
Qed.
Lemma extract_raises ct proto port : raises no_own_fault (extract ct proto port).
Proof.
  assert (raises no_own_fault ('(h, p, b) ← extract_http_info ct port; mret (h, p, b, [] : bytes))) as Hh.
  { apply raises_bind; [apply extract_http_raises|]. intros [[h p] b]. apply raises_mret. }
  unfold extract, extract_auto. case_decide; [apply extract_tls_raises|]. case_decide; [exact Hh|].
  apply raises_bind; [by apply raises_map_err|]. intros b. destruct (_ && _); [apply extract_tls_raises | exact Hh].
Qed.

Lemma raises_attempt {E A} (m : IO E A) : raises no_own_fault (attempt m).
Proof. intros w e w'. unfold attempt. by destruct (m w) as [[r w1]|]. Qed.

(** The loop over the candidates fails for want of one only when there is none. *)
Lemma connect_first_raises (sh : Shared) ct candidates host port last_err :
  candidates ≠ [] ∨ is_Some last_err → raises no_own_fault (connect_first sh ct candidates host port last_err).
Proof.
  revert last_err. induction candidates as [|[name proxy] candidates IH]; intros last_err Hne; cbn [connect_first].
  - destruct last_err as [[name e]|]; [by apply raises_throw | by destruct Hne as [|[? ?]]].
  - apply raises_bind; [apply raises_attempt|]. intros [[]|e]; [apply raises_mret|]. apply IH. right. by eexists.
Qed.

Context (sh : Shared) (ct : N).
Hypothesis routed : ∀ t i, ∃ l, connect_candidates (registry_at sh t) i = Ok l ∧ l ≠ [].

Lemma sraises_lift {A B} P (a : A) (k : A → SIO B) : sraises P (k a) → sraises P (io (lift (Ok a)) ≫= k).
Proof. intros Hk s w. apply Hk. Qed.

Lemma replay_raises peeked overflow : raises no_own_fault (replay peeked overflow).
Proof. unfold replay. apply raises_bind; [case_decide; raises_tac | intros _; case_decide; raises_tac]. Qed.

Lemma relay_raises i hostname host port peeked overflow :
  sraises no_own_fault (relay sh ct i hostname host port peeked overflow).
Proof.
  unfold relay. apply sraises_bind; [by apply sraises_io|]. intros t.
  destruct (routed t i) as (l & -> & Hl). apply sraises_lift.
  apply sraises_bind; [apply sraises_io, connect_first_raises; by left|]. intros _.
  apply sraises_bind; [done|]. intros _. apply sraises_bind; [done|]. intros _.
  apply sraises_bind; [apply sraises_io, replay_raises|]. intros _.
  apply sraises_bind; [intros s w e s' w'; unfold splice; by destruct (splice_result _)|]. intros [c2u u2c].
  apply sraises_bind; [done|]. intros _. apply sraises_bind; [by destruct (has_traffic sh)|]. done.
Qed.

Lemma handle_body_raises proto port : sraises no_own_fault (handle_body sh ct proto port).
Proof.
  unfold handle_body. apply sraises_bind; [done|]. intros l. cbv zeta. apply sraises_bind; [by apply sraises_io|]. intros t.
  destruct (negb _); [apply sraises_reject|]. apply sraises_bind; [apply sraises_io, extract_raises|].
  intros [[[hostname p] peeked] overflow]. apply sraises_bind; [done|]. intros _.
  apply sraises_bind; [|intros _].
  { intros s w e s' w'. unfold check_limits. destruct (limiter s) as [lim|]; [|done].
    destruct (check_connection _ _ _) as [[[]|reason] lim']; [done|]. apply sraises_reject. }
  unfold route. apply sraises_bind; [by apply sraises_io|]. intros t'.
  destruct (resolve_destination _ _ _ _) as [host dport mapped|]; [|apply sraises_reject].
  apply sraises_bind; [apply sraises_io|].
  { intros w e w'. unfold check_loop, mbind, io_bind, get_now. by destruct (_ && _). }
  intros [|]; [apply sraises_reject|]. apply sraises_bind; [done|]. intros _. apply relay_raises.
Qed.

Lemma handle_connection_raises peer proto port limiter w e s w' :
  handle_connection sh ct peer proto port limiter w = Some (Err e, s, w') → own_fault e = false.
Proof.
  unfold handle_connection.
  destruct (handle_body _ _ _ _ _ _) as [[[[[]|[|e']] s0] w0]|] eqn:Eb; [done | done | | done].
  cbn. intros [= <- _ _]. by eapply handle_body_raises.
Qed.

(** A client that the white list does not admit. *)
Lemma refused_by_acl peer proto port limiter w :
  is_allowed (acl_at sh (now w)) (client_ip_from_peer peer) = false →
  let l := set_client_ip_from_peer unknown_labels peer in
  handle_connection sh ct peer proto port limiter w
  = Some (Ok tt, {| labels := l; limiter := limiter; metrics := connection_rejected l §"acl_deny"; traffic := []; opened := false |}, w).
Proof.
  intros Ha. cbv zeta. unfold handle_connection, handle_body. unfold mbind, sio_bind, get_labels, io, get_now. cbn [now].
  cbn [labels start_session set_client_ip_from_peer client_ip]. by rewrite Ha.
Qed.
End connection.

(** * The relay that [main] starts *)

Section theorems.
Context `{Unicode} `{Yaml} `{RegexLib} `{HashOrder} `{Kernel} `{Host} `{Chrono} `{Sqlite} `{Argon2} `{YamlDoc} `{ErrorText}.

(** The routing table at any time, whatever the panel has answered. *)
Lemma relay_registry_wf `{RlimitOs} b cli w o st w' o' env sv events t :
  main b cli w o = Val (Some (Ok st, w', o')) → registry_wf (registry_at (relay_shared env st sv events) t).
Proof.
  intros (ready & limits & [_ Hr Ha _ _ _ Hp])%main_served. unfold relay_shared. cbn.
  destruct (st_panel st) as [p|]; [|done]. destruct Hp as [_ [= Er Ea _]].
  apply panel_at_wf; by rewrite ?Er, ?Ea.
Qed.

Lemma candidates_head r i : registry_wf r →
  ∃ l, connect_candidates r i = Ok l ∧ head l.*1 = Some (profile_name_for_ip r i).
Proof.
  intros Hr. destruct (profile_name_known r i Hr) as [proxy Hp]. unfold connect_candidates. cbv zeta. rewrite Hp.
  cbn [ok_or mbind result_bind]. destruct (negb (failover r)); by eexists.
Qed.

(** ** The white list in force *)

(** The rows of a request, and the requests that edit the list. *)
Definition whitelist_rows (b : WhitelistPayload) : list WhitelistEntry :=
  if decide (w_entries b = []) then ip_only <$> w_ips b else w_entries b.
Definition edits_whitelist (e : event) : bool :=
  match e with Answered _ _ r => changes_whitelist r | _ => false end.

Lemma put_whitelist_answered cookie b m s resp s' :
  handler cookie (PutWhitelist b) m s = (resp, s') → status resp = OK →
  ∃ u, acl_from_parts (whitelist_rows b) u = Ok (client_acl s').
Proof.
  cbn [handler]. unfold put_whitelist, authed. destruct (require_auth cookie m s); [|by intros [= <- <-]]. cbv zeta.
  change (if decide (w_entries b = []) then _ else _) with (whitelist_rows b).
  set (u := unwrap_or _ _). destruct (acl_from_parts (whitelist_rows b) u) as [acl|] eqn:E; [|by intros [= <- <-]].
  destruct (if ClientAcl.ufw_sync acl then _ else _) as [notes h]. destruct (persist _ _) as [msg s1].
  intros Heq _. exists u. rewrite E. f_equal. exact (f_equal (λ p, client_acl p.2) Heq).
Qed.

Lemma steps_keep_acl s es :
  Forall (λ e, edits_whitelist e = false) es → client_acl (foldl PanelAuth.step s es) = client_acl s.
Proof.
  revert s. induction es as [|e es IH]; intros s; [done|]. intros [He Hes]%Forall_cons. cbn [foldl]. rewrite (IH _ Hes).
  destruct (step_shared s e) as [_ [Ha|Ha] _ _ _]; [|exact Ha]. destruct e as [m c r|t|t l]; cbn in He; congruence.
Qed.

Lemma panel_at_split p0 before t0 e after t :
  Forall (λ e, e.1 ≤ t0)%N before → (t0 ≤ t)%N →
  panel_at p0 (before ++ (t0, e) :: after) t
  = foldl PanelAuth.step (PanelAuth.step (panel_at p0 before t0) e) (filter (λ e, (e.1 ≤ t)%N) after).*2.
Proof.
  intros Hb Ht. unfold panel_at.
  assert (∀ t', (t0 ≤ t')%N → filter (λ e, (e.1 ≤ t')%N) before = before) as Hall.
  { intros t' Ht'. clear -Hb Ht'. induction Hb as [|x l Hx Hl IH]; [done|]. rewrite filter_cons, decide_True by lia. by rewrite IH. }
  rewrite filter_app, filter_cons, decide_True by done. rewrite !Hall by lia.
  rewrite fmap_app, fmap_cons, foldl_app. done.
Qed.

(** The list at a time after an answer, until it is edited again. *)
Lemma acl_in_force env st sv p0 before t0 m cookie b after resp s1 t :
  st_panel st = Some p0 → Forall (λ e, e.1 ≤ t0)%N before →
  handler cookie (PutWhitelist b) m (panel_at p0 before t0) = (resp, s1) → status resp = OK →
  (t0 ≤ t)%N → Forall (λ e, (e.1 ≤ t)%N → edits_whitelist e.2 = false) after →
  ∃ u, acl_from_parts (whitelist_rows b) u
    = Ok (acl_at (relay_shared env st sv (before ++ (t0, Answered m cookie (PutWhitelist b)) :: after)) t).
Proof.
  intros Hp Hb Hh Hok Ht Hafter. destruct (put_whitelist_answered _ _ _ _ _ _ Hh Hok) as [u Hu]. exists u. rewrite Hu. f_equal.
  unfold relay_shared. cbn [acl_at]. rewrite Hp, panel_at_split by done.
  rewrite steps_keep_acl.
  - cbn [PanelAuth.step]. by rewrite Hh.
  - apply list.Forall_forall. intros e (x & -> & [Hx Hin]%list_elem_of_filter)%list_elem_of_fmap.
    exact (proj1 (list.Forall_forall _ _) Hafter x Hin Hx).
Qed.
End theorems.

(** C6: A relay that has been started keeps serving: whatever requests its panel answers, and
    whatever the clients, the proxies and the other connections do, at any time every client
    address has its list of proxies, headed by the one of the profile it is routed to, and no
    connection ever fails by the relay's own fault: for want of a profile or a candidate, or
    by a panic of its task.  The errors that remain are of the client, of the network and of
    the proxies. *)
Theorem relay_keeps_serving `{Unicode} `{!UnicodeLaws} `{Yaml} `{RegexLib} `{HashOrder} `{Kernel} `{Host} `{Chrono} `{Sqlite}
    `{Argon2} `{YamlDoc} `{ErrorText} `{RlimitOs} (b : Boot) (cli : Cli) (w0 : World) (o : os) st w1 o1 env sv events :
  main b cli w0 o = Val (Some (Ok st, w1, o1)) →
  (∀ t client_ip, ∃ candidates,
     let reg := registry_at (relay_shared env st sv events) t in
     connect_candidates reg client_ip = Ok candidates
     ∧ head candidates.*1 = Some (profile_name_for_ip reg client_ip))
  ∧ ∀ task peer limiter w e s w',
      serve_client env st sv events task peer limiter w = Some (Err e, s, w') → own_fault e = false.
Proof.
  intros Hm. pose proof (λ t, relay_registry_wf b cli w0 o st w1 o1 env sv events t Hm) as Hwf.
  assert (∀ t i, ∃ l, connect_candidates (registry_at (relay_shared env st sv events) t) i = Ok l
    ∧ head l.*1 = Some (profile_name_for_ip (registry_at (relay_shared env st sv events) t) i)) as Hc.
  { intros t i. destruct (candidates_head _ i (Hwf t)) as (l & ? & ?). by exists l. }
  split; [exact Hc|]. intros task peer limiter w e s w'. apply handle_connection_raises.
  intros t i. destruct (Hc t i) as (l & Hl & Hh). exists l. split; [done|]. by intros ->.
Qed.

(** C7: The white list is in force from the moment the panel has answered.  After a request that
    replaces the list has been answered with success, and until the list is edited again, a
    client that connects is refused at once if its address is in no row of a list that is not
    empty: the relay reads nothing from it, sends it nothing, opens nothing for it and counts
    the refusal; a client whose address is in a row, however it is written there, passes. *)
Theorem whitelist_in_force `{Unicode} `{Yaml} `{RegexLib} `{HashOrder} `{Kernel} `{Host} `{Chrono} `{Sqlite} `{Argon2}
    `{YamlDoc} `{ErrorText} env st sv p0 before t0 m cookie b after resp s1 task (a : SocketAddr) limiter w :
  st_panel st = Some p0 → Forall (λ e, e.1 ≤ t0)%N before →
  handler cookie (PutWhitelist b) m (panel_at p0 before t0) = (resp, s1) → status resp = OK →
  (t0 ≤ now w)%N → Forall (λ e, (e.1 ≤ now w)%N → edits_whitelist e.2 = false) after → sa_wf a →
  let events := before ++ (t0, Answered m cookie (PutWhitelist b)) :: after in
  let listed := whitelist_rows b = [] ∨ ∃ row, row ∈ whitelist_rows b ∧ parse_ip (trim (ip row)) = Some (sa_ip a) in
  let peer := show_socket_addr a in
  let l := set_client_ip_from_peer unknown_labels peer in
  (is_allowed (acl_at (relay_shared env st sv events) (now w)) (show_ip (sa_ip a)) = true ↔ listed)
  ∧ (¬ listed → serve_client env st sv events task peer limiter w
       = Some (Ok tt, {| labels := l; limiter := limiter; metrics := connection_rejected l §"acl_deny";
                         traffic := []; opened := false |}, w)).
Proof.
  intros Hp Hb Hh Hok Ht Hafter Ha. cbv zeta.
  destruct (acl_in_force env st sv p0 before t0 m cookie b after resp s1 (now w) Hp Hb Hh Hok Ht Hafter) as [u Hu].
  set (events := before ++ _) in *. set (acl := acl_at _ _) in *.
  assert (is_allowed acl (show_ip (sa_ip a)) = true ↔ whitelist_rows b = []
    ∨ ∃ row, row ∈ whitelist_rows b ∧ parse_ip (trim (ip row)) = Some (sa_ip a)) as Hiff.
  { rewrite (acl_from_parts_allows _ _ _ _ Hu). rewrite trim_graphic, parse_ip_show by (apply Ha || apply show_ip_graphic).
    split; (intros [?|Hrow]; [by left|right]).
    - destruct Hrow as (row & i & Hin & Hi & [= <-]). by exists row.
    - destruct Hrow as (row & Hin & Hi). by exists row, (sa_ip a). }
  split; [exact Hiff|]. intros Hn. apply refused_by_acl. fold acl.
  rewrite (proj1 (client_ip_label_exact a Ha)). apply not_true_iff_false. by rewrite Hiff.
Qed.
