(* ===== verification/RelayExamples.v ===== *)
(** The theorems of Relay on a small relay: a panel that replaces bob by alice on the white list. *)

From S2P Require Import Prelude RustStr TextLines Collections Net Hosts Config Sni SelfLoop Limits UpstreamRegistry ClientAcl Metrics DomainLimiter Files Ufw DnsmasqStore DnsmasqProofs PanelDb PanelDbProofs Panel PanelApi PanelAuth PanelShared PanelEdits PanelRestart PanelExamples Stream ProxyConnector ProxyProofs Splice Service ServiceProofs Listeners Main Startup Relay.

#[local] Existing Instances ascii_unicode ascii_unicode_laws example_yaml example_regex sorted_order open_kernel example_os example_os_laws example_chrono example_chrono_laws example_sqlite
  example_host example_argon2 example_errors example_doc.

(** The panel logs in, and replaces the list. *)
Definition the_login : event := Answered (moment example_time) None (Login §"secret").
Definition the_edit : event := Answered (moment example_time) (cookie_of §"aa") (PutWhitelist replace_bob).
Definition history : list (N * event) := [(1%N, the_login)] ++ (5%N, the_edit) :: [].

Definition example_started : Started := {|
  st_cfg := the_config; st_limits := {| soft_nofile := 1024; max_connections := 100 |}; st_ready := true;
  st_panel := Some example_panel; st_hosts := None; st_registry := from_config the_config; st_acl := acl_from_config the_config |}.
Definition example_service : SniProxyService := {|
  service_cfg := the_config; connection_slots := 100; domain_limiter := None;
  service_self_loop := {| local_ips := ∅; SelfLoop.listen_ports := ∅ |}; service_traffic := true |}.
Definition https : ListenerTask := {| task_addr := §"0.0.0.0:443"; task_proto := §"tls"; task_port := 443 |}.
Definition bob_address : SocketAddr := {| sa_ip := V4 10 0 0 1; sa_port := 51000; sa_scope := 0 |}.
Definition late : World := {| now := 9; upstream := idle; client := idle |}.

Lemma edit_accepted : status edited.1 = OK.
Proof. vm_compute. reflexivity. Qed.

Example whitelist_in_force_witness : ∃ s,
  serve_client example_shared example_started example_service history https (show_socket_addr bob_address) None late
  = Some (Ok tt, s, late)
  ∧ metrics s = connection_rejected (labels s) §"acl_deny".
Proof.
  assert (Forall (λ e : N * event, e.1 ≤ 5)%N [(1%N, the_login)]) as Hb by (repeat constructor; cbn; lia).
  assert (sa_wf bob_address) as Ha by done.
  assert (handler (cookie_of §"aa") (PutWhitelist replace_bob) (moment example_time) (panel_at example_panel [(1%N, the_login)] 5)
    = (edited.1, edited.2)) as He by (apply surjective_pairing).
  destruct (whitelist_in_force example_shared example_started example_service example_panel [(1%N, the_login)] 5
    (moment example_time) (cookie_of §"aa") replace_bob [] edited.1 edited.2 https bob_address None late
    eq_refl Hb He edit_accepted ltac:(cbn; lia) (Forall_nil_2 _) Ha) as [_ Hr].
  eexists. split; [apply Hr|done].
  intros [[=]|(row & Hrow & Hi)]. apply list_elem_of_singleton in Hrow as ->. by vm_compute in Hi.
Defined.

(** The relay of Startup, while its panel gets the same requests; the client hangs up. *)
Example relay_keeps_serving_witness : match panel_of booted with
  | Some (st, p) =>
      (∃ candidates, connect_candidates (registry_at (relay_shared example_shared st example_service history) 9) §"192.0.2.9" = Ok candidates)
      ∧ ∀ w e s w', serve_client example_shared st example_service history https §"192.0.2.9:50000" None w = Some (Err e, s, w') →
          own_fault e = false
  | None => False
  end.
Proof.
  destruct (panel_of_inv booted booted_panel) as (st & p & w & o & Hb & Hp & ->).
  destruct (relay_keeps_serving example_boot example_cli start_world example_process st w o example_shared example_service history Hb)
    as [Hc Hf].
  split; [|intros w1 e s w' Hx; exact (Hf https _ _ _ _ _ _ Hx)].
  destruct (Hc 9%N §"192.0.2.9") as (l & Hl & _). by exists l.
Defined.
